(* ===== verification/_CoqProject ===== *)
-Q . S2P
Prelude.v
GoStrings.v
Encoding.v
Json.v
JsonIndent.v
Utf8.v
Sha256.v
AesGcm.v
Crypto.v
Secure.v
Relay.v
RelayServer.v
RelayClient.v
Peer.v
SingleFlight.v
Session.v
PeerNode.v
RelayPath.v
Revoke.v
NodeId.v
Blocklist.v
Store.v
StoreDisk.v
Routing.v
DhtWire.v
Dht.v
Lookup.v
Walking.v
Coalesce.v
Name.v
ContentStore.v
Cluster.v
NameService.v
Files.v
Maintenance.v
Upkeep.v
Console.v
RateLimit.v
SiteStats.v
Registry.v
Registrar.v
Renewal.v
Gateway.v
NetworkStore.v
Gossip.v
Online.v
NetworkSite.v
Metrics.v
Daemon.v
AltCA.v
Dns.v
DnsServer.v
