(* ===== verification/Prelude.v ===== *)
(** * AltNet: a verification development

    AltNet is a peer-to-peer network in Go that hosts sites without servers: nodes
    keep content-addressed blobs in a Kademlia DHT, a registrar signs which name
    points to which site, and a gateway, a DNS resolver and a local certificate
    authority let an ordinary browser open https://some.alt.  This library models
    the packages under src/core and src/apps and the daemon of src/cli as executable
    Rocq functions and proves what makes them correct.

    ** The parts and how they interact

    - A node has an Ed25519 identity (core/crypto).  It talks to other nodes over
      encrypted connections (core/secure), direct or through a relay (core/relay);
      core/peer dials, accepts, signs and dispatches messages on them.
    - core/dht keeps a routing table and a local store, answers requests and runs
      iterative lookups; maintenance republishes and reconnects in the background,
      and a signed revocation removes a site from the whole network.
    - core/name publishes signed records for names into the DHT and resolves a name
      by a vote among the copies; apps/files cuts files into chunks and directories
      into manifests.
    - apps/registrar is the HTTP interface that owns names; apps/gateway serves
      sites to browsers; apps/dns answers for the captured top-level domains;
      apps/altca issues certificates for them; apps/sitestats counts requests;
      apps/metrics serves the node's counters.
    - cli/main.go starts all of it in one process according to its flags, offers a
      console, and stops it again.

    ** The files

    Foundations, the part of Go's standard library the program uses:
    - Prelude: results, panics ([outcome]), bytes, 64-bit integers, shared lemmas;
    - GoStrings (strings, sort), Encoding (hex, base64, binary), Json and JsonIndent
      (encoding/json), Utf8 (what the decoder returns is valid UTF-8), Sha256,
      AesGcm (HMAC and AES-GCM).

    Core:
    - Crypto: core/crypto/identity.go, signing.go;
    - Secure: core/secure/secure.go ([Handshake], [Read], [Write], [hkdf]);
    - Relay: core/relay/protocol.go, server.go, client.go; the server is the step
      function [exec] over events, each a critical section or channel operation;
      RelayServer: the server behind its listener, and its [Stop]; RelayClient: [Run],
      [Stop] and the tunnel channel of the client;
    - Peer: core/peer/peer.go, in [Wire] (messages), [Addresses] and [Conns] (the
      tables of connections); SingleFlight: the coalescing of concurrent calls as
      one step relation; Session: messages over the secure channel and
      [EnsureConnected], an instance of SingleFlight; PeerNode: the [Peer] struct, its
      listener, relay clients and connections in the making, from [New] to [Stop];
      RelayPath: peer, relay client and relay server together;
    - NodeId, Routing, Blocklist, Store: core/dht/id.go, routing.go, blocklist.go,
      store.go; StoreDisk: the files of store.go, written outside the mutex; Revoke:
      revoke.go without node state;
    - DhtWire (payloads), Dht (all message handlers and the revocation), Lookup
      (requests, walks, get and put), Walking (get and lookup among the other goroutines),
      Coalesce ([get] with concurrent callers):
      core/dht/dht.go; Cluster: several nodes in one network; NetworkStore: a sequence
      of operations on such a network; Gossip: a revocation spreading through it;
      Maintenance (a pass of each loop) and Upkeep (the goroutines and [Stop]):
      maintenance.go;
    - Name: core/name/name.go.

    Applications:
    - ContentStore and NameService: the interfaces (classes with their laws) between
      the node and the applications, each with a single node and a node of a network
      (NetworkStore) as instances.  What a reader needs ([ReadLaws]) is apart from what
      a publisher needs ([ContentStoreLaws], and [PublishLaws] of Files, where reader and
      publisher may be different nodes);
    - Files: apps/files; Registry, Registrar and Renewal (the background loop):
      apps/registrar; Gateway: apps/gateway; Online: registrar and gateway on one node;
      NetworkSite: publisher and registrar on one node, gateway on another;
      RateLimit: both rate limiters; SiteStats: apps/sitestats; Metrics: apps/metrics;
      AltCA: apps/altca; Dns and DnsServer (the socket and its goroutines): apps/dns.
    - Console (the command loop) and Daemon (flags, start-up, shutdown): cli/main.go.

    A struct is a record, a map a finite map, an error a value of an inductive type
    with the source's cases, and an operation one function from state to result and
    state.  Code under a mutex is atomic; where the code releases the mutex or waits
    in between (evicting the head of a bucket, the files of the store, the relay's
    handlers, coalesced calls, the registrar's background pass), or several goroutines
    work (maintenance, a relay client, the set-up of connections, [Stop] of a peer), the
    parts are separate steps and interleave freely.  The clock, random bytes, the order
    in which a map is ranged over or goroutines finish, the answers of the network and
    the outcomes of the disk are arguments, and the theorems hold for all of them.

    ** What the theorems show

    - Transport: the encrypted channel refines a byte queue
      ([Secure.Pipe.channel_refines_pipe]); both ends of a handshake agree on keys and
      identities, and a finished handshake rests on a verified signature
      ([handshake_agreement], [handshake_authenticated]); what is accepted is a prefix
      of what was sealed, whatever arrives ([frames_authentic]); the key derivation is
      RFC 5869 ([hkdf_is_rfc5869]); messages sent after a handshake are dispatched in
      order ([Session.session_delivers]), a dispatched message is signed by the peer
      of the connection ([Peer.Wire.dispatched_authentic]), reading from a connection is
      reading from a stream ([readLoop_on_connection]); the relay connects the right
      ends and a tunnel carries every byte ([relay_pairs], [dial_connects],
      [tunnel_transparent]), a registering client is registered ([relay_registers]) and
      a peer behind a relay can be reached at the address it advertises
      ([relay_path_connects], [advertised_reaches]); a client that is stopped ends
      ([relay_client_stops], [relay_client_run_ends]) and a peer that has stopped takes
      no more connections from its listener ([stopped_peer_stays_closed]); concurrent
      calls share one dial and one lookup ([dials_coalesced], [gets_coalesced]).
    - DHT: the invariants of table and store ([routing_table_invariant],
      [store_accounting]), the closest contacts ([Closest_spec]), lookups end, converge,
      find what is stored and return only what hashes to the key ([lookup_converges],
      [get_finds], [get_verified]), the last also while the rest of the program goes on
      ([get_among_others], [lookup_among_others]), handlers never panic but on the node's own ID
      ([handlers_total]), revocations are applied and not replayed
      ([revoke_applied], [revoke_never_replayed]), flood the network and come to rest
      ([revocation_floods], [flood_ends]); the directory follows the store while the
      operations on a key do not overlap ([disk_follows_memory]); what one node of a
      network stores another finds ([network_put_get]); maintenance keeps the node well formed and its
      values, and ends when it is stopped ([upkeep_safe], [upkeep_keeps_values]).
    - Names and content: publishing then resolving ([publish_then_resolve]), the vote
      ([vote_picks_freshest]), round trips and integrity of files and directories
      ([publish_fetch_roundtrip], [directory_roundtrip], [fetch_integrity],
      [fetch_dir_contained]), also from one node of a network to another
      ([network_directory]).
    - Applications: the registrar refines a map from names to owners under every
      interleaving, survives a restart, changes nothing without the token, and revokes
      everything of a site ([registry_refines_ownership], [registry_invariant],
      [registry_survives_restart], [token_required], [revoke_covers_site]); the gateway
      answers with the published bytes within its limits ([gateway_serves_site],
      [gateway_concurrency_bounded], [rate_limited]); the statistics refine the log of
      requests ([stats_refine_log]); the authority certifies only names under .alt
      ([ca_issues_alt_only]); a captured query gets one A record
      ([captured_a_answer]) and every reply is the right one and goes to who asked
      ([resolver_answers_askers]); the metrics are those of the node ([metrics_truthful]).
    - Together: a site is online once its registration is answered
      ([registered_site_online]), on the other nodes of the network too
      ([site_online_everywhere]), and a renewed name outlives six missed passes
      ([renewed_name_lasts]); the daemon starts and stops its services in order
      ([main_starts_and_stops]), an exported identity can be moved
      ([identity_moves]), and what is typed into its console is stored and found again
      ([daemon_put_get]).

    ** Interfaces that are assumed

    [Ed25519], [X25519] and [X509] are classes that state documented behaviour of Go's
    libraries (sizes; signatures made with a key verify under it; both sides of a key
    agreement compute the same secret; a certificate made from one of the program's two
    templates parses to that template with its times cut to whole seconds, keys and PEM
    blocks parse to what was written); [GoUnicode] is the
    lower-casing of text that is not ASCII, without laws.  Each has a concrete instance
    that the witnesses use.  SHA-256, HMAC and AES-GCM are computed.  No
    theorem assumes that a hash has no collision or a signature cannot be forged: they
    say which bytes verify.

    ** Fuel

    Loops that are not structural take fuel that is shown, or is by definition, enough: the
    JSON parser two units per byte and two more; a walk [max_rounds], since
    every round but the last asks a contact of the table that was not asked before and
    the table holds at most 256 buckets of 20; cutting a file into
    chunks one unit per byte, since every chunk takes one; copying [n] bytes and reading
    [n] bytes in full [n] units, since every read that succeeds gives a byte; accepting
    frames one per incoming byte.

    ** Simplifications

    - Rate limiters count tokens exactly where the source rounds to a float64.
    - In Lookup a walk runs alone: nothing else changes the table in the meantime;
      Walking has its steps interleave with the rest of the program.  In Cluster and
      NetworkStore an operation runs to its end before the next one begins, and the
      requests of a walk reach the other nodes one after the other.  In Gossip, where
      messages interleave, the handling of one message is a step.
    - Store runs the file operations of [put] and [Delete] at once; StoreDisk takes them
      apart.
    - A request to the registrar is one step, also where its handler works on the node
      before it takes the lock, as [handleRevoke] does when it collects the hashes.
    - The host is a Unix one (path separators).
    - Error texts are values; only their cases are distinguished.
    - Gateway and registrar requests carry no percent-escapes, the gateway's no
      conditional headers and at most one range.

    ** Not modelled

    - Sockets, HTTP servers and timers themselves: what they do to the program is an
      argument (bytes that arrive, outcomes of writes, the clock) or a step.  That the
      HTTP servers run is an entry in the trace of [Daemon.main]; the handlers behind
      them are modelled.
    - The flag parser, signals, log output, the help text of the console and the
      landing page of the gateway.
    - Random serial numbers of certificates (an argument), trivial accessors and
      constructors that only pass defaults on. *)

From stdpp Require Export base list gmap strings pretty sorting.
From Stdlib Require Export Strings.Byte ZArith.

#[global] Open Scope Z_scope.
#[global] Set Default Goal Selector "!".

(** ** Bytes

    A Go [byte] is [Byte.byte] (exactly 256 values); a Go [string] and a Go
    [[]byte] are both byte sequences, [bytes].  The conversions
    [string(b)] and [[]byte(s)] of the source are therefore the identity. *)

Abbreviation byte := Byte.byte.
Abbreviation bytes := (list Byte.byte).

(** String literals of the source. *)
Definition bs (s : string) : bytes := String.list_byte_of_string s.

#[global] Instance byte_eq_decision : EqDecision byte := Byte.byte_eq_dec.

#[global] Program Instance byte_countable : Countable byte :=
  inj_countable Byte.to_N Byte.of_N _.
Next Obligation. intros x. apply Byte.of_to_N. Qed.

#[global] Instance byte_inhabited : Inhabited byte := populate Byte.x00.

(** The unsigned value of a byte and the wrap-around conversion back. *)
Definition u8 (b : byte) : Z := Z.of_N (Byte.to_N b).

Definition of_u8 (z : Z) : byte :=
  default Byte.x00 (Byte.of_N (Z.to_N (z mod 256))).

Lemma u8_range (b : byte) : 0 <= u8 b < 256.
Proof. unfold u8. pose proof (Byte.to_N_bounded b). lia. Qed.

Lemma of_u8_u8 (b : byte) : of_u8 (u8 b) = b.
Proof.
  unfold of_u8. rewrite Z.mod_small by apply u8_range.
  unfold u8. by rewrite N2Z.id, Byte.of_to_N.
Qed.

Lemma u8_of_u8 (z : Z) : u8 (of_u8 z) = z mod 256.
Proof.
  unfold of_u8, u8. pose proof (Z.mod_pos_bound z 256 ltac:(lia)).
  pose proof (Byte.to_of_N_option_map (Z.to_N (z mod 256))) as Hm.
  destruct (Byte.of_N _) as [b|] eqn:E; simpl in *.
  - apply Byte.to_of_N in E. rewrite E. lia.
  - destruct (N.leb_spec (Z.to_N (z mod 256)) 255); [done|lia].
Qed.

Lemma u8_inj (a b : byte) : u8 a = u8 b -> a = b.
Proof. intros H. by rewrite <- (of_u8_u8 a), H, of_u8_u8. Qed.

#[global] Instance u8_Inj : Inj (=) (=) u8.
Proof. intros a b. apply u8_inj. Qed.

(** ** Go results

    A Go function that returns [(T, error)] is a [result E T], with [E] the
    component's own type of errors; a Go function that can panic (an index out
    of range, a negative [make]) returns an [outcome T]. *)

Inductive result (E A : Type) : Type :=
| Ok (a : A)
| Err (e : E).
Arguments Ok {E A} a.
Arguments Err {E A} e.

Inductive outcome (A : Type) : Type :=
| Ret (a : A)
| Panic.
Arguments Ret {A} a.
Arguments Panic {A}.

#[global] Instance result_eq_decision `{EqDecision E, EqDecision A} :
  EqDecision (result E A).
Proof. solve_decision. Defined.

#[global] Instance outcome_eq_decision `{EqDecision A} : EqDecision (outcome A).
Proof. solve_decision. Defined.

Definition is_ok {E A} (r : result E A) : bool :=
  match r with Ok _ => true | Err _ => false end.

Definition to_option {E A} (r : result E A) : option A :=
  match r with Ok a => Some a | Err _ => None end.

Declare Scope go_scope.
Delimit Scope go_scope with go.

(** [let? x := e1 in e2] is Go's
    [x, err := e1; if err != nil { return err }; e2]. *)
Notation "'let?' x := c1 'in' c2" :=
  (match c1 with Ok x => c2 | Err e => Err e end)
  (at level 10, x name, c1 at level 100, c2 at level 200) : go_scope.
#[global] Open Scope go_scope.

(** ** Machine integers *)

(** The wrap-around of a signed 64-bit addition. *)
Definition int64 (z : Z) : Z := (z + 2 ^ 63) mod 2 ^ 64 - 2 ^ 63.

Definition in_int64 (z : Z) : Prop := - 2 ^ 63 <= z < 2 ^ 63.

Lemma int64_id (z : Z) : in_int64 z -> int64 z = z.
Proof. unfold in_int64, int64. intros H. rewrite Z.mod_small; lia. Qed.

Lemma int64_range (z : Z) : in_int64 (int64 z).
Proof.
  unfold in_int64, int64. pose proof (Z.mod_pos_bound (z + 2 ^ 63) (2 ^ 64)). lia.
Qed.

(** ** Time

    A [time.Time] is a number of nanoseconds since the zero value of the type,
    so [time.Time{}] is [0]; each reading of the clock is an argument of the
    modelled operation. *)
Abbreviation Time := Z (only parsing).
Definition Second : Z := 1000000000.
Definition Minute : Z := 60 * Second.
Definition Hour : Z := 60 * Minute.

(** ** Tactics and hints *)

Create HintDb altnet.

(** Split every [match] or [if] on a variable-free scrutinee in the goal. *)
Ltac cases := repeat (case_match; simplify_eq/=; try done).

(** Split every [if]/[match] in a hypothesis until it is an equation. *)
Ltac cases_in H :=
  repeat match type of H with
  | context [match ?x with _ => _ end] =>
      let E := fresh "E" in destruct x eqn:E; simplify_eq/=; try done
  end.

(** Turn boolean comparisons of [Z] and [nat] into propositions. *)
Ltac zbool :=
  repeat match goal with
  | H : (_ <? _)%Z = true |- _ => apply Z.ltb_lt in H
  | H : (_ <? _)%Z = false |- _ => apply Z.ltb_ge in H
  | H : (_ <=? _)%Z = true |- _ => apply Z.leb_le in H
  | H : (_ <=? _)%Z = false |- _ => apply Z.leb_gt in H
  | H : (_ =? _)%Z = true |- _ => apply Z.eqb_eq in H
  | H : (_ =? _)%Z = false |- _ => apply Z.eqb_neq in H
  | H : (_ <? _)%nat = true |- _ => apply Nat.ltb_lt in H
  | H : (_ <? _)%nat = false |- _ => apply Nat.ltb_ge in H
  | H : (_ <=? _)%nat = true |- _ => apply Nat.leb_le in H
  | H : (_ <=? _)%nat = false |- _ => apply Nat.leb_gt in H
  | H : (_ =? _)%nat = true |- _ => apply Nat.eqb_eq in H
  | H : (_ =? _)%nat = false |- _ => apply Nat.eqb_neq in H
  | H : (_ && _) = true |- _ => apply andb_true_iff in H as [? ?]
  | H : (_ || _) = false |- _ => apply orb_false_iff in H as [? ?]
  | H : bool_decide _ = true |- _ => apply bool_decide_eq_true in H
  | H : bool_decide _ = false |- _ => apply bool_decide_eq_false in H
  | H : negb _ = true |- _ => apply negb_true_iff in H
  | H : negb _ = false |- _ => apply negb_false_iff in H
  end.
