(* ===== verification/GoStrings.v ===== *)
(** * The part of Go's [strings] and [sort] packages the program uses

    Go strings are byte sequences.  The functions below follow the Go library
    on every byte sequence, with one exception: lower-casing text that is not
    ASCII goes through Unicode tables, which are a parameter
    ([unicode_ToLower]).  [TrimSpace] is exact, the multi-byte UTF-8 spaces
    included. *)

From S2P Require Import Prelude.

(** ** Case folding *)

Class GoUnicode := { unicode_ToLower : bytes -> bytes }.

Definition is_ascii (b : byte) : bool := u8 b <? 128.

Definition lower_byte (b : byte) : byte :=
  if (65 <=? u8 b) && (u8 b <=? 90) then of_u8 (u8 b + 32) else b.

(** An instance without tables, for evaluating the definitions on ASCII text: any
    other byte becomes a question mark. *)
#[global] Instance ascii_Unicode : GoUnicode := {|
  unicode_ToLower s := map (fun b => if is_ascii b then lower_byte b else Byte.x3f) s
|}.

Definition ToLower `{GoUnicode} (s : bytes) : bytes :=
  if forallb is_ascii s then map lower_byte s else unicode_ToLower s.

(** ** Trimming *)

Definition ascii_space (b : byte) : bool :=
  ((9 <=? u8 b) && (u8 b <=? 13)) || (u8 b =? 32).

(** The two- and three-byte UTF-8 encodings of the runes for which
    [unicode.IsSpace] holds. *)
Definition space2 (a b : byte) : bool :=
  (u8 a =? 0xC2) && ((u8 b =? 0x85) || (u8 b =? 0xA0)).

Definition space3 (a b c : byte) : bool :=
  ((u8 a =? 0xE1) && (u8 b =? 0x9A) && (u8 c =? 0x80))
  || ((u8 a =? 0xE2) && (u8 b =? 0x80)
      && (((0x80 <=? u8 c) && (u8 c <=? 0x8A))
          || (u8 c =? 0xA8) || (u8 c =? 0xA9) || (u8 c =? 0xAF)))
  || ((u8 a =? 0xE2) && (u8 b =? 0x81) && (u8 c =? 0x9F))
  || ((u8 a =? 0xE3) && (u8 b =? 0x80) && (u8 c =? 0x80)).

Fixpoint trim_left (s : bytes) : bytes :=
  match s with
  | [] => []
  | a :: s1 =>
      if ascii_space a then trim_left s1 else
      match s1 with
      | [] => s
      | b :: s2 =>
          if space2 a b then trim_left s2 else
          match s2 with
          | [] => s
          | c :: s3 => if space3 a b c then trim_left s3 else s
          end
      end
  end.

(** The same on a reversed string, so the encodings are read backwards. *)
Fixpoint trim_left_rev (s : bytes) : bytes :=
  match s with
  | [] => []
  | a :: s1 =>
      if ascii_space a then trim_left_rev s1 else
      match s1 with
      | [] => s
      | b :: s2 =>
          if space2 b a then trim_left_rev s2 else
          match s2 with
          | [] => s
          | c :: s3 => if space3 c b a then trim_left_rev s3 else s
          end
      end
  end.

Definition trim_right (s : bytes) : bytes := rev (trim_left_rev (rev s)).

Definition TrimSpace (s : bytes) : bytes := trim_right (trim_left s).

(** ** Prefixes, suffixes, searching *)

Definition HasPrefix (s p : bytes) : bool := bool_decide (take (length p) s = p).

Definition HasSuffix (s p : bytes) : bool :=
  (length p <=? length s)%nat && bool_decide (drop (length s - length p) s = p).

Definition TrimPrefix (s p : bytes) : bytes :=
  if HasPrefix s p then drop (length p) s else s.

Definition TrimSuffix (s p : bytes) : bytes :=
  if HasSuffix s p then take (length s - length p) s else s.

Fixpoint IndexByte (s : bytes) (c : byte) : option nat :=
  match s with
  | [] => None
  | b :: s' => if bool_decide (b = c) then Some O else S <$> IndexByte s' c
  end.

Definition LastIndexByte (s : bytes) (c : byte) : option nat :=
  (fun i => (length s - 1 - i)%nat) <$> IndexByte (rev s) c.

Fixpoint Contains (s sub : bytes) : bool :=
  HasPrefix s sub
  || match s with [] => false | _ :: s' => Contains s' sub end.

(** [strings.Split] with a one-byte separator. *)
Fixpoint SplitByte (s : bytes) (c : byte) : list bytes :=
  match s with
  | [] => [[]]
  | b :: s' =>
      if bool_decide (b = c) then [] :: SplitByte s' c
      else match SplitByte s' c with
           | [] => [[b]]
           | p :: ps => (b :: p) :: ps
           end
  end.

Fixpoint Join (l : list bytes) (sep : bytes) : bytes :=
  match l with
  | [] => []
  | [s] => s
  | s :: l' => s ++ sep ++ Join l' sep
  end.

(** ** Byte-wise order and [sort.Strings] *)

Fixpoint bytes_leb (s t : bytes) : bool :=
  match s, t with
  | [], _ => true
  | _ :: _, [] => false
  | a :: s', b :: t' =>
      if u8 a <? u8 b then true
      else if u8 b <? u8 a then false else bytes_leb s' t'
  end.

Definition bytes_le (s t : bytes) : Prop := bytes_leb s t = true.

#[global] Instance bytes_le_dec : RelDecision bytes_le.
Proof. intros s t. unfold bytes_le. apply _. Defined.

Definition sort_Strings (l : list bytes) : list bytes := merge_sort bytes_le l.

(** * Facts *)

(** ** Trimming *)

(** One step of [trim_left]: nothing to strip, or one encoded space stripped. *)
Lemma trim_left_step s :
  trim_left s = s \/
  exists p t, p <> [] /\ s = p ++ t /\ trim_left s = trim_left t.
Proof.
  destruct s as [|a s1]; [by left|].
  destruct (ascii_space a) eqn:Ea.
  { right. exists [a], s1. split; [done|]. split; [done|]. simpl. by rewrite Ea. }
  destruct s1 as [|b s2]; [left; simpl; by rewrite Ea|].
  destruct (space2 a b) eqn:Eb.
  { right. exists [a; b], s2. split; [done|]. split; [done|]. simpl. by rewrite Ea, Eb. }
  destruct s2 as [|c s3]; [left; simpl; by rewrite Ea, Eb|].
  destruct (space3 a b c) eqn:Ec.
  - right. exists [a; b; c], s3. split; [done|]. split; [done|].
    simpl. by rewrite Ea, Eb, Ec.
  - left. simpl. by rewrite Ea, Eb, Ec.
Qed.

Lemma trim_left_rev_step s :
  trim_left_rev s = s \/
  exists p t, p <> [] /\ s = p ++ t /\ trim_left_rev s = trim_left_rev t.
Proof.
  destruct s as [|a s1]; [by left|].
  destruct (ascii_space a) eqn:Ea.
  { right. exists [a], s1. split; [done|]. split; [done|]. simpl. by rewrite Ea. }
  destruct s1 as [|b s2]; [left; simpl; by rewrite Ea|].
  destruct (space2 b a) eqn:Eb.
  { right. exists [a; b], s2. split; [done|]. split; [done|]. simpl. by rewrite Ea, Eb. }
  destruct s2 as [|c s3]; [left; simpl; by rewrite Ea, Eb|].
  destruct (space3 c b a) eqn:Ec.
  - right. exists [a; b; c], s3. split; [done|]. split; [done|].
    simpl. by rewrite Ea, Eb, Ec.
  - left. simpl. by rewrite Ea, Eb, Ec.
Qed.

(** A trimmer strips a prefix and leaves nothing to strip. *)
Lemma trimmer_spec (f : bytes -> bytes) :
  (forall s, f s = s \/ exists p t, p <> [] /\ s = p ++ t /\ f s = f t) ->
  forall s, f (f s) = f s /\ exists p, s = p ++ f s.
Proof.
  intros Hstep s. remember (length s) as n eqn:Hn. revert s Hn.
  induction (lt_wf n) as [n _ IH]. intros s ->.
  destruct (Hstep s) as [E|(p & t & Hp & E & Ef)].
  - rewrite !E. split; [done|]. by exists [].
  - destruct (IH (length t)) with t as [H1 [q Hq]]; [|done|].
    { rewrite E, length_app. destruct p; [done|simpl; lia]. }
    rewrite Ef. split; [done|]. exists (p ++ q). rewrite <- app_assoc, <- Hq. done.
Qed.

Lemma trim_left_idem s : trim_left (trim_left s) = trim_left s.
Proof. apply trimmer_spec, trim_left_step. Qed.

Lemma trim_right_idem s : trim_right (trim_right s) = trim_right s.
Proof.
  unfold trim_right. rewrite rev_involutive. f_equal.
  apply (trimmer_spec _ trim_left_rev_step).
Qed.

Lemma trim_right_prefix s : exists q, s = trim_right s ++ q.
Proof.
  destruct (trimmer_spec _ trim_left_rev_step (rev s)) as [_ [p Hp]].
  exists (rev p). unfold trim_right. rewrite <- rev_app_distr, <- Hp.
  by rewrite rev_involutive.
Qed.

(** Whether a string has no leading space to strip. *)
Definition lead_ok (s : bytes) : bool :=
  match s with
  | [] => true
  | a :: s1 =>
      negb (ascii_space a)
      && match s1 with
         | [] => true
         | b :: s2 =>
             negb (space2 a b)
             && match s2 with [] => true | c :: _ => negb (space3 a b c) end
         end
  end.

Lemma trim_left_length s : (length (trim_left s) <= length s)%nat.
Proof.
  destruct (trimmer_spec _ trim_left_step s) as [_ [p Hp]].
  rewrite Hp at 2. rewrite length_app. lia.
Qed.

Lemma trim_left_fix s : trim_left s = s <-> lead_ok s = true.
Proof.
  destruct s as [|a s1]; [done|]. simpl.
  destruct (ascii_space a); simpl.
  { split; [|done]. intros H. pose proof (trim_left_length s1).
    rewrite H in H0. simpl in H0. lia. }
  destruct s1 as [|b s2]; [done|]. destruct (space2 a b); simpl.
  { split; [|done]. intros H. pose proof (trim_left_length s2).
    rewrite H in H0. simpl in H0. lia. }
  destruct s2 as [|c s3]; [done|]. destruct (space3 a b c); simpl; [|done].
  split; [|done]. intros H. pose proof (trim_left_length s3).
  rewrite H in H0. simpl in H0. lia.
Qed.

Lemma lead_ok_prefix s q : lead_ok (s ++ q) = true -> lead_ok s = true.
Proof.
  destruct s as [|a [|b [|c s]]]; simpl; rewrite ?andb_true_iff; intuition.
Qed.

Lemma TrimSpace_idem s : TrimSpace (TrimSpace s) = TrimSpace s.
Proof.
  unfold TrimSpace.
  assert (trim_left (trim_right (trim_left s)) = trim_right (trim_left s)) as ->.
  - destruct (trim_right_prefix (trim_left s)) as [q Hq].
    apply trim_left_fix, (lead_ok_prefix _ q). rewrite <- Hq.
    apply trim_left_fix, trim_left_idem.
  - apply trim_right_idem.
Qed.

(** Bytes that are neither spaces nor part of a multi-byte encoding. *)
Definition plain (b : byte) : bool := is_ascii b && negb (ascii_space b).

Lemma lead_ok_plain a s : plain a = true -> lead_ok (a :: s) = true.
Proof.
  unfold plain, is_ascii. intros H. zbool. simpl.
  assert (ascii_space a = false) as -> by done.
  assert (forall b, space2 a b = false) as E2.
  { intros b. unfold space2. by destruct (Z.eqb_spec (u8 a) 0xC2); [lia|]. }
  assert (forall b c, space3 a b c = false) as E3.
  { intros b c. unfold space3.
    destruct (Z.eqb_spec (u8 a) 0xE1); [lia|]. destruct (Z.eqb_spec (u8 a) 0xE2); [lia|].
    by destruct (Z.eqb_spec (u8 a) 0xE3); [lia|]. }
  destruct s as [|b [|c s]]; simpl; by rewrite ?E2, ?E3.
Qed.

Lemma trim_left_rev_plain a s : plain a = true -> trim_left_rev (a :: s) = a :: s.
Proof.
  unfold plain, is_ascii. intros H. zbool. simpl.
  assert (ascii_space a = false) as -> by done.
  assert (forall b, space2 b a = false) as E2.
  { intros b. unfold space2. destruct (Z.eqb_spec (u8 a) 0x85); [lia|].
    destruct (Z.eqb_spec (u8 a) 0xA0); [lia|]. by rewrite andb_false_r. }
  assert (forall b c, space3 c b a = false) as E3.
  { intros b c. unfold space3. rewrite !(proj2 (Z.eqb_neq (u8 a) _)) by lia.
    rewrite (proj2 (Z.leb_gt 0x80 (u8 a))) by lia. by rewrite !andb_false_r. }
  destruct s as [|b [|c s]]; simpl; by rewrite ?E2, ?E3.
Qed.

Lemma TrimSpace_plain s : forallb plain s = true -> TrimSpace s = s.
Proof.
  intros H. unfold TrimSpace.
  assert (trim_left s = s) as ->.
  { destruct s as [|a s]; [done|]. apply trim_left_fix, lead_ok_plain.
    simpl in H. by zbool. }
  unfold trim_right. destruct (rev s) as [|a t] eqn:E.
  - apply (f_equal (@rev byte)) in E. by rewrite rev_involutive in E.
  - rewrite trim_left_rev_plain; [by rewrite <- E, rev_involutive|].
    rewrite forallb_forall in H. apply H. rewrite in_rev, E. by left.
Qed.

(** ** Case folding *)

Lemma lower_byte_idem b : lower_byte (lower_byte b) = lower_byte b.
Proof. by destruct b. Qed.

Lemma lower_byte_ascii b : is_ascii (lower_byte b) = is_ascii b.
Proof. by destruct b. Qed.

Lemma forallb_map_eq {A B} (f : A -> B) (p : B -> bool) (q : A -> bool) l :
  (forall x, p (f x) = q x) -> forallb p (map f l) = forallb q l.
Proof. intros H. induction l as [|x l IH]; simpl; [done|]. by rewrite H, IH. Qed.

Lemma ToLower_ascii `{GoUnicode} s :
  forallb is_ascii s = true -> ToLower s = map lower_byte s.
Proof. unfold ToLower. by intros ->. Qed.

Lemma ToLower_idem_ascii `{GoUnicode} s :
  forallb is_ascii s = true -> ToLower (ToLower s) = ToLower s.
Proof.
  intros Hs. rewrite (ToLower_ascii s Hs). rewrite ToLower_ascii.
  - rewrite map_map. apply map_ext, lower_byte_idem.
  - by rewrite (forallb_map_eq _ _ is_ascii) by apply lower_byte_ascii.
Qed.

(** Bytes left alone by folding. *)
Definition lower_plain (b : byte) : bool :=
  plain b && negb ((65 <=? u8 b) && (u8 b <=? 90)).

Lemma lower_plain_fix b : lower_plain b = true -> lower_byte b = b.
Proof. unfold lower_plain, lower_byte. intros H. zbool. by rewrite H0. Qed.

Lemma ToLower_lower_plain `{GoUnicode} s :
  forallb lower_plain s = true -> ToLower s = s.
Proof.
  intros Hs. rewrite ToLower_ascii.
  - rewrite <- map_id. apply map_ext_in. intros b Hb. apply lower_plain_fix.
    rewrite forallb_forall in Hs. auto.
  - rewrite forallb_forall in *. intros b Hb. specialize (Hs b Hb).
    unfold lower_plain, plain in Hs. by zbool.
Qed.

Lemma forallb_impl {A} (p q : A -> bool) l :
  (forall x, p x = true -> q x = true) -> forallb p l = true -> forallb q l = true.
Proof. rewrite !forallb_forall. eauto. Qed.

Lemma TrimSpace_lower_plain s : forallb lower_plain s = true -> TrimSpace s = s.
Proof.
  intros Hs. apply TrimSpace_plain. revert Hs. apply forallb_impl.
  unfold lower_plain. intros b Hb. by zbool.
Qed.

(** ** Prefixes and suffixes *)

Lemma HasPrefix_spec s p : HasPrefix s p = true <-> exists t, s = p ++ t.
Proof.
  unfold HasPrefix. rewrite bool_decide_eq_true. split.
  - intros H. exists (drop (length p) s). rewrite <- H at 1. by rewrite take_drop.
  - intros [t ->]. by rewrite take_app_length.
Qed.

Lemma HasSuffix_spec s p : HasSuffix s p = true <-> exists t, s = t ++ p.
Proof.
  unfold HasSuffix. rewrite andb_true_iff, bool_decide_eq_true, Nat.leb_le. split.
  - intros [_ H]. exists (take (length s - length p) s). rewrite <- H at 2.
    by rewrite take_drop.
  - intros [t ->]. rewrite length_app. split; [lia|].
    replace (length t + length p - length p)%nat with (length t) by lia.
    by rewrite drop_app_length.
Qed.

Lemma TrimPrefix_app p s : TrimPrefix (p ++ s) p = s.
Proof.
  unfold TrimPrefix. rewrite (proj2 (HasPrefix_spec _ _)) by eauto.
  by rewrite drop_app_length.
Qed.

Lemma TrimSuffix_app s p : TrimSuffix (s ++ p) p = s.
Proof.
  unfold TrimSuffix. rewrite (proj2 (HasSuffix_spec _ _)) by eauto.
  rewrite length_app. replace (length s + length p - length p)%nat with (length s) by lia.
  by rewrite take_app_length.
Qed.

Lemma TrimSuffix_none s p : HasSuffix s p = false -> TrimSuffix s p = s.
Proof. unfold TrimSuffix. by intros ->. Qed.

(** ** Splitting and joining *)

Lemma IndexByte_app s c r : c ∉ s -> IndexByte (s ++ c :: r) c = Some (length s).
Proof.
  induction s as [|b s IH]; intros Hc; simpl; [by rewrite bool_decide_eq_true_2|].
  apply not_elem_of_cons in Hc as [Hb Hs]. rewrite bool_decide_eq_false_2 by congruence.
  by rewrite IH.
Qed.

Lemma SplitByte_nonempty s c : SplitByte s c <> [].
Proof. destruct s; simpl; [done|]. by repeat case_match. Qed.

Lemma Join_SplitByte s c : Join (SplitByte s c) [c] = s.
Proof.
  induction s as [|b s IH]; simpl; [done|]. case_bool_decide as Hb.
  - subst. pose proof (SplitByte_nonempty s c). destruct (SplitByte s c) eqn:E; [done|].
    by rewrite <- IH.
  - pose proof (SplitByte_nonempty s c). destruct (SplitByte s c) as [|p [|q l]] eqn:E;
      [done|..]; simpl in *; by rewrite <- IH.
Qed.

Lemma SplitByte_plain s c : c ∉ s -> SplitByte s c = [s].
Proof.
  induction s as [|b s IH]; simpl; [done|]. rewrite not_elem_of_cons. intros [Hb Hs].
  by rewrite bool_decide_eq_false_2, IH by congruence.
Qed.

Lemma SplitByte_app s t c :
  c ∉ s -> SplitByte (s ++ c :: t) c = s :: SplitByte t c.
Proof.
  induction s as [|b s IH]; simpl; intros Hs.
  - by rewrite bool_decide_eq_true_2.
  - apply not_elem_of_cons in Hs as [Hb Hs].
    by rewrite bool_decide_eq_false_2, IH by congruence.
Qed.

Lemma SplitByte_Join l c :
  l <> [] -> Forall (fun s => c ∉ s) l -> SplitByte (Join l [c]) c = l.
Proof.
  intros Hl. induction 1 as [|s l Hs Hf IH]; [done|].
  destruct l as [|t l]; simpl; [by apply SplitByte_plain|].
  rewrite SplitByte_app by done. f_equal. by apply IH.
Qed.

Lemma SplitByte_no_sep s c : Forall (fun p => c ∉ p) (SplitByte s c).
Proof.
  induction s as [|b s IH]; simpl; [constructor; [set_solver|done]|].
  case_bool_decide as Hb; [constructor; [set_solver|done]|].
  destruct (SplitByte s c); [constructor; set_solver|].
  inversion IH; subst. constructor; [|done]. set_solver.
Qed.

(** ** The byte-wise order is total, so sorting is canonical *)

#[global] Instance bytes_le_reflexive : Reflexive bytes_le.
Proof.
  intros s. unfold bytes_le. induction s as [|a s IH]; simpl; [done|].
  by rewrite Z.ltb_irrefl.
Qed.

#[global] Instance bytes_le_transitive : Transitive bytes_le.
Proof.
  intros s t u. unfold bytes_le. revert t u.
  induction s as [|a s IH]; intros [|b t] [|c u]; simpl; try done.
  destruct (Z.ltb_spec (u8 a) (u8 b)), (Z.ltb_spec (u8 b) (u8 a)),
    (Z.ltb_spec (u8 b) (u8 c)), (Z.ltb_spec (u8 c) (u8 b)),
    (Z.ltb_spec (u8 a) (u8 c)), (Z.ltb_spec (u8 c) (u8 a)); try done; try lia.
  apply IH.
Qed.

#[global] Instance bytes_le_antisymm : AntiSymm (=) bytes_le.
Proof.
  intros s t. unfold bytes_le. revert t.
  induction s as [|a s IH]; intros [|b t]; simpl; try done.
  destruct (Z.ltb_spec (u8 a) (u8 b)), (Z.ltb_spec (u8 b) (u8 a)); try done; try lia.
  intros H1 H2. assert (u8 a = u8 b) as E%u8_inj by lia. subst. f_equal. by apply IH.
Qed.

#[global] Instance bytes_le_total : Total bytes_le.
Proof.
  intros s t. unfold bytes_le. revert t.
  induction s as [|a s IH]; intros [|b t]; simpl; [by left| by left| by right|].
  destruct (Z.ltb_spec (u8 a) (u8 b)), (Z.ltb_spec (u8 b) (u8 a)); auto.
Qed.

Lemma sort_Strings_perm l : sort_Strings l ≡ₚ l.
Proof. apply merge_sort_Permutation. Qed.

Lemma sort_Strings_sorted l : StronglySorted bytes_le (sort_Strings l).
Proof. apply StronglySorted_merge_sort; apply _. Qed.

Lemma sort_Strings_proper l1 l2 : l1 ≡ₚ l2 -> sort_Strings l1 = sort_Strings l2.
Proof.
  intros H. apply (StronglySorted_unique bytes_le); [apply sort_Strings_sorted..|].
  by rewrite !sort_Strings_perm.
Qed.

#[global] Instance sort_Strings_Proper : Proper ((≡ₚ) ==> (=)) sort_Strings.
Proof. intros l1 l2. apply sort_Strings_proper. Qed.
