(* ===== verification/Encoding.v ===== *)
(** * Encodings of Go's standard library the program relies on

    [encoding/hex], [encoding/base64] (standard alphabet, padded and raw) and
    [encoding/binary.BigEndian], with their round trips. *)

From S2P Require Import Prelude GoStrings.

(** ** Hexadecimal *)

Definition hex_digit (n : Z) : byte :=
  if n <? 10 then of_u8 (48 + n) else of_u8 (87 + n).

Definition from_hex_digit (b : byte) : option Z :=
  let c := u8 b in
  if (48 <=? c) && (c <=? 57) then Some (c - 48)
  else if (97 <=? c) && (c <=? 102) then Some (c - 87)
  else if (65 <=? c) && (c <=? 70) then Some (c - 55)
  else None.

(** [hex.EncodeToString]: lower-case digits. *)
Fixpoint hex_encode (l : bytes) : bytes :=
  match l with
  | [] => []
  | b :: l' => hex_digit (u8 b / 16) :: hex_digit (u8 b mod 16) :: hex_encode l'
  end.

(** [hex.DecodeString]: either case, an even number of digits. *)
Fixpoint hex_decode (s : bytes) : option bytes :=
  match s with
  | [] => Some []
  | [_] => None
  | a :: b :: s' =>
      match from_hex_digit a, from_hex_digit b, hex_decode s' with
      | Some x, Some y, Some l => Some (of_u8 (x * 16 + y) :: l)
      | _, _, _ => None
      end
  end.

Lemma from_hex_digit_spec b x :
  from_hex_digit b = Some x -> 0 <= x < 16 /\ lower_byte b = hex_digit x /\ is_ascii b = true.
Proof.
  unfold from_hex_digit, lower_byte, is_ascii, hex_digit. pose proof (u8_range b).
  intros Hb. cases_in Hb; simplify_eq; zbool;
    repeat match goal with |- context [(?a <? ?b)%Z] => destruct (Z.ltb_spec a b); try lia end;
    repeat match goal with |- context [(?a <=? ?b)%Z] => destruct (Z.leb_spec a b); try lia end;
    simpl; (split; [lia|]); (split; [|done]);
    rewrite <- (of_u8_u8 b); f_equal; rewrite ?of_u8_u8; lia.
Qed.

Lemma from_hex_digit_hex_digit x :
  0 <= x < 16 -> from_hex_digit (hex_digit x) = Some x.
Proof.
  intros Hx. unfold from_hex_digit, hex_digit.
  destruct (Z.ltb_spec x 10); rewrite u8_of_u8, Z.mod_small by lia;
    repeat match goal with |- context [(?a <=? ?b)%Z] => destruct (Z.leb_spec a b); try lia end;
    simpl; f_equal; lia.
Qed.

Lemma hex_decode_encode l : hex_decode (hex_encode l) = Some l.
Proof.
  induction l as [|b l IH]; simpl; [done|].
  pose proof (u8_range b).
  rewrite !from_hex_digit_hex_digit, IH by (Z.div_mod_to_equations; lia).
  do 2 f_equal. rewrite <- (of_u8_u8 b) at 3. f_equal. Z.div_mod_to_equations; lia.
Qed.

#[global] Instance hex_encode_inj : Inj (=) (=) hex_encode.
Proof. intros a b H. apply (f_equal hex_decode) in H. rewrite !hex_decode_encode in H. congruence. Qed.

Lemma hex_encode_length l : length (hex_encode l) = (2 * length l)%nat.
Proof. induction l; simpl; lia. Qed.

Lemma hex_digit_lower_plain x : 0 <= x < 16 -> lower_plain (hex_digit x) = true.
Proof.
  intros Hx. unfold lower_plain, plain, is_ascii, ascii_space, hex_digit.
  destruct (Z.ltb_spec x 10); rewrite u8_of_u8, Z.mod_small by lia;
    repeat match goal with |- context [(?a <? ?b)%Z] => destruct (Z.ltb_spec a b); try lia end;
    repeat match goal with |- context [(?a <=? ?b)%Z] => destruct (Z.leb_spec a b); try lia end;
    repeat match goal with |- context [(?a =? ?b)%Z] => destruct (Z.eqb_spec a b); try lia end;
    done.
Qed.

Lemma hex_encode_lower_plain l : forallb lower_plain (hex_encode l) = true.
Proof.
  induction l as [|b l IH]; simpl; [done|]. pose proof (u8_range b).
  by rewrite !hex_digit_lower_plain, IH by (Z.div_mod_to_equations; lia).
Qed.

Lemma pair_ind {A} (P : list A -> Prop) :
  P [] -> (forall a, P [a]) -> (forall a b l, P l -> P (a :: b :: l)) -> forall l, P l.
Proof.
  intros H0 H1 H2. fix IH 1. intros [|a [|b l]]; [done..|]. apply H2, IH.
Qed.

(** Decoding forgets the case of the digits and nothing else. *)
Lemma hex_decode_lower s l :
  hex_decode s = Some l ->
  map lower_byte s = hex_encode l /\ forallb is_ascii s = true.
Proof.
  revert l. induction s as [| |a b s IH] using pair_ind; intros l H; simpl in *.
  - by simplify_eq.
  - done.
  - destruct (from_hex_digit a) as [x|] eqn:Ea; [|done].
    destruct (from_hex_digit b) as [y|] eqn:Eb; [|done].
    destruct (hex_decode s) as [l'|]; [|done]. simplify_eq/=.
    apply from_hex_digit_spec in Ea as (? & -> & ->).
    apply from_hex_digit_spec in Eb as (? & -> & ->).
    destruct (IH l' eq_refl) as [-> ->]. rewrite u8_of_u8, Z.mod_small by lia.
    split; [|done]. do 2 f_equal; [|f_equal]; Z.div_mod_to_equations; lia.
Qed.

(** ** Base64, standard alphabet *)

Definition b64_alphabet : bytes :=
  bs "ABCDEFGHIJKLMNOPQRSTUVWXYZabcdefghijklmnopqrstuvwxyz0123456789+/".

Definition b64_char (n : Z) : byte := default Byte.x00 (b64_alphabet !! Z.to_nat n).

Definition b64_val (b : byte) : option Z :=
  let c := u8 b in
  if (65 <=? c) && (c <=? 90) then Some (c - 65)
  else if (97 <=? c) && (c <=? 122) then Some (c - 71)
  else if (48 <=? c) && (c <=? 57) then Some (c + 4)
  else if c =? 43 then Some 62
  else if c =? 47 then Some 63
  else None.

Definition b64_pad : byte := Byte.x3d.

(** [EncodeToString]; [padded] distinguishes [StdEncoding] from [RawStdEncoding]. *)
Fixpoint b64_encode (padded : bool) (l : bytes) : bytes :=
  match l with
  | [] => []
  | [a] =>
      b64_char (u8 a / 4) :: b64_char (u8 a mod 4 * 16)
        :: (if padded then [b64_pad; b64_pad] else [])
  | [a; b] =>
      b64_char (u8 a / 4) :: b64_char (u8 a mod 4 * 16 + u8 b / 16)
        :: b64_char (u8 b mod 16 * 4) :: (if padded then [b64_pad] else [])
  | a :: b :: c :: l' =>
      b64_char (u8 a / 4) :: b64_char (u8 a mod 4 * 16 + u8 b / 16)
        :: b64_char (u8 b mod 16 * 4 + u8 c / 64) :: b64_char (u8 c mod 64)
        :: b64_encode padded l'
  end.

Definition b64_bytes1 (w x : Z) : bytes := [of_u8 (w * 4 + x / 16)].
Definition b64_bytes2 (w x y : Z) : bytes :=
  [of_u8 (w * 4 + x / 16); of_u8 (x mod 16 * 16 + y / 4)].
Definition b64_bytes3 (w x y z : Z) : bytes :=
  [of_u8 (w * 4 + x / 16); of_u8 (x mod 16 * 16 + y / 4); of_u8 (y mod 4 * 64 + z)].

(** The decoder on text without line breaks: whole quanta, then at most one
    short quantum, padded exactly when the encoding is padded.  The unused low
    bits of a short quantum are ignored (the encodings are not [Strict]). *)
Fixpoint b64_quanta (padded : bool) (s : bytes) : option bytes :=
  match s with
  | [] => Some []
  | [p; q] =>
      if padded then None
      else match b64_val p, b64_val q with
           | Some w, Some x => Some (b64_bytes1 w x)
           | _, _ => None
           end
  | [p; q; r] =>
      if padded then None
      else match b64_val p, b64_val q, b64_val r with
           | Some w, Some x, Some y => Some (b64_bytes2 w x y)
           | _, _, _ => None
           end
  | p :: q :: r :: t :: s' =>
      match b64_val p, b64_val q with
      | Some w, Some x =>
          if padded && bool_decide (r = b64_pad) then
            if bool_decide (t = b64_pad) && bool_decide (s' = [])
            then Some (b64_bytes1 w x) else None
          else if padded && bool_decide (t = b64_pad) then
            match b64_val r, s' with
            | Some y, [] => Some (b64_bytes2 w x y)
            | _, _ => None
            end
          else
            match b64_val r, b64_val t, b64_quanta padded s' with
            | Some y, Some z, Some l => Some (b64_bytes3 w x y z ++ l)
            | _, _, _ => None
            end
      | _, _ => None
      end
  | _ => None
  end.

(** [DecodeString] skips carriage returns and line feeds anywhere. *)
Definition b64_decode (padded : bool) (s : bytes) : option bytes :=
  b64_quanta padded (List.filter (fun b => negb ((u8 b =? 10) || (u8 b =? 13))) s).

Lemma b64_char_range n :
  0 <= n < 64 ->
  b64_val (b64_char n) = Some n /\ b64_char n <> b64_pad
  /\ negb ((u8 (b64_char n) =? 10) || (u8 (b64_char n) =? 13)) = true.
Proof.
  intros Hn. rewrite <- (Z2Nat.id n) by lia.
  assert (Z.to_nat n < 64)%nat as Hlt by lia. revert Hlt. generalize (Z.to_nat n). clear.
  intros k Hk. do 64 (destruct k as [|k]; [by vm_compute|]). lia.
Qed.

Lemma triple_ind {A} (P : list A -> Prop) :
  P [] -> (forall a, P [a]) -> (forall a b, P [a; b]) ->
  (forall a b c l, P l -> P (a :: b :: c :: l)) -> forall l, P l.
Proof.
  intros H0 H1 H2 H3. fix IH 1. intros [|a [|b [|c l]]]; [done..|]. apply H3, IH.
Qed.

Lemma of_u8_eq (b : byte) z : z = u8 b -> of_u8 z = b.
Proof. intros ->. apply of_u8_u8. Qed.

(** The 6-bit regrouping of three bytes, and back. *)
Lemma b64_split a b c :
  0 <= a < 256 -> 0 <= b < 256 -> 0 <= c < 256 ->
  (0 <= a / 4 < 64 /\ 0 <= a mod 4 * 16 + b / 16 < 64
   /\ 0 <= b mod 16 * 4 + c / 64 < 64 /\ 0 <= c mod 64 < 64)
  /\ a / 4 * 4 + (a mod 4 * 16 + b / 16) / 16 = a
  /\ (a mod 4 * 16 + b / 16) mod 16 * 16 + (b mod 16 * 4 + c / 64) / 4 = b
  /\ (b mod 16 * 4 + c / 64) mod 4 * 64 + c mod 64 = c.
Proof. intros. Z.div_mod_to_equations. lia. Qed.

Lemma b64_split1 a :
  0 <= a < 256 -> 0 <= a mod 4 * 16 < 64 /\ a / 4 * 4 + a mod 4 * 16 / 16 = a.
Proof. intros. Z.div_mod_to_equations. lia. Qed.

Lemma b64_split2 a b :
  0 <= a < 256 -> 0 <= b < 256 ->
  0 <= b mod 16 * 4 < 64 /\
  (a mod 4 * 16 + b / 16) mod 16 * 16 + b mod 16 * 4 / 4 = b.
Proof. intros. Z.div_mod_to_equations. lia. Qed.

Lemma b64_val_char n : 0 <= n < 64 -> b64_val (b64_char n) = Some n.
Proof. apply b64_char_range. Qed.

Lemma b64_char_not_pad n : 0 <= n < 64 -> bool_decide (b64_char n = b64_pad) = false.
Proof. intros Hn. by apply bool_decide_eq_false_2, b64_char_range. Qed.

(** The quantum decoder undoes the encoder. *)
Lemma b64_quanta_encode padded l : b64_quanta padded (b64_encode padded l) = Some l.
Proof.
  induction l as [|a|a b|a b c l IH] using triple_ind; [done|..].
  - pose proof (u8_range a) as Ha. destruct (b64_split (u8 a) 0 0) as ((?&?&?&?)&_); [lia..|].
    destruct (b64_split1 (u8 a) Ha) as [? E].
    destruct padded; simpl; rewrite !b64_val_char by lia; unfold b64_bytes1; by rewrite E, of_u8_u8.
  - pose proof (u8_range a) as Ha. pose proof (u8_range b) as Hb.
    destruct (b64_split (u8 a) (u8 b) 0) as ((?&?&?&?)&E1&_); [lia..|].
    destruct (b64_split2 (u8 a) (u8 b) Ha Hb) as [? E2].
    destruct padded; simpl; rewrite !b64_val_char by lia; rewrite ?b64_char_not_pad by lia;
      unfold b64_bytes2; by rewrite E1, E2, !of_u8_u8.
  - destruct (b64_split (u8 a) (u8 b) (u8 c)) as ((?&?&?&?)&E1&E2&E3); [apply u8_range..|].
    simpl. rewrite !b64_val_char, !b64_char_not_pad, !andb_false_r, IH by lia.
    unfold b64_bytes3. by rewrite E1, E2, E3, !of_u8_u8.
Qed.

Definition not_eol (b : byte) : bool := negb ((u8 b =? 10) || (u8 b =? 13)).

Lemma b64_char_not_eol n : 0 <= n < 64 -> not_eol (b64_char n) = true.
Proof. apply b64_char_range. Qed.

(** A property of the alphabet and the padding holds of an encoding. *)
Lemma b64_encode_all (p : byte -> bool) padded l :
  (forall n, 0 <= n < 64 -> p (b64_char n) = true) -> p b64_pad = true ->
  forallb p (b64_encode padded l) = true.
Proof.
  intros Hp Hpad. induction l as [|a|a b|a b c l IH] using triple_ind; [done|..].
  - pose proof (u8_range a) as Ha. destruct (b64_split (u8 a) 0 0) as ((?&?&?&?)&_); [lia..|].
    destruct (b64_split1 (u8 a) Ha) as [? E].
    destruct padded; simpl; by rewrite !Hp, ?Hpad by lia.
  - pose proof (u8_range a) as Ha. pose proof (u8_range b) as Hb.
    destruct (b64_split (u8 a) (u8 b) 0) as ((?&?&?&?)&E1&_); [lia..|].
    destruct (b64_split2 (u8 a) (u8 b) Ha Hb) as [? E2].
    destruct padded; simpl; by rewrite !Hp, ?Hpad by lia.
  - destruct (b64_split (u8 a) (u8 b) (u8 c)) as ((?&?&?&?)&E1&E2&E3); [apply u8_range..|].
    simpl. by rewrite !Hp, IH by lia.
Qed.

Lemma b64_encode_no_eol padded l : forallb not_eol (b64_encode padded l) = true.
Proof. by apply b64_encode_all; [apply b64_char_not_eol|]. Qed.

Lemma filter_all {A} (p : A -> bool) l : forallb p l = true -> List.filter p l = l.
Proof.
  induction l as [|x l IH]; simpl; [done|]. intros [-> H]%andb_true_iff. by rewrite IH.
Qed.

Lemma b64_decode_encode padded l : b64_decode padded (b64_encode padded l) = Some l.
Proof.
  unfold b64_decode. rewrite (filter_all not_eol) by apply b64_encode_no_eol.
  apply b64_quanta_encode.
Qed.

(** ** Big-endian integers *)

(** [big.Int.SetBytes], and [BigEndian.Uint16/32/64] on 2, 4 and 8 bytes. *)
Fixpoint be_decode (l : bytes) : Z :=
  match l with
  | [] => 0
  | b :: l' => u8 b * 256 ^ Z.of_nat (length l') + be_decode l'
  end.

(** [BigEndian.PutUint16/32/64], and the byte image of a non-negative number. *)
Fixpoint be_encode (n : nat) (z : Z) : bytes :=
  match n with
  | O => []
  | S n' => of_u8 (z / 256 ^ Z.of_nat n') :: be_encode n' z
  end.

Lemma be_encode_length n z : length (be_encode n z) = n.
Proof. induction n; simpl; congruence. Qed.

Lemma be_decode_range l : 0 <= be_decode l < 256 ^ Z.of_nat (length l).
Proof.
  induction l as [|b l IH]; cbn [be_decode length]; [done|].
  pose proof (u8_range b). rewrite Nat2Z.inj_succ, Z.pow_succ_r by lia. nia.
Qed.

Lemma be_decode_encode n z : be_decode (be_encode n z) = z mod 256 ^ Z.of_nat n.
Proof.
  induction n as [|n IH]; cbn [be_decode be_encode].
  - by rewrite Z.pow_0_r, Z.mod_1_r.
  - rewrite IH, be_encode_length, u8_of_u8, Nat2Z.inj_succ, Z.pow_succ_r by lia.
    rewrite (Z.mul_comm 256), Z.rem_mul_r by lia. lia.
Qed.

Lemma of_u8_shift x y : of_u8 (x * 256 + y) = of_u8 y.
Proof. apply u8_inj. rewrite !u8_of_u8, Z.add_comm. apply Z.mod_add. lia. Qed.

(** Only the low [n] digits matter to [be_encode n]. *)
Lemma be_encode_high m n x y :
  (m <= n)%nat -> be_encode m (x * 256 ^ Z.of_nat n + y) = be_encode m y.
Proof.
  induction m as [|m IH]; intros Hm; cbn [be_encode]; [done|].
  rewrite IH by lia. f_equal.
  replace (Z.of_nat n) with ((Z.of_nat n - Z.of_nat m - 1) + 1 + Z.of_nat m) by lia.
  rewrite !Z.pow_add_r, Z.pow_1_r by lia.
  rewrite !Z.mul_assoc, Z.add_comm, Z.div_add, Z.add_comm by lia. apply of_u8_shift.
Qed.

Lemma be_encode_decode l : be_encode (length l) (be_decode l) = l.
Proof.
  induction l as [|b l IH]; cbn [be_decode be_encode length]; [done|].
  pose proof (be_decode_range l). rewrite be_encode_high, IH by lia. f_equal.
  rewrite Z.add_comm, Z.div_add, Z.div_small by lia. apply of_u8_u8.
Qed.

Lemma be_decode_inj l1 l2 :
  length l1 = length l2 -> be_decode l1 = be_decode l2 -> l1 = l2.
Proof. intros Hl H. by rewrite <- (be_encode_decode l1), Hl, H, be_encode_decode. Qed.
