(* ===== verification/Json.v ===== *)
(** * JSON (Go's encoding/json, as the program uses it)

    The text format of every message, record and manifest.  [print] is the
    compact output of [json.Marshal] with its HTML escaping and its treatment
    of invalid UTF-8; [parse] is the decoder's grammar, with its replacement of
    invalid UTF-8 and lone surrogates and its nesting limit.  The components
    describe their structs with the field decoders at the end.  A key that
    occurs twice in an object is decoded twice, the later occurrence winning. *)

From S2P Require Import Prelude GoStrings Encoding.
From Stdlib Require DecimalN DecimalFacts.

Inductive json :=
| JNull
| JBool (b : bool)
| JNum (lit : bytes)
| JStr (s : bytes)
| JArr (l : list json)
| JObj (l : list (bytes * json)).

(** ** UTF-8 *)

Definition in_range (lo hi : Z) (b : byte) : bool := (lo <=? u8 b) && (u8 b <=? hi).

(** Continuation bytes. *)
Definition cont (b : byte) : bool := in_range 0x80 0xBF b.

(** The bytes allowed after the first byte of a three- or four-byte form. *)
Definition second_ok (b1 b2 : byte) : bool :=
  let a := u8 b1 in
  if a =? 0xE0 then in_range 0xA0 0xBF b2
  else if a =? 0xED then in_range 0x80 0x9F b2
  else if a =? 0xF0 then in_range 0x90 0xBF b2
  else if a =? 0xF4 then in_range 0x80 0x8F b2
  else cont b2.

(** The width of the character at the head, [0] when it is not valid UTF-8. *)
Definition utf8_width (s : bytes) : nat :=
  match s with
  | [] => 0
  | b1 :: s1 =>
      if is_ascii b1 then 1 else
      match s1 with
      | [] => 0
      | b2 :: s2 =>
          if in_range 0xC2 0xDF b1 && cont b2 then 2 else
          match s2 with
          | [] => 0
          | b3 :: s3 =>
              if in_range 0xE0 0xEF b1 && second_ok b1 b2 && cont b3 then 3 else
              match s3 with
              | [] => 0
              | b4 :: _ =>
                  if in_range 0xF0 0xF4 b1 && second_ok b1 b2 && cont b3 && cont b4 then 4 else 0
              end
          end
      end
  end%nat.

Fixpoint utf8_valid_loop (fuel : nat) (s : bytes) : bool :=
  match fuel, s with
  | _, [] => true
  | O, _ => false
  | S f, _ =>
      match utf8_width s with
      | O => false
      | S w => utf8_valid_loop f (drop (S w) s)
      end
  end.

Definition utf8_valid (s : bytes) : bool := utf8_valid_loop (length s) s.

(** [utf8.EncodeRune] *)
Definition utf8_encode (r : Z) : bytes :=
  if r <? 0x80 then [of_u8 r]
  else if r <? 0x800 then [of_u8 (0xC0 + r / 64); of_u8 (0x80 + r mod 64)]
  else if r <? 0x10000 then
    [of_u8 (0xE0 + r / 4096); of_u8 (0x80 + r / 64 mod 64); of_u8 (0x80 + r mod 64)]
  else
    [of_u8 (0xF0 + r / 262144); of_u8 (0x80 + r / 4096 mod 64); of_u8 (0x80 + r / 64 mod 64);
     of_u8 (0x80 + r mod 64)].

Definition replacement : bytes := utf8_encode 0xFFFD.

(** ** Strings *)

Definition escape_u (b : byte) : bytes := bs "\u00" ++ hex_encode [b].

(** One ASCII byte of a string literal. *)
Definition escape_ascii (b : byte) : bytes :=
  match b with
  | Byte.x22 => bs "\" ++ [Byte.x22]
  | Byte.x5c => bs "\\"
  | Byte.x08 => bs "\b"
  | Byte.x0c => bs "\f"
  | Byte.x0a => bs "\n"
  | Byte.x0d => bs "\r"
  | Byte.x09 => bs "\t"
  | Byte.x3c | Byte.x3e | Byte.x26 => escape_u b
  | _ => if u8 b <? 0x20 then escape_u b else [b]
  end.

(** U+2028 and U+2029 *)
Definition line_separator (s : bytes) : option bytes :=
  match s with
  | Byte.xe2 :: Byte.x80 :: Byte.xa8 :: _ => Some (bs "\u2028")
  | Byte.xe2 :: Byte.x80 :: Byte.xa9 :: _ => Some (bs "\u2029")
  | _ => None
  end.

Fixpoint quote_loop (fuel : nat) (s : bytes) : bytes :=
  match fuel, s with
  | S f, b :: s' =>
      match utf8_width s with
      | O => bs "\ufffd" ++ quote_loop f s'
      | 1%nat => escape_ascii b ++ quote_loop f s'
      | w => match line_separator s with
             | Some e => e
             | None => take w s
             end ++ quote_loop f (drop w s)
      end
  | _, _ => []
  end.

Definition quote (s : bytes) : bytes := [Byte.x22] ++ quote_loop (length s) s ++ [Byte.x22].

(** [getu4] after the backslash and the [u]: the code unit. *)
Definition getu4 (s : bytes) : option (Z * bytes) :=
  match s with
  | a :: b :: c :: d :: t =>
      match from_hex_digit a, from_hex_digit b, from_hex_digit c, from_hex_digit d with
      | Some a, Some b, Some c, Some d => Some (((a * 16 + b) * 16 + c) * 16 + d, t)
      | _, _, _, _ => None
      end
  | _ => None
  end.

(** The low surrogate escape that completes [hi], if it comes next. *)
Definition low_surrogate (hi : Z) (s : bytes) : option (Z * bytes) :=
  if negb ((0xD800 <=? hi) && (hi <? 0xDC00)) then None else
  match s with
  | Byte.x5c :: Byte.x75 :: t =>
      match getu4 t with
      | Some (lo, t') =>
          if (0xDC00 <=? lo) && (lo <? 0xE000)
          then Some ((hi - 0xD800) * 1024 + (lo - 0xDC00) + 0x10000, t') else None
      | None => None
      end
  | _ => None
  end.

Definition is_surrogate (r : Z) : bool := (0xD800 <=? r) && (r <? 0xE000).

(** The escape after a backslash: the bytes it stands for. *)
Definition unescape (s : bytes) : option (bytes * bytes) :=
  match s with
  | Byte.x22 :: t => Some ([Byte.x22], t)
  | Byte.x5c :: t => Some ([Byte.x5c], t)
  | Byte.x2f :: t => Some ([Byte.x2f], t)
  | Byte.x62 :: t => Some ([Byte.x08], t)
  | Byte.x66 :: t => Some ([Byte.x0c], t)
  | Byte.x6e :: t => Some ([Byte.x0a], t)
  | Byte.x72 :: t => Some ([Byte.x0d], t)
  | Byte.x74 :: t => Some ([Byte.x09], t)
  | Byte.x75 :: t =>
      match getu4 t with
      | None => None
      | Some (r, t') =>
          if is_surrogate r then
            match low_surrogate r t' with
            | Some (r', t'') => Some (utf8_encode r', t'')
            | None => Some (replacement, t')
            end
          else Some (utf8_encode r, t')
      end
  | _ => None
  end.

(** A string literal after its opening quote, and what follows it. *)
Fixpoint parse_string (fuel : nat) (s : bytes) : option (bytes * bytes) :=
  match fuel, s with
  | S f, b :: s' =>
      if bool_decide (b = Byte.x22) then Some ([], s')
      else if bool_decide (b = Byte.x5c) then
        match unescape s' with
        | None => None
        | Some (c, t) =>
            match parse_string f t with Some (r, t') => Some (c ++ r, t') | None => None end
        end
      else if u8 b <? 0x20 then None
      else
        let '(c, t) := match utf8_width s with
                       | O => (replacement, s')
                       | w => (take w s, drop w s)
                       end in
        match parse_string f t with Some (r, t') => Some (c ++ r, t') | None => None end
  | _, _ => None
  end.

(** ** Numbers *)

Definition is_digit (b : byte) : bool := in_range 0x30 0x39 b.

Fixpoint span_digits (s : bytes) : bytes * bytes :=
  match s with
  | b :: s' => if is_digit b then let '(d, t) := span_digits s' in (b :: d, t) else ([], s)
  | [] => ([], [])
  end.

(** One or more digits. *)
Definition digits1 (s : bytes) : option (bytes * bytes) :=
  match span_digits s with ([], _) => None | p => Some p end.

Definition scan_int (s : bytes) : option (bytes * bytes) :=
  match s with
  | Byte.x30 :: t => Some ([Byte.x30], t)
  | _ => digits1 s
  end.

Definition scan_frac (s : bytes) : option (bytes * bytes) :=
  match s with
  | Byte.x2e :: t => match digits1 t with Some (d, u) => Some (Byte.x2e :: d, u) | None => None end
  | _ => Some ([], s)
  end.

Definition scan_exp (s : bytes) : option (bytes * bytes) :=
  match s with
  | (Byte.x65 | Byte.x45) as e :: t =>
      let '(sg, u) := match t with (Byte.x2b | Byte.x2d) as c :: u => ([c], u) | _ => ([], t) end in
      match digits1 u with Some (d, v) => Some (e :: sg ++ d, v) | None => None end
  | _ => Some ([], s)
  end.

Definition scan_number (s : bytes) : option (bytes * bytes) :=
  let '(sg, s1) := match s with Byte.x2d :: t => ([Byte.x2d], t) | _ => ([], s) end in
  match scan_int s1 with
  | None => None
  | Some (i, s2) =>
      match scan_frac s2 with
      | None => None
      | Some (f, s3) =>
          match scan_exp s3 with
          | None => None
          | Some (e, s4) => Some (sg ++ i ++ f ++ e, s4)
          end
      end
  end.

(** ** Values *)

Definition is_ws (b : byte) : bool :=
  match b with Byte.x20 | Byte.x09 | Byte.x0a | Byte.x0d => true | _ => false end.

Fixpoint skip_ws (s : bytes) : bytes :=
  match s with b :: s' => if is_ws b then skip_ws s' else s | [] => [] end.

Definition literal (s word : bytes) (v : json) : option (json * bytes) :=
  if HasPrefix s word then Some (v, drop (length word) s) else None.

(** What follows [c], when it comes next. *)
Definition after (c : byte) (s : bytes) : option bytes :=
  match s with
  | b :: t => if bool_decide (b = c) then Some t else None
  | [] => None
  end.

Fixpoint parse_value (fuel depth : nat) (s : bytes) {struct fuel} : option (json * bytes) :=
  match fuel with
  | O => None
  | S f =>
      let s := skip_ws s in
      match s with
      | Byte.x22 :: t =>
          match parse_string (length t) t with
          | Some (str, t') => Some (JStr str, t')
          | None => None
          end
      | Byte.x5b :: t =>
          match depth with
          | O => None
          | S d =>
              match after Byte.x5d (skip_ws t) with
              | Some t' => Some (JArr [], t')
              | None => match parse_elems f d t with
                        | Some (l, t') => Some (JArr l, t')
                        | None => None
                        end
              end
          end
      | Byte.x7b :: t =>
          match depth with
          | O => None
          | S d =>
              match after Byte.x7d (skip_ws t) with
              | Some t' => Some (JObj [], t')
              | None => match parse_members f d t with
                        | Some (l, t') => Some (JObj l, t')
                        | None => None
                        end
              end
          end
      | Byte.x74 :: _ => literal s (bs "true") (JBool true)
      | Byte.x66 :: _ => literal s (bs "false") (JBool false)
      | Byte.x6e :: _ => literal s (bs "null") JNull
      | _ => match scan_number s with Some (n, t) => Some (JNum n, t) | None => None end
      end
  end
with parse_elems (fuel depth : nat) (s : bytes) {struct fuel} : option (list json * bytes) :=
  match fuel with
  | O => None
  | S f =>
      match parse_value f depth s with
      | None => None
      | Some (v, t) =>
          match skip_ws t with
          | Byte.x2c :: t' =>
              match parse_elems f depth t' with
              | Some (l, t'') => Some (v :: l, t'')
              | None => None
              end
          | Byte.x5d :: t' => Some ([v], t')
          | _ => None
          end
      end
  end
with parse_members (fuel depth : nat) (s : bytes) {struct fuel}
  : option (list (bytes * json) * bytes) :=
  match fuel with
  | O => None
  | S f =>
      match skip_ws s with
      | Byte.x22 :: t =>
          match parse_string (length t) t with
          | None => None
          | Some (k, t1) =>
              match skip_ws t1 with
              | Byte.x3a :: t2 =>
                  match parse_value f depth t2 with
                  | None => None
                  | Some (v, t3) =>
                      match skip_ws t3 with
                      | Byte.x2c :: t4 =>
                          match parse_members f depth t4 with
                          | Some (l, t5) => Some ((k, v) :: l, t5)
                          | None => None
                          end
                      | Byte.x7d :: t4 => Some ([(k, v)], t4)
                      | _ => None
                      end
                  end
              | _ => None
              end
          end
      | _ => None
      end
  end.

(** encoding/json's [maxNestingDepth]. *)
Definition max_depth : nat := Z.to_nat 10000.

Definition parse (s : bytes) : option json :=
  match parse_value (2 * length s + 2) max_depth s with
  | Some (j, t) => match skip_ws t with [] => Some j | _ => None end
  | None => None
  end.

Fixpoint print (j : json) : bytes :=
  match j with
  | JNull => bs "null"
  | JBool true => bs "true"
  | JBool false => bs "false"
  | JNum lit => lit
  | JStr s => quote s
  | JArr l => bs "[" ++ Join (print <$> l) (bs ",") ++ bs "]"
  | JObj l =>
      bs "{" ++ Join ((fun kv => quote (fst kv) ++ bs ":" ++ print (snd kv)) <$> l) (bs ",")
        ++ bs "}"
  end.

(** ** Integers *)

Fixpoint uint_bytes (d : Decimal.uint) : bytes :=
  match d with
  | Decimal.Nil => []
  | Decimal.D0 d => Byte.x30 :: uint_bytes d
  | Decimal.D1 d => Byte.x31 :: uint_bytes d
  | Decimal.D2 d => Byte.x32 :: uint_bytes d
  | Decimal.D3 d => Byte.x33 :: uint_bytes d
  | Decimal.D4 d => Byte.x34 :: uint_bytes d
  | Decimal.D5 d => Byte.x35 :: uint_bytes d
  | Decimal.D6 d => Byte.x36 :: uint_bytes d
  | Decimal.D7 d => Byte.x37 :: uint_bytes d
  | Decimal.D8 d => Byte.x38 :: uint_bytes d
  | Decimal.D9 d => Byte.x39 :: uint_bytes d
  end.

Fixpoint bytes_uint (s : bytes) : option Decimal.uint :=
  match s with
  | [] => Some Decimal.Nil
  | b :: s' =>
      match bytes_uint s', b with
      | Some d, Byte.x30 => Some (Decimal.D0 d)
      | Some d, Byte.x31 => Some (Decimal.D1 d)
      | Some d, Byte.x32 => Some (Decimal.D2 d)
      | Some d, Byte.x33 => Some (Decimal.D3 d)
      | Some d, Byte.x34 => Some (Decimal.D4 d)
      | Some d, Byte.x35 => Some (Decimal.D5 d)
      | Some d, Byte.x36 => Some (Decimal.D6 d)
      | Some d, Byte.x37 => Some (Decimal.D7 d)
      | Some d, Byte.x38 => Some (Decimal.D8 d)
      | Some d, Byte.x39 => Some (Decimal.D9 d)
      | _, _ => None
      end
  end.

(** [strconv.Itoa], [%d] *)
Definition print_Z (z : Z) : bytes :=
  (if z <? 0 then [Byte.x2d] else []) ++ uint_bytes (N.to_uint (Z.to_N (Z.abs z))).

(** [strconv.ParseInt(s, 10, 64)] of a number literal, before its range check. *)
Definition parse_Z (s : bytes) : option Z :=
  match s with
  | Byte.x2d :: [] => None
  | Byte.x2d :: t => (fun d => - Z.of_N (N.of_uint d)) <$> bytes_uint t
  | [] => None
  | _ => (fun d => Z.of_N (N.of_uint d)) <$> bytes_uint s
  end.

(** * Facts *)

(** ** Strings *)

Lemma is_ascii_width b s : is_ascii b = true -> utf8_width (b :: s) = 1%nat.
Proof. intros H. simpl. by rewrite H. Qed.

Lemma utf8_width_le s : (utf8_width s <= length s)%nat.
Proof. unfold utf8_width. repeat case_match; simpl; lia. Qed.

(** The width depends only on the bytes it covers. *)
Lemma utf8_width_take s t w :
  utf8_width s = S w -> utf8_width (take (S w) s ++ t) = S w.
Proof.
  destruct s as [|b1 s1]; [done|]. simpl. destruct (is_ascii b1) eqn:E1.
  { intros [= <-]. simpl. by rewrite ?E1. }
  destruct s1 as [|b2 s2]; [done|].
  destruct (in_range 0xC2 0xDF b1 && cont b2) eqn:E2.
  { intros [= <-]. simpl. by rewrite ?E1, ?E2. }
  destruct s2 as [|b3 s3]; [done|].
  destruct (in_range 0xE0 0xEF b1 && second_ok b1 b2 && cont b3) eqn:E3.
  { intros [= <-]. simpl. by rewrite ?E1, ?E2, ?E3. }
  destruct s3 as [|b4 s4]; [done|].
  destruct (in_range 0xF0 0xF4 b1 && second_ok b1 b2 && cont b3 && cont b4) eqn:E4; [|done].
  intros [= <-]. simpl. by rewrite ?E1, ?E2, ?E3, ?E4.
Qed.

Lemma utf8_width_multi b s w : utf8_width (b :: s) = S (S w) -> is_ascii b = false.
Proof. simpl. by destruct (is_ascii b). Qed.

(** Parsing one escaped ASCII byte. *)
Lemma parse_escape_ascii f b t :
  is_ascii b = true ->
  parse_string (S f) (escape_ascii b ++ t)
  = match parse_string f t with Some (r, t') => Some (b :: r, t') | None => None end.
Proof. intros H. destruct b; try discriminate H; reflexivity. Qed.

Lemma escape_ascii_length b : (1 <= length (escape_ascii b))%nat.
Proof. destruct b; vm_compute; lia. Qed.

Lemma non_ascii_plain b :
  is_ascii b = false ->
  bool_decide (b = Byte.x22) = false /\ bool_decide (b = Byte.x5c) = false /\ (u8 b <? 0x20) = false.
Proof.
  unfold is_ascii. intros H. zbool. split_and!.
  - apply bool_decide_eq_false. intros ->. by apply H.
  - apply bool_decide_eq_false. intros ->. by apply H.
  - apply Z.ltb_ge. lia.
Qed.

(** Parsing a character of more than one byte. *)
Lemma parse_multi f s t w :
  utf8_width s = S (S w) ->
  parse_string (S f) (take (S (S w)) s ++ t)
  = match parse_string f t with
    | Some (r, t') => Some (take (S (S w)) s ++ r, t')
    | None => None
    end.
Proof.
  intros Hw. pose proof (utf8_width_le s) as Hl. pose proof (utf8_width_take s t _ Hw) as Ht.
  assert (length (take (S (S w)) s) = S (S w)) as Hlen by (rewrite length_take; lia).
  destruct s as [|b s']; [done|]. pose proof (utf8_width_multi _ _ _ Hw) as Hb.
  destruct (non_ascii_plain b Hb) as (E1 & E2 & E3).
  cbn [take app] in Ht, Hlen |- *. cbn [parse_string]. rewrite E1, E2, E3, Ht.
  change (b :: take (S w) s' ++ t) with ((b :: take (S w) s') ++ t).
  rewrite take_app_length', drop_app_length' by done. done.
Qed.

Lemma line_separator_spec s e :
  line_separator s = Some e ->
  utf8_width s = 3%nat
  /\ (forall f t, parse_string (S f) (e ++ t)
      = match parse_string f t with Some (r, t') => Some (take 3 s ++ r, t') | None => None end)
  /\ length e = 6%nat.
Proof.
  intros H. unfold line_separator in H.
  repeat (case_match; try discriminate H); simplify_eq; (split_and!; [reflexivity| |reflexivity]);
    intros f t; reflexivity.
Qed.

Lemma parse_string_quote s n fuel t :
  utf8_valid_loop n s = true -> (length s <= n)%nat ->
  (length (quote_loop n s) < fuel)%nat ->
  parse_string fuel (quote_loop n s ++ Byte.x22 :: t) = Some (s, t).
Proof.
  revert s fuel. induction n as [|n IH]; intros s fuel Hv Hn Hf;
    (destruct fuel as [|fuel]; [lia|]); destruct s as [|b s']; try done.
  cbn [utf8_valid_loop] in Hv. cbn [quote_loop] in Hf |- *. simpl in Hn.
  destruct (utf8_width (b :: s')) as [|[|w]] eqn:Ew; [done| |].
  - assert (is_ascii b = true) as Hb.
    { destruct (is_ascii b) eqn:E; [done|]. simpl in Ew. rewrite E in Ew.
      by repeat (case_match; try discriminate Ew). }
    rewrite <- app_assoc, parse_escape_ascii by done.
    rewrite length_app in Hf. pose proof (escape_ascii_length b).
    rewrite IH; [done|done|lia|lia].
  - rewrite length_app in Hf. rewrite <- app_assoc.
    pose proof (utf8_width_le (b :: s')) as Hle. rewrite Ew in Hle.
    set (rest := drop (S (S w)) (b :: s')) in *.
    assert (length rest <= n)%nat as Hr by (unfold rest; rewrite length_drop; simpl; lia).
    destruct (line_separator (b :: s')) as [e|] eqn:El.
    + destruct (line_separator_spec _ _ El) as (E3 & Hp & He).
      rewrite Hp, IH by (done || lia). rewrite Ew in E3. injection E3 as ->.
      unfold rest. by rewrite take_drop.
    + rewrite parse_multi by done. rewrite length_take in Hf.
      rewrite IH by (done || simpl in Hf; lia). unfold rest. by rewrite take_drop.
Qed.

Lemma quote_spec s t :
  utf8_valid s = true ->
  exists u, quote s ++ t = Byte.x22 :: u /\ parse_string (length u) u = Some (s, t).
Proof.
  intros Hv. unfold quote. rewrite <- !app_assoc. simpl. eexists. split; [done|].
  apply parse_string_quote; [done|done|]. rewrite length_app. simpl. lia.
Qed.

Lemma utf8_valid_loop_ascii n s :
  forallb is_ascii s = true -> (length s <= n)%nat -> utf8_valid_loop n s = true.
Proof.
  revert s. induction n as [|n IH]; intros [|b s] Ha Hl; try done; [simpl in Hl; lia|].
  simpl in Ha. apply andb_true_iff in Ha as [Hb Ha]. cbn [utf8_valid_loop].
  rewrite is_ascii_width by done. simpl in Hl. apply (IH s); [done|lia].
Qed.

Lemma utf8_valid_ascii s : forallb is_ascii s = true -> utf8_valid s = true.
Proof. intros H. by apply utf8_valid_loop_ascii. Qed.

(** ** Integers *)

Lemma bytes_uint_bytes d : bytes_uint (uint_bytes d) = Some d.
Proof. induction d as [|d IH|d IH|d IH|d IH|d IH|d IH|d IH|d IH|d IH|d IH]; simpl; by rewrite ?IH. Qed.

Lemma uint_bytes_digits d : forallb is_digit (uint_bytes d) = true.
Proof. by induction d. Qed.

Lemma to_uint_nonnil n : N.to_uint n <> Decimal.Nil.
Proof.
  intros E. pose proof (DecimalN.Unsigned.to_of (N.to_uint n)) as H. by rewrite DecimalN.Unsigned.of_to, E in H.
Qed.

Lemma parse_Z_print_Z z : parse_Z (print_Z z) = Some z.
Proof.
  unfold print_Z. set (d := N.to_uint (Z.to_N (Z.abs z))).
  assert (bytes_uint (uint_bytes d) = Some d) as Hb by apply bytes_uint_bytes.
  assert (Z.of_N (N.of_uint d) = Z.abs z) as Hd by (unfold d; rewrite DecimalN.Unsigned.of_to; lia).
  assert (uint_bytes d <> []) as Hne.
  { pose proof (to_uint_nonnil (Z.to_N (Z.abs z))) as Hn. fold d in Hn.
    clear -Hn. by destruct d. }
  pose proof (uint_bytes_digits d) as Hdig.
  destruct (Z.ltb_spec z 0).
  - simpl. destruct (uint_bytes d) as [|b l]; [done|]. rewrite Hb. simpl. f_equal. lia.
  - simpl. destruct (uint_bytes d) as [|b l]; [done|].
    assert (parse_Z (b :: l) = (fun d => Z.of_N (N.of_uint d)) <$> bytes_uint (b :: l)) as ->
      by (clear -Hdig; destruct b; done).
    rewrite Hb. simpl. f_equal. lia.
Qed.

(** No leading zero, but for zero itself. *)
Lemma to_uint_no_zero n d : N.to_uint n = Decimal.D0 d -> d = Decimal.Nil.
Proof.
  intros E. pose proof (DecimalN.Unsigned.to_of (N.to_uint n)) as H. rewrite DecimalN.Unsigned.of_to, E in H.
  unfold Decimal.unorm in H. simpl in H. destruct (Decimal.nzhead d) eqn:En; try by simplify_eq.
  exfalso. apply (DecimalFacts.nzhead_nonzero d d). congruence.
Qed.

(** What may follow a number. *)
Definition num_end (t : bytes) : bool :=
  match t with
  | [] => true
  | b :: _ =>
      negb (is_digit b) &&
      match b with Byte.x2e | Byte.x65 | Byte.x45 => false | _ => true end
  end.

Lemma span_digits_app l t :
  forallb is_digit l = true -> num_end t = true -> span_digits (l ++ t) = (l, t).
Proof.
  intros Hl Ht. induction l as [|b l IH]; simpl in *.
  - destruct t as [|b t]; [done|]. simpl in *. apply andb_true_iff in Ht as [Hb _].
    apply negb_true_iff in Hb. by rewrite Hb.
  - apply andb_true_iff in Hl as [-> Hl]. by rewrite IH.
Qed.

Lemma scan_tail_end t : num_end t = true -> scan_frac t = Some ([], t) /\ scan_exp t = Some ([], t).
Proof. destruct t as [|b t]; [done|]. simpl. by destruct b. Qed.

Lemma scan_int_uint n t :
  num_end t = true -> scan_int (uint_bytes (N.to_uint n) ++ t) = Some (uint_bytes (N.to_uint n), t).
Proof.
  intros Ht. pose proof (uint_bytes_digits (N.to_uint n)) as Hd.
  pose proof (to_uint_nonnil n) as Hn.
  destruct (N.to_uint n) as [|d|d|d|d|d|d|d|d|d|d] eqn:E; [done| | | | | | | | | |];
    [apply to_uint_no_zero in E; by subst|..];
    unfold scan_int, digits1; cbn [uint_bytes app];
    (rewrite app_comm_cons, span_digits_app by done); reflexivity.
Qed.

Lemma uint_bytes_head n :
  match uint_bytes (N.to_uint n) with [] => False | b :: _ => is_digit b = true end.
Proof.
  pose proof (to_uint_nonnil n). pose proof (uint_bytes_digits (N.to_uint n)) as Hd.
  destruct (uint_bytes (N.to_uint n)) as [|b l] eqn:E.
  - by destruct (N.to_uint n).
  - simpl in Hd. by apply andb_true_iff in Hd as [? _].
Qed.

Lemma scan_number_print_Z z t :
  num_end t = true -> scan_number (print_Z z ++ t) = Some (print_Z z, t).
Proof.
  intros Ht. destruct (scan_tail_end t Ht) as [Hf He].
  unfold print_Z. set (n := Z.to_N (Z.abs z)).
  pose proof (scan_int_uint n t Ht) as Hi. pose proof (uint_bytes_head n) as Hh.
  unfold scan_number. destruct (z <? 0).
  - cbn [app]. rewrite Hi, Hf, He. by rewrite app_nil_r.
  - cbn [app]. destruct (uint_bytes (N.to_uint n)) as [|b l]; [done|].
    assert (match (b :: l) ++ t with Byte.x2d :: t0 => ([Byte.x2d], t0) | _ => ([], (b :: l) ++ t) end
            = ([], (b :: l) ++ t)) as -> by (clear -Hh; by destruct b).
    rewrite Hi, Hf, He. by rewrite !app_nil_r.
Qed.

(** ** Values *)

(** The values [parse] gives back exactly: valid UTF-8 strings, integer
    literals, at most [d] levels of nesting. *)
Fixpoint json_ok (d : nat) (j : json) : Prop :=
  match j with
  | JNull | JBool _ => True
  | JNum lit => exists z, lit = print_Z z
  | JStr s => utf8_valid s = true
  | JArr l => match d with O => False | S d' => Forall (json_ok d') l end
  | JObj l =>
      match d with
      | O => False
      | S d' => Forall (fun kv => utf8_valid (fst kv) = true /\ json_ok d' (snd kv)) l
      end
  end.

Lemma print_Z_head z :
  match print_Z z with [] => False | b :: _ => is_digit b = true \/ b = Byte.x2d end.
Proof.
  unfold print_Z. pose proof (uint_bytes_head (Z.to_N (Z.abs z))) as H.
  destruct (z <? 0); cbn [app]; [by right|].
  destruct (uint_bytes _); [done|by left].
Qed.

Lemma digit_head b :
  is_digit b = true \/ b = Byte.x2d ->
  is_ws b = false
  /\ match b with
     | Byte.x22 | Byte.x5b | Byte.x7b | Byte.x74 | Byte.x66 | Byte.x6e => False
     | _ => True
     end.
Proof. intros [H| ->]; [|done]. by destruct b. Qed.

Lemma skip_ws_print d j t : json_ok d j -> skip_ws (print j ++ t) = print j ++ t.
Proof.
  destruct d, j as [|[]| | | |]; try done; simpl; intros [z ->];
    pose proof (print_Z_head z) as Hh; destruct (print_Z z) as [|b l]; try done;
    simpl; by rewrite (proj1 (digit_head _ Hh)).
Qed.

Lemma parse_number f D z t :
  num_end t = true -> parse_value (S f) D (print_Z z ++ t) = Some (JNum (print_Z z), t).
Proof.
  intros Ht. pose proof (scan_number_print_Z z t Ht) as Hs.
  pose proof (skip_ws_print 0 (JNum (print_Z z)) t) as Hw. simpl in Hw.
  cbn [parse_value]. rewrite Hw by eauto. pose proof (print_Z_head z) as Hh.
  destruct (print_Z z) as [|b l]; [done|]. apply digit_head in Hh as [_ Hh].
  cbn [app] in *. rewrite Hs. by destruct b.
Qed.

Definition roundtrips (D : nat) (v : json) : Prop :=
  forall fuel t, num_end t = true -> (2 * length (print v) <= fuel)%nat ->
    parse_value fuel D (print v ++ t) = Some (v, t).

Lemma print_nonempty d v : json_ok d v -> (1 <= length (print v))%nat.
Proof.
  destruct d, v as [|[]| | | |]; try (simpl; lia); simpl; intros [z ->];
    pose proof (print_Z_head z); destruct (print_Z z); simpl; done || lia.
Qed.

Lemma parse_elems_join d D l t fuel :
  l <> [] -> Forall (json_ok d) l -> Forall (roundtrips D) l ->
  (2 * length (Join (print <$> l) [Byte.x2c]) + 1 <= fuel)%nat ->
  parse_elems fuel D (Join (print <$> l) [Byte.x2c] ++ Byte.x5d :: t) = Some (l, t).
Proof.
  revert fuel. induction l as [|v l IH]; intros fuel Hne Hok Hrt Hf; [done|].
  inversion Hok as [|? ? Hv Hl]; subst. inversion Hrt as [|? ? Rv Rl]; subst.
  destruct fuel as [|fuel]; [lia|]. destruct l as [|w l].
  - cbn [fmap list_fmap Join] in Hf |- *. cbn [parse_elems].
    rewrite Rv; [done|done|lia].
  - change (Join (print <$> v :: w :: l) [Byte.x2c])
      with (print v ++ Byte.x2c :: Join (print <$> w :: l) [Byte.x2c]) in Hf |- *.
    rewrite !length_app in Hf. cbn [length] in Hf. rewrite <- !app_assoc. cbn [parse_elems].
    rewrite Rv; [|done|lia]. cbn [skip_ws is_ws app].
    rewrite IH; done || lia.
Qed.

Definition print_member (kv : bytes * json) : bytes := quote (fst kv) ++ bs ":" ++ print (snd kv).

Lemma parse_members_join d D l t fuel :
  l <> [] -> Forall (fun kv => utf8_valid (fst kv) = true /\ json_ok d (snd kv)) l ->
  Forall (fun kv => roundtrips D (snd kv)) l ->
  (2 * length (Join (print_member <$> l) [Byte.x2c]) + 1 <= fuel)%nat ->
  parse_members fuel D (Join (print_member <$> l) [Byte.x2c] ++ Byte.x7d :: t) = Some (l, t).
Proof.
  revert fuel. induction l as [|[k v] l IH]; intros fuel Hne Hok Hrt Hf; [done|].
  inversion Hok as [|? ? [Hk Hv] Hl]; subst. inversion Hrt as [|? ? Rv Rl]; subst.
  destruct fuel as [|fuel]; [lia|]. simpl in Hk, Hv, Rv. destruct l as [|kw l].
  - cbn [fmap list_fmap Join] in Hf |- *. unfold print_member in Hf |- *. cbn [fst snd] in *.
    rewrite !length_app in Hf. rewrite <- !app_assoc.
    destruct (quote_spec k (bs ":" ++ print v ++ Byte.x7d :: t) Hk) as (u & -> & Hu).
    cbn [parse_members skip_ws is_ws]. rewrite Hu.
    change (bs ":" ++ print v ++ Byte.x7d :: t) with (Byte.x3a :: print v ++ Byte.x7d :: t).
    cbn [skip_ws is_ws]. rewrite Rv; [done|done|lia].
  - change (Join (print_member <$> (k, v) :: kw :: l) [Byte.x2c])
      with (print_member (k, v) ++ Byte.x2c :: Join (print_member <$> kw :: l) [Byte.x2c])
      in Hf |- *.
    set (more := Join (print_member <$> kw :: l) [Byte.x2c]) in *.
    unfold print_member in Hf |- *. cbn [fst snd] in *.
    rewrite !length_app in Hf. cbn [length] in Hf. rewrite <- !app_assoc.
    destruct (quote_spec k (bs ":" ++ print v ++ (Byte.x2c :: more) ++ Byte.x7d :: t) Hk)
      as (u & -> & Hu).
    cbn [parse_members skip_ws is_ws]. rewrite Hu.
    change (bs ":" ++ print v ++ ?x) with (Byte.x3a :: print v ++ x).
    cbn [skip_ws is_ws app]. rewrite Rv; [|done|lia]. cbn [skip_ws is_ws]. unfold more.
    rewrite IH; done || lia.
Qed.

(** A printed value does not start like the end of an array. *)
Lemma print_start d v t : json_ok d v -> after Byte.x5d (skip_ws (print v ++ t)) = None.
Proof.
  intros Hok. rewrite (skip_ws_print _ _ _ Hok). revert Hok.
  destruct d, v as [|[]| | | |]; try done; simpl; intros [z ->];
    pose proof (print_Z_head z) as Hh; destruct (print_Z z) as [|b l]; try done;
    simpl; (destruct Hh as [Hh| ->]; [|done]); by destruct b.
Qed.

Lemma Join_cons s l sep : exists r, Join (s :: l) sep = s ++ r.
Proof. destruct l; [exists []; by rewrite app_nil_r|by eexists]. Qed.

(** Parsing a printed value gives the value back and stops where it ends. *)
Lemma print_roundtrips d j D : json_ok d j -> (d <= D)%nat -> roundtrips D j.
Proof.
  revert j D. induction d as [|d IH]; intros j D Hok HD fuel t Ht Hf;
    pose proof (print_nonempty _ _ Hok); (destruct fuel as [|fuel]; [lia|]);
    (destruct j as [|[]|lit|s|l|l]; try done;
     [by destruct Hok as [z ->]; apply parse_number
     |destruct (quote_spec s t Hok) as (u & Hq & Hu); simpl print; rewrite Hq;
      cbn [parse_value skip_ws is_ws]; by rewrite Hu|..]); try done;
    (destruct D as [|D]; [lia|]); simpl in Hok.
  - assert (Forall (roundtrips D) l) as Hr.
    { apply Forall_forall. intros v Hv. apply IH; [|lia]. by apply (Forall_forall (json_ok d) l). }
    change (print (JArr l)) with (Byte.x5b :: Join (print <$> l) [Byte.x2c] ++ [Byte.x5d]) in Hf |- *.
    cbn [length] in Hf. rewrite length_app in Hf. cbn [length] in Hf.
    rewrite <- app_comm_cons, <- app_assoc. cbn [parse_value skip_ws is_ws app].
    destruct (decide (l = [])) as [->|Hne]; [reflexivity|].
    pose proof (parse_elems_join d D l t fuel Hne Hok Hr ltac:(lia)) as Hp. rewrite Hp.
    destruct l as [|v l]; [done|]. inversion Hok; subst.
    destruct (Join_cons (print v) (print <$> l) [Byte.x2c]) as [r Hj]. cbn [fmap list_fmap] in *.
    rewrite Hj, <- app_assoc, (print_start d) by done. done.
  - assert (Forall (fun kv => roundtrips D (snd kv)) l) as Hr.
    { apply Forall_forall. intros kv Hv. apply IH; [|lia].
      by destruct (proj1 (Forall_forall _ _) Hok kv Hv). }
    change (print (JObj l))
      with (Byte.x7b :: Join (print_member <$> l) [Byte.x2c] ++ [Byte.x7d]) in Hf |- *.
    cbn [length] in Hf. rewrite length_app in Hf. cbn [length] in Hf.
    rewrite <- app_comm_cons, <- app_assoc. cbn [parse_value skip_ws is_ws app].
    destruct (decide (l = [])) as [->|Hne]; [reflexivity|].
    pose proof (parse_members_join d D l t fuel Hne Hok Hr ltac:(lia)) as Hp. rewrite Hp.
    destruct l as [|[k v] l]; [done|].
    destruct (Join_cons (print_member (k, v)) (print_member <$> l) [Byte.x2c]) as [r Hj].
    cbn [fmap list_fmap] in *. rewrite Hj. reflexivity.
Qed.

Lemma parse_print d j : json_ok d j -> (d <= max_depth)%nat -> parse (print j) = Some j.
Proof.
  intros Hok Hd. unfold parse. pose proof (print_roundtrips d j max_depth Hok Hd) as Hr.
  specialize (Hr (2 * length (print j) + 2)%nat [] eq_refl ltac:(lia)).
  rewrite app_nil_r in Hr. by rewrite Hr.
Qed.

(** ** Structs

    Go matches an object's keys with a struct's field names up to case folding;
    the two characters outside ASCII that fold to ASCII letters are U+017F and
    U+212A. *)

Fixpoint fold_key (k : bytes) : bytes :=
  match k with
  | Byte.xc5 :: Byte.xbf :: k' => Byte.x73 :: fold_key k'
  | Byte.xe2 :: Byte.x84 :: Byte.xaa :: k' => Byte.x6b :: fold_key k'
  | b :: k' => lower_byte b :: fold_key k'
  | [] => []
  end.

Definition key_is (k : bytes) (field : string) : bool := bool_decide (fold_key k = bs field).

(** Decoding a value into a Go variable that holds [old]; [None] is the error
    of a value of the wrong type.  A JSON null leaves strings and numbers as
    they are and makes a slice nil. *)
Definition dec_string (j : json) (old : bytes) : option bytes :=
  match j with JStr s => Some s | JNull => Some old | _ => None end.

Definition dec_int (lo hi : Z) (j : json) (old : Z) : option Z :=
  match j with
  | JNum lit =>
      match parse_Z lit with
      | Some z => if (lo <=? z) && (z <=? hi) then Some z else None
      | None => None
      end
  | JNull => Some old
  | _ => None
  end.

Definition dec_int64 : json -> Z -> option Z := dec_int (- 2 ^ 63) (2 ^ 63 - 1).
Definition dec_uint32 : json -> Z -> option Z := dec_int 0 (2 ^ 32 - 1).

Definition dec_slice {A} (dec : json -> A -> option A) (zero : A) (j : json) (old : list A)
  : option (list A) :=
  match j with
  | JArr l => mapM (fun e => dec e zero) l
  | JNull => Some []
  | _ => None
  end.

Fixpoint dec_members {A} (set : bytes -> json -> A -> option A) (l : list (bytes * json)) (a : A)
  : option A :=
  match l with
  | [] => Some a
  | (k, j) :: l' => match set k j a with Some a' => dec_members set l' a' | None => None end
  end.

Definition dec_struct {A} (set : bytes -> json -> A -> option A) (j : json) (old : A) : option A :=
  match j with
  | JObj l => dec_members set l old
  | JNull => Some old
  | _ => None
  end.

(** A Go struct type with its JSON form: how it is written, its zero value, and
    the assignment of one decoded member. *)
Class Codec (A : Type) := {
  to_json : A -> json;
  zero_value : A;
  set_field : bytes -> json -> A -> option A
}.

Definition Marshal {A} `{Codec A} (a : A) : bytes := print (to_json a).

Definition Unmarshal {A} `{Codec A} (s : bytes) : option A :=
  match parse s with Some j => dec_struct set_field j zero_value | None => None end.

(** The values of a struct type that survive being written and read. *)
Class CodecLaws (A : Type) `{Codec A} (fine : A -> Prop) := {
  codec_depth : nat;
  codec_shallow : (codec_depth <=? 100)%nat = true;
  codec_ok : forall a, fine a -> json_ok codec_depth (to_json a);
  codec_fields : forall a, fine a -> dec_struct set_field (to_json a) zero_value = Some a
}.

Lemma Unmarshal_Marshal {A} `{CodecLaws A fine} (a : A) :
  fine a -> Unmarshal (Marshal a) = Some a.
Proof.
  intros Ha. unfold Unmarshal, Marshal. rewrite (parse_print codec_depth).
  - by apply codec_fields.
  - by apply codec_ok.
  - pose proof codec_shallow as Hs. apply Nat.leb_le in Hs. unfold max_depth. lia.
Qed.

(** A member of a struct with [omitempty]. *)
Definition omitempty (empty : bool) (member : bytes * json) : list (bytes * json) :=
  if empty then [] else [member].

Definition JInt (z : Z) : json := JNum (print_Z z).
Definition JStrs (l : list bytes) : json := JArr (JStr <$> l).

Lemma dec_int64_JInt z old : in_int64 z -> dec_int64 (JInt z) old = Some z.
Proof.
  intros Hz. unfold dec_int64, dec_int, JInt. rewrite parse_Z_print_Z. unfold in_int64 in Hz.
  destruct (Z.leb_spec (- 2 ^ 63) z), (Z.leb_spec z (2 ^ 63 - 1)); simpl; done || lia.
Qed.

Lemma dec_uint32_JInt z old : 0 <= z < 2 ^ 32 -> dec_uint32 (JInt z) old = Some z.
Proof.
  intros Hz. unfold dec_uint32, dec_int, JInt. rewrite parse_Z_print_Z.
  destruct (Z.leb_spec 0 z), (Z.leb_spec z (2 ^ 32 - 1)); simpl; done || lia.
Qed.

Lemma dec_slice_map {A} (dec : json -> A -> option A) zero enc l old :
  Forall (fun a => dec (enc a) zero = Some a) l -> dec_slice dec zero (JArr (enc <$> l)) old = Some l.
Proof.
  intros H. simpl. apply mapM_Some_2. rewrite Forall2_fmap_l. by apply Forall_Forall2_diag.
Qed.

Lemma dec_slice_strings l old : dec_slice dec_string [] (JStrs l) old = Some l.
Proof. apply dec_slice_map. by apply Forall_forall. Qed.

Lemma JInt_ok d z : json_ok d (JInt z).
Proof. destruct d; simpl; eauto. Qed.

Lemma JStrs_ok d l : Forall (fun s => utf8_valid s = true) l -> json_ok (S d) (JStrs l).
Proof. intros H. simpl. rewrite Forall_fmap. eapply Forall_impl; [done|]. intros s Hs. by destruct d. Qed.

Lemma JStr_ok d s : utf8_valid s = true -> json_ok d (JStr s).
Proof. by destruct d. Qed.

Lemma JObj_ok d l :
  Forall (fun kv => utf8_valid (fst kv) = true /\ json_ok d (snd kv)) l -> json_ok (S d) (JObj l).
Proof. done. Qed.

#[export] Hint Resolve JInt_ok JStr_ok JStrs_ok : altnet.
