(* ===== verification/JsonIndent.v ===== *)
(** * Indented JSON and maps (encoding/json's [MarshalIndent], as the registrar uses it)

    The printer of [MarshalIndent(v, "", "  ")] with its round trip through the
    parser of Json.v, and the encoding of a Go map with string keys as an object
    with sorted keys. *)

From S2P Require Import Prelude GoStrings Encoding Json.

(** A line break and the indentation of a level. *)
Definition nl (level : nat) : bytes := Byte.x0a :: replicate (2 * level) Byte.x20.

Fixpoint print_indent (level : nat) (j : json) : bytes :=
  match j with
  | JArr ((_ :: _) as l) =>
      [Byte.x5b] ++ Join ((fun v => nl (S level) ++ print_indent (S level) v) <$> l) [Byte.x2c]
        ++ nl level ++ [Byte.x5d]
  | JObj ((_ :: _) as l) =>
      [Byte.x7b]
        ++ Join ((fun kv => nl (S level) ++ quote kv.1 ++ [Byte.x3a; Byte.x20] ++ print_indent (S level) kv.2) <$> l)
             [Byte.x2c]
        ++ nl level ++ [Byte.x7d]
  | j => print j
  end.

Lemma skip_ws_spaces n t : skip_ws (replicate n Byte.x20 ++ t) = skip_ws t.
Proof. induction n; [done|]. exact IHn. Qed.

Lemma skip_ws_nl level t : skip_ws (nl level ++ t) = skip_ws t.
Proof. apply (skip_ws_spaces (2 * level) t). Qed.

Lemma parse_value_ws fuel D s t : skip_ws s = skip_ws t -> parse_value fuel D s = parse_value fuel D t.
Proof. intros E. destruct fuel; [done|]. cbn [parse_value]. by rewrite E. Qed.

Lemma parse_members_ws fuel D s t : skip_ws s = skip_ws t -> parse_members fuel D s = parse_members fuel D t.
Proof. intros E. destruct fuel; [done|]. cbn [parse_members]. by rewrite E. Qed.

Lemma parse_elems_ws fuel D s t : skip_ws s = skip_ws t -> parse_elems fuel D s = parse_elems fuel D t.
Proof. intros E. destruct fuel; [done|]. cbn [parse_elems]. by rewrite (parse_value_ws _ _ s t E). Qed.

Lemma num_end_nl level t : num_end (nl level ++ t) = true.
Proof. done. Qed.

(** Parsing an indented value gives it back and stops where it ends. *)
Definition roundtrips_indent (D level : nat) (v : json) : Prop :=
  forall fuel t, num_end t = true -> (2 * length (print_indent level v) <= fuel)%nat ->
    parse_value fuel D (print_indent level v ++ t) = Some (v, t).

Lemma parse_elems_indent D level l fuel t :
  l <> [] -> Forall (roundtrips_indent D level) l ->
  let out := Join ((fun v => nl level ++ print_indent level v) <$> l) [Byte.x2c] in
  (2 * length out + 1 <= fuel)%nat ->
  parse_elems fuel D (out ++ (nl (level - 1) ++ [Byte.x5d]) ++ t) = Some (l, t).
Proof.
  intros Hne Hrt. cbv zeta. revert fuel. induction Hrt as [|v l Rv Rl IH]; intros fuel Hf; [done|].
  destruct fuel as [|fuel]; [lia|]. destruct l as [|w l].
  - cbn [fmap list_fmap Join] in Hf |- *. rewrite length_app in Hf. rewrite <- !app_assoc.
    rewrite (parse_elems_ws _ _ _ _ (skip_ws_nl level _)). cbn [parse_elems].
    rewrite Rv; [|done|lia]. by rewrite skip_ws_nl.
  - change (Join ((fun v => nl level ++ print_indent level v) <$> v :: w :: l) [Byte.x2c])
      with ((nl level ++ print_indent level v) ++ Byte.x2c
              :: Join ((fun v => nl level ++ print_indent level v) <$> w :: l) [Byte.x2c]) in Hf |- *.
    rewrite !length_app in Hf. cbn [length] in Hf.
    specialize (IH ltac:(done) fuel ltac:(lia)).
    set (more := Join ((fun v => nl level ++ print_indent level v) <$> w :: l) [Byte.x2c]) in *.
    rewrite <- !app_assoc in IH. rewrite <- !app_assoc. rewrite (parse_elems_ws _ _ _ _ (skip_ws_nl level _)).
    cbn [parse_elems]. rewrite Rv; [|done|lia]. cbn [app skip_ws is_ws] in IH |- *. by rewrite IH.
Qed.

Definition member_indent (level : nat) (kv : bytes * json) : bytes :=
  nl level ++ quote kv.1 ++ [Byte.x3a; Byte.x20] ++ print_indent level kv.2.

Lemma parse_members_indent D level l fuel t :
  l <> [] -> Forall (fun kv => utf8_valid kv.1 = true /\ roundtrips_indent D level kv.2) l ->
  let out := Join (member_indent level <$> l) [Byte.x2c] in
  (2 * length out + 1 <= fuel)%nat ->
  parse_members fuel D (out ++ (nl (level - 1) ++ [Byte.x7d]) ++ t) = Some (l, t).
Proof.
  intros Hne Hrt. cbv zeta. revert fuel. induction Hrt as [|[k v] l [Hk Rv] Rl IH]; intros fuel Hf; [done|].
  destruct fuel as [|fuel]; [lia|]. cbn [fst snd] in *. destruct l as [|kw l].
  - cbn [fmap list_fmap Join] in Hf |- *. unfold member_indent in Hf |- *. cbn [fst snd] in *.
    rewrite !length_app in Hf. rewrite <- !app_assoc.
    rewrite (parse_members_ws _ _ _ _ (skip_ws_nl level _)).
    destruct (quote_spec k ([Byte.x3a; Byte.x20] ++ print_indent level v ++ nl (level - 1) ++ [Byte.x7d] ++ t) Hk)
      as (u & -> & Hu).
    cbn [parse_members skip_ws is_ws]. rewrite Hu. cbn [app skip_ws is_ws].
    rewrite (parse_value_ws fuel D (Byte.x20 :: print_indent level v ++ nl (level - 1) ++ Byte.x7d :: t)
      (print_indent level v ++ nl (level - 1) ++ Byte.x7d :: t)) by done.
    rewrite Rv; [|done|lia]. by rewrite skip_ws_nl.
  - change (Join (member_indent level <$> (k, v) :: kw :: l) [Byte.x2c])
      with (member_indent level (k, v) ++ Byte.x2c :: Join (member_indent level <$> kw :: l) [Byte.x2c]) in Hf |- *.
    set (more := Join (member_indent level <$> kw :: l) [Byte.x2c]) in *.
    unfold member_indent in Hf |- *. cbn [fst snd] in *.
    rewrite !length_app in Hf. cbn [length] in Hf.
    specialize (IH ltac:(done) fuel ltac:(lia)). rewrite <- !app_assoc in IH. rewrite <- !app_assoc. cbn [app] in IH.
    rewrite (parse_members_ws _ _ _ _ (skip_ws_nl level _)).
    destruct (quote_spec k ([Byte.x3a; Byte.x20] ++ print_indent level v ++ (Byte.x2c :: more)
      ++ nl (level - 1) ++ [Byte.x7d] ++ t) Hk) as (u & -> & Hu).
    cbn [parse_members skip_ws is_ws]. rewrite Hu. cbn [app skip_ws is_ws].
    rewrite (parse_value_ws fuel D (Byte.x20 :: print_indent level v ++ Byte.x2c :: more ++ nl (level - 1) ++ Byte.x7d :: t)
      (print_indent level v ++ Byte.x2c :: more ++ nl (level - 1) ++ Byte.x7d :: t)) by done.
    rewrite Rv; [|done|lia]. cbn [skip_ws is_ws]. by rewrite IH.
Qed.

(** An indented value starts with neither white space nor a closing bracket. *)
Lemma print_indent_start level d v t :
  json_ok d v -> after Byte.x5d (skip_ws (print_indent level v ++ t)) = None.
Proof.
  intros Hok. destruct v as [| | | |[|x l]|[|x l]]; try (by apply (print_start d)); done.
Qed.

Lemma print_indent_roundtrips d j D level : json_ok d j -> (d <= D)%nat -> roundtrips_indent D level j.
Proof.
  revert j D level. induction d as [|d IH]; intros j D level Hok HD fuel t Ht Hf;
    (destruct j as [| | | |[|x l]|[|x l]]; try (by apply (print_roundtrips _ _ D Hok HD); [done|exact Hf]); try done);
    (destruct D as [|D]; [lia|]); simpl in Hok.
  - assert (Forall (roundtrips_indent D (S level)) (x :: l)) as Hr.
    { apply Forall_forall. intros v Hv. apply IH; [|lia]. by apply (Forall_forall (json_ok d) (x :: l)). }
    change (print_indent level (JArr (x :: l))) with
      ([Byte.x5b] ++ Join ((fun v => nl (S level) ++ print_indent (S level) v) <$> x :: l) [Byte.x2c]
        ++ nl level ++ [Byte.x5d]) in Hf |- *.
    set (out := Join _ _) in *. rewrite !length_app in Hf. cbn [length] in Hf.
    destruct fuel as [|fuel]; [lia|]. cbn [app parse_value skip_ws is_ws]. rewrite <- !app_assoc.
    pose proof (parse_elems_indent D (S level) (x :: l) fuel t ltac:(done) Hr) as Hp. cbv zeta in Hp.
    fold out in Hp. simpl Nat.sub in Hp. rewrite Nat.sub_0_r, <- app_assoc in Hp. rewrite Hp by lia.
    destruct (Join_cons (nl (S level) ++ print_indent (S level) x)
      ((fun v => nl (S level) ++ print_indent (S level) v) <$> l) [Byte.x2c]) as [r Hj].
    unfold out. cbn [fmap list_fmap]. rewrite Hj, <- !app_assoc, skip_ws_nl.
    apply Forall_cons in Hok as [Hx _]. by rewrite (print_indent_start (S level) d).
  - assert (Forall (fun kv => utf8_valid kv.1 = true /\ roundtrips_indent D (S level) kv.2) (x :: l)) as Hr.
    { apply Forall_forall. intros kv Hkv. destruct (proj1 (Forall_forall _ _) Hok kv Hkv). split; [done|].
      apply IH; [done|lia]. }
    change (print_indent level (JObj (x :: l))) with
      ([Byte.x7b] ++ Join (member_indent (S level) <$> x :: l) [Byte.x2c] ++ nl level ++ [Byte.x7d]) in Hf |- *.
    set (out := Join _ _) in *. rewrite !length_app in Hf. cbn [length] in Hf.
    destruct fuel as [|fuel]; [lia|]. cbn [app parse_value skip_ws is_ws]. rewrite <- !app_assoc.
    pose proof (parse_members_indent D (S level) (x :: l) fuel t ltac:(done) Hr) as Hp. cbv zeta in Hp.
    fold out in Hp. simpl Nat.sub in Hp. rewrite Nat.sub_0_r, <- app_assoc in Hp. rewrite Hp by lia.
    destruct (Join_cons (member_indent (S level) x) (member_indent (S level) <$> l) [Byte.x2c]) as [r Hj].
    unfold out. cbn [fmap list_fmap]. rewrite Hj. unfold member_indent. rewrite <- !app_assoc, skip_ws_nl.
    reflexivity.
Qed.

Lemma parse_print_indent d j : json_ok d j -> (d <= max_depth)%nat -> parse (print_indent 0 j) = Some j.
Proof.
  intros Hok Hd. unfold parse. pose proof (print_indent_roundtrips d j max_depth 0 Hok Hd) as Hr.
  specialize (Hr (2 * length (print_indent 0 j) + 2)%nat [] eq_refl ltac:(lia)).
  rewrite app_nil_r in Hr. by rewrite Hr.
Qed.
