(* ===== verification/Utf8.v ===== *)
(** * Strings that come out of the JSON decoder

    Every string the parser of Json.v returns is valid UTF-8: invalid input is
    replaced by U+FFFD, and an escape denotes a code point.  This is why what a
    request carries can be written to a JSON file and read back. *)

From S2P Require Import Prelude GoStrings Encoding Json.

Lemma utf8_valid_loop_more n m s :
  (length s <= n)%nat -> (length s <= m)%nat -> utf8_valid_loop n s = utf8_valid_loop m s.
Proof.
  revert m s. induction n as [|n IH]; intros [|m] [|b s] Hn Hm; try done; simpl in Hn, Hm; try lia.
  cbn [utf8_valid_loop]. destruct (utf8_width (b :: s)) as [|w]; [done|].
  apply IH; rewrite length_drop; simpl; lia.
Qed.

(** One character of a string. *)
Lemma utf8_valid_step s w :
  utf8_width s = S w -> utf8_valid s = utf8_valid (drop (S w) s).
Proof.
  intros Hw. destruct s as [|b s]; [done|]. unfold utf8_valid at 1. cbn [length utf8_valid_loop].
  rewrite Hw. apply utf8_valid_loop_more; rewrite length_drop; simpl; lia.
Qed.

Lemma utf8_valid_inv b s :
  utf8_valid (b :: s) = true -> exists w, utf8_width (b :: s) = S w /\ utf8_valid (drop (S w) (b :: s)) = true.
Proof.
  intros Hv. destruct (utf8_width (b :: s)) as [|w] eqn:Hw.
  - revert Hv. unfold utf8_valid. cbn [length utf8_valid_loop]. by rewrite Hw.
  - exists w. split; [done|]. by rewrite <- (utf8_valid_step _ w).
Qed.

(** A character: its width is its length. *)
Definition utf8_char (c : bytes) : Prop := exists w, utf8_width c = S w /\ length c = S w.

Lemma utf8_char_app c t : utf8_char c -> utf8_valid t = true -> utf8_valid (c ++ t) = true.
Proof.
  intros (w & Hw & Hl) Ht. assert (take (S w) c = c) as E by (apply take_ge; lia).
  rewrite (utf8_valid_step _ w); [|by rewrite <- E, (utf8_width_take c t w)].
  rewrite <- Hl, drop_app_length. done.
Qed.

Lemma utf8_char_take s w : utf8_width s = S w -> utf8_char (take (S w) s).
Proof.
  intros Hw. exists w. split.
  - rewrite <- (app_nil_r (take (S w) s)). by apply utf8_width_take.
  - pose proof (utf8_width_le s). rewrite length_take. lia.
Qed.

Lemma utf8_char_ascii b : is_ascii b = true -> utf8_char [b].
Proof. intros Hb. exists 0%nat. split; [by apply is_ascii_width|done]. Qed.

(** Cutting an ASCII byte off the end leaves valid text. *)
Lemma utf8_width_snoc b s x :
  is_ascii x = true -> utf8_width ((b :: s) ++ [x]) <> 0%nat -> utf8_width (b :: s) = utf8_width ((b :: s) ++ [x]).
Proof.
  intros Hx. assert (cont x = false) as Hc by (destruct x; vm_compute in Hx; done || by vm_compute).
  assert (forall b1, second_ok b1 x = false) as Hs.
  { intros b1. unfold second_ok. repeat case_match; destruct x; vm_compute in Hx; done || by vm_compute. }
  cbn [app]. unfold utf8_width. destruct (is_ascii b); [done|].
  destruct s as [|b2 s]; cbn [app]; [rewrite Hc, andb_false_r; done|].
  destruct (in_range 0xC2 0xDF b && cont b2); [done|].
  destruct s as [|b3 s]; cbn [app]; [rewrite Hc, andb_false_r; done|].
  destruct (in_range 0xE0 0xEF b && second_ok b b2 && cont b3); [done|].
  destruct s as [|b4 s]; cbn [app]; [rewrite Hc, andb_false_r; done|]. done.
Qed.

Lemma utf8_valid_snoc n s x :
  (length s <= n)%nat -> is_ascii x = true -> utf8_valid (s ++ [x]) = true -> utf8_valid s = true.
Proof.
  revert s. induction n as [|n IH]; intros [|b s] Hl Hx Hv; try done; simpl in Hl; [lia|].
  destruct (utf8_valid_inv b (s ++ [x]) Hv) as (w & Hw & Hd).
  assert (utf8_width (b :: s) = S w) as Hw'.
  { rewrite <- Hw. apply (utf8_width_snoc b s x Hx). change ((b :: s) ++ [x]) with (b :: s ++ [x]). by rewrite Hw. }
  rewrite (utf8_valid_step _ w) by done. pose proof (utf8_width_le (b :: s)) as Hle. rewrite Hw' in Hle.
  apply IH; [rewrite length_drop; simpl in *; lia|done|].
  change (b :: s ++ [x]) with ((b :: s) ++ [x]) in Hd. by rewrite drop_app_le in Hd by done.
Qed.

(** ** Escapes *)

#[local] Ltac Zify.zify_post_hook ::= Z.to_euclidean_division_equations.

Lemma in_range_spec lo hi z :
  0 <= z < 256 -> in_range lo hi (of_u8 z) = (lo <=? z) && (z <=? hi).
Proof. intros Hz. unfold in_range. by rewrite u8_of_u8, Z.mod_small by lia. Qed.

Lemma utf8_encode_char r :
  0 <= r < 0x110000 -> is_surrogate r = false -> utf8_char (utf8_encode r).
Proof.
  intros Hr Hs. unfold is_surrogate in Hs. unfold utf8_encode.
  assert (forall z, 0 <= z < 64 -> cont (of_u8 (0x80 + z)) = true) as Hcont.
  { intros z Hz. unfold cont. rewrite in_range_spec by lia. lia. }
  assert (forall z, 0x80 <= z < 256 -> is_ascii (of_u8 z) = false) as Hna.
  { intros z Hz. unfold is_ascii. rewrite u8_of_u8, Z.mod_small by lia. lia. }
  pose proof (Z.mod_pos_bound r 64). pose proof (Z.mod_pos_bound (r / 64) 64).
  pose proof (Z.mod_pos_bound (r / 4096) 64).
  destruct (Z.ltb_spec r 0x80).
  { apply utf8_char_ascii. unfold is_ascii. rewrite u8_of_u8, Z.mod_small by lia. lia. }
  destruct (Z.ltb_spec r 0x800).
  { exists 1%nat. split; [|done]. cbn [utf8_width]. rewrite Hna by lia.
    rewrite in_range_spec by lia. rewrite Hcont by lia.
    replace ((194 <=? 192 + r / 64) && (192 + r / 64 <=? 223)) with true by lia. done. }
  assert (forall b, 0xE0 <= b < 256 -> in_range 0xC2 0xDF (of_u8 b) = false) as Hn2.
  { intros b Hb. rewrite in_range_spec by lia. lia. }
  destruct (Z.ltb_spec r 0x10000).
  { exists 2%nat. split; [|done]. cbn [utf8_width]. rewrite Hna, Hn2 by lia. cbn [andb].
    rewrite in_range_spec by lia. rewrite (Hcont (r mod 64)) by lia.
    replace ((224 <=? 224 + r / 4096) && (224 + r / 4096 <=? 239)) with true by lia.
    assert (second_ok (of_u8 (224 + r / 4096)) (of_u8 (128 + (r / 64) mod 64)) = true) as ->; [|done].
    unfold second_ok. rewrite u8_of_u8, Z.mod_small by lia.
    rewrite !in_range_spec, Hcont by lia. repeat case_match; lia. }
  exists 3%nat. split; [|done]. cbn [utf8_width]. rewrite Hna, Hn2 by lia. cbn [andb].
  rewrite (in_range_spec 224 239) by lia.
  replace ((224 <=? 240 + r / 262144) && (240 + r / 262144 <=? 239)) with false by lia. cbn [andb].
  rewrite in_range_spec by lia. rewrite (Hcont (r mod 64)), (Hcont ((r / 64) mod 64)) by lia.
  replace ((240 <=? 240 + r / 262144) && (240 + r / 262144 <=? 244)) with true by lia.
  assert (second_ok (of_u8 (240 + r / 262144)) (of_u8 (128 + (r / 4096) mod 64)) = true) as ->; [|done].
  unfold second_ok. rewrite u8_of_u8, Z.mod_small by lia.
  rewrite !in_range_spec, Hcont by lia. repeat case_match; lia.
Qed.

Lemma from_hex_digit_range b z : from_hex_digit b = Some z -> 0 <= z < 16.
Proof. destruct b; vm_compute; intros E; simplify_eq; done. Qed.

Lemma getu4_range s r t : getu4 s = Some (r, t) -> 0 <= r < 0x10000.
Proof.
  unfold getu4. repeat case_match; try done. intros [= <- <-].
  repeat match goal with H : from_hex_digit _ = Some _ |- _ => apply from_hex_digit_range in H end. lia.
Qed.

Lemma unescape_char s c t : unescape s = Some (c, t) -> utf8_char c.
Proof.
  assert (utf8_char replacement) as Hrep by by apply utf8_encode_char.
  destruct s as [|b s]; [done|]. cbn [unescape].
  destruct b; try (intros [= <- <-]; by apply utf8_char_ascii); try done.
  destruct (getu4 s) as [[r t']|] eqn:Eg; [|done]. apply getu4_range in Eg.
  destruct (is_surrogate r) eqn:Es; [|intros [= <- _]; apply utf8_encode_char; [lia|done]].
  destruct (low_surrogate r t') as [[r' t'']|] eqn:El; [|by intros [= <- _]].
  intros [= <- _]. revert El. unfold low_surrogate. destruct (negb _) eqn:Eh; [done|].
  destruct t' as [|b1 t']; [done|]. destruct b1; try done.
  destruct t' as [|b2 t']; [done|]. destruct b2; try done.
  destruct (getu4 t') as [[lo t3]|] eqn:Eg'; [|done]. apply getu4_range in Eg'.
  destruct ((0xDC00 <=? lo) && (lo <? 0xE000)) eqn:Elo; [|done]. intros [= <- _]. zbool.
  apply utf8_encode_char; [lia|]. unfold is_surrogate. lia.
Qed.

Lemma parse_string_utf8 fuel s r t : parse_string fuel s = Some (r, t) -> utf8_valid r = true.
Proof.
  revert s r t. induction fuel as [|fuel IH]; intros s r t; [by destruct s|]. cbn [parse_string].
  destruct s as [|b s]; [done|]. case_bool_decide; [by intros [= <- _]|].
  assert (forall c u, utf8_char c ->
    match parse_string fuel u with Some (r, t') => Some (c ++ r, t') | None => None end = Some (r, t) ->
    utf8_valid r = true) as Hc.
  { intros c u Hc. destruct (parse_string fuel u) as [[r' t']|] eqn:E; [|done]. intros [= <- _].
    apply utf8_char_app; [done|by eapply IH]. }
  case_bool_decide.
  { destruct (unescape s) as [[c u]|] eqn:Eu; [|done]. apply Hc. by eapply unescape_char. }
  destruct (u8 b <? 32); [done|]. destruct (utf8_width (b :: s)) as [|w] eqn:Ew.
  - apply Hc. by apply utf8_encode_char.
  - apply Hc. by apply utf8_char_take.
Qed.

(** The strings at the top of a value and among the members of an object. *)
Definition plain_utf8 (j : json) : Prop := match j with JStr s => utf8_valid s = true | _ => True end.

Definition members_utf8 (j : json) : Prop :=
  match j with JObj l => Forall (fun kv => plain_utf8 kv.2) l | j => plain_utf8 j end.

Lemma literal_plain s w v j t : plain_utf8 v -> literal s w v = Some (j, t) -> plain_utf8 j.
Proof. intros Hv. unfold literal. case_match; [|done]. by intros [= <- _]. Qed.

Lemma parse_value_plain fuel d s j t : parse_value fuel d s = Some (j, t) -> plain_utf8 j.
Proof.
  destruct fuel as [|fuel]; [done|]. cbn [parse_value].
  assert (match scan_number (skip_ws s) with Some (n, t) => Some (JNum n, t) | None => None end = Some (j, t) ->
    plain_utf8 j) as Hnum by (destruct (scan_number (skip_ws s)) as [[n u]|]; [by intros [= <- _]|done]).
  destruct (skip_ws s) as [|b u]; [done|].
  destruct b; try exact Hnum; try (by apply literal_plain).
  - destruct (parse_string (length u) u) as [[str t']|] eqn:E; [|done]. intros [= <- _].
    by eapply parse_string_utf8.
  - destruct d as [|d]; [done|]. destruct (after _ _); [by intros [= <- _]|].
    destruct (parse_elems fuel d u) as [[l t']|]; [by intros [= <- _]|done].
  - destruct d as [|d]; [done|]. destruct (after _ _); [by intros [= <- _]|].
    destruct (parse_members fuel d u) as [[l t']|]; [by intros [= <- _]|done].
Qed.

Lemma parse_members_utf8 fuel d s l t :
  parse_members fuel d s = Some (l, t) -> Forall (fun kv => plain_utf8 kv.2) l.
Proof.
  revert s l t. induction fuel as [|fuel IH]; intros s l t; [done|]. cbn [parse_members].
  destruct (skip_ws s) as [|[] u]; try done.
  destruct (parse_string (length u) u) as [[k t1]|]; [|done].
  destruct (skip_ws t1) as [|[] t2]; try done.
  destruct (parse_value fuel d t2) as [[v t3]|] eqn:Ev; [|done]. apply parse_value_plain in Ev.
  destruct (skip_ws t3) as [|[] t4]; try done.
  - destruct (parse_members fuel d t4) as [[l' t5]|] eqn:El; [|done]. intros [= <- _].
    apply List.Forall_cons; [done|by eapply IH].
  - intros [= <- _]. by apply List.Forall_cons.
Qed.

Lemma parse_value_members fuel d s j t : parse_value fuel d s = Some (j, t) -> members_utf8 j.
Proof.
  intros Hp. pose proof (parse_value_plain _ _ _ _ _ Hp) as Hplain. destruct j as [| | | | |l]; try exact Hplain.
  destruct fuel as [|fuel]; [done|]. cbn [parse_value] in Hp. unfold members_utf8.
  destruct (skip_ws s) as [|b u]; [done|].
  destruct b; try (by destruct (scan_number _) as [[? ?]|]); try (by unfold literal in Hp; case_match).
  - by destruct (parse_string (length u) u) as [[str t']|].
  - destruct d as [|d]; [done|]. destruct (after _ _); [done|].
    by destruct (parse_elems fuel d u) as [[? ?]|].
  - destruct d as [|d]; [done|]. destruct (after _ _); [by injection Hp as <- _|].
    destruct (parse_members fuel d u) as [[l' t']|] eqn:E; [|done]. injection Hp as <- _.
    by eapply parse_members_utf8.
Qed.
