(* ===== verification/Sha256.v ===== *)
(** * SHA-256 (Go's crypto/sha256, as [Sum256] uses it)

    The hash of the standard library that AltNet derives peer IDs, content
    addresses and record keys from, written out (FIPS 180-4) so that the
    definitions built on it evaluate.  Nothing in the development assumes that
    it has no collisions. *)

From S2P Require Import Prelude GoStrings Encoding.

Module Sha.

Definition w32 (x : Z) : Z := x mod 2 ^ 32.

Definition rotr (n x : Z) : Z := w32 (Z.lor (Z.shiftr x n) (Z.shiftl x (32 - n))).

(** The constants of the hash are the first 32 bits of the fractional parts of
    the square roots of the first 8 primes and of the cube roots of the first
    64. *)
Definition prime (n : Z) : bool :=
  forallb (fun d => negb (n mod Z.of_nat d =? 0)) (seq 2 (Z.to_nat n - 2)).

Definition primes (upto : nat) : list Z := List.filter prime (Z.of_nat <$> seq 2 upto).

(** The integer cube root of [x], bit by bit from the top. *)
Fixpoint cbrt (bits : nat) (x r : Z) : Z :=
  match bits with
  | O => r
  | S b => let t := r + 2 ^ Z.of_nat b in cbrt b x (if t ^ 3 <=? x then t else r)
  end.

Definition round_constants : list Z :=
  Eval vm_compute in (fun p => w32 (cbrt 36 (p * 2 ^ 96) 0)) <$> take 64 (primes 320).

Definition initial : list Z :=
  Eval vm_compute in (fun p => w32 (Z.sqrt (p * 2 ^ 64))) <$> take 8 (primes 20).

Definition pad (m : bytes) : bytes :=
  let n := length m in
  let z := Z.to_nat ((55 - Z.of_nat n) mod 64) in
  m ++ [Byte.x80] ++ replicate z Byte.x00 ++ be_encode 8 (8 * Z.of_nat n).

(** The list cut into pieces of [k]; [fuel] at least its length is enough. *)
Fixpoint pieces {A} (fuel k : nat) (l : list A) : list (list A) :=
  match fuel, l with
  | S fuel', _ :: _ => take k l :: pieces fuel' k (drop k l)
  | _, _ => []
  end.

Definition sigma (a b c : Z) (x : Z) : Z :=
  Z.lxor (Z.lxor (rotr a x) (rotr b x)) (Z.shiftr x c).

Definition Sigma (a b c : Z) (x : Z) : Z :=
  Z.lxor (Z.lxor (rotr a x) (rotr b x)) (rotr c x).

(** The message schedule, most recent word first: [n] words to add. *)
Fixpoint schedule (n : nat) (w : list Z) : list Z :=
  match n with
  | O => w
  | S n' =>
      let at_ i := default 0 (w !! i) in
      let x := w32 (sigma 17 19 10 (at_ 1%nat) + at_ 6%nat
                    + sigma 7 18 3 (at_ 14%nat) + at_ 15%nat) in
      schedule n' (x :: w)
  end.

Definition round (s : list Z) (kw : Z * Z) : list Z :=
  match s with
  | [a; b; c; d; e; f; g; h] =>
      let ch := Z.lxor (Z.land e f) (Z.land (w32 (Z.lnot e)) g) in
      let maj := Z.lxor (Z.lxor (Z.land a b) (Z.land a c)) (Z.land b c) in
      let t1 := h + Sigma 6 11 25 e + ch + fst kw + snd kw in
      let t2 := Sigma 2 13 22 a + maj in
      [w32 (t1 + t2); a; b; c; w32 (d + t1); e; f; g]
  | _ => s
  end.

Definition compress (s : list Z) (block : bytes) : list Z :=
  let w := rev (schedule 48 (rev (be_decode <$> pieces 64 4 block))) in
  zip_with (fun x y => w32 (x + y)) s (foldl round s (zip round_constants w)).

Lemma round_length s kw : length (round s kw) = length s.
Proof. unfold round. by repeat case_match; subst. Qed.

Lemma compress_length s block : length (compress s block) = length s.
Proof.
  unfold compress. rewrite length_zip_with. generalize (zip round_constants
    (rev (schedule 48 (rev (be_decode <$> pieces 64 4 block))))). intros l.
  enough (length (foldl round s l) = length s) by lia.
  revert s. induction l as [|kw l IH]; intros s; simpl; [done|]. by rewrite IH, round_length.
Qed.

End Sha.

(** [sha256.Sum256] *)
Definition sha256 (m : bytes) : bytes :=
  let p := Sha.pad m in
  concat (be_encode 4 <$> foldl Sha.compress Sha.initial (Sha.pieces (length p) 64 p)).
Arguments sha256 : simpl never.

Lemma sha256_length m : length (sha256 m) = 32%nat.
Proof.
  unfold sha256. set (l := foldl _ _ _).
  assert (length l = 8%nat) as Hl.
  { unfold l. generalize (Sha.pieces (length (Sha.pad m)) 64 (Sha.pad m)). intros bl.
    assert (length Sha.initial = 8%nat) as H0 by done. revert H0. generalize Sha.initial.
    induction bl as [|b bl IH]; intros s Hs; simpl; [done|].
    apply IH. by rewrite Sha.compress_length. }
  clearbody l. do 9 (destruct l as [|? l]; try done).
Qed.

(** The published test vectors for the empty message, "abc" and a message of two blocks. *)
Example sha256_empty :
  hex_encode (sha256 []) =
  bs "e3b0c44298fc1c149afbf4c8996fb92427ae41e4649b934ca495991b7852b855".
Proof. by vm_compute. Qed.

Example sha256_abc :
  hex_encode (sha256 (bs "abc")) =
  bs "ba7816bf8f01cfea414140de5dae2223b00361a396177a9cb410ff61f20015ad".
Proof. by vm_compute. Qed.

Example sha256_two_blocks :
  hex_encode (sha256 (bs "abcdbcdecdefdefgefghfghighijhijkijkljklmklmnlmnomnopnopq")) =
  bs "248d6a61d20638b8e5c026930c3e6039a33ce45964ff2167f6ecedd419db06c1".
Proof. by vm_compute. Qed.
