(* ===== verification/AesGcm.v ===== *)
(** * The primitives of the secure channel that Go's standard library provides

    HMAC-SHA-256 (crypto/hmac) and AES-256-GCM (crypto/aes, crypto/cipher) with
    12-byte nonces and no additional data, written out (FIPS 198-1, FIPS 197, SP
    800-38D) so that the channel built on them evaluates.  What the proofs about the channel
    use of the cipher is three facts: [Gcm.Open_Seal], [Gcm.Seal_length] and
    [Gcm.Open_Some] (a ciphertext that opens is the one its plaintext seals to). *)

From S2P Require Import Prelude GoStrings Encoding Sha256.

(** ** HMAC *)

Definition xor_byte (a b : byte) : byte := of_u8 (Z.lxor (u8 a) (u8 b)).

Definition hmac_key (key : bytes) : bytes :=
  let k := if (64 <? length key)%nat then sha256 key else key in
  k ++ replicate (64 - length k) Byte.x00.

Definition hmac (key data : bytes) : bytes :=
  let k := hmac_key key in
  sha256 ((xor_byte Byte.x5c <$> k) ++ sha256 ((xor_byte Byte.x36 <$> k) ++ data)).

Lemma lxor_u8_mod (a b : byte) : Z.lxor (u8 a) (u8 b) mod 256 = Z.lxor (u8 a) (u8 b).
Proof.
  change 256 with (2 ^ 8). rewrite <- Z.land_ones by lia. apply Z.bits_inj'. intros n Hn.
  rewrite Z.land_spec, Z.lxor_spec, Z.testbit_ones_nonneg by lia.
  destruct (Z.ltb_spec n 8) as [|Hge]; [by rewrite andb_true_r|].
  assert (forall c : byte, Z.testbit (u8 c) n = false) as Hhi.
  { intros c. pose proof (u8_range c). destruct (decide (u8 c = 0)) as [->|]; [apply Z.bits_0|].
    apply Z.bits_above_log2; [lia|]. apply Z.lt_le_trans with 8; [|lia].
    apply Z.log2_lt_pow2; lia. }
  by rewrite !Hhi.
Qed.

Lemma xor_byte_twice (a b : byte) : xor_byte (xor_byte a b) b = a.
Proof.
  unfold xor_byte. rewrite u8_of_u8, lxor_u8_mod, Z.lxor_assoc, Z.lxor_nilpotent, Z.lxor_0_r.
  apply of_u8_u8.
Qed.

Lemma hmac_length key data : length (hmac key data) = 32%nat.
Proof. apply sha256_length. Qed.

(** ** AES-256 *)

Module Aes.

(** The field with 256 elements: doubling, product and inverse. *)
Definition double (b : Z) : Z := let d := 2 * b in if d <? 256 then d else Z.lxor d 0x11b.

Fixpoint times (bits : nat) (a b : Z) : Z :=
  match bits with
  | O => 0
  | S n => Z.lxor (if Z.odd a then b else 0) (times n (Z.div2 a) (double b))
  end.

Definition gf_mul (a b : Z) : Z := times 8 a b.

Definition gf_inv (a : Z) : Z := Nat.iter 254 (gf_mul a) 1.

Definition rotl8 (n x : Z) : Z := Z.land (Z.lor (Z.shiftl x n) (Z.shiftr x (8 - n))) 255.

Definition affine (x : Z) : Z :=
  foldr Z.lxor 0x63 [x; rotl8 1 x; rotl8 2 x; rotl8 3 x; rotl8 4 x].

Definition sbox : list Z := Eval vm_compute in (fun n => affine (gf_inv (Z.of_nat n))) <$> seq 0 256.

Definition sub (x : Z) : Z := default 0 (sbox !! Z.to_nat x).

(** Words are lists of four bytes; the schedule is built most recent word first. *)
Definition xor_word (a b : list Z) : list Z := zip_with Z.lxor a b.

Definition rot_word (w : list Z) : list Z := match w with a :: l => l ++ [a] | [] => [] end.

Fixpoint expand (todo i : nat) (rcon : Z) (ws : list (list Z)) : list (list Z) :=
  match todo with
  | O => ws
  | S todo =>
      let prev := default [] (ws !! 0%nat) in
      let t := if (i mod 8 =? 0)%nat then xor_word (sub <$> rot_word prev) [rcon; 0; 0; 0]
               else if (i mod 8 =? 4)%nat then sub <$> prev else prev in
      let rcon := if (i mod 8 =? 0)%nat then double rcon else rcon in
      expand todo (S i) rcon (xor_word (default [] (ws !! 7%nat)) t :: ws)
  end.

Fixpoint groups {A} (fuel k : nat) (l : list A) : list (list A) :=
  match fuel, l with
  | S fuel, _ :: _ => take k l :: groups fuel k (drop k l)
  | _, _ => []
  end.

(** The fifteen round keys of a 32-byte key. *)
Definition round_keys (key : bytes) : list (list Z) :=
  let ws := rev (expand 52 8 1 (rev (groups 8 4 (u8 <$> key)))) in
  groups 15 16 (concat ws).

Definition shift_rows (s : list Z) : list Z :=
  (fun i => let r := (i mod 4)%nat in default 0 (s !! (r + 4 * ((i / 4 + r) mod 4))%nat)) <$> seq 0 16.

Definition mix_column (c : list Z) : list Z :=
  match c with
  | [a; b; c; d] =>
      let row w x y z := Z.lxor (Z.lxor (double w) (Z.lxor (double x) x)) (Z.lxor y z) in
      [row a b c d; row b c d a; row c d a b; row d a b c]
  | _ => c
  end.

Definition mix_columns (s : list Z) : list Z := concat (mix_column <$> groups 4 4 s).

Definition round (last : bool) (s rk : list Z) : list Z :=
  let s := shift_rows (sub <$> s) in
  zip_with Z.lxor (if last then s else mix_columns s) rk.

(** One block, as bytes. *)
Definition encrypt (key block : bytes) : bytes :=
  match round_keys key with
  | k0 :: ks =>
      let s := zip_with Z.lxor (u8 <$> block) k0 in
      let s := foldl (round false) s (take 13 ks) in
      of_u8 <$> round true s (default [] (ks !! 13%nat))
  | [] => []
  end.

End Aes.

(** ** GCM *)

Module Gcm.

(** The field with 2^128 elements, in the bit order of GCM. *)
Fixpoint gmul (bits : nat) (x z v : Z) : Z :=
  match bits with
  | O => z
  | S n =>
      let z := if Z.testbit x (Z.of_nat n) then Z.lxor z v else z in
      let v := if Z.odd v then Z.lxor (Z.div2 v) (Z.shiftl 0xe1 120) else Z.div2 v in
      gmul n x z v
  end.

Definition pad16 (l : bytes) : bytes :=
  l ++ replicate (Z.to_nat ((- Z.of_nat (length l)) mod 16)) Byte.x00.

Definition ghash (h : Z) (data : bytes) : Z :=
  foldl (fun y block => gmul 128 (Z.lxor y (be_decode block)) 0 h) 0
    (Aes.groups (length data) 16 data).

(** Counter block [i] of a nonce; block 1 masks the tag. *)
Definition counter_block (nonce : bytes) (i : Z) : bytes := nonce ++ be_encode 4 i.

Fixpoint keystream (key nonce : bytes) (i : Z) (blocks : nat) : bytes :=
  match blocks with
  | O => []
  | S n => Aes.encrypt key (counter_block nonce i) ++ keystream key nonce (i + 1) n
  end.

(** Longer streams than the mask are cut by [zip_with]; the mask is padded so
    that its length does not depend on the cipher. *)
Definition mask (key nonce : bytes) (n : nat) : bytes :=
  take n (keystream key nonce 2 (n / 16 + 1) ++ replicate n Byte.x00).

Definition ctr (key nonce data : bytes) : bytes :=
  zip_with xor_byte data (mask key nonce (length data)).

Definition tag (key nonce ct : bytes) : bytes :=
  let h := be_decode (Aes.encrypt key (replicate 16 Byte.x00)) in
  let s := ghash h (pad16 ct ++ be_encode 8 0 ++ be_encode 8 (8 * Z.of_nat (length ct))) in
  be_encode 16 (Z.lxor s (be_decode (Aes.encrypt key (counter_block nonce 1)))).

Definition Seal (key nonce pt : bytes) : bytes :=
  let ct := ctr key nonce pt in ct ++ tag key nonce ct.

Definition Open (key nonce sealed : bytes) : option bytes :=
  if (length sealed <? 16)%nat then None else
  let ct := take (length sealed - 16) sealed in
  if bool_decide (drop (length sealed - 16) sealed = tag key nonce ct)
  then Some (ctr key nonce ct) else None.

Lemma mask_length key nonce n : length (mask key nonce n) = n.
Proof. unfold mask. rewrite length_take, length_app, length_replicate. lia. Qed.

Lemma ctr_length key nonce data : length (ctr key nonce data) = length data.
Proof. unfold ctr. rewrite length_zip_with, mask_length. lia. Qed.

Lemma zip_xor_twice (l m : bytes) :
  length l = length m -> zip_with xor_byte (zip_with xor_byte l m) m = l.
Proof.
  revert m. induction l as [|a l IH]; intros [|b m]; cbn [zip_with length]; intros Hl; try done.
  by rewrite xor_byte_twice, IH by lia.
Qed.

(** Encryption is a mask, so it undoes itself. *)
Lemma ctr_twice key nonce data : ctr key nonce (ctr key nonce data) = data.
Proof.
  unfold ctr at 1. rewrite ctr_length. unfold ctr. apply zip_xor_twice.
  symmetry. apply mask_length.
Qed.

Lemma tag_length key nonce ct : length (tag key nonce ct) = 16%nat.
Proof. apply be_encode_length. Qed.

Lemma Seal_length key nonce pt : length (Seal key nonce pt) = (length pt + 16)%nat.
Proof. unfold Seal. by rewrite length_app, ctr_length, tag_length. Qed.

Lemma Open_Seal key nonce pt : Open key nonce (Seal key nonce pt) = Some pt.
Proof.
  unfold Open. rewrite Seal_length, (proj2 (Nat.ltb_ge _ _)) by lia.
  replace (length pt + 16 - 16)%nat with (length (ctr key nonce pt)) by (rewrite ctr_length; lia).
  unfold Seal. rewrite take_app_length, drop_app_length, bool_decide_eq_true_2 by done.
  by rewrite ctr_twice.
Qed.

Lemma Open_Some key nonce sealed pt :
  Open key nonce sealed = Some pt -> sealed = Seal key nonce pt.
Proof.
  unfold Open. destruct (length sealed <? 16)%nat; [discriminate|].
  case_bool_decide as Ht; [|discriminate]. intros Hs.
  assert (pt = ctr key nonce (take (length sealed - 16) sealed)) as -> by congruence.
  unfold Seal. rewrite ctr_twice, <- Ht. symmetry. apply take_drop.
Qed.

End Gcm.

(** Published vectors: HMAC (RFC 4231, case 2) and GCM with a zero key (cases 13 and 14). *)
Example hmac_vector :
  hex_encode (hmac (bs "Jefe") (bs "what do ya want for nothing?")) =
  bs "5bdcc146bf60754e6a042426089575c75a003f089d2739839dec58b964ec3843".
Proof. by vm_compute. Qed.

Example gcm_vector_empty :
  hex_encode (Gcm.Seal (replicate 32 Byte.x00) (replicate 12 Byte.x00) []) =
  bs "530f8afbc74536b9a963b4f1c4cb738b".
Proof. by vm_compute. Qed.

Example gcm_vector_block :
  hex_encode (Gcm.Seal (replicate 32 Byte.x00) (replicate 12 Byte.x00) (replicate 16 Byte.x00)) =
  bs "cea7403d4d606b6e074ec5d3baf39d18d0d1c8a799996bf0265b98b5d48ab919".
Proof. by vm_compute. Qed.
