(* ===== verification/Crypto.v ===== *)
(** * Cryptographic identity (core/crypto/identity.go, core/crypto/signing.go)

    SHA-256 is the computed function of Sha256.v; Ed25519 is an interface,
    [Ed25519], with the documented behaviour of Go's crypto/ed25519 (key and
    signature sizes, a signature made with a key verifies under its public
    half).  Unforgeability is not assumed: the theorems speak about what
    verifies. *)

From S2P Require Import Prelude GoStrings Encoding Sha256.

Definition PublicKeySize : nat := 32.
Definition PrivateKeySize : nat := 64.
Definition SeedSize : nat := 32.
Definition SignatureSize : nat := 64.

(** A private key is the seed followed by the public key. *)
Class Ed25519 := {
  ed_public : bytes -> bytes;
  ed_sign : bytes -> bytes -> bytes;
  ed_verify : bytes -> bytes -> bytes -> bool;
  ed_public_length : forall seed, length (ed_public seed) = PublicKeySize;
  ed_sign_length : forall priv m, length (ed_sign priv m) = SignatureSize;
  ed_verify_length : forall pub m sig,
    ed_verify pub m sig = true -> length sig = SignatureSize;
  ed_verify_sign : forall seed m, length seed = SeedSize ->
    ed_verify (ed_public seed) m (ed_sign (seed ++ ed_public seed) m) = true
}.

Definition KeyExportPrefix : bytes := bs "altnet-key-1:".

Record Identity := MkIdentity { PublicKey : bytes; PrivateKey : bytes }.

#[global] Instance Identity_eq_dec : EqDecision Identity.
Proof. solve_decision. Defined.

Inductive crypto_error :=
| ErrRand | ErrMkdir | ErrWriteFile | ErrReadFile | ErrKeyHex | ErrKeySize
| ErrKeyPrefix | ErrKeyBase64 | ErrKeyLength | ErrKeyChecksum
| ErrBadSignature | ErrPubHex | ErrPubSize.

#[global] Instance crypto_error_eq_dec : EqDecision crypto_error.
Proof. solve_decision. Defined.

(** The files of the host, by path. *)
Abbreviation files := (gmap bytes bytes).

(** How an [os.WriteFile] ends: done, or an error that leaves the file as it
    was or with some other content. *)
Inductive write_end := Written | WriteFailed (left : option bytes).

Definition WriteFile (w : write_end) (path data : bytes) (fs : files) : bool * files :=
  match w with
  | Written => (true, <[path := data]> fs)
  | WriteFailed None => (false, fs)
  | WriteFailed (Some l) => (false, <[path := l]> fs)
  end.

Section Crypto.
Context `{Ed25519}.

Definition NewKeyFromSeed (seed : bytes) : bytes := seed ++ ed_public seed.
Definition Public (priv : bytes) : bytes := drop SeedSize priv.
Definition Seed (priv : bytes) : bytes := take SeedSize priv.

(** [rand] is the seed the system's random source gives, [None] its error. *)
Definition NewIdentity (rand : option bytes) : result crypto_error Identity :=
  match rand with
  | None => Err ErrRand
  | Some seed => Ok (MkIdentity (ed_public seed) (NewKeyFromSeed seed))
  end.

Definition PublicKeyToID (pub : bytes) : bytes := hex_encode (sha256 pub).

Definition Identity_ID (id : Identity) : bytes := PublicKeyToID (PublicKey id).

Definition ShortID (id : Identity) : bytes :=
  let full := Identity_ID id in
  if (length full <=? 8)%nat then full else take 8 full.

Definition Save (id : Identity) (mkdir_ok : bool) (w : write_end) (path : bytes) (fs : files)
  : result crypto_error unit * files :=
  if negb mkdir_ok then (Err ErrMkdir, fs) else
  let data := hex_encode (PrivateKey id) in
  let '(ok, fs') := WriteFile w path data fs in
  if ok then (Ok tt, fs') else (Err ErrWriteFile, fs').

Definition Load (path : bytes) (fs : files) : result crypto_error Identity :=
  match fs !! path with
  | None => Err ErrReadFile
  | Some data =>
      match hex_decode data with
      | None => Err ErrKeyHex
      | Some raw =>
          if negb (length raw =? PrivateKeySize)%nat then Err ErrKeySize
          else Ok (MkIdentity (Public raw) raw)
      end
  end.

Definition Export (id : Identity) : bytes :=
  let seed := Seed (PrivateKey id) in
  let sum := sha256 seed in
  let body := seed ++ take 4 sum in
  KeyExportPrefix ++ b64_encode false body.

Definition ImportKey (s : bytes) : result crypto_error Identity :=
  let s := TrimSpace s in
  if negb (HasPrefix s KeyExportPrefix) then Err ErrKeyPrefix else
  match b64_decode false (TrimPrefix s KeyExportPrefix) with
  | None => Err ErrKeyBase64
  | Some body =>
      if negb (length body =? 32 + 4)%nat then Err ErrKeyLength else
      let seed := take 32 body in
      let gotSum := drop 32 (take 36 body) in
      let wantSum := sha256 seed in
      if negb (bool_decide (gotSum = take 4 wantSum)) then Err ErrKeyChecksum else
      let priv := NewKeyFromSeed seed in
      Ok (MkIdentity (Public priv) priv)
  end.

Definition LoadOrCreate (path : bytes) (rand : option bytes) (mkdir_ok : bool) (w : write_end)
    (fs : files) : result crypto_error Identity * files :=
  if bool_decide (is_Some (fs !! path)) then (Load path fs, fs) else
  match NewIdentity rand with
  | Err e => (Err e, fs)
  | Ok id =>
      match Save id mkdir_ok w path fs with
      | (Err e, fs') => (Err e, fs')
      | (Ok _, fs') => (Ok id, fs')
      end
  end.

Definition Sign (id : Identity) (data : bytes) : bytes :=
  hex_encode (ed_sign (PrivateKey id) data).

(** [ed25519.Verify] panics on a public key of another size; every caller
    passes one that came out of [PublicKeyFromHex] ([PublicKeyFromHex_length]). *)
Definition Verify (pub data sigHex : bytes) : result crypto_error unit :=
  match hex_decode sigHex with
  | None => Err ErrBadSignature
  | Some sig => if negb (ed_verify pub data sig) then Err ErrBadSignature else Ok tt
  end.

Definition PublicKeyFromHex (s : bytes) : result crypto_error bytes :=
  match hex_decode s with
  | None => Err ErrPubHex
  | Some raw => if negb (length raw =? PublicKeySize)%nat then Err ErrPubSize else Ok raw
  end.

Definition PublicKeyToHex (pub : bytes) : bytes := hex_encode pub.

(** * Facts *)

(** The identities the program works with: both keys belong to one seed. *)
Definition id_wf (id : Identity) : Prop :=
  exists seed, length seed = SeedSize /\ id = MkIdentity (ed_public seed) (NewKeyFromSeed seed).

Lemma Public_NewKey seed : length seed = SeedSize -> Public (NewKeyFromSeed seed) = ed_public seed.
Proof. intros Hl. unfold Public, NewKeyFromSeed. rewrite <- Hl. apply drop_app_length. Qed.

Lemma Seed_NewKey seed : length seed = SeedSize -> Seed (NewKeyFromSeed seed) = seed.
Proof. intros Hl. unfold Seed, NewKeyFromSeed. rewrite <- Hl. apply take_app_length. Qed.

Lemma NewKey_length seed : length seed = SeedSize -> length (NewKeyFromSeed seed) = PrivateKeySize.
Proof. intros Hl. unfold NewKeyFromSeed. by rewrite length_app, ed_public_length, Hl. Qed.

Lemma PublicKeyToID_length pub : length (PublicKeyToID pub) = 64%nat.
Proof. unfold PublicKeyToID. by rewrite hex_encode_length, sha256_length. Qed.

Lemma PublicKeyFromHex_length s pub : PublicKeyFromHex s = Ok pub -> length pub = PublicKeySize.
Proof.
  unfold PublicKeyFromHex. destruct (hex_decode s); [|done].
  destruct (Nat.eqb_spec (length l) PublicKeySize); simpl; [|done]. by intros [= <-].
Qed.

Lemma PublicKeyFromHex_ToHex pub :
  length pub = PublicKeySize -> PublicKeyFromHex (PublicKeyToHex pub) = Ok pub.
Proof.
  intros Hl. unfold PublicKeyFromHex, PublicKeyToHex. rewrite hex_decode_encode.
  rewrite Hl. done.
Qed.

(** What [Sign] makes, [Verify] accepts. *)
Lemma Verify_Sign id data : id_wf id -> Verify (PublicKey id) data (Sign id data) = Ok tt.
Proof.
  intros (seed & Hl & ->). unfold Verify, Sign. rewrite hex_decode_encode. simpl.
  unfold NewKeyFromSeed. by rewrite ed_verify_sign.
Qed.

Lemma id_wf_public id : id_wf id -> length (PublicKey id) = PublicKeySize.
Proof. intros (seed & _ & ->). apply ed_public_length. Qed.

Lemma Load_Save id path fs fs' :
  id_wf id -> Save id true Written path fs = (Ok tt, fs') -> Load path fs' = Ok id.
Proof.
  intros (seed & Hl & ->) [= <-]. unfold Load. rewrite lookup_insert_eq, hex_decode_encode. simpl.
  rewrite NewKey_length, Public_NewKey by done. done.
Qed.

Lemma b64_encode_plain padded l : forallb plain (b64_encode padded l) = true.
Proof.
  apply b64_encode_all; [|done]. intros n Hn. rewrite <- (Z2Nat.id n) by lia.
  assert (Z.to_nat n < 64)%nat as Hlt by lia. revert Hlt. generalize (Z.to_nat n). clear.
  intros k Hk. do 64 (destruct k as [|k]; [by vm_compute|]). lia.
Qed.

Lemma Export_trimmed id : TrimSpace (Export id) = Export id.
Proof. apply TrimSpace_plain. unfold Export. rewrite forallb_app, b64_encode_plain. done. Qed.

Lemma ImportKey_wf s id : ImportKey s = Ok id -> id_wf id.
Proof.
  unfold ImportKey. destruct (negb _); [done|].
  destruct (b64_decode false _) as [body|]; [|done].
  destruct (Nat.eqb_spec (length body) (32 + 4)) as [Hl|]; simpl; [|done].
  destruct (bool_decide _); simpl; [|done]. intros [= <-].
  assert (length (take 32 body) = SeedSize) as Hs by (rewrite length_take; unfold SeedSize; lia).
  exists (take 32 body). by rewrite Public_NewKey.
Qed.

Lemma ImportKey_Export id : id_wf id -> ImportKey (Export id) = Ok id.
Proof.
  intros (seed & Hl & ->). unfold ImportKey. rewrite Export_trimmed.
  unfold Export. simpl PrivateKey. rewrite Seed_NewKey by done.
  rewrite (proj2 (HasPrefix_spec _ _)) by eauto. simpl negb. cbv iota.
  rewrite TrimPrefix_app, b64_decode_encode.
  assert (length (seed ++ take 4 (sha256 seed)) = 36%nat) as Hb
    by (rewrite length_app, length_take, sha256_length; unfold SeedSize in Hl; lia).
  rewrite Hb. simpl negb. cbv iota.
  replace (take 36 _) with (seed ++ take 4 (sha256 seed)) by (symmetry; apply take_ge; lia).
  unfold SeedSize in Hl. rewrite <- Hl, take_app_length, drop_app_length.
  rewrite bool_decide_eq_true_2 by done. simpl. by rewrite Public_NewKey.
Qed.

(** A key string that was changed after export, but whose seed part and checksum
    part still decode, is rejected unless the checksum of the new seed is the new
    checksum. *)
Lemma ImportKey_checksum seed sum :
  length seed = SeedSize -> length sum = 4%nat -> sum <> take 4 (sha256 seed) ->
  ImportKey (KeyExportPrefix ++ b64_encode false (seed ++ sum)) = Err ErrKeyChecksum.
Proof.
  intros Hl Hs Hne. unfold ImportKey. rewrite TrimSpace_plain
    by (rewrite forallb_app, b64_encode_plain; done).
  rewrite (proj2 (HasPrefix_spec _ _)) by eauto. simpl negb. cbv iota.
  rewrite TrimPrefix_app, b64_decode_encode.
  assert (length (seed ++ sum) = 36%nat) as Hb by (rewrite length_app; unfold SeedSize in Hl; lia).
  rewrite Hb. simpl negb. cbv iota.
  replace (take 36 _) with (seed ++ sum) by (symmetry; apply take_ge; lia).
  unfold SeedSize in Hl. rewrite <- Hl, take_app_length, drop_app_length.
  by rewrite bool_decide_eq_false_2.
Qed.

(** (identity.go, [Export] and [ImportKey]): the exported key string of an
    identity imports as that identity; a string whose checksum does not fit its
    seed is refused; and whatever imports is a pair of keys of one 32-byte seed. *)
Theorem key_export_roundtrip :
  (forall id, id_wf id -> ImportKey (Export id) = Ok id)
  /\ (forall seed sum, length seed = SeedSize -> length sum = 4%nat ->
        ImportKey (KeyExportPrefix ++ b64_encode false (seed ++ sum))
        = if bool_decide (sum = take 4 (sha256 seed))
          then Ok (MkIdentity (ed_public seed) (NewKeyFromSeed seed)) else Err ErrKeyChecksum)
  /\ (forall s id, ImportKey s = Ok id -> id_wf id).
Proof.
  split_and!; [apply ImportKey_Export| |apply ImportKey_wf].
  intros seed sum Hl Hs. case_bool_decide as E; [|by apply ImportKey_checksum].
  pose proof (ImportKey_Export (MkIdentity (ed_public seed) (NewKeyFromSeed seed))) as HI.
  unfold Export in HI. simpl PrivateKey in HI. rewrite Seed_NewKey in HI by done.
  rewrite E. apply HI. by exists seed.
Qed.

(** (identity.go, [LoadOrCreate]): on a path with no file the first start
    creates an identity from a random seed and stores it; every later start, with
    whatever random bytes, gets the same identity and leaves the files alone. *)
Theorem identity_survives_restart (path seed : bytes) (fs : files) :
  fs !! path = None -> length seed = SeedSize ->
  exists id fs',
    LoadOrCreate path (Some seed) true Written fs = (Ok id, fs')
    /\ PublicKey id = ed_public seed
    /\ forall rand mkdir_ok w, LoadOrCreate path rand mkdir_ok w fs' = (Ok id, fs').
Proof.
  intros Hp Hl. unfold LoadOrCreate at 1. rewrite bool_decide_eq_false_2
    by (rewrite Hp; apply is_Some_None). simpl.
  eexists _, _. split_and!; [reflexivity|done|]. intros rand mkdir_ok w.
  unfold LoadOrCreate. rewrite bool_decide_eq_true_2 by (rewrite lookup_insert_eq; eauto).
  f_equal. apply (Load_Save _ path fs); [|done]. by exists seed.
Qed.

End Crypto.

(** ** A concrete instance

    A stand-in for Ed25519 with the same sizes, in which the signature is
    recomputable from the public key, for evaluating the definitions. *)

Definition toy_sign (pub m : bytes) : bytes :=
  take 32 (sha256 (pub ++ m)) ++ take 32 (sha256 (m ++ pub)).

#[global, program] Instance toy_Ed25519 : Ed25519 := {|
  ed_public seed := sha256 seed;
  ed_sign priv m := toy_sign (drop SeedSize priv) m;
  ed_verify pub m sig := bool_decide (sig = toy_sign pub m)
|}.
Next Obligation. apply sha256_length. Qed.
Next Obligation. intros. unfold toy_sign. by rewrite length_app, !length_take, !sha256_length. Qed.
Next Obligation.
  intros pub m sig ->%bool_decide_eq_true_1. unfold toy_sign.
  by rewrite length_app, !length_take, !sha256_length.
Qed.
Next Obligation.
  intros seed m Hl. simpl. apply bool_decide_eq_true_2. by rewrite <- Hl, drop_app_length.
Qed.

(** The identity made from a seed of equal bytes. *)
Definition toy_identity (b : byte) : Identity :=
  MkIdentity (ed_public (replicate 32 b)) (NewKeyFromSeed (replicate 32 b)).

Lemma toy_identity_wf b : id_wf (toy_identity b).
Proof. by exists (replicate 32 b). Qed.

Lemma identity_survives_restart_witness :
  exists id fs',
    LoadOrCreate (bs "node.key") (Some (replicate 32 Byte.x07)) true Written ∅ = (Ok id, fs')
    /\ forall rand mkdir_ok w, LoadOrCreate (bs "node.key") rand mkdir_ok w fs' = (Ok id, fs').
Proof.
  destruct (identity_survives_restart (bs "node.key") (replicate 32 Byte.x07) ∅)
    as (id & fs' & ? & _ & ?); [done|done|]. by exists id, fs'.
Defined.

Lemma key_export_roundtrip_witness :
  ImportKey (Export (toy_identity Byte.x01)) = Ok (toy_identity Byte.x01).
Proof. apply key_export_roundtrip, toy_identity_wf. Defined.
