(* ===== verification/Secure.v ===== *)
(** * The secure transport (core/secure/secure.go)

    Every peer connection runs over a [Conn]: a handshake that exchanges signed
    ephemeral X25519 keys, and AES-256-GCM frames with a counter nonce per
    direction.  HMAC, AES-GCM and SHA-256 are the computed functions of AesGcm.v
    and Sha256.v; Ed25519 and X25519 are interfaces with their documented
    behaviour.  Nothing is assumed about what an attacker can compute: the
    theorems about arbitrary incoming bytes say which bytes are accepted.

    The raw [net.Conn] of a [Conn] is the bytes that will still arrive from the
    other side ([raw_in]) and the bytes written so far ([raw_out]).  A read past
    the end of [raw_in] ends with [ErrEOF] or [ErrUnexpectedEOF], as on a closed
    connection; on a connection that is still open it blocks, which the two-party
    system of [Pipe] expresses by not taking the step. *)

From S2P Require Import Prelude GoStrings Encoding Sha256 AesGcm Crypto.

Definition HandshakeMessageSize : nat := 32 + 32 + 64.
Definition MaxFrameSize : Z := Z.shiftl 1 20 + 64.

Inductive secure_error :=
| ErrEOF | ErrUnexpectedEOF | ErrFrameSize (size : Z) | ErrDecrypt | ErrFrameTooLarge (n : nat)
| ErrRawWrite | ErrDeadline | ErrGenerateKey | ErrIdentityMismatch | ErrBadResponderSig
| ErrBadInitiatorSig | ErrBadRemoteEph | ErrECDH | ErrLTSize | ErrEphSize | ErrSigSize.

#[global] Instance secure_error_eq_dec : EqDecision secure_error.
Proof. solve_decision. Defined.

Definition uint64 (z : Z) : Z := z mod 2 ^ 64.

(** [crypto/ecdh] on X25519: a private key's public half, and the shared secret,
    [None] where the result would be the all-zero value. *)
Class X25519 := {
  x_public : bytes -> bytes;
  x_ecdh : bytes -> bytes -> option bytes;
  x_public_length : forall priv, length (x_public priv) = 32%nat;
  x_ecdh_comm : forall a b, x_ecdh a (x_public b) = x_ecdh b (x_public a);
  x_ecdh_honest : forall a b, is_Some (x_ecdh a (x_public b))
}.

(** ** Connections *)

Record Conn := MkConn {
  raw_in : bytes;
  raw_out : bytes;
  sendKey : bytes;
  recvKey : bytes;
  sendCount : Z;
  recvCount : Z;
  remotePub : bytes;
  readBuf : bytes
}.

Definition RemotePublicKey (c : Conn) : bytes := remotePub c.

Definition set_raw_in (r : bytes) (c : Conn) : Conn :=
  MkConn r (raw_out c) (sendKey c) (recvKey c) (sendCount c) (recvCount c) (remotePub c) (readBuf c).

Definition set_raw_out (r : bytes) (c : Conn) : Conn :=
  MkConn (raw_in c) r (sendKey c) (recvKey c) (sendCount c) (recvCount c) (remotePub c) (readBuf c).

Definition set_sendCount (n : Z) (c : Conn) : Conn :=
  MkConn (raw_in c) (raw_out c) (sendKey c) (recvKey c) n (recvCount c) (remotePub c) (readBuf c).

Definition set_recvCount (n : Z) (c : Conn) : Conn :=
  MkConn (raw_in c) (raw_out c) (sendKey c) (recvKey c) (sendCount c) n (remotePub c) (readBuf c).

Definition set_readBuf (b : bytes) (c : Conn) : Conn :=
  MkConn (raw_in c) (raw_out c) (sendKey c) (recvKey c) (sendCount c) (recvCount c) (remotePub c) b.

(** [io.ReadFull] on a raw connection. *)
Definition readFull (n : nat) (s : bytes) : result secure_error bytes * bytes :=
  if (n <=? length s)%nat then (Ok (take n s), drop n s)
  else (Err (if bool_decide (s = []) then ErrEOF else ErrUnexpectedEOF), []).

(** How one [raw.Write] ends: all of it, or an error after some bytes. *)
Inductive raw_end := RawDone | RawFailed (sent : nat).

Definition raw_write (w : raw_end) (data out : bytes) : bool * bytes :=
  match w with
  | RawDone => (true, out ++ data)
  | RawFailed k => (false, out ++ take k data)
  end.

(** [nonceFor]: the counter, big-endian in the last 8 of 12 bytes. *)
Definition nonceFor (counter : Z) : bytes := replicate 4 Byte.x00 ++ be_encode 8 counter.

Definition readNextFrame (c : Conn) : result secure_error unit * Conn :=
  match readFull 4 (raw_in c) with
  | (Err e, r) => (Err e, set_raw_in r c)
  | (Ok lenBuf, r) =>
      let c := set_raw_in r c in
      let size := be_decode lenBuf in
      if (size =? 0) || (MaxFrameSize <? size) then (Err (ErrFrameSize size), c) else
      match readFull (Z.to_nat size) (raw_in c) with
      | (Err e, r) => (Err e, set_raw_in r c)
      | (Ok ct, r) =>
          let c := set_raw_in r c in
          let nonce := nonceFor (recvCount c) in
          let c := set_recvCount (uint64 (recvCount c + 1)) c in
          match Gcm.Open (recvKey c) nonce ct with
          | None => (Err ErrDecrypt, c)
          | Some pt => (Ok tt, set_readBuf (readBuf c ++ pt) c)
          end
      end
  end.

(** [bytes.Buffer.Read] into a slice of [n] bytes. *)
Definition buffer_read (n : nat) (buf : bytes) : result secure_error bytes * bytes :=
  if bool_decide (buf = []) then
    if (n =? 0)%nat then (Ok [], []) else (Err ErrEOF, [])
  else (Ok (take n buf), drop n buf).

(** [Read] of up to [n] bytes: what it copies, or its error. *)
Definition Read (n : nat) (c : Conn) : result secure_error bytes * Conn :=
  let '(err, c) := if bool_decide (readBuf c = []) then readNextFrame c else (Ok tt, c) in
  match err with
  | Err e => (Err e, c)
  | Ok _ => let '(r, b) := buffer_read n (readBuf c) in (r, set_readBuf b c)
  end.

(** [Write] of [p]; [w1] and [w2] are the ends of its two raw writes.  The counter
    moves before the size is checked. *)
Definition Write (w1 w2 : raw_end) (p : bytes) (c : Conn) : result secure_error nat * Conn :=
  let nonce := nonceFor (sendCount c) in
  let c := set_sendCount (uint64 (sendCount c + 1)) c in
  let ct := Gcm.Seal (sendKey c) nonce p in
  if MaxFrameSize <? Z.of_nat (length ct) then (Err (ErrFrameTooLarge (length ct)), c) else
  let lenBuf := be_encode 4 (Z.of_nat (length ct)) in
  match raw_write w1 lenBuf (raw_out c) with
  | (false, o) => (Err ErrRawWrite, set_raw_out o c)
  | (true, o) =>
      let c := set_raw_out o c in
      match raw_write w2 ct (raw_out c) with
      | (false, o) => (Err ErrRawWrite, set_raw_out o c)
      | (true, o) => (Ok (length p), set_raw_out o c)
      end
  end.

(** ** Key derivation (RFC 5869) *)

(** The loop of [hkdf]: [i] is the byte counter, [prev] the last block. *)
Fixpoint hkdf_loop (fuel : nat) (prk info : bytes) (outLen : nat) (i : Z) (prev out : bytes) : bytes :=
  match fuel with
  | O => out
  | S fuel =>
      if negb (length out <? outLen)%nat then out else
      let prev := hmac prk (prev ++ info ++ [of_u8 i]) in
      hkdf_loop fuel prk info outLen ((i + 1) mod 256) prev (out ++ prev)
  end.

Definition hkdf (ikm : bytes) (salt : option bytes) (info : bytes) (outLen : nat) : bytes :=
  let salt := default (replicate 32 Byte.x00) salt in
  let prk := hmac salt ikm in
  take outLen (hkdf_loop outLen prk info outLen 1 [] []).

(** ** Handshake *)

Definition writeHandshake (w : raw_end) (ltPub ephPub sig out : bytes)
  : result secure_error unit * bytes :=
  if negb (length ltPub =? PublicKeySize)%nat then (Err ErrLTSize, out)
  else if negb (length ephPub =? 32)%nat then (Err ErrEphSize, out)
  else if negb (length sig =? SignatureSize)%nat then (Err ErrSigSize, out)
  else
    let buf := ltPub ++ ephPub ++ sig in
    match raw_write w buf out with
    | (true, out) => (Ok tt, out)
    | (false, out) => (Err ErrRawWrite, out)
    end.

Definition readHandshake (s : bytes) : result secure_error (bytes * bytes * bytes) * bytes :=
  match readFull HandshakeMessageSize s with
  | (Err e, r) => (Err e, r)
  | (Ok buf, r) =>
      (Ok (take 32 buf, take 32 (drop 32 buf), take 64 (drop 64 buf)), r)
  end.

Section Handshake.
Context `{Ed25519, X25519}.

Definition finishHandshake (raw_in raw_out ephPriv theirEphBytes remotePub : bytes)
    (isInitiator : bool) : result secure_error Conn :=
  if negb (length theirEphBytes =? 32)%nat then Err ErrBadRemoteEph else
  match x_ecdh ephPriv theirEphBytes with
  | None => Err ErrECDH
  | Some shared =>
      let myEph := x_public ephPriv in
      let transcript := if isInitiator then myEph ++ theirEphBytes else theirEphBytes ++ myEph in
      let keys := hkdf shared (Some transcript) (bs "altnet-aead-v1") 64 in
      let keyI2R := take 32 keys in
      let keyR2I := take 32 (drop 32 keys) in
      let '(sendKey, recvKey) := if isInitiator then (keyI2R, keyR2I) else (keyR2I, keyI2R) in
      Ok (MkConn raw_in raw_out sendKey recvKey 0 0 remotePub [])
  end.

(** [bytes.Equal(theirLT, expectedRemote)] unless no identity is required. *)
Definition mismatch (expectedRemote : option bytes) (theirLT : bytes) : bool :=
  match expectedRemote with
  | None => false
  | Some k => negb (bool_decide (theirLT = k))
  end.

(** [Handshake] on a connection that delivers [s]: its result and the bytes it
    has written.  [deadline_ok] is the outcome of [SetDeadline], [eph] the key
    the random source gives, [w] the end of the write of our message. *)
Definition Handshake (deadline_ok : bool) (eph : option bytes) (w : raw_end) (s : bytes)
    (myKey : bytes) (isInitiator : bool) (expectedRemote : option bytes)
  : result secure_error Conn * bytes :=
  if negb deadline_ok then (Err ErrDeadline, []) else
  match eph with
  | None => (Err ErrGenerateKey, [])
  | Some ephPriv =>
      let ephPub := x_public ephPriv in
      let myLT := Public myKey in
      if isInitiator then
        let sig := ed_sign myKey ephPub in
        match writeHandshake w myLT ephPub sig [] with
        | (Err e, out) => (Err e, out)
        | (Ok _, out) =>
            match readHandshake s with
            | (Err e, _) => (Err e, out)
            | (Ok (theirLT, theirEph, theirSig), r) =>
                if mismatch expectedRemote theirLT then (Err ErrIdentityMismatch, out)
                else if negb (ed_verify theirLT (theirEph ++ ephPub) theirSig)
                then (Err ErrBadResponderSig, out)
                else (finishHandshake r out ephPriv theirEph theirLT true, out)
            end
        end
      else
        match readHandshake s with
        | (Err e, _) => (Err e, [])
        | (Ok (theirLT, theirEph, theirSig), r) =>
            if mismatch expectedRemote theirLT then (Err ErrIdentityMismatch, [])
            else if negb (ed_verify theirLT theirEph theirSig) then (Err ErrBadInitiatorSig, [])
            else
              let sig := ed_sign myKey (ephPub ++ theirEph) in
              match writeHandshake w myLT ephPub sig [] with
              | (Err e, out) => (Err e, out)
              | (Ok _, out) => (finishHandshake r out ephPriv theirEph theirLT false, out)
              end
        end
  end.

End Handshake.

(** * Key derivation is RFC 5869 *)

(** T(n) of the RFC, with the counter byte written as it is in one byte. *)
Fixpoint hkdf_T (prk info : bytes) (n : nat) : bytes :=
  match n with
  | O => []
  | S m => hmac prk (hkdf_T prk info m ++ info ++ [of_u8 (Z.of_nat n)])
  end.

(** T(1) | T(2) | ... | T(n). *)
Definition hkdf_blocks (prk info : bytes) (n : nat) : bytes := concat (hkdf_T prk info <$> seq 1 n).

Lemma hkdf_T_length prk info n : (0 < n)%nat -> length (hkdf_T prk info n) = 32%nat.
Proof. destruct n; [lia|]. intros _. apply hmac_length. Qed.

Lemma hkdf_blocks_S prk info n :
  hkdf_blocks prk info (S n) = hkdf_blocks prk info n ++ hkdf_T prk info (S n).
Proof.
  unfold hkdf_blocks. rewrite seq_S, fmap_app, concat_app. simpl concat. by rewrite app_nil_r.
Qed.

Lemma hkdf_blocks_length prk info n : length (hkdf_blocks prk info n) = (32 * n)%nat.
Proof.
  induction n as [|n IH]; [done|].
  rewrite hkdf_blocks_S, length_app, IH, hkdf_T_length by lia. lia.
Qed.

Lemma of_u8_mod z : of_u8 (z mod 256) = of_u8 z.
Proof. unfold of_u8. by rewrite Z.mod_mod by lia. Qed.

Lemma hkdf_loop_spec fuel prk info outLen k :
  (outLen <= 32 * (k + fuel))%nat ->
  exists n, hkdf_loop fuel prk info outLen (Z.of_nat (S k) mod 256) (hkdf_T prk info k)
              (hkdf_blocks prk info k) = hkdf_blocks prk info n
            /\ (outLen <= 32 * n)%nat /\ (k = n \/ 32 * n < outLen + 32)%nat.
Proof.
  revert k. induction fuel as [|fuel IH]; intros k Hk; cbn [hkdf_loop].
  - exists k. split; [done|]. lia.
  - rewrite hkdf_blocks_length.
    destruct (Nat.ltb_spec (32 * k) outLen) as [Hlt|Hge]; cbn [negb]; [|exists k; split; [done|lia]].
    rewrite of_u8_mod.
    change (hmac prk (hkdf_T prk info k ++ info ++ [of_u8 (Z.of_nat (S k))]))
      with (hkdf_T prk info (S k)).
    rewrite <- hkdf_blocks_S.
    replace ((Z.of_nat (S k) mod 256 + 1) mod 256) with (Z.of_nat (S (S k)) mod 256)
      by (rewrite Zplus_mod_idemp_l; f_equal; lia).
    destruct (IH (S k)) as (n & -> & ? & ?); [lia|]. exists n. split; [done|]. lia.
Qed.

Lemma take_blocks prk info outLen n m :
  (outLen <= 32 * n)%nat -> (n <= m)%nat ->
  take outLen (hkdf_blocks prk info m) = take outLen (hkdf_blocks prk info n).
Proof.
  intros Hn. induction 1 as [|m Hm IH]; [done|].
  rewrite hkdf_blocks_S, take_app_le by (rewrite hkdf_blocks_length; lia). done.
Qed.

Lemma hkdf_spec ikm salt info outLen :
  hkdf ikm salt info outLen
  = take outLen (hkdf_blocks (hmac (default (replicate 32 Byte.x00) salt) ikm) info
                   (Z.to_nat ((Z.of_nat outLen + 31) / 32)))
  /\ length (hkdf ikm salt info outLen) = outLen.
Proof.
  unfold hkdf. set (prk := hmac _ _).
  destruct (hkdf_loop_spec outLen prk info outLen 0) as (n & Hn & Hle & Hgt); [lia|].
  change (hkdf_loop outLen prk info outLen 1 [] [] = hkdf_blocks prk info n) in Hn.
  rewrite Hn. split.
  - set (q := Z.to_nat ((Z.of_nat outLen + 31) / 32)).
    assert (outLen <= 32 * q /\ q <= n)%nat as [Hq Hqn] by (unfold q; Z.div_mod_to_equations; lia).
    by apply take_blocks.
  - rewrite length_take, hkdf_blocks_length. lia.
Qed.

(** (secure.go, [hkdf]): the loop over a one-byte counter computes the output
    of HKDF-SHA-256 as RFC 5869 defines it, for every length: the first [outLen]
    bytes of T(1) | ... | T(N) with N the number of 32-byte blocks that covers
    them, under the extracted key, an absent salt standing for 32 zero bytes. *)
Theorem hkdf_is_rfc5869 (ikm : bytes) (salt : option bytes) (info : bytes) (outLen : nat) :
  hkdf ikm salt info outLen
  = take outLen (hkdf_blocks (hmac (default (replicate 32 Byte.x00) salt) ikm) info
                   (Z.to_nat ((Z.of_nat outLen + 31) / 32)))
  /\ length (hkdf ikm salt info outLen) = outLen.
Proof. apply hkdf_spec. Qed.

(** Test case 1 of the RFC. *)
Example hkdf_vector :
  hex_encode (hkdf (replicate 22 Byte.x0b)
                (Some (of_u8 <$> seqZ 0 13)) (of_u8 <$> seqZ 240 10) 42) =
  bs "3cb25f25faacd57a90434f64d0362f2a2d2d0a90cf1a5a4c5db02d56ecc4c5bf34007208d5b887185865".
Proof. by vm_compute. Qed.

(** * Frames *)

(** The bytes of frame [i] under a key. *)
Definition frame (key : bytes) (i : Z) (pt : bytes) : bytes :=
  let ct := Gcm.Seal key (nonceFor i) pt in be_encode 4 (Z.of_nat (length ct)) ++ ct.

(** The plaintexts [Write] accepts. *)
Definition fits (p : bytes) : Prop := Z.of_nat (length p) + 16 <= MaxFrameSize.

#[global] Instance fits_dec p : Decision (fits p).
Proof. unfold fits. apply _. Defined.

Lemma nonceFor_inj i j :
  0 <= i < 2 ^ 64 -> 0 <= j < 2 ^ 64 -> nonceFor i = nonceFor j -> i = j.
Proof.
  intros Hi Hj Hn. apply app_inv_head in Hn. apply (f_equal be_decode) in Hn.
  rewrite !be_decode_encode in Hn. change (256 ^ Z.of_nat 8) with (2 ^ 64) in Hn.
  by rewrite !Z.mod_small in Hn by lia.
Qed.

Lemma readFull_app n a b : length a = n -> readFull n (a ++ b) = (Ok a, b).
Proof.
  intros <-. unfold readFull. rewrite length_app, (proj2 (Nat.leb_le _ _)) by lia.
  by rewrite take_app_length, drop_app_length.
Qed.

Lemma readFull_Ok n s a r : readFull n s = (Ok a, r) -> s = a ++ r /\ length a = n.
Proof.
  unfold readFull. destruct (Nat.leb_spec n (length s)) as [Hle|]; [|discriminate].
  intros Heq. injection Heq as <- <-. rewrite take_drop. split; [done|]. rewrite length_take. lia.
Qed.

Lemma Write_fits p c :
  fits p ->
  Write RawDone RawDone p c
  = (Ok (length p),
     set_raw_out (raw_out c ++ frame (sendKey c) (sendCount c) p)
       (set_sendCount (uint64 (sendCount c + 1)) c)).
Proof.
  intros Hf. unfold Write. cbn [sendKey set_sendCount].
  rewrite Gcm.Seal_length. unfold fits in Hf.
  rewrite (proj2 (Z.ltb_ge _ _)) by lia. unfold raw_write, frame, set_raw_out.
  rewrite Gcm.Seal_length. cbn [raw_in raw_out sendCount recvCount recvKey sendKey remotePub readBuf set_sendCount].
  by rewrite <- app_assoc.
Qed.

Lemma frame_size (ct : bytes) :
  Z.of_nat (length ct) <= MaxFrameSize ->
  be_decode (be_encode 4 (Z.of_nat (length ct))) = Z.of_nat (length ct).
Proof.
  intros Hl. rewrite be_decode_encode. apply Z.mod_small.
  assert (MaxFrameSize < 256 ^ Z.of_nat 4) by done. lia.
Qed.

(** The next frame of a connection, put into the read buffer. *)
Definition took (r pt : bytes) (c : Conn) : Conn :=
  set_readBuf (readBuf c ++ pt) (set_recvCount (uint64 (recvCount c + 1)) (set_raw_in r c)).

Lemma readNextFrame_frame c pt r :
  fits pt -> raw_in c = frame (recvKey c) (recvCount c) pt ++ r ->
  readNextFrame c = (Ok tt, took r pt c).
Proof.
  intros Hf Hin. unfold readNextFrame. rewrite Hin. unfold frame.
  pose proof (Gcm.Seal_length (recvKey c) (nonceFor (recvCount c)) pt) as Hlen.
  pose proof (Gcm.Open_Seal (recvKey c) (nonceFor (recvCount c)) pt) as Hopen.
  revert Hlen Hopen. generalize (Gcm.Seal (recvKey c) (nonceFor (recvCount c)) pt).
  intros ct Hlen Hopen. unfold fits in Hf.
  rewrite <- app_assoc, (readFull_app 4) by apply be_encode_length.
  rewrite frame_size by lia.
  rewrite (proj2 (Z.eqb_neq _ _)), (proj2 (Z.ltb_ge _ _)) by lia. cbn [orb raw_in set_raw_in].
  rewrite Nat2Z.id, readFull_app by done.
  cbn [recvCount set_raw_in set_recvCount recvKey]. by rewrite Hopen.
Qed.

Lemma readNextFrame_Ok c u c' :
  readNextFrame c = (Ok u, c') ->
  exists pt r, fits pt /\ raw_in c = frame (recvKey c) (recvCount c) pt ++ r /\ c' = took r pt c.
Proof.
  unfold readNextFrame. destruct (readFull 4 (raw_in c)) as [[lb|] r1] eqn:E1; [|discriminate].
  apply readFull_Ok in E1 as [Hin Hl4].
  destruct ((be_decode lb =? 0) || (MaxFrameSize <? be_decode lb)) eqn:Esz; [discriminate|].
  zbool. cbn [raw_in set_raw_in].
  destruct (readFull (Z.to_nat (be_decode lb)) r1) as [[ct|] r2] eqn:E2; [|discriminate].
  apply readFull_Ok in E2 as [-> Hct]. cbn [recvCount set_raw_in set_recvCount recvKey].
  destruct (Gcm.Open (recvKey c) (nonceFor (recvCount c)) ct) as [pt|] eqn:Eo; [|discriminate].
  intros Heq. injection Heq as _ <-. apply Gcm.Open_Some in Eo.
  pose proof (be_decode_range lb). pose proof (Gcm.Seal_length (recvKey c) (nonceFor (recvCount c)) pt) as Hs.
  rewrite <- Eo in Hs. exists pt, r2. unfold fits. split_and!; [lia| |done].
  rewrite Hin, app_assoc. f_equal. unfold frame. rewrite <- Eo. f_equal.
  rewrite <- Hl4, Hct, Z2Nat.id by lia. symmetry. apply be_encode_decode.
Qed.

Lemma frame_length key i pt : length (frame key i pt) = (length pt + 20)%nat.
Proof. unfold frame. rewrite length_app, be_encode_length, Gcm.Seal_length. lia. Qed.

Lemma Read_buffered n c :
  readBuf c <> [] -> Read n c = (Ok (take n (readBuf c)), set_readBuf (drop n (readBuf c)) c).
Proof.
  intros Hb. unfold Read, buffer_read. rewrite bool_decide_eq_false_2 by done. cbv iota beta.
  by rewrite bool_decide_eq_false_2 by done.
Qed.

Lemma Read_frame n c pt r :
  readBuf c = [] -> pt <> [] -> fits pt -> raw_in c = frame (recvKey c) (recvCount c) pt ++ r ->
  Read n c = (Ok (take n pt), set_readBuf (drop n pt) (took r pt c)).
Proof.
  intros Hb Hpt Hf Hin. unfold Read. rewrite bool_decide_eq_true_2 by done.
  rewrite (readNextFrame_frame c pt r) by done. unfold buffer_read.
  cbn [readBuf took set_readBuf]. rewrite Hb, app_nil_l. by rewrite bool_decide_eq_false_2 by done.
Qed.

(** * The channel implements a byte pipe *)

Module Pipe.

(** One direction: the sender, whose [raw_out] is in flight, and the receiver. *)
Record system := MkSystem { tx : Conn; rx : Conn }.

(** Whether [Read] returns on what has arrived so far, and does not wait. *)
Definition ready (c : Conn) : bool :=
  negb (bool_decide (readBuf c = [])) ||
  ((4 <=? length (raw_in c))%nat
   && (let size := be_decode (take 4 (raw_in c)) in
       (size =? 0) || (MaxFrameSize <? size) || (4 + Z.to_nat size <=? length (raw_in c))%nat)).

Inductive label :=
| LWrite (p : bytes) (r : result secure_error nat)
| LRead (n : nat) (r : result secure_error bytes)
| LDeliver.

(** The sender writes; the network delivers any number of the bytes in flight, in
    order; the receiver reads when it does not have to wait. *)
Inductive step : system -> label -> system -> Prop :=
| step_write s p r c :
    Write RawDone RawDone p (tx s) = (r, c) -> step s (LWrite p r) (MkSystem c (rx s))
| step_deliver s k :
    step s LDeliver
      (MkSystem (set_raw_out (drop k (raw_out (tx s))) (tx s))
                (set_raw_in (raw_in (rx s) ++ take k (raw_out (tx s))) (rx s)))
| step_read s n r c :
    ready (rx s) = true -> Read n (rx s) = (r, c) -> step s (LRead n r) (MkSystem (tx s) c).

(** The writes of the protocol: not empty and not larger than a frame. *)
Definition usable (p : bytes) : Prop := p <> [] /\ fits p.

Definition label_ok (l : label) : Prop :=
  match l with LWrite p _ => usable p | _ => True end.

(** The specification: a queue of bytes.  A read takes at least one byte (unless
    it asks for none) and at most [n], from the head. *)
Inductive pipe_step : bytes -> label -> bytes -> Prop :=
| pipe_write q p : pipe_step q (LWrite p (Ok (length p))) (q ++ p)
| pipe_deliver q : pipe_step q LDeliver q
| pipe_read n d q :
    (length d <= n)%nat -> (d = [] -> n = O) ->
    pipe_step (d ++ q) (LRead n (Ok d)) q.

Inductive run {S} (st : S -> label -> S -> Prop) : S -> list label -> S -> Prop :=
| run_nil s : run st s [] s
| run_cons s l s' ls s'' : st s l s' -> run st s' ls s'' -> run st s (l :: ls) s''.

(** Frames for consecutive counters. *)
Fixpoint frames (key : bytes) (i : Z) (pts : list bytes) : bytes :=
  match pts with
  | [] => []
  | p :: pts => frame key i p ++ frames key (uint64 (i + 1)) pts
  end.

(** The frames in flight are the unread rest of the queue. *)
Definition sim (s : system) (q : bytes) : Prop :=
  sendKey (tx s) = recvKey (rx s)
  /\ exists pts,
       Forall usable pts
       /\ raw_in (rx s) ++ raw_out (tx s) = frames (recvKey (rx s)) (recvCount (rx s)) pts
       /\ sendCount (tx s) = foldl (fun i _ => uint64 (i + 1)) (recvCount (rx s)) pts
       /\ q = readBuf (rx s) ++ concat pts.

Lemma frames_snoc key i pts p :
  frames key i (pts ++ [p])
  = frames key i pts ++ frame key (foldl (fun i _ => uint64 (i + 1)) i pts) p.
Proof.
  revert i. induction pts as [|x pts IH]; intros i; cbn [frames foldl app].
  - apply app_nil_r.
  - by rewrite IH, app_assoc.
Qed.

(** A receiver that need not wait has the whole next frame. *)
Lemma ready_frame c out pt rest :
  readBuf c = [] -> ready c = true -> fits pt ->
  raw_in c ++ out = frame (recvKey c) (recvCount c) pt ++ rest ->
  exists r, raw_in c = frame (recvKey c) (recvCount c) pt ++ r /\ rest = r ++ out.
Proof.
  intros Hb Hr Hf Heq. unfold ready in Hr. rewrite bool_decide_eq_true_2 in Hr by done.
  cbn [negb orb] in Hr. apply andb_true_iff in Hr as [H4 Hsz]. apply Nat.leb_le in H4.
  assert (take 4 (raw_in c) = be_encode 4 (Z.of_nat (length pt + 16))) as Htake.
  { rewrite <- (take_app_le _ out) by done. rewrite Heq. unfold frame.
    rewrite Gcm.Seal_length, <- app_assoc, take_app_le by (rewrite be_encode_length; lia).
    apply take_ge. rewrite be_encode_length. lia. }
  rewrite Htake, <- (Gcm.Seal_length [] []), frame_size, Gcm.Seal_length in Hsz
    by (rewrite Gcm.Seal_length; unfold fits in Hf; lia).
  unfold fits in Hf. cbv zeta in Hsz.
  rewrite (proj2 (Z.eqb_neq _ _)), (proj2 (Z.ltb_ge _ _)) in Hsz by lia.
  cbn [orb] in Hsz. apply Nat.leb_le in Hsz.
  pose proof (frame_length (recvKey c) (recvCount c) pt) as Hl.
  revert Heq Hl. generalize (frame (recvKey c) (recvCount c) pt). intros f Heq Hl.
  exists (drop (length f) (raw_in c)).
  assert (take (length f) (raw_in c) = f) as Hf'.
  { rewrite <- (take_app_le _ out) by lia. rewrite Heq. apply take_app_length. }
  split; [by rewrite <- Hf' at 1; rewrite take_drop|].
  apply (f_equal (drop (length f))) in Heq. rewrite drop_app_length, drop_app_le in Heq by lia. done.
Qed.

Lemma ready_not_empty c : readBuf c = [] -> ready c = true -> raw_in c <> [].
Proof.
  intros Hb Hr Hin. unfold ready in Hr. by rewrite Hin, bool_decide_eq_true_2 in Hr.
Qed.

Lemma sim_write s q p r c :
  sim s q -> usable p -> Write RawDone RawDone p (tx s) = (r, c) ->
  r = Ok (length p) /\ sim (MkSystem c (rx s)) (q ++ p).
Proof.
  intros (Hk & pts & Hu & Hin & Hc & ->) [Hp Hf] HW. rewrite Write_fits in HW by done.
  injection HW as <- <-. split; [done|]. split; [done|]. exists (pts ++ [p]).
  cbn [tx rx raw_out set_raw_out sendCount set_sendCount]. split_and!.
  - apply Forall_app. split; [done|]. by apply Forall_singleton.
  - by rewrite frames_snoc, <- Hin, <- Hc, Hk, app_assoc.
  - by rewrite foldl_snoc, <- Hc.
  - rewrite concat_app. simpl. by rewrite app_nil_r, app_assoc.
Qed.

Lemma sim_read s q n r c :
  sim s q -> ready (rx s) = true -> Read n (rx s) = (r, c) ->
  exists d q', r = Ok d /\ q = d ++ q' /\ (length d <= n)%nat /\ (d = [] -> n = O)
               /\ sim (MkSystem (tx s) c) q'.
Proof.
  intros (Hk & pts & Hu & Hin & Hc & ->) Hr HR.
  assert (forall b : bytes, b <> [] ->
            (length (take n b) <= n)%nat /\ (take n b = [] -> n = O)) as Htk.
  { intros [|x b] Hb; [done|]. rewrite length_take. split; [lia|]. by destruct n. }
  destruct (decide (readBuf (rx s) = [])) as [Hb|Hb].
  - destruct pts as [|pt pts].
    { apply ready_not_empty in Hr; [|done]. cbn [frames] in Hin. by apply app_nil in Hin as [? _]. }
    apply Forall_cons in Hu as [[Hne Hf] Hu]. cbn [frames] in Hin.
    destruct (ready_frame (rx s) (raw_out (tx s)) pt (frames (recvKey (rx s)) (uint64 (recvCount (rx s) + 1)) pts))
      as (rr & Hraw & Hrest); [done..|].
    rewrite (Read_frame n _ pt rr) in HR by done. injection HR as <- <-.
    exists (take n pt), (drop n pt ++ concat pts). destruct (Htk pt) as [? ?]; [done|].
    rewrite Hb, app_nil_l. split_and!; [done| |done..|].
    { cbn [concat]. by rewrite app_assoc, take_drop. }
    split; [done|]. exists pts. by split_and!.
  - rewrite Read_buffered in HR by done. injection HR as <- <-.
    exists (take n (readBuf (rx s))), (drop n (readBuf (rx s)) ++ concat pts).
    destruct (Htk (readBuf (rx s))) as [? ?]; [done|].
    split_and!; [done| |done..|]; [by rewrite app_assoc, take_drop|].
    split; [done|]. exists pts. by split_and!.
Qed.

Lemma sim_step s q l s' :
  sim s q -> label_ok l -> step s l s' -> exists q', pipe_step q l q' /\ sim s' q'.
Proof.
  intros Hs Hl Hst. destruct Hst as [s p r c HW|s k|s n r c Hr HR].
  - destruct (sim_write s q p r c) as [-> ?]; [done..|]. eexists. by split; [constructor|].
  - exists q. split; [constructor|]. destruct Hs as (Hk & pts & Hu & Hin & Hc & ->).
    split; [done|]. exists pts. split_and!; [done| |done..].
    cbn [tx rx raw_in raw_out set_raw_in set_raw_out recvKey recvCount].
    by rewrite <- app_assoc, take_drop.
  - destruct (sim_read s q n r c) as (d & q' & -> & -> & ? & ? & ?); [done..|].
    exists q'. by split; [constructor|].
Qed.

Lemma sim_run s q ls s' :
  sim s q -> Forall label_ok ls -> run step s ls s' ->
  exists q', run pipe_step q ls q' /\ sim s' q'.
Proof.
  intros Hs Hok Hrun. revert q Hs Hok.
  induction Hrun as [s|s l s' ls s'' Hst Hrun IH]; intros q Hs Hok.
  - exists q. by split; [constructor|].
  - apply Forall_cons in Hok as [? ?].
    destruct (sim_step s q l s') as (q1 & ? & ?); [done..|].
    destruct (IH q1) as (q2 & ? & ?); [done..|]. exists q2. split; [|done]. by econstructor.
Qed.

(** A frame that is wholly there can be read. *)
Lemma sim_ready s q : sim s q -> raw_out (tx s) = [] -> q <> [] -> ready (rx s) = true.
Proof.
  intros (Hk & pts & Hu & Hin & Hc & ->) Ho Hq. unfold ready.
  destruct (decide (readBuf (rx s) = [])) as [Hb|Hb];
    [|by rewrite bool_decide_eq_false_2].
  destruct pts as [|pt pts]; [by rewrite Hb in Hq|]. apply Forall_cons in Hu as [[_ Hf] _].
  rewrite Ho, app_nil_r in Hin. cbn [frames] in Hin. rewrite Hin. unfold frame.
  pose proof (Gcm.Seal_length (recvKey (rx s)) (nonceFor (recvCount (rx s))) pt) as Hl.
  revert Hl. generalize (Gcm.Seal (recvKey (rx s)) (nonceFor (recvCount (rx s))) pt). intros ct Hl.
  unfold fits in Hf. rewrite <- app_assoc, take_app_le by (rewrite be_encode_length; lia).
  rewrite take_ge by (rewrite be_encode_length; lia). rewrite frame_size by lia.
  rewrite !length_app, be_encode_length. apply orb_true_iff. right. apply andb_true_iff.
  split; [apply Nat.leb_le; lia|]. cbv zeta.
  rewrite (proj2 (Nat.leb_le _ _)) by lia. apply orb_true_r.
Qed.

Definition fresh (s : system) : Prop :=
  sendKey (tx s) = recvKey (rx s) /\ sendCount (tx s) = recvCount (rx s)
  /\ raw_in (rx s) = [] /\ raw_out (tx s) = [] /\ readBuf (rx s) = [].

Lemma fresh_sim s : fresh s -> sim s [].
Proof.
  intros (? & ? & Hi & Ho & Hb). split; [done|]. exists []. by rewrite Hi, Ho, Hb.
Qed.

(** C6 (secure.go, [Write], [Read], [readNextFrame]): one direction of a connection
    refines a byte queue.  However writes, deliveries of arbitrary portions of
    the bytes in flight and reads interleave, every write succeeds with its
    length, and every read that does not wait returns, without an error, between
    one and [n] of the oldest bytes not yet read: the run is a run of the queue.
    Once everything in flight has arrived, a reader waits only if the queue is
    empty.  The writes are those of the protocol, not empty and within a frame. *)
Theorem channel_refines_pipe (s s' : system) (ls : list label) :
  fresh s -> Forall label_ok ls -> run step s ls s' ->
  exists q, run pipe_step [] ls q
            /\ (raw_out (tx s') = [] -> q <> [] -> ready (rx s') = true).
Proof.
  intros Hf Hok Hrun. destruct (sim_run s [] ls s') as (q & ? & ?);
    [by apply fresh_sim|done..|]. exists q. split; [done|]. by apply sim_ready.
Qed.

End Pipe.

(** * The handshake *)

Section HandshakeFacts.
Context `{Ed25519, X25519}.

(** The two messages, and the keys both ends should arrive at. *)
Definition initiator_message (id : Identity) (a : bytes) : bytes :=
  PublicKey id ++ x_public a ++ ed_sign (PrivateKey id) (x_public a).

Definition responder_message (id : Identity) (b theirEph : bytes) : bytes :=
  PublicKey id ++ x_public b ++ ed_sign (PrivateKey id) (x_public b ++ theirEph).

Definition session_keys (shared ephI ephR : bytes) : bytes * bytes :=
  let keys := hkdf shared (Some (ephI ++ ephR)) (bs "altnet-aead-v1") 64 in
  (take 32 keys, take 32 (drop 32 keys)).

Lemma session_keys_length shared ephI ephR :
  length (session_keys shared ephI ephR).1 = 32%nat
  /\ length (session_keys shared ephI ephR).2 = 32%nat.
Proof.
  unfold session_keys. cbn [fst snd]. rewrite !length_take, length_drop.
  rewrite (proj2 (hkdf_spec _ _ _ _)). done.
Qed.

Lemma finishHandshake_spec r out priv eph lt (ini : bool) :
  finishHandshake r out priv eph lt ini
  = if negb (length eph =? 32)%nat then Err ErrBadRemoteEph else
    match x_ecdh priv eph with
    | None => Err ErrECDH
    | Some shared =>
        let ks := if ini then session_keys shared (x_public priv) eph
                  else session_keys shared eph (x_public priv) in
        Ok (MkConn r out (if ini then ks.1 else ks.2) (if ini then ks.2 else ks.1) 0 0 lt [])
    end.
Proof.
  unfold finishHandshake. destruct (negb _); [done|]. destruct (x_ecdh _ _); [|done].
  unfold session_keys. destruct ini; cbv beta zeta iota; cbn [fst snd]; reflexivity.
Qed.

Lemma writeHandshake_ok w lt eph sig out :
  length lt = 32%nat -> length eph = 32%nat -> length sig = 64%nat ->
  writeHandshake w lt eph sig out
  = match raw_write w (lt ++ eph ++ sig) out with
    | (true, out) => (Ok tt, out) | (false, out) => (Err ErrRawWrite, out) end.
Proof. intros Hl He Hs. unfold writeHandshake. by rewrite Hl, He, Hs. Qed.

Lemma readHandshake_app lt eph sig r :
  length lt = 32%nat -> length eph = 32%nat -> length sig = 64%nat ->
  readHandshake ((lt ++ eph ++ sig) ++ r) = (Ok (lt, eph, sig), r).
Proof.
  intros Hl He Hs. unfold readHandshake.
  rewrite readFull_app by (rewrite !length_app, Hl, He, Hs; done).
  assert (take 32 (lt ++ eph ++ sig) = lt) as -> by (by rewrite take_app_length').
  assert (drop 32 (lt ++ eph ++ sig) = eph ++ sig) as -> by (by rewrite drop_app_length').
  assert (take 32 (eph ++ sig) = eph) as -> by (by rewrite take_app_length').
  assert (drop 64 (lt ++ eph ++ sig) = sig) as ->.
  { rewrite app_assoc, drop_app_length'; [done|]. by rewrite length_app, Hl, He. }
  assert (take 64 sig = sig) as -> by (apply take_ge; lia). done.
Qed.

Lemma readHandshake_Ok s lt eph sig r :
  readHandshake s = (Ok (lt, eph, sig), r) ->
  s = (lt ++ eph ++ sig) ++ r
  /\ length lt = 32%nat /\ length eph = 32%nat /\ length sig = 64%nat.
Proof.
  unfold readHandshake. destruct (readFull _ s) as [[buf|] r'] eqn:E; [|discriminate].
  apply readFull_Ok in E as [-> Hl]. unfold HandshakeMessageSize in Hl. intros Heq.
  injection Heq as <- <- <- <-. rewrite !length_take, !length_drop. split_and!; [|lia..].
  f_equal. rewrite <- (take_drop 32 buf) at 1. f_equal.
  rewrite <- (take_drop 32 (drop 32 buf)) at 1. f_equal. rewrite drop_drop.
  symmetry. apply take_ge. rewrite length_drop. lia.
Qed.

Lemma mismatch_false exp lt : exp = None \/ exp = Some lt -> mismatch exp lt = false.
Proof. intros [-> | ->]; [done|]. simpl. by rewrite bool_decide_eq_true_2. Qed.

(** The keys of an identity, as the handshake uses them. *)
Lemma identity_handshake id m :
  id_wf id ->
  Public (PrivateKey id) = PublicKey id /\ length (PublicKey id) = 32%nat
  /\ length (ed_sign (PrivateKey id) m) = 64%nat
  /\ ed_verify (PublicKey id) m (ed_sign (PrivateKey id) m) = true.
Proof.
  intros (seed & Hl & ->). cbn [PrivateKey PublicKey]. split_and!.
  - by apply Public_NewKey.
  - apply ed_public_length.
  - apply ed_sign_length.
  - by apply ed_verify_sign.
Qed.

Lemma Handshake_initiator id a exp s lt eph sig r :
  id_wf id -> readHandshake s = (Ok (lt, eph, sig), r) -> exp = None \/ exp = Some lt ->
  ed_verify lt (eph ++ x_public a) sig = true ->
  Handshake true (Some a) RawDone s (PrivateKey id) true exp
  = (finishHandshake r (initiator_message id a) a eph lt true, initiator_message id a).
Proof.
  intros Hid Hs Hexp Hv. unfold Handshake. cbn [negb].
  destruct (identity_handshake id (x_public a) Hid) as (-> & Hl & Hsg & _).
  rewrite writeHandshake_ok by (done || apply x_public_length). cbn [raw_write].
  by rewrite Hs, mismatch_false, Hv by done.
Qed.

Lemma Handshake_responder id b exp s lt eph sig r :
  id_wf id -> readHandshake s = (Ok (lt, eph, sig), r) -> exp = None \/ exp = Some lt ->
  ed_verify lt eph sig = true ->
  Handshake true (Some b) RawDone s (PrivateKey id) false exp
  = (finishHandshake r (responder_message id b eph) b eph lt false, responder_message id b eph).
Proof.
  intros Hid Hs Hexp Hv. unfold Handshake. cbn [negb]. rewrite Hs, mismatch_false, Hv by done.
  cbn [negb]. destruct (identity_handshake id (x_public b ++ eph) Hid) as (-> & Hl & Hsg & _).
  by rewrite writeHandshake_ok by (done || apply x_public_length).
Qed.

(** What the two ends of an honest handshake hold, given the bytes that follow it. *)
Definition agreed (idA idB : Identity) (a b rA rB : bytes) (cA cB : Conn) : Prop :=
  remotePub cA = PublicKey idB /\ remotePub cB = PublicKey idA
  /\ sendKey cA = recvKey cB /\ recvKey cA = sendKey cB
  /\ length (sendKey cA) = 32%nat /\ length (recvKey cA) = 32%nat
  /\ sendCount cA = 0 /\ recvCount cA = 0 /\ sendCount cB = 0 /\ recvCount cB = 0
  /\ readBuf cA = [] /\ readBuf cB = [] /\ raw_in cA = rA /\ raw_in cB = rB
  /\ raw_out cA = initiator_message idA a
  /\ raw_out cB = responder_message idB b (x_public a).

Lemma handshake_agrees (idA idB : Identity) (a b rA rB : bytes) (expA expB : option bytes) :
  id_wf idA -> id_wf idB ->
  expA = None \/ expA = Some (PublicKey idB) -> expB = None \/ expB = Some (PublicKey idA) ->
  exists cA cB,
    Handshake true (Some a) RawDone (responder_message idB b (x_public a) ++ rA)
      (PrivateKey idA) true expA = (Ok cA, initiator_message idA a)
    /\ Handshake true (Some b) RawDone (initiator_message idA a ++ rB)
         (PrivateKey idB) false expB = (Ok cB, responder_message idB b (x_public a))
    /\ agreed idA idB a b rA rB cA cB.
Proof.
  intros HA HB HeA HeB.
  destruct (identity_handshake idA (x_public a) HA) as (_ & HlA & HsA & HvA).
  destruct (identity_handshake idB (x_public b ++ x_public a) HB) as (_ & HlB & HsB & HvB).
  destruct (x_ecdh_honest a b) as [sh Hsh]. pose proof (x_ecdh_comm a b) as Hcomm.
  rewrite Hsh in Hcomm. symmetry in Hcomm.
  pose proof (session_keys_length sh (x_public a) (x_public b)) as Hkl.
  erewrite (Handshake_initiator idA a expA)
    by (done || apply readHandshake_app; (done || apply x_public_length)).
  erewrite (Handshake_responder idB b expB)
    by (done || apply readHandshake_app; (done || apply x_public_length)).
  rewrite !finishHandshake_spec, !x_public_length, Hsh, Hcomm. cbn [negb Nat.eqb].
  cbv beta zeta iota. revert Hkl. generalize (session_keys sh (x_public a) (x_public b)).
  intros ks [? ?]. eexists _, _. split; [reflexivity|]. split; [reflexivity|]. by split_and!.
Qed.

(** C7 (secure.go, [Handshake], [finishHandshake]): when an initiator and a
    responder with well-formed identities exchange their messages, both
    handshakes succeed, whatever follows on the connections; each end knows the
    other's long-term key; what one sends with the other receives with, in both
    directions; the keys have the 32 bytes AES-256 needs, all counters are zero,
    and no byte after the handshake has been consumed. *)
Theorem handshake_agreement (idA idB : Identity) (a b rA rB : bytes) (expA expB : option bytes) :
  id_wf idA -> id_wf idB ->
  expA = None \/ expA = Some (PublicKey idB) -> expB = None \/ expB = Some (PublicKey idA) ->
  exists cA cB,
    Handshake true (Some a) RawDone (responder_message idB b (x_public a) ++ rA)
      (PrivateKey idA) true expA = (Ok cA, initiator_message idA a)
    /\ Handshake true (Some b) RawDone (initiator_message idA a ++ rB)
         (PrivateKey idB) false expB = (Ok cB, responder_message idB b (x_public a))
    /\ agreed idA idB a b rA rB cA cB.
Proof. apply handshake_agrees. Qed.

(** What a connection made with the ephemeral key [priv] from the bytes [s] rests on. *)
Definition vouched (priv s : bytes) (ini : bool) (exp : option bytes) (c : Conn) : Prop :=
  exists lt eph sig shared,
    s = (lt ++ eph ++ sig) ++ raw_in c
    /\ length (lt ++ eph ++ sig) = HandshakeMessageSize
    /\ RemotePublicKey c = lt /\ (exp = None \/ exp = Some lt)
    /\ ed_verify lt (if ini then eph ++ x_public priv else eph) sig = true
    /\ x_ecdh priv eph = Some shared
    /\ (sendKey c, recvKey c)
       = (if ini then session_keys shared (x_public priv) eph
          else let '(i2r, r2i) := session_keys shared eph (x_public priv) in (r2i, i2r)).

Lemma finish_vouched priv s (ini : bool) exp c lt eph sig r o :
  readHandshake s = (Ok (lt, eph, sig), r) -> mismatch exp lt = false ->
  ed_verify lt (if ini then eph ++ x_public priv else eph) sig = true ->
  finishHandshake r o priv eph lt ini = Ok c -> vouched priv s ini exp c.
Proof.
  intros Hr Hm Hv. apply readHandshake_Ok in Hr as (Hs & Hlt & Hle & Hsg).
  rewrite finishHandshake_spec, Hle. cbn [negb Nat.eqb].
  destruct (x_ecdh priv eph) as [shared|] eqn:Esh; [|discriminate]. cbv beta zeta.
  intros Heq. injection Heq as <-. exists lt, eph, sig, shared.
  split; [exact Hs|]. split; [by rewrite !length_app, Hlt, Hle, Hsg|]. split; [reflexivity|].
  split. { destruct exp as [k|]; [right|by left]. simpl in Hm. zbool. by rewrite Hm. }
  split; [exact Hv|]. split; [exact Esh|]. cbn [sendKey recvKey].
  destruct ini; [generalize (session_keys shared (x_public priv) eph)
    |generalize (session_keys shared eph (x_public priv))]; by intros [].
Qed.

(** C25 (secure.go, [Handshake], [readHandshake]): whatever bytes the other side
    sends, a handshake that succeeds has read a long-term key, an ephemeral key
    and a signature that verifies under that long-term key over the ephemeral key
    (for an initiator: over both ephemeral keys, its own included); the
    connection is attributed to that long-term key, which is the expected one if
    one was; its two keys are derived from the shared secret with that ephemeral
    key; and the unread bytes are those after the 128 of the message. *)
Theorem handshake_authenticated (eph : option bytes) (deadline_ok : bool) (w : raw_end)
    (s myKey out : bytes) (isInitiator : bool) (exp : option bytes) (c : Conn) :
  Handshake deadline_ok eph w s myKey isInitiator exp = (Ok c, out) ->
  exists priv, eph = Some priv /\ vouched priv s isInitiator exp c.
Proof.
  unfold Handshake. destruct deadline_ok; cbn [negb]; [|discriminate].
  destruct eph as [priv|]; [|discriminate]. intros Heq. exists priv. split; [done|]. revert Heq.
  destruct isInitiator.
  - destruct (writeHandshake _ _ _ _ _) as [[]]; [|discriminate].
    destruct (readHandshake s) as [[[[lt te] sig]|] r] eqn:Er; [|discriminate].
    destruct (mismatch exp lt) eqn:Em; [discriminate|].
    destruct (ed_verify lt _ sig) eqn:Ev; [|discriminate]. cbn [negb]. intros Heq.
    injection Heq as Hf _. by eapply finish_vouched.
  - destruct (readHandshake s) as [[[[lt te] sig]|] r] eqn:Er; [|discriminate].
    destruct (mismatch exp lt) eqn:Em; [discriminate|].
    destruct (ed_verify lt _ sig) eqn:Ev; [|discriminate]. cbn [negb].
    destruct (writeHandshake _ _ _ _ _) as [[]]; [|discriminate]. intros Heq.
    injection Heq as Hf _. by eapply finish_vouched.
Qed.

End HandshakeFacts.

(** * Arbitrary incoming bytes *)

(** The plaintexts of the frames [readNextFrame] accepts, one after the other. *)
Fixpoint accepted (fuel : nat) (c : Conn) : list bytes :=
  match fuel with
  | O => []
  | S fuel =>
      match readNextFrame (set_readBuf [] c) with
      | (Ok _, c') => readBuf c' :: accepted fuel c'
      | (Err _, _) => []
      end
  end.

(** Every frame takes 20 bytes or more, so the bytes themselves bound their number. *)
Definition accepted_all (c : Conn) : list bytes := accepted (length (raw_in c)) c.

Lemma set_readBuf_id c : set_readBuf (readBuf c) c = c.
Proof. by destruct c. Qed.

Lemma readNextFrame_cases c :
  (exists pt r, fits pt /\ raw_in c = frame (recvKey c) (recvCount c) pt ++ r
                /\ forall b, readNextFrame (set_readBuf b c) = (Ok tt, took r pt (set_readBuf b c)))
  \/ (forall b, exists e c', readNextFrame (set_readBuf b c) = (Err e, c')).
Proof.
  destruct (readNextFrame c) as [[u|e] c'] eqn:E.
  - left. apply readNextFrame_Ok in E as (pt & r & Hf & Hin & ->). exists pt, r.
    split_and!; [done..|]. intros b. by apply readNextFrame_frame.
  - right. intros b. destruct (readNextFrame (set_readBuf b c)) as [[u|e'] c''] eqn:E'; [|by eauto].
    apply readNextFrame_Ok in E' as (pt & r & Hf & Hin & ->).
    by rewrite (readNextFrame_frame c pt r) in E.
Qed.

Lemma accepted_buf fuel b c : accepted fuel (set_readBuf b c) = accepted fuel c.
Proof. by destruct fuel. Qed.

(** One frame of the accepted ones. *)
Lemma accepted_S fuel c pt r :
  fits pt -> raw_in c = frame (recvKey c) (recvCount c) pt ++ r ->
  accepted (S fuel) c = pt :: accepted fuel (took r pt c).
Proof.
  intros Hf Hin. cbn [accepted]. rewrite (readNextFrame_frame (set_readBuf [] c) pt r) by done.
  cbn [readBuf took set_readBuf]. rewrite app_nil_l. f_equal.
  rewrite <- (accepted_buf fuel (readBuf c ++ pt)). done.
Qed.

Lemma accepted_fuel fuel c :
  (length (raw_in c) <= fuel)%nat -> accepted fuel c = accepted_all c.
Proof.
  unfold accepted_all. intros Hle.
  enough (forall f g c, (length (raw_in c) <= f)%nat -> (length (raw_in c) <= g)%nat ->
            accepted f c = accepted g c) as Hfg by (by apply Hfg).
  clear. induction f as [|f IH]; intros g c Hf Hg.
  { destruct g; [done|]. cbn [accepted]. destruct (readNextFrame_cases c) as [(pt & r & _ & Hin & _)|He].
    - rewrite Hin, length_app, frame_length in Hf. lia.
    - by destruct (He []) as (e & c' & ->). }
  destruct (readNextFrame_cases c) as [(pt & r & Hfit & Hin & _)|He].
  - assert (length (raw_in c) = length pt + 20 + length r)%nat as Hl
      by (rewrite Hin, length_app, frame_length; done).
    destruct g as [|g]; [lia|]. rewrite !(accepted_S _ _ pt r) by done. f_equal.
    apply IH; cbn [raw_in took set_readBuf set_recvCount set_raw_in]; lia.
  - destruct (He []) as (e & c' & E). cbn [accepted]. rewrite E. destruct g; [done|].
    cbn [accepted]. by rewrite E.
Qed.

Lemma accepted_all_cons c pt r :
  fits pt -> raw_in c = frame (recvKey c) (recvCount c) pt ++ r ->
  accepted_all c = pt :: accepted_all (took r pt c).
Proof.
  intros Hf Hin. unfold accepted_all at 1. rewrite Hin, length_app, frame_length.
  replace (length pt + 20 + length r)%nat with (S (length pt + 19 + length r)) by lia.
  rewrite (accepted_S _ _ pt r) by done. f_equal. apply accepted_fuel.
  cbn [raw_in took set_readBuf set_recvCount set_raw_in]. lia.
Qed.

Lemma accepted_all_nil c :
  (forall b, exists e c', readNextFrame (set_readBuf b c) = (Err e, c')) -> accepted_all c = [].
Proof.
  intros He. unfold accepted_all. destruct (length (raw_in c)) as [|n]; [done|]. cbn [accepted].
  by destruct (He []) as (e & c' & ->).
Qed.

(** Induction over the frames a connection accepts. *)
Lemma conn_ind (P : Conn -> Prop) :
  (forall c, (forall b, exists e c', readNextFrame (set_readBuf b c) = (Err e, c')) -> P c) ->
  (forall c pt r, fits pt -> raw_in c = frame (recvKey c) (recvCount c) pt ++ r ->
     (forall b, P (set_readBuf b (took r pt c))) -> P c) ->
  forall c, P c.
Proof.
  intros H0 HS c. remember (length (raw_in c)) as n eqn:Hn. revert c Hn.
  induction (lt_wf n) as [n _ IH]. intros c ->.
  destruct (readNextFrame_cases c) as [(pt & r & Hf & Hin & _)|He]; [|by apply H0].
  apply (HS c pt r Hf Hin). intros b. eapply (IH (length r)); [|done].
  rewrite Hin, length_app, frame_length. lia.
Qed.

Lemma accepted_all_frames c :
  exists rest, raw_in c = Pipe.frames (recvKey c) (recvCount c) (accepted_all c) ++ rest.
Proof.
  induction c as [c He|c pt r Hf Hin IH] using conn_ind.
  - rewrite accepted_all_nil by done. by exists (raw_in c).
  - rewrite (accepted_all_cons c pt r) by done. destruct (IH []) as [rest Hr].
    unfold accepted_all in Hr. rewrite !accepted_buf in Hr.
    exists rest. cbn [Pipe.frames]. rewrite Hin, <- app_assoc. f_equal. exact Hr.
Qed.

Lemma prefix_lookups {A} (l k : list A) :
  (forall n x, l !! n = Some x -> k !! n = Some x) -> l `prefix_of` k.
Proof.
  revert k. induction l as [|x l IH]; intros k Hk; [apply prefix_nil|].
  pose proof (Hk O x eq_refl) as H0. destruct k as [|y k]; [done|]. simpl in H0.
  assert (y = x) as -> by congruence. apply prefix_cons, IH. intros n z Hz. exact (Hk (S n) z Hz).
Qed.

(** The pairs of nonce and ciphertext made for plaintexts from counter 0 on. *)
Definition sealed (key : bytes) (pts : list bytes) : list (bytes * bytes) :=
  imap (fun n pt => let nonce := nonceFor (Z.of_nat n) in (nonce, Gcm.Seal key nonce pt)) pts.

Lemma sealed_elem key pts x :
  x ∈ sealed key pts <->
  exists n pt, pts !! n = Some pt
    /\ x = (nonceFor (Z.of_nat n), Gcm.Seal key (nonceFor (Z.of_nat n)) pt).
Proof.
  unfold sealed. rewrite elem_of_lookup_imap. split.
  - intros (n & pt & -> & Hn). by exists n, pt.
  - intros (n & pt & Hn & ->). by exists n, pt.
Qed.

(** Distinct counters have distinct nonces, and a ciphertext has one plaintext. *)
Lemma sealed_prefix key (got sent : list bytes) :
  Z.of_nat (length got) <= 2 ^ 64 -> Z.of_nat (length sent) <= 2 ^ 64 ->
  sealed key got ⊆ sealed key sent -> got `prefix_of` sent.
Proof.
  intros Hg Hs Hsub. apply prefix_lookups. intros n pt Hn.
  assert ((nonceFor (Z.of_nat n), Gcm.Seal key (nonceFor (Z.of_nat n)) pt) ∈ sealed key sent) as Hin.
  { apply Hsub, sealed_elem. by exists n, pt. }
  apply sealed_elem in Hin as (m & pt' & Hm & Heq). apply lookup_lt_Some in Hn as Hn'.
  apply lookup_lt_Some in Hm as Hm'. apply pair_equal_spec in Heq as [Hnonce Hct].
  apply nonceFor_inj in Hnonce; [|lia..]. assert (m = n) as -> by lia.
  apply (f_equal (Gcm.Open key (nonceFor (Z.of_nat n)))) in Hct. rewrite !Gcm.Open_Seal in Hct.
  congruence.
Qed.

(** (secure.go, [readNextFrame], [nonceFor]): whatever bytes arrive on a new
    connection, the frames it accepts are, in order and without a gap, the
    encodings of their plaintexts under the receive key with the counters 0, 1, 2
    and so on.  Hence, if no accepted nonce and ciphertext is one the sender did
    not make, the plaintexts accepted are a prefix of those sent: replayed,
    reordered, dropped or altered frames end the stream. *)
Theorem frames_authentic (c : Conn) :
  recvCount c = 0 ->
  (exists rest, raw_in c = Pipe.frames (recvKey c) 0 (accepted_all c) ++ rest)
  /\ (forall sent, Z.of_nat (length (accepted_all c)) <= 2 ^ 64 -> Z.of_nat (length sent) <= 2 ^ 64 ->
        sealed (recvKey c) (accepted_all c) ⊆ sealed (recvKey c) sent ->
        accepted_all c `prefix_of` sent).
Proof.
  intros H0. split; [rewrite <- H0; apply accepted_all_frames|].
  intros sent Hg Hs. by apply sealed_prefix.
Qed.

(** * Reading exactly [n] bytes through a connection *)

(** [io.ReadFull] on a [Conn]: [Read] until there are [n] bytes or an error. *)
Fixpoint ReadFull_loop (fuel n : nat) (got : bytes) (c : Conn) : result secure_error bytes * Conn :=
  if (n <=? length got)%nat then (Ok got, c) else
  match fuel with
  | O => (Err ErrEOF, c)
  | S fuel =>
      match Read (n - length got) c with
      | (Err e, c') =>
          (Err (if bool_decide (e = ErrEOF) && negb (bool_decide (got = []))
                then ErrUnexpectedEOF else e), c')
      | (Ok d, c') => ReadFull_loop fuel n (got ++ d) c'
      end
  end.

Definition ReadFull (n : nat) (c : Conn) : result secure_error bytes * Conn := ReadFull_loop n n [] c.

Fixpoint until_empty (pts : list bytes) : bytes :=
  match pts with
  | [] => []
  | p :: pts => if bool_decide (p = []) then [] else p ++ until_empty pts
  end.

(** The plaintext a connection has yet to give: an empty frame ends it, since
    [Read] reports the end of the stream for it. *)
Definition plain (c : Conn) : bytes := readBuf c ++ until_empty (accepted_all c).

Lemma plain_buf b c : plain (set_readBuf b c) = b ++ until_empty (accepted_all c).
Proof. unfold plain, accepted_all. by rewrite accepted_buf. Qed.

(** One [Read] gives the next bytes of the plaintext, or the plaintext is at its end. *)
Lemma Read_plain n c :
  (0 < n)%nat ->
  (exists d c', Read n c = (Ok d, c') /\ d <> [] /\ (length d <= n)%nat /\ plain c = d ++ plain c')
  \/ (plain c = [] /\ exists e c', Read n c = (Err e, c')).
Proof.
  intros Hn.
  assert (forall b : bytes, b <> [] -> take n b <> [] /\ (length (take n b) <= n)%nat) as Htk.
  { intros [|x b] Hb; [done|]. rewrite length_take. split; [destruct n; [lia|done]|lia]. }
  destruct (decide (readBuf c = [])) as [Hb|Hb].
  - destruct (readNextFrame_cases c) as [(pt & r & Hf & Hin & Hr)|He].
    + destruct (decide (pt = [])) as [->|Hne].
      * right. unfold plain. rewrite (accepted_all_cons c [] r), Hb by done. split; [done|].
        unfold Read. rewrite bool_decide_eq_true_2 by done. rewrite (readNextFrame_frame c [] r) by done.
        unfold buffer_read. cbn [readBuf took set_readBuf]. rewrite Hb. cbn [app].
        rewrite bool_decide_eq_true_2 by done.
        destruct n as [|n']; [lia|]. cbn [Nat.eqb]. eexists _, _. reflexivity.
      * left. destruct (Htk pt Hne) as [? ?].
        exists (take n pt), (set_readBuf (drop n pt) (took r pt c)).
        split_and!; [by apply Read_frame|done..|]. rewrite plain_buf. unfold plain.
        rewrite (accepted_all_cons c pt r), Hb by done. cbn [until_empty app].
        rewrite bool_decide_eq_false_2 by done. by rewrite app_assoc, take_drop.
    + right. unfold plain. rewrite accepted_all_nil, Hb by done. split; [done|].
      unfold Read. rewrite bool_decide_eq_true_2 by done. destruct (He (readBuf c)) as (e & c' & E).
      rewrite set_readBuf_id in E. rewrite E. by exists e, c'.
  - left. destruct (Htk (readBuf c) Hb) as [? ?].
    exists (take n (readBuf c)), (set_readBuf (drop n (readBuf c)) c).
    split_and!; [by apply Read_buffered|done..|]. rewrite plain_buf. unfold plain.
    by rewrite app_assoc, take_drop.
Qed.

Lemma ReadFull_loop_plain fuel n got c :
  (length got <= n)%nat -> (n - length got <= fuel)%nat ->
  if (n - length got <=? length (plain c))%nat
  then exists d c', ReadFull_loop fuel n got c = (Ok (got ++ d), c')
                    /\ plain c = d ++ plain c' /\ length d = (n - length got)%nat
  else exists e c', ReadFull_loop fuel n got c = (Err e, c').
Proof.
  revert got c. induction fuel as [|fuel IH]; intros got c Hg Hf; cbn [ReadFull_loop].
  - destruct (Nat.leb_spec n (length got)); [|lia].
    replace (n - length got)%nat with O by lia. simpl Nat.leb. cbv iota.
    exists [], c. by rewrite app_nil_r.
  - destruct (Nat.leb_spec n (length got)) as [Hd|Hd].
    { replace (n - length got)%nat with O by lia. simpl Nat.leb. cbv iota.
      exists [], c. by rewrite app_nil_r. }
    destruct (Read_plain (n - length got) c) as [(d & c' & -> & Hd0 & Hdl & Hp)|(Hp & e & c' & ->)];
      [lia| |].
    + assert (0 < length d)%nat by (destruct d; [done|simpl; lia]).
      specialize (IH (got ++ d) c'). rewrite length_app in IH. rewrite Hp, length_app.
      destruct (Nat.leb_spec (n - (length got + length d)) (length (plain c'))) as [Hle|Hgt].
      * rewrite (proj2 (Nat.leb_le _ _)) by lia. destruct IH as (d' & c'' & -> & -> & ?); [lia..|].
        exists (d ++ d'), c''. rewrite !app_assoc, length_app. split_and!; [done..|lia].
      * rewrite (proj2 (Nat.leb_gt _ _)) by lia. apply IH; lia.
    + rewrite Hp. rewrite (proj2 (Nat.leb_gt _ _)) by (simpl; lia). by eexists _, _.
Qed.

Lemma ReadFull_spec n c :
  if (n <=? length (plain c))%nat
  then exists c', ReadFull n c = (Ok (take n (plain c)), c') /\ plain c' = drop n (plain c)
  else exists e c', ReadFull n c = (Err e, c').
Proof.
  pose proof (ReadFull_loop_plain n n [] c) as HL. simpl length in HL. rewrite Nat.sub_0_r in HL.
  unfold ReadFull. destruct (Nat.leb_spec n (length (plain c))).
  - destruct HL as (d & c' & -> & -> & Hl); [lia..|]. exists c'.
    by rewrite take_app_length', drop_app_length'.
  - apply HL; lia.
Qed.

(** (secure.go, [Read]; peer.go's [io.ReadFull] on the connection): reading
    exactly [n] bytes through the frames, buffers and short reads of a connection
    is reading them off the front of its decrypted byte stream: it succeeds
    exactly when the stream has [n] bytes, gives its first [n], and leaves the
    rest.  The layers above may treat the connection as that stream. *)
Theorem ReadFull_is_stream (n : nat) (c : Conn) :
  match ReadFull n c with
  | (Ok d, c') => readFull n (plain c) = (Ok d, plain c')
  | (Err _, _) => exists e, readFull n (plain c) = (Err e, [])
  end.
Proof.
  pose proof (ReadFull_spec n c) as HS. unfold readFull.
  destruct (Nat.leb_spec n (length (plain c))).
  - destruct HS as (c' & -> & ->). done.
  - destruct HS as (e & c' & ->). by eexists.
Qed.

(** The frames of matching writes decrypt to what was written. *)
Lemma plain_frames c pts :
  Forall Pipe.usable pts -> readBuf c = [] ->
  raw_in c = Pipe.frames (recvKey c) (recvCount c) pts -> plain c = concat pts.
Proof.
  intros Hu. revert c. induction Hu as [|pt pts [Hne Hf] Hu IH]; intros c Hb Hin; unfold plain.
  - cbn [Pipe.frames] in Hin. rewrite Hb. unfold accepted_all. by rewrite Hin.
  - cbn [Pipe.frames] in Hin. rewrite (accepted_all_cons c pt _ Hf Hin), Hb. cbn [until_empty app concat].
    rewrite bool_decide_eq_false_2 by done. f_equal.
    specialize (IH (set_readBuf [] (took (Pipe.frames (recvKey c) (uint64 (recvCount c + 1)) pts) pt c))
      eq_refl eq_refl). rewrite plain_buf in IH. exact IH.
Qed.

(** * Writes the channel does not carry *)

(** (secure.go, [Write], [Read]): an empty write sends a frame, which the reader
    reports as the end of the stream, although the connection is open and later
    writes arrive. *)
Theorem empty_write_reads_as_eof (c d : Conn) (n : nat) :
  sendKey c = recvKey d -> sendCount c = recvCount d -> raw_out c = [] -> raw_in d = [] ->
  readBuf d = [] -> (0 < n)%nat ->
  (Write RawDone RawDone [] c).1 = Ok O
  /\ (Read n (set_raw_in (raw_out (Write RawDone RawDone [] c).2) d)).1 = Err ErrEOF.
Proof.
  intros Hk Hc Ho Hi Hb Hn. rewrite Write_fits by done. split; [done|]. cbn [snd raw_out set_raw_out].
  rewrite Ho, Hk, Hc. cbn [app]. unfold Read. rewrite bool_decide_eq_true_2 by done.
  rewrite (readNextFrame_frame _ [] []); [|done|by rewrite app_nil_r].
  unfold buffer_read. cbn [readBuf took set_readBuf set_recvCount set_raw_in]. rewrite Hb. cbn [app].
  rewrite bool_decide_eq_true_2 by done. by destruct n; [lia|].
Qed.

(** (secure.go, [Write]): a write larger than a frame is refused after the
    counter has moved and nothing was sent, so the two ends' counters differ. *)
Theorem oversized_write_desynchronises (w1 w2 : raw_end) (p : bytes) (c : Conn) :
  ~ fits p ->
  Write w1 w2 p c = (Err (ErrFrameTooLarge (length p + 16)),
                     set_sendCount (uint64 (sendCount c + 1)) c).
Proof.
  intros Hf. unfold Write. rewrite Gcm.Seal_length. unfold fits in Hf.
  by rewrite (proj2 (Z.ltb_lt _ _)) by lia.
Qed.

Section Replay.
Context `{Ed25519, X25519}.

(** (secure.go, [Handshake]): the initiator's message does not depend on the
    responder, so a recording of it completes the handshake with any responder at
    any time, whatever follows it: the responder gets a connection attributed to
    the recorded initiator from someone who holds none of its keys. *)
Theorem initiator_message_replays (idA : Identity) (a : bytes) :
  id_wf idA ->
  forall idB b rest, id_wf idB ->
  exists c out,
    Handshake true (Some b) RawDone (initiator_message idA a ++ rest) (PrivateKey idB) false None
    = (Ok c, out)
    /\ RemotePublicKey c = PublicKey idA /\ raw_in c = rest.
Proof.
  intros HA idB b rest HB.
  destruct (handshake_agrees idA idB a b [] rest None None)
    as (cA & cB & _ & HR & Hag); [done..|by left|by left|].
  exists cB, (responder_message idB b (x_public a)). split; [done|]. by split; apply Hag.
Qed.

End Replay.

(** ** Concrete runs *)

(** A stand-in for X25519: a commutative combination of 32-byte keys. *)
Definition pad32 (b : bytes) : bytes := take 32 (b ++ replicate 32 Byte.x00).

Lemma pad32_length b : length (pad32 b) = 32%nat.
Proof. unfold pad32. rewrite length_take, length_app, length_replicate. lia. Qed.

Lemma zip_xor_comm (l k : bytes) : zip_with xor_byte l k = zip_with xor_byte k l.
Proof.
  revert k. induction l as [|x l IH]; intros [|y k]; cbn [zip_with]; try done.
  rewrite IH. unfold xor_byte. by rewrite Z.lxor_comm.
Qed.

#[global, program] Instance toy_X25519 : X25519 := {|
  x_public priv := pad32 priv;
  x_ecdh priv pub := Some (zip_with xor_byte (pad32 priv) pub)
|}.
Next Obligation. apply pad32_length. Qed.
Next Obligation. intros a b. simpl. f_equal. apply zip_xor_comm. Qed.
Next Obligation. intros a b. simpl. eauto. Qed.

Module PipeRun.
Import Pipe.

Definition ka : bytes := replicate 32 Byte.x11.
Definition kb : bytes := replicate 32 Byte.x22.
Definition sender : Conn := MkConn [] [] ka kb 0 0 [] [].
Definition receiver : Conn := MkConn [] [] kb ka 0 0 [] [].

Definition write_to (p : bytes) (s : system) : system := MkSystem (Write RawDone RawDone p (tx s)).2 (rx s).
Definition read_from (n : nat) (s : system) : system := MkSystem (tx s) (Read n (rx s)).2.
Definition deliver (k : nat) (s : system) : system :=
  MkSystem (set_raw_out (drop k (raw_out (tx s))) (tx s))
           (set_raw_in (raw_in (rx s) ++ take k (raw_out (tx s))) (rx s)).

Lemma write_to_step p s : step s (LWrite p (Write RawDone RawDone p (tx s)).1) (write_to p s).
Proof. apply step_write, surjective_pairing. Qed.

Lemma read_from_step n s : ready (rx s) = true -> step s (LRead n (Read n (rx s)).1) (read_from n s).
Proof. intros Hr. by apply step_read, surjective_pairing. Qed.

(** A write, a delivery in two parts around a second write, and three reads. *)
Definition s0 : system := MkSystem sender receiver.
Definition s1 : system := write_to (bs "hello") s0.
Definition s2 : system := deliver 20 s1.
Definition s3 : system := write_to (bs "!") s2.
Definition s4 : system := deliver 100 s3.
Definition s5 : system := read_from 3 s4.
Definition s6 : system := read_from 9 s5.
Definition s7 : system := read_from 9 s6.

Definition labels : list label :=
  [LWrite (bs "hello") (Ok 5%nat); LDeliver; LWrite (bs "!") (Ok 1%nat); LDeliver;
   LRead 3 (Ok (bs "hel")); LRead 9 (Ok (bs "lo")); LRead 9 (Ok (bs "!"))].

Lemma labels_run : run step s0 labels s7.
Proof.
  apply (run_cons _ _ _ s1). { apply (write_to_step (bs "hello") s0). }
  apply (run_cons _ _ _ s2). { apply (step_deliver s1 20). }
  apply (run_cons _ _ _ s3). { apply (write_to_step (bs "!") s2). }
  apply (run_cons _ _ _ s4). { apply (step_deliver s3 100). }
  assert (forall n s s' d, ready (rx s) = true -> (Read n (rx s)).1 = d -> s' = read_from n s ->
            step s (LRead n d) s') as Hread.
  { intros n s s' d Hr <- ->. by apply read_from_step. }
  do 3 (eapply run_cons; [apply Hread; [vm_compute; reflexivity|vm_compute; reflexivity|reflexivity]|]).
  apply run_nil.
Qed.

Lemma channel_refines_pipe_witness :
  exists q, run pipe_step [] labels q
            /\ (raw_out (tx s7) = [] -> q <> [] -> ready (rx s7) = true).
Proof.
  apply (channel_refines_pipe s0 s7 labels).
  - by split_and!.
  - by repeat (apply Forall_cons; split; [first [done|split; [done|vm_compute; discriminate]]|]).
  - exact labels_run.
Defined.

(** The third read of the run above, on a connection whose second frame is the
    first one again: only the first is accepted. *)
Definition replayed : Conn := set_raw_in (frame ka 0 (bs "hello") ++ frame ka 0 (bs "hello")) receiver.

Lemma replayed_accepted : accepted_all replayed = [bs "hello"].
Proof. by vm_compute. Qed.

Lemma frames_authentic_witness :
  accepted_all replayed `prefix_of` [bs "hello"; bs "!"].
Proof.
  apply (frames_authentic replayed eq_refl).
  - rewrite replayed_accepted. vm_compute. discriminate.
  - vm_compute. discriminate.
  - rewrite replayed_accepted. intros x Hx. apply sealed_elem in Hx as (n & pt & Hn & ->).
    apply sealed_elem. exists n, pt. split; [|done]. destruct n; [exact Hn|done].
Defined.

End PipeRun.

Lemma handshake_agreement_witness :
  exists cA cB,
    Handshake true (Some (bs "a")) RawDone
      (responder_message (toy_identity Byte.x02) (bs "b") (x_public (bs "a")) ++ [])
      (PrivateKey (toy_identity Byte.x01)) true (Some (PublicKey (toy_identity Byte.x02)))
    = (Ok cA, initiator_message (toy_identity Byte.x01) (bs "a"))
    /\ sendKey cA = recvKey cB /\ recvKey cA = sendKey cB.
Proof.
  destruct (handshake_agreement (toy_identity Byte.x01) (toy_identity Byte.x02) (bs "a") (bs "b") [] []
    (Some (PublicKey (toy_identity Byte.x02))) None) as (cA & cB & HA & _ & Hag);
    [apply toy_identity_wf..|by right|by left|].
  exists cA, cB. split; [exact HA|]. split; apply Hag.
Defined.

(** The responder's end of that handshake. *)
Definition accepted_conn : result secure_error Conn :=
  (Handshake true (Some (bs "b")) RawDone (initiator_message (toy_identity Byte.x01) (bs "a"))
     (PrivateKey (toy_identity Byte.x02)) false None).1.

Definition conn_of (r : result secure_error Conn) : Conn :=
  match r with Ok c => c | Err _ => PipeRun.sender end.

Lemma accepted_conn_ok :
  Handshake true (Some (bs "b")) RawDone (initiator_message (toy_identity Byte.x01) (bs "a"))
     (PrivateKey (toy_identity Byte.x02)) false None
  = (Ok (conn_of accepted_conn), responder_message (toy_identity Byte.x02) (bs "b") (x_public (bs "a"))).
Proof. vm_compute. reflexivity. Qed.

Lemma handshake_authenticated_witness :
  exists priv, Some (bs "b") = Some priv
    /\ vouched priv (initiator_message (toy_identity Byte.x01) (bs "a")) false None (conn_of accepted_conn).
Proof. exact (handshake_authenticated _ _ _ _ _ _ _ _ _ accepted_conn_ok). Defined.

Lemma empty_write_reads_as_eof_witness :
  (Read 4 (set_raw_in (raw_out (Write RawDone RawDone [] PipeRun.sender).2) PipeRun.receiver)).1 = Err ErrEOF.
Proof. apply (empty_write_reads_as_eof PipeRun.sender PipeRun.receiver 4); (done || lia). Defined.

Lemma initiator_message_replays_witness :
  exists c out,
    Handshake true (Some (bs "b")) RawDone (initiator_message (toy_identity Byte.x01) (bs "a") ++ bs "anything")
      (PrivateKey (toy_identity Byte.x02)) false None = (Ok c, out)
    /\ RemotePublicKey c = PublicKey (toy_identity Byte.x01) /\ raw_in c = bs "anything".
Proof.
  apply (initiator_message_replays (toy_identity Byte.x01) (bs "a") (toy_identity_wf _)
    (toy_identity Byte.x02) (bs "b") (bs "anything") (toy_identity_wf _)).
Defined.
