(* ===== verification/Relay.v ===== *)
(** * The relay (core/relay/protocol.go, server.go, client.go)

    The control lines, the server as a state machine over its critical sections
    and channel operations, and the client.  Connections, control channels and the
    channels of the server are numbers: a registration is named by its control
    connection, and the channel a DIAL waits on by the dialer's connection.  A
    step of the server is one critical section, one channel operation or one
    group of writes of one handler; handlers interleave freely.  Bytes that flow
    through an established tunnel are [pipe] at the end. *)

From S2P Require Import Prelude GoStrings Encoding.

(** ** Control lines (protocol.go) *)

Definition MaxLineSize : nat := 256.
Definition CmdRegister : bytes := bs "REGISTER".
Definition CmdDial : bytes := bs "DIAL".
Definition CmdTunnel : bytes := bs "TUNNEL".
Definition RespOK : bytes := bs "OK".
Definition RespErr : bytes := bs "ERR".
Definition PushOpen : bytes := bs "OPEN".

Inductive line_error := LineEOF | LineTooLong.

Definition is_eol (b : byte) : bool := (u8 b =? 13) || (u8 b =? 10).

Fixpoint drop_eol (s : bytes) : bytes :=
  match s with
  | [] => []
  | b :: s' => if is_eol b then drop_eol s' else s
  end.

(** [strings.TrimRight(line, "\r\n")]. *)
Definition TrimRight_eol (s : bytes) : bytes := rev (drop_eol (rev s)).

(** [readLine] on a reader that still has [s] before the connection ends: the
    line and what is left. *)
Definition readLine (s : bytes) : result line_error bytes * bytes :=
  match IndexByte s Byte.x0a with
  | None => (if bool_decide (s = []) then Err LineEOF else Ok (TrimRight_eol s), [])
  | Some i =>
      let line := take (S i) s in
      if (MaxLineSize <? length line)%nat then (Err LineTooLong, drop (S i) s)
      else (Ok (TrimRight_eol line), drop (S i) s)
  end.

(** [writeLine]: the bytes it writes. *)
Definition writeLine (line : bytes) : result line_error bytes :=
  if (MaxLineSize <? length line)%nat then Err LineTooLong else Ok (line ++ [Byte.x0a]).

(** [strings.Fields]; [cur] is the field being read. *)
Fixpoint fields_from (cur s : bytes) : list bytes :=
  let flush (l : list bytes) := if bool_decide (cur = []) then l else cur :: l in
  match s with
  | [] => flush []
  | a :: s1 =>
      if ascii_space a then flush (fields_from [] s1) else
      match s1 with
      | [] => fields_from (cur ++ [a]) s1
      | b :: s2 =>
          if space2 a b then flush (fields_from [] s2) else
          match s2 with
          | [] => fields_from (cur ++ [a]) s1
          | c :: s3 =>
              if space3 a b c then flush (fields_from [] s3) else fields_from (cur ++ [a]) s1
          end
      end
  end.

Definition Fields (s : bytes) : list bytes := fields_from [] s.

Definition hex_byte (b : byte) : bool :=
  ((48 <=? u8 b) && (u8 b <=? 57)) || ((97 <=? u8 b) && (u8 b <=? 102)) || ((65 <=? u8 b) && (u8 b <=? 70)).

(** [validHexID]: a rune that is not ASCII is no hexadecimal digit, so the loop
    over the runes of [s] is one over its bytes. *)
Definition validHexID (s : bytes) : bool := (length s =? 64)%nat && forallb hex_byte s.

(** [newToken]: 16 random bytes in hexadecimal, or the random source's error. *)
Definition newToken (rand : option bytes) : option bytes := hex_encode <$> rand.

(** What [handle] makes of the first line of a connection. *)
Inductive command :=
| Register (peerID : bytes)
| Dial (peerID : bytes)
| Tunnel (token : bytes)
| Refuse (why : bytes)
| Drop.

Definition usage (cmd : bytes) (parts : list bytes) (k : bytes -> command) (arg : string) : command :=
  match parts with
  | [x] => k x
  | _ => Refuse (RespErr ++ bs " usage: " ++ cmd ++ bs " " ++ bs arg)
  end.

Definition handle (s : bytes) : command :=
  match readLine s with
  | (Err _, _) => Drop
  | (Ok line, _) =>
      match Fields line with
      | [] => Refuse (RespErr ++ bs " empty command")
      | cmd :: parts =>
          if bool_decide (cmd = CmdRegister) then usage cmd parts Register "<peer-id>"
          else if bool_decide (cmd = CmdDial) then usage cmd parts Dial "<peer-id>"
          else if bool_decide (cmd = CmdTunnel) then usage cmd parts Tunnel "<token>"
          else Refuse (RespErr ++ bs " unknown command")
      end
  end.

(** ** The server (server.go) *)

Module Server.

(** Where [handleRegister] is: past its critical section, past [dropRegistration],
    past [close(reg.out)], or returned because the OK could not be written. *)
Inductive phase := Live | Dropped | OutClosed | Abandoned.

#[global] Instance phase_eq_dec : EqDecision phase.
Proof. solve_decision. Defined.

(** A registration: its peer, the lines queued in [out], whether the OK was written,
    its handler's phase, and the lines written to the peer since. *)
Record registration :=
  MkReg { r_peer : bytes; r_out : list bytes; r_greeted : bool; r_phase : phase; r_sent : list bytes }.

Definition out_capacity : nat := 16.

(** Where the handler of a DIAL is. *)
Inductive dial_state :=
| Found (peerID : bytes) (reg : nat)                    (* registration looked up *)
| Listed (peerID : bytes) (reg : nat) (token : bytes)   (* channel in [pending] *)
| Waits (peerID : bytes) (token : bytes)                (* OPEN queued, waiting *)
| Got (peerID : bytes) (token : bytes) (tunnel : nat)   (* tunnel received *)
| Piping (peerID : bytes) (token : bytes) (tunnel : nat)
| DialEnded.

(** Where the handler of a TUNNEL is. *)
Inductive tunnel_state :=
| Matched (token : bytes) (ch : nat)   (* channel looked up *)
| Handed (token : bytes)               (* sent into the channel *)
| TunnelEnded.

(** [chans] holds the channels of capacity one the DIAL handlers wait on. *)
Record server := MkServer {
  registrations : gmap bytes nat;
  regs : gmap nat registration;
  pending : gmap bytes nat;
  chans : gmap nat (option nat);
  dials : gmap nat dial_state;
  tunnels : gmap nat tunnel_state;
  closed : gset nat;
  stopped : bool;
  panicked : bool
}.

Definition NewServer : server := MkServer ∅ ∅ ∅ ∅ ∅ ∅ ∅ false false.

Definition set_registrations m s := MkServer m (regs s) (pending s) (chans s) (dials s) (tunnels s) (closed s) (stopped s) (panicked s).
Definition set_reg c r s := MkServer (registrations s) (<[c := r]> (regs s)) (pending s) (chans s) (dials s) (tunnels s) (closed s) (stopped s) (panicked s).
Definition set_pending m s := MkServer (registrations s) (regs s) m (chans s) (dials s) (tunnels s) (closed s) (stopped s) (panicked s).
Definition set_chan ch v s := MkServer (registrations s) (regs s) (pending s) (<[ch := v]> (chans s)) (dials s) (tunnels s) (closed s) (stopped s) (panicked s).
Definition set_dial d v s := MkServer (registrations s) (regs s) (pending s) (chans s) (<[d := v]> (dials s)) (tunnels s) (closed s) (stopped s) (panicked s).
Definition set_tunnel t v s := MkServer (registrations s) (regs s) (pending s) (chans s) (dials s) (<[t := v]> (tunnels s)) (closed s) (stopped s) (panicked s).
Definition close_conn c s := MkServer (registrations s) (regs s) (pending s) (chans s) (dials s) (tunnels s) ({[c]} ∪ closed s) (stopped s) (panicked s).
Definition panic s := MkServer (registrations s) (regs s) (pending s) (chans s) (dials s) (tunnels s) (closed s) (stopped s) true.

Definition RegistrationCount (s : server) : nat := size (registrations s).

(** [dropRegistration]. *)
Definition dropRegistration (c : nat) (r : registration) (s : server) : server :=
  let s := if bool_decide (registrations s !! r_peer r = Some c)
           then set_registrations (delete (r_peer r) (registrations s)) s else s in
  close_conn c s.

(** [handleRegister]: the check and the critical section. *)
Definition handleRegister (c : nat) (peerID : bytes) (s : server) : server :=
  if negb (validHexID peerID) then close_conn c s else
  let reg := MkReg peerID [] false Live [] in
  let s := match registrations s !! peerID with Some old => close_conn old s | None => s end in
  set_reg c reg (set_registrations (<[peerID := c]> (registrations s)) s).

(** [handleRegister]: the OK; [ok] is whether it could be written.  A DIAL can have
    found the registration, and queued an OPEN, before. *)
Definition register_greet (c : nat) (ok : bool) (s : server) : option server :=
  match regs s !! c with
  | Some (MkReg p out false Live sent) =>
      Some (if ok then set_reg c (MkReg p out true Live sent) s
            else set_reg c (MkReg p out false Abandoned sent) (dropRegistration c (MkReg p out false Live sent) s))
  | _ => None
  end.

(** The writer goroutine, started after the OK, sends one queued line. *)
Definition writer (c : nat) (s : server) : option server :=
  match regs s !! c with
  | Some (MkReg p (l :: out) true ph sent) => Some (set_reg c (MkReg p out true ph (sent ++ [l])) s)
  | _ => None
  end.

(** The control connection has ended: [dropRegistration], then [close(reg.out)]. *)
Definition register_drop (c : nat) (s : server) : option server :=
  match regs s !! c with
  | Some (MkReg p out true Live sent) =>
      Some (set_reg c (MkReg p out true Dropped sent) (dropRegistration c (MkReg p out true Live sent) s))
  | _ => None
  end.

Definition register_close (c : nat) (s : server) : option server :=
  match regs s !! c with
  | Some (MkReg p out g Dropped sent) => Some (set_reg c (MkReg p out g OutClosed sent) s)
  | _ => None
  end.

(** [Stop]: every control connection on file is closed; their handlers notice. *)
Definition Stop (s : server) : server :=
  if stopped s then s else
  MkServer (registrations s) (regs s) (pending s) (chans s) (dials s) (tunnels s)
    (list_to_set (map_to_list (registrations s)).*2 ∪ closed s) true (panicked s).

(** The end of [handleDial]: the dialer's connection is closed and the deferred
    function takes the token out of [pending]. *)
Definition dial_fail (d : nat) (token : option bytes) (s : server) : server :=
  let s := close_conn d (set_dial d DialEnded s) in
  match token with Some t => set_pending (delete t (pending s)) s | None => s end.

(** [handleDial]: the lookup. *)
Definition dial_lookup (d : nat) (peerID : bytes) (s : server) : option server :=
  Some (match registrations s !! peerID with
        | None => dial_fail d None s
        | Some reg => set_dial d (Found peerID reg) s
        end).

(** [handleDial]: the token and the channel. *)
Definition dial_list (d : nat) (rand : option bytes) (s : server) : option server :=
  match dials s !! d with
  | Some (Found peerID reg) =>
      Some (match newToken rand with
            | None => dial_fail d None s
            | Some token =>
                set_dial d (Listed peerID reg token)
                  (set_chan d None (set_pending (<[token := d]> (pending s)) s))
            end)
  | _ => None
  end.

(** [handleDial]: the [select] that queues the OPEN; a send on a closed channel panics. *)
Definition dial_push (d : nat) (s : server) : option server :=
  match dials s !! d with
  | Some (Listed peerID reg token) =>
      match regs s !! reg with
      | None => None
      | Some r =>
          Some (if bool_decide (r_phase r = OutClosed) then panic s
                else if (length (r_out r) <? out_capacity)%nat then
                  set_dial d (Waits peerID token)
                    (set_reg reg (MkReg (r_peer r) (r_out r ++ [PushOpen ++ bs " " ++ token])
                                    (r_greeted r) (r_phase r) (r_sent r)) s)
                else dial_fail d (Some token) s)
      end
  | _ => None
  end.

(** [handleDial]: the tunnel arrives, or the time is over. *)
Definition dial_receive (d : nat) (s : server) : option server :=
  match dials s !! d, chans s !! d with
  | Some (Waits peerID token), Some (Some t) =>
      Some (set_dial d (Got peerID token t) (set_chan d None s))
  | _, _ => None
  end.

Definition dial_timeout (d : nat) (s : server) : option server :=
  match dials s !! d with
  | Some (Waits _ token) => Some (dial_fail d (Some token) s)
  | _ => None
  end.

(** [handleDial]: the two OKs, then the bytes flow. *)
Definition dial_confirm (d : nat) (ok1 ok2 : bool) (s : server) : option server :=
  match dials s !! d with
  | Some (Got peerID token t) =>
      Some (if ok1 && ok2 then set_dial d (Piping peerID token t) s
            else close_conn t (dial_fail d (Some token) s))
  | _ => None
  end.

(** [handleDial]: one side has closed, [pipe] closes both. *)
Definition dial_finish (d : nat) (s : server) : option server :=
  match dials s !! d with
  | Some (Piping _ token t) => Some (close_conn t (dial_fail d (Some token) s))
  | _ => None
  end.

(** [handleTunnel]: the lookup, then the [select] that hands the connection over. *)
Definition tunnel_lookup (t : nat) (token : bytes) (s : server) : option server :=
  Some (match pending s !! token with
        | None => close_conn t (set_tunnel t TunnelEnded s)
        | Some ch => set_tunnel t (Matched token ch) s
        end).

Definition tunnel_hand (t : nat) (s : server) : option server :=
  match tunnels s !! t with
  | Some (Matched token ch) =>
      match chans s !! ch with
      | Some None => Some (set_tunnel t (Handed token) (set_chan ch (Some t) s))
      | _ => Some (close_conn t (set_tunnel t TunnelEnded s))
      end
  | _ => None
  end.

Inductive event :=
| ERegister (c : nat) (peerID : bytes) | EGreet (c : nat) (ok : bool)
| EWriter (c : nat) | EDrop (c : nat) | EClose (c : nat) | EStop
| EDial (d : nat) (peerID : bytes) | EList (d : nat) (rand : option bytes) | EPush (d : nat)
| EReceive (d : nat) | ETimeout (d : nat) | EConfirm (d : nat) (ok1 ok2 : bool) | EFinish (d : nat)
| ETunnel (t : nat) (token : bytes) | EHand (t : nat).

(** A connection that has not given its command yet. *)
Definition fresh_conn (s : server) (c : nat) : bool :=
  bool_decide (regs s !! c = None) && bool_decide (dials s !! c = None)
  && bool_decide (tunnels s !! c = None) && negb (bool_decide (c ∈ closed s)).

(** One step; [None] where the handler is not at that point.  A connection gives
    one command, and after a panic nothing runs. *)
Definition exec (s : server) (e : event) : option server :=
  if panicked s then None else
  match e with
  | ERegister c peerID => if fresh_conn s c then Some (handleRegister c peerID s) else None
  | EGreet c ok => register_greet c ok s
  | EWriter c => writer c s
  | EDrop c => register_drop c s
  | EClose c => register_close c s
  | EStop => Some (Stop s)
  | EDial d peerID => if fresh_conn s d then dial_lookup d peerID s else None
  | EList d rand => dial_list d rand s
  | EPush d => dial_push d s
  | EReceive d => dial_receive d s
  | ETimeout d => dial_timeout d s
  | EConfirm d ok1 ok2 => dial_confirm d ok1 ok2 s
  | EFinish d => dial_finish d s
  | ETunnel t token => if fresh_conn s t then tunnel_lookup t token s else None
  | EHand t => tunnel_hand t s
  end.

Fixpoint run (s : server) (es : list event) : option server :=
  match es with
  | [] => Some s
  | e :: es => match exec s e with Some s => run s es | None => None end
  end.

End Server.

(** ** Established tunnels and the client's side of them *)

(** One direction of [pipe]: what [copy] writes, from what its reads return and
    which of its writes fails. *)
Fixpoint copy (reads : list (bytes * bool)) (write_ok : list bool) : bytes :=
  match reads with
  | [] => []
  | (chunk, err) :: reads =>
      match chunk, write_ok with
      | [], _ => if (err : bool) then [] else copy reads write_ok
      | _, false :: _ => []
      | _, true :: ws => chunk ++ (if (err : bool) then [] else copy reads ws)
      | _, [] => chunk ++ (if (err : bool) then [] else copy reads [])
      end
  end.

Inductive client_error := ClientTooLong | ClientEOF | Refused (resp : bytes).

(** A [prefixConn]: buffered bytes, then those of the connection. *)
Record prefixConn := MkPrefix { prefix : bytes; conn_rest : bytes }.

Definition prefix_Read (n : nat) (p : prefixConn) : bytes * prefixConn :=
  if bool_decide (prefix p = []) then (take n (conn_rest p), MkPrefix [] (drop n (conn_rest p)))
  else (take n (prefix p), MkPrefix (drop n (prefix p)) (conn_rest p)).

(** [DialVia] once connected to a relay that answers with [s]: the line it sends
    and the connection it returns.  [buffered] is how many bytes after the answer
    the [bufio.Reader] has read ahead. *)
Definition DialVia (peerID s : bytes) (buffered : nat) : result client_error prefixConn * bytes :=
  match writeLine (CmdDial ++ bs " " ++ peerID) with
  | Err _ => (Err ClientTooLong, [])
  | Ok out =>
      match readLine s with
      | (Err _, _) => (Err ClientEOF, out)
      | (Ok resp, r) =>
          if negb (HasPrefix resp RespOK) then (Err (Refused resp), out)
          else (Ok (MkPrefix (take buffered r) (drop buffered r)), out)
      end
  end.

(** [openTunnel] likewise; the tunnel is surfaced when the channel has room. *)
Definition openTunnel (token s : bytes) (buffered : nat) (tunnels : list prefixConn)
  : list prefixConn * bytes :=
  match writeLine (CmdTunnel ++ bs " " ++ token) with
  | Err _ => (tunnels, [])
  | Ok out =>
      match readLine s with
      | (Err _, _) => (tunnels, out)
      | (Ok resp, r) =>
          if negb (HasPrefix resp RespOK) then (tunnels, out)
          else if (length tunnels <? 16)%nat
               then (tunnels ++ [MkPrefix (take buffered r) (drop buffered r)], out)
               else (tunnels, out)
      end
  end.

(** The pushes [runOnce] reads: the tokens it opens tunnels for, until the
    connection ends or a line is too long. *)
Fixpoint pushes (fuel : nat) (s : bytes) : list bytes :=
  match fuel with
  | O => []
  | S fuel =>
      match readLine s with
      | (Err _, _) => []
      | (Ok line, r) =>
          match Fields line with
          | cmd :: token :: _ =>
              if bool_decide (cmd = PushOpen) then token :: pushes fuel r else pushes fuel r
          | _ => pushes fuel r
          end
      end
  end.

(** [runOnce] once connected to a relay that sends [s]: what it registers with,
    and the tokens it opens tunnels for. *)
Definition runOnce (peerID s : bytes) : result client_error (list bytes) * bytes :=
  match writeLine (CmdRegister ++ bs " " ++ peerID) with
  | Err _ => (Err ClientTooLong, [])
  | Ok out =>
      match readLine s with
      | (Err _, _) => (Err ClientEOF, out)
      | (Ok resp, r) =>
          if negb (HasPrefix resp RespOK) then (Err (Refused resp), out)
          else (Ok (pushes (length r) r), out)
      end
  end.

(** The wait of [Run] after a failed attempt, and the next one. *)
Definition first_backoff : Z := Second.
Definition next_backoff (b : Z) : Z := let b := b * 2 in if Minute <? b then Minute else b.

(** * Facts about the control lines *)

Lemma TrimRight_eol_snoc s b :
  TrimRight_eol (s ++ [b]) = if is_eol b then TrimRight_eol s else s ++ [b].
Proof.
  unfold TrimRight_eol. rewrite rev_app_distr. simpl. destruct (is_eol b); [done|].
  simpl. by rewrite rev_involutive.
Qed.

Definition ends_well (line : bytes) : Prop := match last line with Some b => is_eol b = false | None => True end.

Lemma TrimRight_eol_id line : ends_well line -> TrimRight_eol line = line.
Proof.
  unfold ends_well. destruct line as [|b l _] using rev_ind; [done|]. rewrite last_snoc. intros Hb.
  by rewrite TrimRight_eol_snoc, Hb.
Qed.

(** What one end writes, the other reads, when it has no line break of its own and
    leaves room for the one [writeLine] adds. *)
Lemma readLine_line line r :
  (length line < MaxLineSize)%nat -> Byte.x0a ∉ line -> ends_well line ->
  readLine ((line ++ [Byte.x0a]) ++ r) = (Ok line, r).
Proof.
  intros Hl Hn He. unfold readLine. rewrite <- app_assoc. simpl app at 2.
  rewrite IndexByte_app by done. change (line ++ Byte.x0a :: r) with (line ++ [Byte.x0a] ++ r).
  rewrite app_assoc. replace (S (length line)) with (length (line ++ [Byte.x0a])) by (rewrite length_app; simpl; lia).
  rewrite take_app_length, drop_app_length.
  rewrite (proj2 (Nat.ltb_ge _ _)) by (rewrite length_app; simpl; lia).
  rewrite TrimRight_eol_snoc. cbn [is_eol]. change (is_eol Byte.x0a) with true. cbv iota.
  by rewrite TrimRight_eol_id.
Qed.

Lemma fields_step cur a s : plain a = true -> fields_from cur (a :: s) = fields_from (cur ++ [a]) s.
Proof.
  unfold plain, is_ascii. intros [Ha Hs]%andb_true_iff. apply negb_true_iff in Hs. apply Z.ltb_lt in Ha.
  assert (forall b, space2 a b = false) as H2
    by (intros b; unfold space2; by rewrite (proj2 (Z.eqb_neq _ _)) by lia).
  assert (forall b c, space3 a b c = false) as H3
    by (intros b c; unfold space3; by rewrite !(proj2 (Z.eqb_neq (u8 a) _)) by lia).
  cbn [fields_from]. rewrite Hs. destruct s as [|b [|c s]]; [done|by rewrite H2|by rewrite H2, H3].
Qed.

Lemma fields_plain w cur s : forallb plain w = true -> fields_from cur (w ++ s) = fields_from (cur ++ w) s.
Proof.
  revert cur. induction w as [|a w IH]; intros cur Hw; simpl app; [by rewrite app_nil_r|].
  simpl in Hw. apply andb_true_iff in Hw as [Ha Hw]. rewrite fields_step, IH by done.
  by rewrite <- app_assoc.
Qed.

Lemma Fields_two cmd arg :
  forallb plain cmd = true -> forallb plain arg = true -> cmd <> [] -> arg <> [] ->
  Fields (cmd ++ bs " " ++ arg) = [cmd; arg].
Proof.
  intros Hc Ha Hc0 Ha0. unfold Fields. rewrite fields_plain by done. simpl app.
  change (bs " ") with [Byte.x20]. simpl app. cbn [fields_from]. change (ascii_space Byte.x20) with true.
  cbv iota. rewrite bool_decide_eq_false_2 by done. rewrite <- (app_nil_r arg) at 1.
  rewrite fields_plain by done. cbn [fields_from app]. by rewrite bool_decide_eq_false_2.
Qed.

Lemma plain_ends_well s w : forallb plain w = true -> w <> [] -> ends_well (s ++ w).
Proof.
  intros Hw Hne. destruct w as [|b l _] using rev_ind; [done|]. unfold ends_well.
  rewrite app_assoc, last_snoc. rewrite forallb_app in Hw. apply andb_true_iff in Hw as [_ Hb].
  simpl in Hb. rewrite andb_true_r in Hb. unfold plain, ascii_space in Hb. unfold is_eol.
  apply andb_true_iff in Hb as [_ Hb]. apply negb_true_iff, orb_false_iff in Hb as [Hb _].
  destruct (Z.eqb_spec (u8 b) 13) as [Hb'|]; [by rewrite Hb' in Hb|].
  by destruct (Z.eqb_spec (u8 b) 10) as [Hb'|]; [rewrite Hb' in Hb|].
Qed.

Lemma plain_no_newline w : forallb plain w = true -> Byte.x0a ∉ w.
Proof.
  intros Hw Hin. rewrite forallb_forall in Hw. apply list_elem_of_In in Hin.
  by specialize (Hw _ Hin).
Qed.

(** A command with one plain argument arrives as that command. *)
Lemma handle_command cmd arg r :
  forallb plain cmd = true -> forallb plain arg = true -> cmd <> [] -> arg <> [] ->
  (length cmd + length arg < 255)%nat ->
  handle (((cmd ++ bs " " ++ arg) ++ [Byte.x0a]) ++ r)
  = if bool_decide (cmd = CmdRegister) then Register arg
    else if bool_decide (cmd = CmdDial) then Dial arg
    else if bool_decide (cmd = CmdTunnel) then Tunnel arg
    else Refuse (RespErr ++ bs " unknown command").
Proof.
  intros Hc Ha Hc0 Ha0 Hl. unfold handle. rewrite readLine_line.
  - by rewrite Fields_two.
  - rewrite !length_app. unfold MaxLineSize. simpl. lia.
  - rewrite !not_elem_of_app. split_and!; [by apply plain_no_newline| |by apply plain_no_newline].
    change (bs " ") with [Byte.x20]. by rewrite list_elem_of_singleton.
  - rewrite app_assoc. by apply plain_ends_well.
Qed.

Lemma writeLine_ok line : (length line <= MaxLineSize)%nat -> writeLine line = Ok (line ++ [Byte.x0a]).
Proof. intros Hl. unfold writeLine. by rewrite (proj2 (Nat.ltb_ge _ _)) by lia. Qed.

(** ** IDs *)

Lemma hex_byte_digit b : hex_byte b = true <-> is_Some (from_hex_digit b).
Proof.
  unfold hex_byte, from_hex_digit.
  destruct ((48 <=? u8 b) && (u8 b <=? 57)), ((97 <=? u8 b) && (u8 b <=? 102)), ((65 <=? u8 b) && (u8 b <=? 70));
    simpl; (split; intros Hh; first [done|by eauto|by destruct Hh]).
Qed.

Lemma hex_decode_digits s :
  (exists k, length s = 2 * k)%nat -> forallb hex_byte s = true <-> is_Some (hex_decode s).
Proof.
  induction s as [|a|a b s IH] using pair_ind; intros [k Hk].
  - split; eauto.
  - simpl in Hk. lia.
  - simpl in Hk. assert (exists k, length s = 2 * k)%nat as Hs by (exists (k - 1)%nat; lia).
    specialize (IH Hs). cbn [forallb hex_decode]. rewrite !andb_true_iff, !hex_byte_digit, IH.
    split.
    + intros ([x ->] & [y ->] & [l ->]). eauto.
    + intros [l Hl]. destruct (from_hex_digit a), (from_hex_digit b), (hex_decode s); done.
Qed.

Lemma hex_decode_length s l : hex_decode s = Some l -> length s = (2 * length l)%nat.
Proof.
  intros Hd. apply hex_decode_lower in Hd as [Hm _]. apply (f_equal length) in Hm.
  by rewrite length_map, hex_encode_length in Hm.
Qed.

Lemma validHexID_spec s :
  validHexID s = true <-> exists b, hex_decode s = Some b /\ length b = 32%nat.
Proof.
  unfold validHexID. split.
  - intros [Hl Hh]%andb_true_iff. apply Nat.eqb_eq in Hl.
    apply hex_decode_digits in Hh as [b Hb]; [|by exists 32%nat]. exists b. split; [done|].
    apply hex_decode_length in Hb. lia.
  - intros (b & Hb & Hl). pose proof (hex_decode_length s b Hb) as Hs. apply andb_true_iff.
    split; [apply Nat.eqb_eq; lia|]. apply hex_decode_digits; [exists 32%nat; lia|eauto].
Qed.

Lemma hex_encode_plain l : forallb plain (hex_encode l) = true.
Proof.
  eapply forallb_impl; [|apply hex_encode_lower_plain]. intros b Hb. unfold lower_plain in Hb.
  by apply andb_true_iff in Hb as [? _].
Qed.

(** * The server's invariant *)

Module ServerFacts.
Import Server.

Definition open_line (token : bytes) : bytes := PushOpen ++ bs " " ++ token.

(** The token of a DIAL, once it has one and while it lasts. *)
Definition token_of (ds : dial_state) : option bytes :=
  match ds with
  | Listed _ _ tok | Waits _ tok | Got _ tok _ | Piping _ tok _ => Some tok
  | _ => None
  end.

(** The DIAL [ch] has the token [tok], or is over. *)
Definition for_token (s : server) (ch : nat) (tok : bytes) : Prop :=
  exists ds, dials s !! ch = Some ds /\ (token_of ds = Some tok \/ ds = DialEnded).

(** An OPEN for the token was queued to a registration of the peer. *)
Definition asked (s : server) (peer tok : bytes) : Prop :=
  exists c r, regs s !! c = Some r /\ r_peer r = peer /\ open_line tok ∈ r_sent r ++ r_out r.

Definition dial_ok (s : server) (ds : dial_state) : Prop :=
  match ds with
  | Found p c | Listed p c _ => exists r, regs s !! c = Some r /\ r_peer r = p
  | Waits p tok => asked s p tok
  | Got p tok t | Piping p tok t => asked s p tok /\ tunnels s !! t = Some (Handed tok)
  | DialEnded => True
  end.

(** The tunnel a DIAL has taken. *)
Definition taken (ds : dial_state) : option nat :=
  match ds with Got _ _ t | Piping _ _ t => Some t | _ => None end.

Record inv (s : server) : Prop := {
  inv_reg : forall p c, registrations s !! p = Some c ->
    exists r, regs s !! c = Some r /\ r_peer r = p /\ r_phase r = Live;
  inv_dial : forall d ds, dials s !! d = Some ds -> dial_ok s ds;
  inv_pending : forall tok d, pending s !! tok = Some d ->
    exists ds, dials s !! d = Some ds /\ token_of ds = Some tok;
  inv_matched : forall t tok ch, tunnels s !! t = Some (Matched tok ch) -> for_token s ch tok;
  inv_chan : forall ch t, chans s !! ch = Some (Some t) ->
    exists tok, tunnels s !! t = Some (Handed tok) /\ for_token s ch tok;
  inv_one_chan : forall ch ch' t, chans s !! ch = Some (Some t) -> chans s !! ch' = Some (Some t) -> ch = ch';
  inv_one_dial : forall d d' ds ds' t, dials s !! d = Some ds -> dials s !! d' = Some ds' ->
    taken ds = Some t -> taken ds' = Some t -> d = d';
  inv_apart : forall ch d ds t, chans s !! ch = Some (Some t) -> dials s !! d = Some ds -> taken ds <> Some t
}.

(** What the clauses about tunnels and dials depend on. *)
Definition same_tunnels (s s' : server) : Prop :=
  pending s' = pending s /\ chans s' = chans s /\ dials s' = dials s /\ tunnels s' = tunnels s.

(** Registrations only gain lines, and keep their peer. *)
Definition regs_grow (s s' : server) : Prop :=
  forall c r, regs s !! c = Some r -> exists r', regs s' !! c = Some r' /\ r_peer r' = r_peer r
    /\ forall l, l ∈ r_sent r ++ r_out r -> l ∈ r_sent r' ++ r_out r'.

Lemma asked_grow s s' p tok : regs_grow s s' -> asked s p tok -> asked s' p tok.
Proof.
  intros Hg (c & r & Hc & Hp & Hl). destruct (Hg c r Hc) as (r' & Hc' & Hp' & Hl').
  exists c, r'. split_and!; [done|congruence|auto].
Qed.

Lemma dial_ok_grow s s' ds :
  regs_grow s s' ->
  (forall t tok, tunnels s !! t = Some (Handed tok) -> tunnels s' !! t = Some (Handed tok)) ->
  dial_ok s ds -> dial_ok s' ds.
Proof.
  intros Hg Ht. destruct ds; simpl; try done.
  - intros (r & Hr & ?). destruct (Hg _ _ Hr) as (r' & ? & ? & _). exists r'. split; congruence.
  - intros (r & Hr & ?). destruct (Hg _ _ Hr) as (r' & ? & ? & _). exists r'. split; congruence.
  - by apply asked_grow.
  - intros [? ?]. split; [by eapply asked_grow|auto].
  - intros [? ?]. split; [by eapply asked_grow|auto].
Qed.

(** Steps of the registering side: nothing else changes. *)
Lemma inv_registering s s' :
  inv s -> same_tunnels s s' -> regs_grow s s' ->
  (forall p c, registrations s' !! p = Some c ->
     exists r, regs s' !! c = Some r /\ r_peer r = p /\ r_phase r = Live) ->
  inv s'.
Proof.
  intros [I1 I2 I3 I4 I5 I6 I7 I8] (Hp & Hc & Hd & Ht) Hg Hr.
  split; unfold for_token; rewrite ?Hp, ?Hc, ?Hd, ?Ht; try done.
  intros d ds Hds. apply (dial_ok_grow s); [done|by rewrite Ht|by apply (I2 d)].
Qed.

Lemma regs_grow_refl s s' : regs s' = regs s -> regs_grow s s'.
Proof. intros Hr c r Hc. exists r. by rewrite Hr. Qed.

Lemma regs_grow_set s s' c r0 r1 :
  regs s !! c = Some r0 \/ regs s !! c = None -> regs s' = <[c := r1]> (regs s) ->
  (regs s !! c = Some r0 -> r_peer r1 = r_peer r0 /\ forall l, l ∈ r_sent r0 ++ r_out r0 -> l ∈ r_sent r1 ++ r_out r1) ->
  regs_grow s s'.
Proof.
  intros Hc Hr Hl c' r Hc'. rewrite Hr. destruct (decide (c' = c)) as [->|Hne].
  - exists r1. rewrite lookup_insert_eq. split; [done|].
    destruct Hc as [Hc|Hc]; [|congruence]. assert (r = r0) as -> by congruence. by apply Hl.
  - exists r. by rewrite lookup_insert_ne.
Qed.

Lemma register_inv s c peerID :
  inv s -> fresh_conn s c = true -> inv (handleRegister c peerID s).
Proof.
  intros Hinv Hf. unfold fresh_conn in Hf. zbool. unfold handleRegister.
  destruct (validHexID peerID); cbn [negb].
  2: { apply (inv_registering s); [done|by split_and!|by apply regs_grow_refl|]. apply Hinv. }
  set (s1 := match registrations s !! peerID with Some old => close_conn old s | None => s end).
  assert (registrations s1 = registrations s /\ regs s1 = regs s /\ same_tunnels s s1) as (E1 & E2 & E3).
  { unfold s1. destruct (registrations s !! peerID); by split_and!. }
  apply (inv_registering s); [done|exact E3| |].
  - eapply (regs_grow_set s _ c (MkReg [] [] false Live [])); [by right|simpl; by rewrite E2|congruence].
  - simpl. rewrite E1, E2. intros p c' [[<- <-]|[Hne Hp]]%lookup_insert_Some.
    + eexists. by rewrite lookup_insert_eq.
    + destruct (inv_reg s Hinv p c' Hp) as (r & Hr & ? & ?). exists r.
      rewrite lookup_insert_ne by congruence. done.
Qed.

(** A change of a registration that is not current, or keeps it live. *)
Lemma inv_set_reg s c r0 r1 :
  inv s -> regs s !! c = Some r0 -> r_peer r1 = r_peer r0 ->
  (forall l, l ∈ r_sent r0 ++ r_out r0 -> l ∈ r_sent r1 ++ r_out r1) ->
  (r_phase r0 = Live -> r_phase r1 = Live) ->
  inv (set_reg c r1 s).
Proof.
  intros Hinv Hc Hp Hl Hph. apply (inv_registering s); [done|by split_and!| |].
  - eapply (regs_grow_set s _ c r0); [by left|done|done].
  - simpl. intros p c' Hpc. destruct (inv_reg s Hinv p c' Hpc) as (r & Hr & ? & ?).
    destruct (decide (c' = c)) as [->|Hne]; [|exists r; by rewrite lookup_insert_ne].
    exists r1. rewrite lookup_insert_eq. assert (r = r0) as -> by congruence. split_and!; [done|congruence|auto].
Qed.

(** A registration is taken off the file and its handler goes on. *)
Lemma drop_inv s c p out g sent ph :
  inv s -> regs s !! c = Some (MkReg p out g Live sent) ->
  inv (set_reg c (MkReg p out g ph sent) (dropRegistration c (MkReg p out g Live sent) s)).
Proof.
  intros Hinv Hc. unfold dropRegistration. cbn [r_peer].
  apply (inv_registering s); [done| | |]; try (case_bool_decide; by split_and!).
  - eapply (regs_grow_set s _ c (MkReg p out g Live sent)); [by left|case_bool_decide; done|done].
  - intros p' c' Hpc.
    assert (registrations s !! p' = Some c' /\ c' <> c) as [Hr Hne].
    { case_bool_decide as Hcur; simpl in Hpc.
      - apply lookup_delete_Some in Hpc as [Hpp Hr]. split; [done|]. intros ->.
        destruct (inv_reg s Hinv p' c Hr) as (r & ? & ? & _). by simplify_eq/=.
      - split; [done|]. intros ->. destruct (inv_reg s Hinv p' c Hpc) as (r & ? & ? & _).
        by simplify_eq/=. }
    destruct (inv_reg s Hinv p' c' Hr) as (r & ? & ? & ?). exists r.
    case_bool_decide; simpl; by rewrite lookup_insert_ne.
Qed.

(** Steps of the tunnelling side leave the registrations alone, up to a queued line. *)

(** A DIAL moves to a state that has taken what it had, or nothing, keeping its
    token or ending; tunnels and channels stay. *)
Lemma inv_dial_moves s s' d ds0 ds :
  inv s -> dials s !! d = Some ds0 \/ (dials s !! d = None /\ ds0 = Found [] 0) ->
  registrations s' = registrations s -> regs_grow s s' ->
  (forall p c, registrations s !! p = Some c -> exists r, regs s' !! c = Some r /\ r_peer r = p /\ r_phase r = Live) ->
  chans s' = chans s -> tunnels s' = tunnels s ->
  dials s' = <[d := ds]> (dials s) -> taken ds = None \/ taken ds = taken ds0 -> dial_ok s' ds ->
  (forall tok, token_of ds0 = Some tok -> token_of ds = Some tok \/ ds = DialEnded) ->
  (ds0 = DialEnded -> ds = DialEnded) ->
  (forall tok d', pending s' !! tok = Some d' ->
     pending s !! tok = Some d' /\ (d' = d -> token_of ds = Some tok)) ->
  inv s'.
Proof.
  intros [I1 I2 I3 I4 I5 I6 I7 I8] Hd Hreg Hg Hlive Hch Htn Hds Htk Hok Htok Hend Hpend.
  assert (forall ch tok, for_token s ch tok -> for_token s' ch tok) as Hfor.
  { intros ch tok (x & Hx & Hc). unfold for_token. rewrite Hds.
    destruct (decide (ch = d)) as [->|Hne]; [|exists x; by rewrite lookup_insert_ne].
    exists ds. rewrite lookup_insert_eq. split; [done|].
    destruct Hd as [Hd|[Hd _]]; [|congruence]. assert (x = ds0) as -> by congruence.
    destruct Hc as [Hc|Hc]; auto. }
  assert (forall t, taken ds = Some t -> dials s !! d = Some ds0 /\ taken ds0 = Some t) as Htake.
  { intros t Ht. destruct Htk as [?|Hsame]; [congruence|]. rewrite Hsame in Ht.
    destruct Hd as [Hd|[_ ->]]; [done|]. done. }
  split.
  - rewrite Hreg. exact Hlive.
  - rewrite Hds. intros d' x [[<- <-]|[Hne Hx]]%lookup_insert_Some; [done|].
    apply (dial_ok_grow s); [done|by rewrite Htn|by apply (I2 d')].
  - intros tok d' Hp. destruct (Hpend tok d' Hp) as [Hp' Hdd]. rewrite Hds.
    destruct (decide (d' = d)) as [->|Hne]; [exists ds; rewrite lookup_insert_eq; auto|].
    rewrite lookup_insert_ne by done. by apply I3.
  - rewrite Htn. intros t tok ch Ht. by apply Hfor, (I4 t).
  - rewrite Hch, Htn. intros ch t Hc. destruct (I5 ch t Hc) as (tok & ? & ?). exists tok. auto.
  - by rewrite Hch.
  - rewrite Hds. intros d1 d2 x1 x2 t [[<- <-]|[_ H1]]%lookup_insert_Some
      [[<- <-]|[_ H2]]%lookup_insert_Some T1 T2; [done| | |by apply (I7 d1 d2 x1 x2 t)].
    + destruct (Htake t T1) as [? ?]. by apply (I7 d d2 ds0 x2 t).
    + destruct (Htake t T2) as [? ?]. by apply (I7 d1 d x1 ds0 t).
  - rewrite Hch, Hds. intros ch d1 x t Hc [[<- <-]|[_ H1]]%lookup_insert_Some; [|by apply (I8 ch d1)].
    intros Ht. destruct (Htake t Ht) as [? ?]. by apply (I8 ch d ds0 t).
Qed.

(** A DIAL ends: its token, if it has one, leaves [pending]. *)
Lemma dial_fail_inv s d ds0 tok :
  inv s -> dials s !! d = Some ds0 -> token_of ds0 = tok -> ds0 <> DialEnded ->
  inv (dial_fail d tok s).
Proof.
  intros Hinv Hd Htok Hne.
  eapply (inv_dial_moves s _ d ds0 DialEnded); unfold dial_fail; destruct tok; simpl; eauto;
    try (by apply regs_grow_refl); try apply Hinv.
  - intros tok' d' [Hn Hp]%lookup_delete_Some. split; [done|]. intros ->.
    destruct (inv_pending s Hinv tok' d Hp) as (x & ? & ?). congruence.
  - intros tok' d' Hp. split; [done|]. intros ->.
    destruct (inv_pending s Hinv tok' d Hp) as (x & ? & ?). congruence.
Qed.

Lemma close_conn_inv s c : inv s -> inv (close_conn c s).
Proof. intros []. by split. Qed.

Lemma dial_lookup_inv s s' d peerID :
  inv s -> fresh_conn s d = true -> dial_lookup d peerID s = Some s' -> inv s'.
Proof.
  intros Hinv Hf Heq. unfold fresh_conn in Hf. zbool. unfold dial_lookup in Heq.
  assert (forall ds, (ds = DialEnded \/ exists p c, ds = Found p c /\ dial_ok s ds) ->
            inv (set_dial d ds s)) as Hset.
  { intros ds Hds. eapply (inv_dial_moves s _ d (Found [] 0) ds); simpl; eauto;
      try (by apply regs_grow_refl); try apply Hinv; try done.
    - left. destruct Hds as [->|(? & ? & -> & _)]; done.
    - destruct Hds as [->|(? & ? & -> & ?)]; done.
    - intros tok d' Hp. split; [done|]. intros ->.
      destruct (inv_pending s Hinv tok d Hp) as (x & ? & ?). congruence. }
  destruct (registrations s !! peerID) as [c|] eqn:Er; simplify_eq.
  - apply Hset. right. exists peerID, c. split; [done|].
    destruct (inv_reg s Hinv peerID c Er) as (r & ? & ? & _). by exists r.
  - apply close_conn_inv, Hset. by left.
Qed.

Lemma dial_list_inv s s' d rand : inv s -> dial_list d rand s = Some s' -> inv s'.
Proof.
  intros Hinv Heq. unfold dial_list in Heq. destruct (dials s !! d) as [[p c| | | | |]|] eqn:Ed; try done.
  destruct (newToken rand) as [tok|]; simplify_eq; [|by eapply dial_fail_inv].
  pose proof Hinv as [I1 I2 I3 I4 I5 I6 I7 I8]. pose proof (I2 d _ Ed) as Hok.
  assert (forall ch tok', for_token s ch tok' -> ch <> d) as Hnd.
  { intros ch tok' (x & Hx & Hc) ->. rewrite Ed in Hx. simplify_eq. by destruct Hc. }
  assert (forall ch tok', for_token s ch tok' ->
    for_token (set_dial d (Listed p c tok) (set_chan d None (set_pending (<[tok:=d]> (pending s)) s))) ch tok') as Hfor.
  { intros ch tok' Hc. pose proof (Hnd ch tok' Hc). destruct Hc as (x & Hx & Hc). exists x. simpl.
    by rewrite lookup_insert_ne. }
  split; simpl.
  - done.
  - intros d' x [[<- <-]|[Hne Hx]]%lookup_insert_Some; [done|]. by apply (I2 d').
  - intros tok' d' [[<- <-]|[Hne Hp]]%lookup_insert_Some.
    + exists (Listed p c tok). by rewrite lookup_insert_eq.
    + destruct (I3 tok' d' Hp) as (x & Hx & Hxt). exists x. rewrite lookup_insert_ne; [done|].
      intros ->. rewrite Ed in Hx. by simplify_eq.
  - intros t tok' ch Ht. by apply Hfor, (I4 t).
  - intros ch t [[_ ?]|[Hne Hc]]%lookup_insert_Some; [done|].
    destruct (I5 ch t Hc) as (tok' & ? & ?). exists tok'. auto.
  - intros ch ch' t [[_ ?]|[_ H1]]%lookup_insert_Some [[_ ?]|[_ H2]]%lookup_insert_Some; try done.
    by apply (I6 ch ch' t).
  - intros d1 d2 x1 x2 t [[<- <-]|[_ H1]]%lookup_insert_Some [[<- <-]|[_ H2]]%lookup_insert_Some T1 T2;
      try done. by apply (I7 d1 d2 x1 x2 t).
  - intros ch d1 x t [[_ ?]|[_ Hc]]%lookup_insert_Some [[<- <-]|[_ H1]]%lookup_insert_Some; try done.
    by apply (I8 ch d1).
Qed.

Lemma dial_push_inv s s' d : inv s -> dial_push d s = Some s' -> inv s'.
Proof.
  intros Hinv Heq. unfold dial_push in Heq. destruct (dials s !! d) as [[|p c tok| | | |]|] eqn:Ed; try done.
  destruct (regs s !! c) as [r|] eqn:Er; [|done].
  destruct (inv_dial s Hinv d _ Ed) as (r' & Hr' & Hp). assert (r' = r) as -> by congruence.
  subst p. destruct (bool_decide (r_phase r = OutClosed)); simplify_eq; [by destruct Hinv; split|].
  destruct (length (r_out r) <? out_capacity)%nat; [|by eapply dial_fail_inv].
  set (r1 := MkReg (r_peer r) (r_out r ++ [open_line tok]) (r_greeted r) (r_phase r) (r_sent r)).
  assert (regs_grow s (set_dial d (Waits (r_peer r) tok) (set_reg c r1 s))) as Hgrow.
  { eapply (regs_grow_set s _ c r r1); [by left|done|]. intros _. split; [done|].
    intros l. simpl. rewrite !elem_of_app. tauto. }
  eapply (inv_dial_moves s _ d (Listed (r_peer r) c tok) (Waits (r_peer r) tok)); simpl; eauto; try done.
  - intros p' c' Hpc. destruct (inv_reg s Hinv p' c' Hpc) as (r2 & Hr2 & ? & ?).
    destruct (decide (c' = c)) as [->|Hne]; [|exists r2; by rewrite lookup_insert_ne].
    exists r1. rewrite lookup_insert_eq. by simplify_eq.
  - exists c, r1. simpl. rewrite lookup_insert_eq. split_and!; [done|done|].
    rewrite !elem_of_app, list_elem_of_singleton. auto.
  - intros tok' d' Hp'. split; [done|]. intros ->.
    destruct (inv_pending s Hinv tok' d Hp') as (x & ? & ?). by simplify_eq/=.
Qed.

Lemma dial_receive_inv s s' d : inv s -> dial_receive d s = Some s' -> inv s'.
Proof.
  intros Hinv Heq. unfold dial_receive in Heq.
  destruct (dials s !! d) as [[| |p tok| | |]|] eqn:Ed; try done.
  destruct (chans s !! d) as [[t|]|] eqn:Ec; try done. simplify_eq.
  pose proof Hinv as [I1 I2 I3 I4 I5 I6 I7 I8].
  destruct (I5 d t Ec) as (tok' & Ht & (x & Hx & Hxt)). rewrite Ed in Hx. simplify_eq/=.
  destruct Hxt as [Hxt|]; [|done]. simplify_eq.
  assert (forall ch k, for_token s ch k -> for_token (set_dial d (Got p tok' t) (set_chan d None s)) ch k) as Hfor.
  { intros ch k (x & Hx & Hc). unfold for_token. simpl. destruct (decide (ch = d)) as [->|Hne].
    - exists (Got p tok' t). rewrite lookup_insert_eq. split; [done|]. rewrite Ed in Hx. simplify_eq.
      by destruct Hc; [left|].
    - exists x. by rewrite lookup_insert_ne. }
  split; simpl.
  - done.
  - intros d' y [[<- <-]|[Hne Hy]]%lookup_insert_Some; [|by apply (I2 d')].
    split; [by apply (I2 d (Waits p tok'))|done].
  - intros k d' Hp. destruct (I3 k d' Hp) as (y & Hy & Hyt). destruct (decide (d' = d)) as [->|Hne].
    + exists (Got p tok' t). rewrite lookup_insert_eq. rewrite Ed in Hy. by simplify_eq/=.
    + exists y. by rewrite lookup_insert_ne.
  - intros u k ch Hu. by apply Hfor, (I4 u).
  - intros ch u [[_ ?]|[Hne Hc]]%lookup_insert_Some; [done|].
    destruct (I5 ch u Hc) as (k & ? & ?). exists k. auto.
  - intros ch ch' u [[_ ?]|[_ H1]]%lookup_insert_Some [[_ ?]|[_ H2]]%lookup_insert_Some; try done.
    by apply (I6 ch ch' u).
  - intros d1 d2 x1 x2 u [[<- <-]|[_ H1]]%lookup_insert_Some [[<- <-]|[_ H2]]%lookup_insert_Some T1 T2;
      [done| | |by apply (I7 d1 d2 x1 x2 u)].
    + simpl in T1. simplify_eq. by destruct (I8 d d2 x2 u).
    + simpl in T2. simplify_eq. by destruct (I8 d d1 x1 u).
  - intros ch d1 x u [[_ ?]|[Hne Hc]]%lookup_insert_Some [[<- <-]|[_ H1]]%lookup_insert_Some;
      [done|done| |by apply (I8 ch d1)].
    simpl. intros ?. simplify_eq. by apply Hne, (I6 d ch u).
Qed.

Lemma dial_confirm_inv s s' d ok1 ok2 : inv s -> dial_confirm d ok1 ok2 s = Some s' -> inv s'.
Proof.
  intros Hinv Heq. unfold dial_confirm in Heq.
  destruct (dials s !! d) as [[| | |p tok t| |]|] eqn:Ed; try done. simplify_eq.
  destruct (ok1 && ok2); [|by eapply close_conn_inv, dial_fail_inv].
  eapply (inv_dial_moves s _ d (Got p tok t) (Piping p tok t)); simpl; eauto;
    try (by apply regs_grow_refl); try apply Hinv; try done.
  - apply (inv_dial s Hinv d (Got p tok t) Ed).
  - intros tok' d' Hp'. split; [done|]. intros ->.
    destruct (inv_pending s Hinv tok' d Hp') as (x & ? & ?). by simplify_eq/=.
Qed.

Lemma tunnel_lookup_inv s s' t tok :
  inv s -> fresh_conn s t = true -> tunnel_lookup t tok s = Some s' -> inv s'.
Proof.
  intros Hinv Hf Heq. unfold fresh_conn in Hf. zbool. unfold tunnel_lookup in Heq.
  assert (forall ts, (ts = TunnelEnded \/ exists k ch, ts = Matched k ch /\ for_token s ch k) ->
            inv (set_tunnel t ts s)) as Hset.
  { intros ts Hts. pose proof Hinv as [I1 I2 I3 I4 I5 I6 I7 I8].
    assert (forall u k, tunnels s !! u = Some (Handed k) -> <[t := ts]> (tunnels s) !! u = Some (Handed k)) as Hh.
    { intros u k Hu. rewrite lookup_insert_ne; [done|]. congruence. }
    split; simpl; try done.
    - intros d ds Hd. apply (dial_ok_grow s); [by apply regs_grow_refl|done|by apply (I2 d)].
    - intros u k ch [[<- Heqk]|[_ Hu]]%lookup_insert_Some; [|by apply (I4 u)].
      destruct Hts as [->|(k' & ch' & -> & ?)]; by simplify_eq.
    - intros ch u Hc. destruct (I5 ch u Hc) as (k & ? & ?). exists k. auto. }
  destruct (pending s !! tok) as [ch|] eqn:Ep; simplify_eq.
  - apply Hset. right. exists tok, ch. split; [done|].
    destruct (inv_pending s Hinv tok ch Ep) as (ds & ? & ?). exists ds. auto.
  - apply close_conn_inv, Hset. by left.
Qed.

Lemma tunnel_hand_inv s s' t : inv s -> tunnel_hand t s = Some s' -> inv s'.
Proof.
  intros Hinv Heq. unfold tunnel_hand in Heq.
  destruct (tunnels s !! t) as [[tok ch| |]|] eqn:Et; try done.
  pose proof Hinv as [I1 I2 I3 I4 I5 I6 I7 I8].
  assert (forall v u k, tunnels s !! u = Some (Handed k) -> <[t := v]> (tunnels s) !! u = Some (Handed k)) as Hh.
  { intros v u k Hu. rewrite lookup_insert_ne; [done|]. congruence. }
  assert (inv (close_conn t (set_tunnel t TunnelEnded s))) as Hend.
  { apply close_conn_inv. split; simpl; try done.
    - intros d ds Hd. apply (dial_ok_grow s); [by apply regs_grow_refl|apply Hh|by apply (I2 d)].
    - intros u k c [[_ ?]|[_ Hu]]%lookup_insert_Some; [done|by apply (I4 u)].
    - intros c u Hc. destruct (I5 c u Hc) as (k & ? & ?). exists k. auto. }
  destruct (chans s !! ch) as [[u|]|] eqn:Ec; simplify_eq; try done.
  split; simpl; try done.
  - intros d ds Hd. apply (dial_ok_grow s); [by apply regs_grow_refl|apply Hh|by apply (I2 d)].
  - intros u k c [[_ ?]|[_ Hu]]%lookup_insert_Some; [done|by apply (I4 u)].
  - intros c u [[<- ?]|[Hne Hc]]%lookup_insert_Some.
    + simplify_eq. exists tok. rewrite lookup_insert_eq. split; [done|]. by apply (I4 u).
    + destruct (I5 c u Hc) as (k & ? & ?). exists k. auto.
  - intros c c' u [[<- ?]|[Hn1 H1]]%lookup_insert_Some [[<- ?]|[Hn2 H2]]%lookup_insert_Some; simplify_eq; try done.
    + destruct (I5 c' u H2) as (k & ? & _). congruence.
    + destruct (I5 c u H1) as (k & ? & _). congruence.
    + by apply (I6 c c' u).
  - intros c d ds u [[<- ?]|[Hne Hc]]%lookup_insert_Some Hd; [|by apply (I8 c d)]. simplify_eq.
    intros Htk. pose proof (I2 d ds Hd) as Hok. destruct ds; simplify_eq/=; destruct Hok; congruence.
Qed.

Lemma exec_inv s e s' : inv s -> exec s e = Some s' -> inv s'.
Proof.
  intros Hinv Hex. unfold exec in Hex. destruct (panicked s); [done|]. destruct e as
    [c p|c ok|c|c|c| |d p|d rand|d|d|d|d ok1 ok2|d|t tok|t].
  - destruct (fresh_conn s c) eqn:Ef; simplify_eq. by apply register_inv.
  - unfold register_greet in Hex. destruct (regs s !! c) as [[p out [] [] sent]|] eqn:Ec; try done.
    destruct ok; simplify_eq; [by eapply inv_set_reg|by apply drop_inv].
  - unfold writer in Hex. destruct (regs s !! c) as [[p [|l out] [] ph sent]|] eqn:Ec; simplify_eq.
    eapply inv_set_reg; [done..| |done]. simpl.
    intros x. rewrite !elem_of_app, !elem_of_cons, elem_of_nil. tauto.
  - unfold register_drop in Hex. destruct (regs s !! c) as [[p out [] [] sent]|] eqn:Ec; simplify_eq.
    by apply drop_inv.
  - unfold register_close in Hex. destruct (regs s !! c) as [[p out g [] sent]|] eqn:Ec; simplify_eq.
    by eapply inv_set_reg.
  - simplify_eq. unfold Stop. destruct (stopped s); [done|]. by destruct Hinv; split.
  - destruct (fresh_conn s d) eqn:Ef; [|done]. by eapply dial_lookup_inv.
  - by eapply dial_list_inv.
  - by eapply dial_push_inv.
  - by eapply dial_receive_inv.
  - unfold dial_timeout in Hex. destruct (dials s !! d) as [[]|] eqn:Ed; simplify_eq. by eapply dial_fail_inv.
  - by eapply dial_confirm_inv.
  - unfold dial_finish in Hex. destruct (dials s !! d) as [[]|] eqn:Ed; simplify_eq.
    by eapply close_conn_inv, dial_fail_inv.
  - destruct (fresh_conn s t) eqn:Ef; [|done]. by eapply tunnel_lookup_inv.
  - by eapply tunnel_hand_inv.
Qed.

Lemma run_inv s es s' : inv s -> run s es = Some s' -> inv s'.
Proof.
  revert s. induction es as [|e es IH]; intros s Hinv Hr; simpl in Hr; [by simplify_eq|].
  destruct (exec s e) as [s1|] eqn:Ee; [|done]. apply (IH s1); [|done]. by eapply exec_inv.
Qed.

Lemma NewServer_inv : inv NewServer.
Proof. by split. Qed.

(** C15 (server.go, [handleDial], [handleTunnel], [handleRegister],
    [dropRegistration]): the relay connects the right ends.  In every state the
    server reaches, however its handlers interleave, when the bytes of a dialer
    flow to a tunnel, that tunnel presented the token made for this very DIAL,
    which was sent, in an OPEN, to a registration of the peer the dialer asked
    for; the tunnel serves no other dialer; and every peer on file is served by a
    live control connection that registered under its ID. *)
Theorem relay_pairs (es : list event) (s : server) :
  run NewServer es = Some s ->
  (forall d peer tok t, dials s !! d = Some (Piping peer tok t) ->
     tunnels s !! t = Some (Handed tok) /\ asked s peer tok
     /\ (forall d' peer' tok', dials s !! d' = Some (Piping peer' tok' t) -> d' = d))
  /\ (forall peer c, registrations s !! peer = Some c ->
        exists r, regs s !! c = Some r /\ r_peer r = peer /\ r_phase r = Live).
Proof.
  intros Hr. pose proof (run_inv _ _ _ NewServer_inv Hr) as Hinv. split; [|apply Hinv].
  intros d peer tok t Hd. destruct (inv_dial s Hinv d _ Hd) as [Ha Ht]. split_and!; [done|done|].
  intros d' peer' tok' Hd'. by apply (inv_one_dial s Hinv d' d _ _ t Hd' Hd).
Qed.

(** ** A dial, from end to end *)

(** (server.go, [handleDial], [handleTunnel]): a dial to a registered peer whose
    queue has room succeeds when the peer answers the OPEN it is sent: the
    dialer's connection and the tunnel the peer opens with the token are piped,
    whatever else the server is serving. *)
Theorem dial_connects (s : server) (d t c : nat) (peer rand : bytes) (r : registration) :
  panicked s = false -> registrations s !! peer = Some c -> regs s !! c = Some r -> r_phase r = Live ->
  (length (r_out r) < out_capacity)%nat -> fresh_conn s d = true -> fresh_conn s t = true -> d <> t ->
  let tok := hex_encode rand in
  exists s', run s [EDial d peer; EList d (Some rand); EPush d; ETunnel t tok; EHand t; EReceive d;
                    EConfirm d true true] = Some s'
    /\ dials s' !! d = Some (Piping peer tok t)
    /\ (exists r', regs s' !! c = Some r' /\ r_out r' = r_out r ++ [open_line tok]).
Proof.
  intros Hp Hreg Hr Hph Hlen Hfd Hft Hdt tok.
  assert (forall s0 e s1 es, exec s0 e = Some s1 -> run s0 (e :: es) = run s1 es) as Hstep
    by (intros s0 e s1 es He; cbn [run]; by rewrite He).
  set (r1 := MkReg (r_peer r) (r_out r ++ [open_line tok]) (r_greeted r) (r_phase r) (r_sent r)).
  set (s1 := set_dial d (Found peer c) s).
  set (s2 := set_dial d (Listed peer c tok) (set_chan d None (set_pending (<[tok := d]> (pending s1)) s1))).
  set (s3 := set_dial d (Waits peer tok) (set_reg c r1 s2)).
  set (s4 := set_tunnel t (Matched tok d) s3).
  set (s5 := set_tunnel t (Handed tok) (set_chan d (Some t) s4)).
  set (s6 := set_dial d (Got peer tok t) (set_chan d None s5)).
  unfold fresh_conn in Hft. zbool.
  rewrite (Hstep s _ s1); [|unfold exec, dial_lookup; by rewrite Hp, Hfd, Hreg].
  rewrite (Hstep s1 _ s2); [|unfold exec, dial_list; simpl; by rewrite Hp, lookup_insert_eq].
  rewrite (Hstep s2 _ s3).
  2: { unfold exec, dial_push; simpl. rewrite Hp, lookup_insert_eq, Hr.
       rewrite bool_decide_eq_false_2 by (rewrite Hph; done).
       by rewrite (proj2 (Nat.ltb_lt _ _)) by done. }
  rewrite (Hstep s3 _ s4).
  2: { unfold exec, fresh_conn, tunnel_lookup; simpl. rewrite Hp, !lookup_insert_ne by congruence.
       rewrite !bool_decide_eq_true_2, bool_decide_eq_false_2 by done. cbn [andb negb].
       by rewrite lookup_insert_eq. }
  rewrite (Hstep s4 _ s5); [|unfold exec, tunnel_hand; simpl; by rewrite Hp, !lookup_insert_eq].
  rewrite (Hstep s5 _ s6); [|unfold exec, dial_receive; simpl; by rewrite Hp, !lookup_insert_eq].
  cbn [run]. unfold exec, dial_confirm. simpl. rewrite Hp, lookup_insert_eq. cbn [andb].
  eexists. split; [reflexivity|]. simpl. rewrite !lookup_insert_eq. split; [done|]. by exists r1.
Qed.

End ServerFacts.

(** * Control lines between client and server *)

Lemma hex_ID_plain s : validHexID s = true -> forallb plain s = true.
Proof.
  intros [_ Hh]%andb_true_iff. revert Hh. apply forallb_impl. intros b Hb.
  unfold hex_byte in Hb. unfold plain, is_ascii, ascii_space. pose proof (u8_range b).
  destruct (Z.ltb_spec (u8 b) 128), (Z.leb_spec 9 (u8 b)), (Z.leb_spec (u8 b) 13), (Z.eqb_spec (u8 b) 32);
    try done; exfalso; revert Hb;
    repeat match goal with |- context [(?x <=? ?y)%Z] => destruct (Z.leb_spec x y); try lia end; done.
Qed.

(** The line for a command with a short plain argument is written and understood. *)
Lemma command_line cmd arg :
  forallb plain cmd = true -> forallb plain arg = true -> cmd <> [] -> arg <> [] ->
  (length cmd + length arg < 255)%nat ->
  writeLine (cmd ++ bs " " ++ arg) = Ok ((cmd ++ bs " " ++ arg) ++ [Byte.x0a])
  /\ forall r, readLine (((cmd ++ bs " " ++ arg) ++ [Byte.x0a]) ++ r) = (Ok (cmd ++ bs " " ++ arg), r).
Proof.
  intros Hc Ha Hc0 Ha0 Hl. split.
  - apply writeLine_ok. rewrite !length_app. unfold MaxLineSize. simpl. lia.
  - intros r. apply readLine_line.
    + rewrite !length_app. unfold MaxLineSize. simpl. lia.
    + rewrite !not_elem_of_app. split_and!; [by apply plain_no_newline| |by apply plain_no_newline].
      change (bs " ") with [Byte.x20]. by rewrite list_elem_of_singleton.
    + rewrite app_assoc. by apply plain_ends_well.
Qed.

Definition token_ok (tok : bytes) : Prop := forallb plain tok = true /\ tok <> [] /\ (length tok < 200)%nat.

Lemma newToken_ok b tok : length b = 16%nat -> newToken (Some b) = Some tok -> token_ok tok.
Proof.
  intros Hl [= <-]. split_and!; [apply hex_encode_plain| |rewrite hex_encode_length; lia].
  intros Hn. apply (f_equal length) in Hn. by rewrite hex_encode_length, Hl in Hn.
Qed.

Definition push_line (tok : bytes) : bytes := ServerFacts.open_line tok ++ [Byte.x0a].

Lemma pushes_lines toks fuel :
  Forall token_ok toks -> (length toks <= fuel)%nat -> pushes fuel (concat (push_line <$> toks)) = toks.
Proof.
  intros Ht. revert fuel. induction Ht as [|tok toks (Hp & Hne & Hl) Ht IH]; intros fuel Hf.
  - by destruct fuel.
  - destruct fuel as [|fuel]; [simpl in Hf; lia|]. rewrite fmap_cons. cbn [concat pushes].
    unfold push_line at 1, ServerFacts.open_line at 1.
    destruct (command_line PushOpen tok) as [_ Hr]; [done..|change (length PushOpen) with 4%nat; lia|].
    rewrite Hr, Fields_two by done. rewrite bool_decide_eq_true_2 by done. f_equal.
    apply IH. simpl in Hf. lia.
Qed.

Lemma push_line_length tok : (1 <= length (push_line tok))%nat.
Proof. unfold push_line. rewrite length_app. simpl. lia. Qed.

Lemma concat_pushes_length toks : (length toks <= length (concat (push_line <$> toks)))%nat.
Proof.
  induction toks as [|t l IH]; [done|]. rewrite fmap_cons. cbn [concat length].
  rewrite length_app. pose proof (push_line_length t). lia.
Qed.

(** (protocol.go, [readLine], [writeLine]; server.go, [handle], [newToken],
    [validHexID]; client.go, [runOnce], [DialVia], [openTunnel]): client and server
    understand each other.  For a peer ID of 64 hexadecimal digits, the lines the
    client sends to register and to dial arrive as those commands with that ID;
    whatever tokens the server makes, a registered client that reads the OK and
    the OPEN lines pushed to it opens tunnels for exactly those tokens, in order,
    and the line it sends for each arrives as TUNNEL with that token.  The IDs
    [validHexID] accepts are those that decode to 32 bytes. *)
Theorem control_protocol (peerID : bytes) (rands : list bytes) :
  validHexID peerID = true -> Forall (fun b => length b = 16%nat) rands ->
  let toks := hex_encode <$> rands in
  (exists out, runOnce peerID (RespOK ++ [Byte.x0a] ++ concat (push_line <$> toks)) = (Ok toks, out)
     /\ forall r, handle (out ++ r) = Register peerID)
  /\ (exists out, writeLine (CmdDial ++ bs " " ++ peerID) = Ok out
        /\ forall r, handle (out ++ r) = Dial peerID)
  /\ Forall (fun tok => exists out, writeLine (CmdTunnel ++ bs " " ++ tok) = Ok out
       /\ forall r, handle (out ++ r) = Tunnel tok) toks
  /\ (exists id, hex_decode peerID = Some id /\ length id = 32%nat).
Proof.
  intros Hv Hr toks. pose proof (hex_ID_plain _ Hv) as Hp.
  assert (length peerID = 64%nat) as Hl by (apply andb_true_iff in Hv as [Hl _]; by apply Nat.eqb_eq).
  assert (peerID <> []) as Hne by (by intros ->).
  assert (Forall token_ok toks) as Htoks.
  { apply Forall_fmap. eapply Forall_impl; [exact Hr|]. intros b Hb. by apply (newToken_ok b). }
  split_and!; [| | |by apply validHexID_spec].
  - unfold runOnce. destruct (command_line CmdRegister peerID) as [-> _]; [done..|rewrite Hl; simpl; lia|].
    rewrite app_assoc, readLine_line; [|vm_compute; lia| |done].
    + change (HasPrefix RespOK RespOK) with true. cbn [negb].
      rewrite pushes_lines by (done || apply concat_pushes_length).
      eexists. split; [reflexivity|]. intros r. rewrite handle_command by (done || rewrite Hl; simpl; lia). done.
    + by apply plain_no_newline.
  - destruct (command_line CmdDial peerID) as [-> _]; [done..|rewrite Hl; simpl; lia|].
    eexists. split; [reflexivity|]. intros r. rewrite handle_command by (done || rewrite Hl; simpl; lia). done.
  - eapply Forall_impl; [exact Htoks|]. intros tok (Hpt & Hnt & Hlt).
    destruct (command_line CmdTunnel tok) as [-> _]; [done..|change (length CmdTunnel) with 6%nat; lia|].
    eexists. split; [reflexivity|]. intros r.
    rewrite handle_command by (done || change (length CmdTunnel) with 6%nat; lia). done.
Qed.

(** (protocol.go, [readLine], [writeLine]): a line of exactly [MaxLineSize] bytes is
    written, but with its line break it is too long for the reader. *)
Theorem longest_line_refused (line : bytes) :
  length line = MaxLineSize -> Byte.x0a ∉ line ->
  exists out, writeLine line = Ok out /\ forall r, (readLine (out ++ r)).1 = Err LineTooLong.
Proof.
  intros Hl Hn. exists (line ++ [Byte.x0a]). split; [apply writeLine_ok; lia|]. intros r.
  unfold readLine. rewrite <- app_assoc. simpl app at 2. rewrite IndexByte_app by done.
  rewrite (proj2 (Nat.ltb_lt _ _)); [done|]. rewrite length_take, !length_app. cbn [length]. lia.
Qed.

(** (protocol.go, [readLine]): without a line break the limit is not checked. *)
Theorem unterminated_line_unbounded (line : bytes) :
  Byte.x0a ∉ line -> line <> [] -> ends_well line -> readLine line = (Ok line, []).
Proof.
  intros Hn Hne He. unfold readLine.
  assert (IndexByte line Byte.x0a = None) as ->.
  { induction line as [|b l IH]; [done|]. simpl. apply not_elem_of_cons in Hn as [Hb Hl].
    rewrite bool_decide_eq_false_2 by congruence. destruct l as [|b' l]; [done|]. rewrite IH; [done|done..|].
    exact He. }
  rewrite bool_decide_eq_false_2 by done. by rewrite TrimRight_eol_id.
Qed.

(** ** Bytes through a tunnel *)

(** What a connection still has to give. *)
Definition prefix_bytes (p : prefixConn) : bytes := prefix p ++ conn_rest p.

Lemma prefix_Read_spec n p :
  let '(d, p') := prefix_Read n p in
  prefix_bytes p = d ++ prefix_bytes p' /\ (length d <= n)%nat
  /\ ((0 < n)%nat -> prefix_bytes p <> [] -> d <> []).
Proof.
  unfold prefix_Read, prefix_bytes. destruct p as [pre rest]. cbn [prefix conn_rest].
  case_bool_decide as Hp; simpl.
  - subst. rewrite take_drop, length_take. simpl. split_and!; [done|lia|].
    intros Hn Hr. destruct rest; [done|]. by destruct n; [lia|].
  - rewrite app_assoc, take_drop, length_take. split_and!; [done|lia|].
    intros Hn _. destruct pre; [done|]. by destruct n; [lia|].
Qed.

(** The reads of one direction: chunks, the last of which may come with the end. *)
Lemma copy_forwards (chunks : list bytes) (last : bytes) :
  copy (((fun c => (c, false)) <$> chunks) ++ [(last, true)]) [] = concat chunks ++ last.
Proof.
  induction chunks as [|c cs IH].
  - cbn. destruct last; [done|]. by rewrite app_nil_r.
  - rewrite fmap_cons. cbn [app copy concat]. destruct c; rewrite IH; [done|]. by rewrite <- app_assoc.
Qed.

Lemma DialVia_ok peerID data k :
  validHexID peerID = true ->
  exists p out, DialVia peerID (RespOK ++ [Byte.x0a] ++ data) k = (Ok p, out) /\ prefix_bytes p = data.
Proof.
  intros Hv. pose proof (hex_ID_plain _ Hv) as Hp.
  assert (length peerID = 64%nat) as Hl by (apply andb_true_iff in Hv as [Hl _]; by apply Nat.eqb_eq).
  unfold DialVia. destruct (command_line CmdDial peerID) as [-> _];
    [done..|by intros ->|rewrite Hl; simpl; lia|].
  rewrite app_assoc, readLine_line; [|vm_compute; lia| |done].
  - change (HasPrefix RespOK RespOK) with true. cbn [negb]. eexists _, _. split; [reflexivity|].
    apply take_drop.
  - by apply plain_no_newline.
Qed.

(** (client.go, [DialVia], [prefixConn]; server.go, [pipe]): a tunnel loses no
    byte.  What one end writes after the handshake with the relay is what [pipe]
    forwards, in order, however its reads cut it up; and however much of it the
    dialing end has read ahead together with the relay's OK, the connection
    [DialVia] returns gives exactly those bytes, the first ones first, to reads of
    any sizes. *)
Theorem tunnel_transparent (peerID : bytes) (chunks : list bytes) (k : nat) :
  validHexID peerID = true ->
  let data := concat chunks in
  copy (((fun c => (c, false)) <$> chunks) ++ [([], true)]) [] = data
  /\ exists p out, DialVia peerID (RespOK ++ [Byte.x0a] ++ data) k = (Ok p, out)
     /\ prefix_bytes p = data
     /\ forall q n, let '(d, q') := prefix_Read n q in
          prefix_bytes q = d ++ prefix_bytes q' /\ (length d <= n)%nat
          /\ ((0 < n)%nat -> prefix_bytes q <> [] -> d <> []).
Proof.
  intros Hv data. split; [rewrite copy_forwards; apply app_nil_r|].
  destruct (DialVia_ok peerID data k Hv) as (p & out & ? & ?). exists p, out.
  split_and!; [done..|]. intros q n. apply prefix_Read_spec.
Qed.

(** ** Waiting before a new attempt *)

(** (client.go, [Run]): the wait after the [n]th failed attempt in a row doubles
    from one second and stops at one minute. *)
Theorem backoff_bounds (n : nat) :
  Nat.iter n next_backoff first_backoff = Z.min (2 ^ Z.of_nat n * Second) Minute.
Proof.
  unfold Minute. induction n as [|n IH]; [done|]. rewrite Nat.iter_succ, IH.
  unfold next_backoff, Minute, Second in *. rewrite Nat2Z.inj_succ, Z.pow_succ_r by lia.
  pose proof (Z.pow_pos_nonneg 2 (Z.of_nat n)). cbv zeta.
  destruct (Z.ltb_spec (60 * 1000000000) (Z.min (2 ^ Z.of_nat n * 1000000000) (60 * 1000000000) * 2)); lia.
Qed.

(** * Two races of the server *)

Module Races.
Import Server ServerFacts.

Definition peer : bytes := hex_encode (replicate 32 Byte.xab).
Definition rand : bytes := replicate 16 Byte.x01.

Definition raced : list event :=
  [ERegister 1 peer; EGreet 1 true; EDial 2 peer; EDrop 1; EClose 1; EList 2 (Some rand); EPush 2].

Lemma raced_panics : (panicked <$> run NewServer raced) = Some true.
Proof. by vm_compute. Qed.

(** (server.go, [handleDial], [handleRegister]): a control connection that ends
    between the moment a DIAL has looked up its registration and the moment it
    queues the OPEN closes the queue, and the send on a closed channel panics,
    which takes the whole relay down. *)
Theorem dial_can_panic :
  exists es s, run NewServer es = Some s /\ panicked s = true.
Proof.
  exists raced. pose proof raced_panics as HE. destruct (run NewServer raced) as [s|]; [|discriminate HE].
  exists s. split; [reflexivity|]. by injection HE.
Qed.

(** A tunnel handed to the channel of a DIAL that is over. *)
Definition stuck (s : server) (d t : nat) : Prop :=
  dials s !! d = Some DialEnded /\ chans s !! d = Some (Some t)
  /\ regs s !! t = None /\ dials s !! t = None /\ t ∉ closed s.

Lemma not_closed_by s c t : c <> t -> t ∉ closed s -> t ∉ closed (close_conn c s).
Proof. intros Hne Hc. simpl. set_solver. Qed.

(** Nothing closes such a tunnel, or gives it to a dialer. *)
Lemma stuck_step s e s' d t : inv s -> stuck s d t -> exec s e = Some s' -> stuck s' d t.
Proof.
  intros Hinv (Hd & Hc & Hr & Hdt & Hcl) Hex. unfold exec in Hex. destruct (panicked s); [done|].
  destruct (inv_chan s Hinv d t Hc) as (tok0 & Htun & _).
  assert (forall c, fresh_conn s c = true -> c <> t /\ c <> d) as Hfresh.
  { intros c Hf. unfold fresh_conn in Hf. zbool. split; congruence. }
  assert (forall p c, registrations s !! p = Some c -> c <> t) as Hreg.
  { intros p c Hp ->. destruct (inv_reg s Hinv p t Hp) as (r & ? & _). congruence. }
  assert (forall x ds, dials s !! x = Some ds -> x <> t) as Hdial by congruence.
  assert (forall x ds u, dials s !! x = Some ds -> taken ds = Some u -> u <> t) as Htaken.
  { intros x ds u Hx Hu ->. by apply (inv_apart s Hinv d x ds t). }
  destruct e as [c p|c ok|c|c|c| |x p|x rnd|x|x|x|x ok1 ok2|x|u tok|u].
  - destruct (fresh_conn s c) eqn:Ef; simplify_eq. destruct (Hfresh c Ef) as [? ?].
    unfold handleRegister. destruct (validHexID p); cbn [negb].
    2: { split_and!; try done. by apply not_closed_by. }
    assert (forall s1, (s1 = s \/ exists old, old <> t /\ s1 = close_conn old s) ->
              t ∉ closed s1 /\ regs s1 = regs s /\ dials s1 = dials s /\ chans s1 = chans s) as Hs1.
    { intros s1 [->|(old & ? & ->)]; split_and!; try done. by apply not_closed_by. }
    destruct (Hs1 (match registrations s !! p with Some old => close_conn old s | None => s end))
      as (Hc1 & Hr1 & Hd1 & Hch1).
    { destruct (registrations s !! p) as [old|] eqn:Eo; [right|by left]. exists old. eauto. }
    unfold stuck; simpl; rewrite ?Hr1, ?Hd1, ?Hch1, ?lookup_insert_ne by done; split_and!; done.
  - unfold register_greet, dropRegistration in Hex.
    destruct (regs s !! c) as [[q out [] [] sent]|] eqn:Ec; try done. assert (c <> t) by congruence.
    destruct ok; simplify_eq; unfold stuck; [simpl; by rewrite lookup_insert_ne|].
    case_bool_decide; simpl; rewrite lookup_insert_ne by done; split_and!; try done; set_solver.
  - unfold writer in Hex. destruct (regs s !! c) as [[q [|l out] [] ph sent]|] eqn:Ec; simplify_eq.
    unfold stuck. simpl. rewrite lookup_insert_ne by congruence. done.
  - unfold register_drop, dropRegistration in Hex.
    destruct (regs s !! c) as [[q out [] [] sent]|] eqn:Ec; simplify_eq. assert (c <> t) by congruence.
    unfold stuck. case_bool_decide; simpl; rewrite lookup_insert_ne by done; split_and!; try done; set_solver.
  - unfold register_close in Hex. destruct (regs s !! c) as [[q out g [] sent]|] eqn:Ec; simplify_eq.
    unfold stuck. simpl. rewrite lookup_insert_ne by congruence. done.
  - simplify_eq. unfold Stop. destruct (stopped s); [done|]. split_and!; try done. simpl.
    rewrite elem_of_union, elem_of_list_to_set, list_elem_of_fmap. intros [([p c] & -> & Hin)|]; [|done].
    apply elem_of_map_to_list in Hin. by apply (Hreg p c).
  - destruct (fresh_conn s x) eqn:Ef; [|done]. destruct (Hfresh x Ef) as [? ?].
    unfold dial_lookup, dial_fail in Hex. destruct (registrations s !! p); simplify_eq;
      unfold stuck; simpl; rewrite !lookup_insert_ne by done; split_and!; try done. set_solver.
  - unfold dial_list, dial_fail in Hex. destruct (dials s !! x) as [[]|] eqn:Ex; try done.
    assert (x <> d) by congruence. pose proof (Hdial x _ Ex).
    destruct (newToken rnd); simplify_eq; unfold stuck; simpl; rewrite !lookup_insert_ne by done;
      split_and!; try done. set_solver.
  - unfold dial_push, dial_fail in Hex. destruct (dials s !! x) as [[|q c tok| | | |]|] eqn:Ex; try done.
    assert (x <> d) by congruence. pose proof (Hdial x _ Ex). destruct (regs s !! c) as [r|] eqn:Er; [|done].
    assert (c <> t) by congruence. case_bool_decide; simplify_eq; [done|].
    destruct (_ <? _)%nat; unfold stuck; simpl; rewrite !lookup_insert_ne by done; split_and!; try done. set_solver.
  - unfold dial_receive in Hex. destruct (dials s !! x) as [[]|] eqn:Ex; try done.
    assert (x <> d) by congruence. pose proof (Hdial x _ Ex).
    destruct (chans s !! x) as [[]|]; simplify_eq. unfold stuck. simpl. by rewrite !lookup_insert_ne by done.
  - unfold dial_timeout, dial_fail in Hex. destruct (dials s !! x) as [[]|] eqn:Ex; simplify_eq.
    assert (x <> d) by congruence. pose proof (Hdial x _ Ex).
    unfold stuck. simpl. rewrite !lookup_insert_ne by done. split_and!; try done. set_solver.
  - unfold dial_confirm, dial_fail in Hex. destruct (dials s !! x) as [[]|] eqn:Ex; simplify_eq.
    assert (x <> d) by congruence. pose proof (Hdial x _ Ex). pose proof (Htaken x _ _ Ex eq_refl).
    destruct (ok1 && ok2); unfold stuck; simpl; rewrite !lookup_insert_ne by done; split_and!; try done. set_solver.
  - unfold dial_finish, dial_fail in Hex. destruct (dials s !! x) as [[]|] eqn:Ex; simplify_eq.
    assert (x <> d) by congruence. pose proof (Hdial x _ Ex). pose proof (Htaken x _ _ Ex eq_refl).
    unfold stuck. simpl. rewrite !lookup_insert_ne by done. split_and!; try done. set_solver.
  - destruct (fresh_conn s u) eqn:Ef; [|done]. destruct (Hfresh u Ef) as [? ?].
    unfold tunnel_lookup in Hex. destruct (pending s !! tok); simplify_eq; [done|].
    unfold stuck. simpl. split_and!; try done. set_solver.
  - unfold tunnel_hand in Hex. destruct (tunnels s !! u) as [[tok ch| |]|] eqn:Eu; try done.
    assert (u <> t) by congruence.
    destruct (chans s !! ch) as [[v|]|] eqn:Ech; simplify_eq; unfold stuck; simpl;
      rewrite ?lookup_insert_ne by congruence; split_and!; try done; set_solver.
Qed.

Lemma stuck_run es s s' d t : inv s -> stuck s d t -> run s es = Some s' -> stuck s' d t.
Proof.
  revert s. induction es as [|e es IH]; intros s Hinv Hst Hr; simpl in Hr; [by simplify_eq|].
  destruct (exec s e) as [s1|] eqn:Ee; [|done].
  apply (IH s1); [by eapply exec_inv|by eapply stuck_step|done].
Qed.

Definition late_tunnel : list event :=
  [ERegister 1 peer; EDial 2 peer; EGreet 1 true; EList 2 (Some rand); EPush 2; ETunnel 3 (hex_encode rand);
   ETimeout 2; EHand 3].

Lemma late_tunnel_stuck :
  ((fun s => (dials s !! 2%nat, chans s !! 2%nat, regs s !! 3%nat, dials s !! 3%nat, bool_decide (3%nat ∈ closed s)))
    <$> run NewServer late_tunnel)
  = Some (Some DialEnded, Some (Some 3%nat), None, None, false).
Proof. by vm_compute. Qed.

(** (server.go, [handleTunnel], [handleDial]): a tunnel whose token is looked up
    just before the DIAL's timeout and handed over just after it lies in the
    channel of a handler that is gone: whatever happens afterwards, its connection
    is neither closed nor given to a dialer, and the peer that opened it is never
    answered. *)
Theorem late_tunnel_leaks :
  exists es s t, run NewServer es = Some s
    /\ forall es' s', run s es' = Some s' ->
         t ∉ closed s' /\ (forall d peer tok, dials s' !! d <> Some (Piping peer tok t)).
Proof.
  exists late_tunnel. pose proof late_tunnel_stuck as HE.
  destruct (run NewServer late_tunnel) as [s|] eqn:E; [|discriminate HE].
  exists s, 3%nat. split; [done|].
  pose proof (run_inv _ _ _ NewServer_inv E) as Hinv.
  assert (stuck s 2 3) as Hst.
  { cbn [fmap option_fmap option_map] in HE. injection HE as H1 H2 H3 H4 H5.
    apply bool_decide_eq_false in H5. clear E. exact (conj H1 (conj H2 (conj H3 (conj H4 H5)))). }
  intros es' s' Hr. pose proof (stuck_run _ _ _ _ _ Hinv Hst Hr) as (Hd & Hc & _ & _ & Hcl).
  split; [done|]. intros d peer tok Hp.
  by apply (inv_apart s' (run_inv _ _ _ Hinv Hr) 2 d _ 3 Hc Hp).
Qed.

(** ** Witnesses *)

Definition served : list event :=
  [ERegister 1 peer; EDial 2 peer; EGreet 1 true; EList 2 (Some rand); EPush 2; ETunnel 3 (hex_encode rand); EHand 3;
   EReceive 2; EConfirm 2 true true].

Definition after (es : list event) : server := default NewServer (run NewServer es).

Lemma after_run es : is_Some (run NewServer es) -> run NewServer es = Some (after es).
Proof. unfold after. by intros [s ->]. Qed.

Lemma served_runs : run NewServer served = Some (after served).
Proof. apply after_run. apply (bool_decide_unpack _). by vm_compute. Qed.

Lemma served_piped : dials (after served) !! 2%nat = Some (Piping peer (hex_encode rand) 3).
Proof. by vm_compute. Qed.

Lemma relay_pairs_witness :
  dials (after served) !! 2%nat = Some (Piping peer (hex_encode rand) 3)
  /\ tunnels (after served) !! 3%nat = Some (Handed (hex_encode rand)).
Proof.
  split; [exact served_piped|].
  exact (proj1 (proj1 (relay_pairs served (after served) served_runs) 2%nat _ _ 3%nat served_piped)).
Defined.

Definition registered : server := after [ERegister 1 peer; EGreet 1 true].

Lemma dial_connects_witness :
  exists s', run registered [EDial 2 peer; EList 2 (Some rand); EPush 2; ETunnel 3 (hex_encode rand); EHand 3;
                             EReceive 2; EConfirm 2 true true] = Some s'
    /\ dials s' !! 2%nat = Some (Piping peer (hex_encode rand) 3).
Proof.
  destruct (dial_connects registered 2 3 1 peer rand (MkReg peer [] true Live [])) as (s' & H1 & H2 & _);
    [by vm_compute|by vm_compute|by vm_compute|done|simpl; unfold out_capacity; lia|by vm_compute|by vm_compute|done|].
  exists s'. exact (conj H1 H2).
Defined.

Lemma control_protocol_witness :
  exists out, writeLine (CmdDial ++ bs " " ++ peer) = Ok out /\ forall r, handle (out ++ r) = Dial peer.
Proof. apply (control_protocol peer [rand]); [by vm_compute|by repeat constructor]. Defined.

Lemma tunnel_transparent_witness :
  copy (((fun c => (c, false)) <$> [bs "ab"; bs "c"]) ++ [([], true)]) [] = bs "abc".
Proof. apply (tunnel_transparent peer [bs "ab"; bs "c"] 2). by vm_compute. Defined.

Lemma longest_line_refused_witness :
  exists out, writeLine (replicate 256 Byte.x61) = Ok out /\ forall r, (readLine (out ++ r)).1 = Err LineTooLong.
Proof.
  apply longest_line_refused; [done|]. by apply plain_no_newline.
Defined.

End Races.
