(* ===== verification/RelayServer.v ===== *)
(** * The relay's listener (core/relay/server.go, [Start], [acceptLoop], [handle], [Stop])

    The server of Relay.v behind its listener: connections are accepted, each gives one
    line of bytes that [handle] dispatches, and [Stop] closes the listener and then, one
    by one, the control connections it found on file. *)

From S2P Require Import Prelude GoStrings Encoding Relay.
Import Relay.Server Relay.ServerFacts.

(** Where the call of [Stop] is; [StopClosing] holds the connections it has yet to close. *)
Inductive stop_phase := NotStopping | StopMarked (conns : list nat) | StopClosing (conns : list nat) | StopReturned.

Record listening := MkListening {
  l_ln : option (bytes * bool);              (* the listener: address, closed? *)
  l_accepted : gset nat;                     (* connections whose line is awaited *)
  l_core : server;
  l_stop : stop_phase
}.

Definition new_listening : listening := MkListening None ∅ NewServer NotStopping.

(** [bound]: the address bound, or an error.  [Start] is called once, before [Stop]. *)
Definition Start (bound : option bytes) (s : listening) : option listening :=
  match bound, l_ln s, l_stop s with
  | Some a, None, NotStopping => Some (MkListening (Some (a, false)) (l_accepted s) (l_core s) NotStopping)
  | _, _, _ => None
  end.

Definition LocalAddr (s : listening) : option bytes := fst <$> l_ln s.

(** [acceptLoop] *)
Definition accept (c : nat) (s : listening) : option listening :=
  match l_ln s with
  | Some (_, false) =>
      if fresh_conn (l_core s) c && negb (bool_decide (c ∈ l_accepted s))
      then Some (MkListening (l_ln s) ({[c]} ∪ l_accepted s) (l_core s) (l_stop s)) else None
  | _ => None
  end.

(** [handle]: the first line of connection [c] arrives, or its deadline. *)
Definition first_line (c : nat) (input : bytes) (s : listening) : option listening :=
  if bool_decide (c ∈ l_accepted s) then
    (fun core => MkListening (l_ln s) (l_accepted s ∖ {[c]}) core (l_stop s))
    <$> match handle input with
        | Register peerID => exec (l_core s) (ERegister c peerID)
        | Dial peerID => exec (l_core s) (EDial c peerID)
        | Tunnel token => exec (l_core s) (ETunnel c token)
        | Refuse _ | Drop => if panicked (l_core s) then None else Some (close_conn c (l_core s))
        end
  else None.

(** The handlers go on. *)
Definition own (e : event) : bool :=
  match e with ERegister _ _ | EDial _ _ | ETunnel _ _ | EStop => false | _ => true end.

Definition handler_step (e : event) (s : listening) : option listening :=
  if own e then (fun core => MkListening (l_ln s) (l_accepted s) core (l_stop s)) <$> exec (l_core s) e else None.

(** [Stop]: the flag and the copy of the registrations under the lock, the listener,
    then each connection. *)
Definition mark_stopped (s : server) : server :=
  MkServer (registrations s) (regs s) (pending s) (chans s) (dials s) (tunnels s) (closed s) true (panicked s).

Definition stop_mark (s : listening) : option listening :=
  match l_stop s with
  | NotStopping =>
      Some (MkListening (l_ln s) (l_accepted s) (mark_stopped (l_core s))
              (StopMarked (map_to_list (registrations (l_core s))).*2))
  | _ => None
  end.

Definition stop_listener (s : listening) : option listening :=
  match l_stop s with
  | StopMarked conns =>
      Some (MkListening ((fun l => (l.1, true)) <$> l_ln s) (l_accepted s) (l_core s) (StopClosing conns))
  | _ => None
  end.

Definition stop_conn (s : listening) : option listening :=
  match l_stop s with
  | StopClosing (c :: conns) => Some (MkListening (l_ln s) (l_accepted s) (close_conn c (l_core s)) (StopClosing conns))
  | StopClosing [] => Some (MkListening (l_ln s) (l_accepted s) (l_core s) StopReturned)
  | _ => None
  end.

Inductive action :=
| LStart (bound : bytes) | LAccept (c : nat) | LLine (c : nat) (input : bytes) | LStep (e : event)
| LStopMark | LStopListener | LStopConn.

Definition act (s : listening) (a : action) : option listening :=
  match a with
  | LStart bound => Start (Some bound) s
  | LAccept c => accept c s
  | LLine c input => first_line c input s
  | LStep e => handler_step e s
  | LStopMark => stop_mark s
  | LStopListener => stop_listener s
  | LStopConn => stop_conn s
  end.

Fixpoint act_all (s : listening) (l : list action) : option listening :=
  match l with
  | [] => Some s
  | a :: l => match act s a with Some s => act_all s l | None => None end
  end.

(** * Facts *)

(** The server's invariant does not see which connections are closed. *)
Lemma inv_ext s s' :
  inv s -> registrations s' = registrations s -> regs s' = regs s -> pending s' = pending s -> chans s' = chans s ->
  dials s' = dials s -> tunnels s' = tunnels s -> inv s'.
Proof.
  intros [I1 I2 I3 I4 I5 I6 I7 I8] E1 E2 E3 E4 E5 E6.
  split; unfold for_token, dial_ok, asked in *; rewrite ?E1, ?E2, ?E3, ?E4, ?E5, ?E6; done.
Qed.

Definition listener_closed (p : stop_phase) : bool :=
  match p with StopClosing _ | StopReturned => true | _ => false end.

(** The server's invariant, and once [Stop] is past the listener it is not open. *)
Record ok (s : listening) : Prop := {
  ok_core : inv (l_core s);
  ok_ln a : listener_closed (l_stop s) = true -> l_ln s <> Some (a, false)
}.

Lemma act_ok s a s' : act s a = Some s' -> ok s -> ok s'.
Proof.
  intros Hx [H1 H2]. destruct a as [b|c|c input|e| | |]; cbn [act] in Hx.
  - unfold Start in Hx. destruct (l_ln s); [done|]. destruct (l_stop s) eqn:Es; try done. injection Hx as <-. by split.
  - unfold accept in Hx. destruct (l_ln s) as [[b []]|] eqn:El; try done. destruct (_ && _); [|done].
    injection Hx as <-. split; cbn; [done|]. exact H2.
  - unfold first_line in Hx. destruct (bool_decide _); [|done].
    assert (forall core, inv core -> ok (MkListening (l_ln s) (l_accepted s ∖ {[c]}) core (l_stop s))) as Hok by (by split).
    destruct (handle input) as [id|id|tok|why|].
    1-3: match type of Hx with context [exec ?x ?e] => destruct (exec x e) as [core|] eqn:Ex; [|done] end;
      injection Hx as <-; by apply Hok, (exec_inv (l_core s) _ core H1 Ex).
    all: destruct (panicked (l_core s)); [done|]; injection Hx as <-; apply Hok; by apply (inv_ext (l_core s)).
  - unfold handler_step in Hx. destruct (own e); [|done]. destruct (exec (l_core s) e) as [core|] eqn:Ex; [|done].
    injection Hx as <-. split; cbn; [by eapply exec_inv|done].
  - unfold stop_mark in Hx. destruct (l_stop s) eqn:Es; try done. injection Hx as <-. split; cbn; [|done].
    by apply (inv_ext (l_core s)).
  - unfold stop_listener in Hx. destruct (l_stop s) eqn:Es; try done. injection Hx as <-. split; cbn; [done|].
    intros a _. by destruct (l_ln s).
  - unfold stop_conn in Hx. destruct (l_stop s) as [| |[|c conns]|] eqn:Es; try done; injection Hx as <-;
      (split; cbn; [try done; by apply (inv_ext (l_core s))|intros a _; by apply H2]).
Qed.

Lemma act_all_ok s l s' : act_all s l = Some s' -> ok s -> ok s'.
Proof.
  revert s. induction l as [|a l IH]; intros s; cbn [act_all]; [by intros [= <-]|].
  destruct (act s a) as [s1|] eqn:E; [|done]. intros Hr Ho. apply (IH s1 Hr). by eapply act_ok.
Qed.

Lemma new_ok : ok new_listening.
Proof. split; [apply NewServer_inv|]. done. Qed.

(** (server.go, [Start], [acceptLoop], [handle], [handleRegister], [Stop]; client.go,
    [runOnce]): a client that connects and sends its registration is registered: the line
    [runOnce] writes for its ID, whatever follows it, makes the relay file the connection
    under that ID, in the place of an older one.  The server's invariant holds throughout,
    and once [Stop] has closed the listener no connection is accepted. *)
Theorem relay_registers (l : list action) (s : listening) (peerID : bytes) (c : nat) :
  act_all new_listening l = Some s -> validHexID peerID = true ->
  inv (l_core s)
  /\ (listener_closed (l_stop s) = true -> forall c', accept c' s = None)
  /\ (c ∈ l_accepted s -> fresh_conn (l_core s) c = true -> panicked (l_core s) = false ->
      exists out s', (forall answer, (runOnce peerID answer).2 = out)
        /\ (forall rest, first_line c (out ++ rest) s = Some s')
        /\ registrations (l_core s') !! peerID = Some c).
Proof.
  intros Hl Hv. pose proof (act_all_ok _ _ _ Hl new_ok) as [Hi Hln]. split; [done|]. split.
  - intros Hc c'. unfold accept. destruct (l_ln s) as [[a []]|] eqn:El; try done. by destruct (Hln a Hc).
  - intros Hin Hf Hp.
    destruct (control_protocol peerID [] Hv (Forall_nil_2 _)) as ((out & Hro & Hh) & _).
    assert (exists o, writeLine (CmdRegister ++ bs " " ++ peerID) = Ok o) as [o Ho].
    { unfold runOnce in Hro. destruct (writeLine _) as [o|]; [by eexists|discriminate Hro]. }
    assert (forall answer, (runOnce peerID answer).2 = o) as Hall.
    { intros answer. unfold runOnce. rewrite Ho. destruct (readLine answer) as [[]]; [|done]. by destruct (negb _). }
    assert (o = out) as -> by (rewrite <- (Hall (RespOK ++ [Byte.x0a] ++ concat (push_line <$> (hex_encode <$> [])))); by rewrite Hro).
    exists out. eexists. split; [exact Hall|].
    split.
    + intros rest. unfold first_line. rewrite bool_decide_eq_true_2 by done. rewrite Hh. unfold exec. rewrite Hp, Hf. reflexivity.
    + cbn [l_core]. unfold handleRegister. rewrite Hv. cbn [negb]. apply lookup_insert_eq.
Qed.

Module ListenerRuns.

Definition an_id : bytes := repeat Byte.x61 64.
Definition started : list action := [LStart (bs "0.0.0.0:4002"); LAccept 1].
Definition its_line : bytes := (runOnce an_id []).2.

(** The client on connection 1 registers. *)
Lemma relay_registers_witness :
  exists s, act_all new_listening started = Some s /\ validHexID an_id = true
  /\ exists out s', (forall answer, (runOnce an_id answer).2 = out)
     /\ (forall rest, first_line 1 (out ++ rest) s = Some s')
     /\ registrations (l_core s') !! an_id = Some 1%nat.
Proof.
  destruct (act_all new_listening started) as [s|] eqn:E; [|vm_compute in E; discriminate E].
  exists s. split; [reflexivity|]. assert (validHexID an_id = true) as Hv by (vm_compute; reflexivity).
  split; [exact Hv|]. apply (proj2 (proj2 (relay_registers started s an_id 1 E Hv))).
  all: vm_compute in E; injection E as <-; by vm_compute.
Defined.

(** [Stop] closes the registrations it finds.  One whose line arrives after that stays:
    [handleRegister] does not look at the flag. *)
Definition late : list action :=
  started ++ [LStopMark; LStopListener; LStopConn; LLine 1 its_line; LStep (EGreet 1 true)].

Example late_registration_survives_stop :
  (fun s => (l_stop s, RegistrationCount (l_core s), bool_decide (1%nat ∈ closed (l_core s)), accept 2 s))
  <$> act_all new_listening late = Some (StopReturned, 1%nat, false, None).
Proof. by vm_compute. Qed.

End ListenerRuns.
