(* ===== verification/RelayClient.v ===== *)
(** * The life of a relay client (core/relay/client.go, [Run], [Stop], [openTunnel])

    The goroutine that keeps a control connection to a relay, the calls of [Stop]
    and the goroutines that hand over tunnels, as a state machine: an event is one
    critical section, one channel operation or one network call of one of them,
    and they interleave freely.  What travels over the control connection is in
    Relay.v. *)

From S2P Require Import Prelude GoStrings Encoding Relay.

(** Where [Run] is; the argument is [backoff].  [Running] is [runOnce] after the
    connection was made the active one. *)
Inductive run_phase :=
| NotStarted
| LoopTop (backoff : Z)
| Dialing (backoff : Z)
| Running (c : nat) (backoff : Z)
| Waiting (backoff : Z)
| Returned.

(** Where a call of [Stop] is: about to close the connection it found, waiting for
    [Run], or back.  A call that finds the client stopped is back at once. *)
Inductive stop_phase :=
| Closing (conn : option nat)
| Awaiting
| Done
| FoundStopped.

Record client := MkClient {
  run_at : run_phase;
  wg : nat;
  stopped : bool;               (* [stopped], and whether [stop] is closed *)
  activeConn : option nat;
  Tunnels : list nat;
  stops : gmap nat stop_phase;
  closed_conns : gset nat
}.

Definition tunnels_capacity : nat := 16.

Definition NewClient : client := MkClient NotStarted 0 false None [] ∅ ∅.

Definition set_run (p : run_phase) (s : client) : client :=
  MkClient p (wg s) (stopped s) (activeConn s) (Tunnels s) (stops s) (closed_conns s).
Definition set_wg (n : nat) (s : client) : client :=
  MkClient (run_at s) n (stopped s) (activeConn s) (Tunnels s) (stops s) (closed_conns s).
Definition set_active (c : option nat) (s : client) : client :=
  MkClient (run_at s) (wg s) (stopped s) c (Tunnels s) (stops s) (closed_conns s).
Definition set_tunnels (l : list nat) (s : client) : client :=
  MkClient (run_at s) (wg s) (stopped s) (activeConn s) l (stops s) (closed_conns s).
Definition set_stop (i : nat) (p : stop_phase) (s : client) : client :=
  MkClient (run_at s) (wg s) (stopped s) (activeConn s) (Tunnels s) (<[i := p]> (stops s)) (closed_conns s).
Definition close_one (c : nat) (s : client) : client :=
  MkClient (run_at s) (wg s) (stopped s) (activeConn s) (Tunnels s) (stops s) ({[c]} ∪ closed_conns s).
Definition mark_stopped (s : client) : client :=
  MkClient (run_at s) (wg s) true (activeConn s) (Tunnels s) (stops s) (closed_conns s).

(** ** [Run] *)

Definition run_start (s : client) : option client :=
  match run_at s with
  | NotStarted => Some (set_run (LoopTop first_backoff) (set_wg (S (wg s)) s))
  | _ => None
  end.

(** [defer c.wg.Done()] *)
Definition run_return (s : client) : client := set_run Returned (set_wg (pred (wg s)) s).

(** The [select] at the top of the loop. *)
Definition run_loop (s : client) : option client :=
  match run_at s with
  | LoopTop b => Some (if stopped s then run_return s else set_run (Dialing b) s)
  | _ => None
  end.

(** An error of [runOnce]. *)
Definition dial_failed (s : client) : option client :=
  match run_at s with Dialing b => Some (set_run (Waiting b) s) | _ => None end.

(** The dial gives connection [c].  A client stopped meanwhile closes it, and
    [runOnce] returns without an error. *)
Definition dialed (c : nat) (s : client) : option client :=
  match run_at s with
  | Dialing b =>
      Some (if stopped s then set_run (LoopTop first_backoff) (close_one c s)
            else set_run (Running c b) (set_active (Some c) s))
  | _ => None
  end.

(** The deferred function of [runOnce]. *)
Definition leave (c : nat) (s : client) : client := close_one c (set_active None s).

(** [runOnce] ends with an error: the registration is refused or the connection ends. *)
Definition lost (s : client) : option client :=
  match run_at s with Running c b => Some (set_run (Waiting b) (leave c s)) | _ => None end.

(** The [select] at the top of the read loop finds [stop] closed. *)
Definition noticed (s : client) : option client :=
  match run_at s with
  | Running c b => if stopped s then Some (set_run (LoopTop first_backoff) (leave c s)) else None
  | _ => None
  end.

(** The [select] on the timer: it fires, or [stop] is closed. *)
Definition timer_fires (s : client) : option client :=
  match run_at s with Waiting b => Some (set_run (LoopTop (next_backoff b)) s) | _ => None end.

Definition wait_stopped (s : client) : option client :=
  match run_at s with Waiting b => if stopped s then Some (run_return s) else None | _ => None end.

(** ** [Stop] *)

(** The critical section of call [i]. *)
Definition stop_begin (i : nat) (s : client) : option client :=
  match stops s !! i with
  | Some _ => None
  | None => Some (if stopped s then set_stop i FoundStopped s
                  else set_stop i (Closing (activeConn s)) (mark_stopped s))
  end.

Definition stop_close (i : nat) (s : client) : option client :=
  match stops s !! i with
  | Some (Closing o) =>
      Some (set_stop i Awaiting (match o with Some c => close_one c s | None => s end))
  | _ => None
  end.

(** [c.wg.Wait()] *)
Definition stop_end (i : nat) (s : client) : option client :=
  match stops s !! i with
  | Some Awaiting => if (wg s =? 0)%nat then Some (set_stop i Done s) else None
  | _ => None
  end.

(** ** Tunnels *)

(** The [select] at the end of [openTunnel] for connection [t]: it can send when
    there is room; it can close when the client is stopped, and otherwise does only
    when there is no room. *)
Definition tunnel_sent (t : nat) (s : client) : option client :=
  if (length (Tunnels s) <? tunnels_capacity)%nat then Some (set_tunnels (Tunnels s ++ [t]) s) else None.

Definition tunnel_dropped (t : nat) (s : client) : option client :=
  if stopped s || negb (length (Tunnels s) <? tunnels_capacity)%nat then Some (close_one t s) else None.

(** The peer layer ranges over the channel. *)
Definition tunnel_taken (s : client) : option client :=
  match Tunnels s with t :: l => Some (set_tunnels l s) | [] => None end.

(** ** The whole client *)

Inductive event :=
| RunStart | RunLoop | DialFailed | Dialed (c : nat) | Lost | Noticed | TimerFires | WaitStopped
| StopBegin (i : nat) | StopClose (i : nat) | StopEnd (i : nat)
| TunnelSent (t : nat) | TunnelDropped (t : nat) | TunnelTaken.

Definition exec (s : client) (e : event) : option client :=
  match e with
  | RunStart => run_start s
  | RunLoop => run_loop s
  | DialFailed => dial_failed s
  | Dialed c => dialed c s
  | Lost => lost s
  | Noticed => noticed s
  | TimerFires => timer_fires s
  | WaitStopped => wait_stopped s
  | StopBegin i => stop_begin i s
  | StopClose i => stop_close i s
  | StopEnd i => stop_end i s
  | TunnelSent t => tunnel_sent t s
  | TunnelDropped t => tunnel_dropped t s
  | TunnelTaken => tunnel_taken s
  end.

Fixpoint run (s : client) (es : list event) : option client :=
  match es with
  | [] => Some s
  | e :: es => match exec s e with Some s => run s es | None => None end
  end.

(** * Facts *)

Definition in_run (p : run_phase) : bool :=
  match p with NotStarted | Returned => false | _ => true end.

(** [Run] holds no connection and will not dial again once the client is stopped. *)
Definition quiet (p : run_phase) : bool :=
  match p with NotStarted | LoopTop _ | Returned => true | _ => false end.

(** The connection [Run] reads from. *)
Definition conn_of (p : run_phase) : option nat := match p with Running c _ => Some c | _ => None end.

Record inv (s : client) : Prop := {
  inv_wg : wg s = if in_run (run_at s) then 1%nat else 0%nat;
  inv_active : activeConn s = conn_of (run_at s);
  inv_tunnels : (length (Tunnels s) <= tunnels_capacity)%nat;
  inv_stopped i p : stops s !! i = Some p -> stopped s = true;
  inv_closing c : stopped s = true -> conn_of (run_at s) = Some c ->
    (exists i, stops s !! i = Some (Closing (Some c))) \/ c ∈ closed_conns s;
  inv_done i : stops s !! i = Some Done -> quiet (run_at s) = true
}.

Lemma NewClient_inv : inv NewClient.
Proof. split; try done. cbn. lia. Qed.

(** The events of [Run]. *)
Definition is_run (e : event) : bool :=
  match e with
  | RunLoop | DialFailed | Dialed _ | Lost | Noticed | TimerFires | WaitStopped => true
  | _ => false
  end.

Ltac client_cases H :=
  unfold run_start, run_loop, dial_failed, dialed, lost, noticed, timer_fires, wait_stopped, run_return, leave,
    stop_begin, stop_close, stop_end, tunnel_sent, tunnel_dropped, tunnel_taken in H;
  repeat match type of H with
  | context [match run_at ?s with _ => _ end] => destruct (run_at s) eqn:?; try discriminate H
  | context [match stops ?s !! ?i with _ => _ end] => destruct (stops s !! i) as [[]|] eqn:?; try discriminate H
  | context [match Tunnels ?s with _ => _ end] => destruct (Tunnels s) eqn:?; try discriminate H
  | context [match ?o with Some _ => _ | None => _ end] => destruct o eqn:?; try discriminate H
  | context [if ?b then _ else _] => destruct b eqn:?; try discriminate H
  end; injection H as <-.

Ltac client_cbn :=
  cbn [run_at wg stopped activeConn Tunnels stops closed_conns set_run set_wg set_active set_tunnels set_stop
       close_one mark_stopped in_run conn_of quiet negb orb Nat.pred] in *.

Lemma close_one_inv c s : inv s -> inv (close_one c s).
Proof.
  intros [Hwg Hact Htun Hst Hcl Hdone]. split; client_cbn; try done.
  intros c0 H1 H2. destruct (Hcl c0 H1 H2) as [?|?]; [by left|right; set_solver].
Qed.

(** A call of [Stop] moves on; a connection it was to close is closed by now. *)
Lemma set_stop_inv i p s :
  inv s -> stopped s = true -> (p = Done -> quiet (run_at s) = true) ->
  (forall c, stops s !! i = Some (Closing (Some c)) -> c ∈ closed_conns s) -> inv (set_stop i p s).
Proof.
  intros [Hwg Hact Htun Hst Hcl Hdone] Hs Hp Hc. split; client_cbn; try done.
  - intros c _ Hrun. destruct (Hcl c Hs Hrun) as [[j Hj]|?]; [|by right].
    destruct (decide (j = i)) as [->|Hne]; [right; by apply Hc|left].
    exists j. by rewrite lookup_insert_ne.
  - intros j [[_ ->]|[_ Hj]]%lookup_insert_Some; [by apply Hp|by eapply Hdone].
Qed.

Lemma stop_inv s e s' :
  match e with StopBegin _ | StopClose _ | StopEnd _ => True | _ => False end ->
  exec s e = Some s' -> inv s -> inv s'.
Proof.
  intros He Hx Hinv. pose proof Hinv as [Hwg Hact Htun Hst Hcl Hdone].
  destruct e; try done; cbn [exec] in Hx; client_cases Hx.
  - apply set_stop_inv; try done. congruence.
  - split; client_cbn; try done.
    + intros c _ Hrun. left. exists i. rewrite lookup_insert_eq. by rewrite Hact, Hrun.
    + intros j [[_ Hj]|[_ Hj]]%lookup_insert_Some; [done|by eapply Hdone].
  - apply set_stop_inv; [by apply close_one_inv|by eapply Hst|done|]. client_cbn.
    intros c Hc. set_solver.
  - apply set_stop_inv; [done|by eapply Hst|done|]. congruence.
  - apply set_stop_inv; [done|by eapply Hst| |congruence]. intros _.
    match goal with H : (wg s =? 0)%nat = true |- _ => apply Nat.eqb_eq in H; rewrite H in Hwg end.
    by destruct (run_at s).
Qed.

Lemma client_exec_inv s e s' : exec s e = Some s' -> inv s -> inv s'.
Proof.
  intros Hx Hinv.
  destruct (match e with StopBegin _ | StopClose _ | StopEnd _ => true | _ => false end) eqn:Ee;
    [apply (stop_inv s e s'); [by destruct e|done|done]|].
  destruct Hinv as [Hwg Hact Htun Hst Hcl Hdone].
  destruct e; try discriminate Ee; cbn [exec] in Hx; client_cases Hx; split; client_cbn; try (by auto); try lia;
    try (intros; simplify_eq; done); try (intros j Hj; specialize (Hst j Done Hj); congruence).
  - intros j p Hj. by specialize (Hst j p Hj).
  - intros j p Hj. by specialize (Hst j p Hj).
  - congruence.
  - rewrite length_app. cbn [length]. match goal with H : (_ <? _)%nat = true |- _ => apply Nat.ltb_lt in H; lia end.
  - intros c H1 H2. destruct (Hcl c H1 H2) as [?|?]; [by left|right; set_solver].
  - cbn [length] in Htun. lia.
Qed.

Lemma client_run_inv s es s' : inv s -> run s es = Some s' -> inv s'.
Proof.
  revert s. induction es as [|e es IH]; intros s Hi; cbn [run]; [by intros [= <-]|].
  destruct (exec s e) as [s1|] eqn:Ex; [|done]. by apply IH, (client_exec_inv s e).
Qed.

(** A call of [Stop] that has returned stays so. *)
Lemma done_stays s es s' i : stops s !! i = Some Done -> run s es = Some s' -> stops s' !! i = Some Done.
Proof.
  revert s. induction es as [|e es IH]; intros s Hd; cbn [run]; [by intros [= <-]|].
  destruct (exec s e) as [s1|] eqn:Ex; [|done]. apply IH. clear IH.
  destruct e; cbn [exec] in Ex; client_cases Ex; client_cbn; try done;
    (rewrite lookup_insert_ne; [done|congruence]).
Qed.

(** (client.go, [Run], [Stop], [openTunnel]): whatever the order of events, at
    most 16 tunnels wait to be taken; once [Stop] has begun, the connection [Run]
    reads from, if there is one, is being closed; and once the call of [Stop] that
    did the work has returned, [Run] has no connection and does not dial again. *)
Theorem relay_client_stops (es : list event) (s : client) :
  run NewClient es = Some s ->
  (length (Tunnels s) <= tunnels_capacity)%nat
  /\ (forall c b, stopped s = true -> run_at s = Running c b ->
        (exists i, stops s !! i = Some (Closing (Some c))) \/ c ∈ closed_conns s)
  /\ (forall i, stops s !! i = Some Done ->
        activeConn s = None /\ forall es' s', run s es' = Some s' -> quiet (run_at s') = true /\ activeConn s' = None).
Proof.
  intros Hr. pose proof (client_run_inv _ _ _ NewClient_inv Hr) as Hi. split; [apply Hi|]. split.
  - intros c b Hs Hb. apply (inv_closing s Hi c Hs). by rewrite Hb.
  - intros i Hd.
    assert (forall s0, inv s0 -> stops s0 !! i = Some Done -> activeConn s0 = None) as Hnone.
    { intros s0 Hi0 Hd0. rewrite (inv_active s0 Hi0). pose proof (inv_done s0 Hi0 i Hd0) as Hq.
      by destruct (run_at s0). }
    split; [by apply Hnone|]. intros es' s' Hr'. pose proof (client_run_inv _ _ _ Hi Hr') as Hi'.
    pose proof (done_stays s es' s' i Hd Hr') as Hd'. split; [by eapply inv_done|by apply Hnone].
Qed.

(** How many steps [Run] has left once the client is stopped. *)
Definition rank (p : run_phase) : nat :=
  match p with
  | NotStarted | Returned => 0
  | LoopTop _ => 1
  | Waiting _ => 2
  | Dialing _ | Running _ _ => 3
  end.

Definition run_events (es : list event) : nat := length (List.filter is_run es).

Lemma stopped_step s e s' :
  stopped s = true -> run_at s <> NotStarted -> exec s e = Some s' ->
  stopped s' = true /\ run_at s' <> NotStarted
  /\ (rank (run_at s') + (if is_run e then 1 else 0) <= rank (run_at s))%nat.
Proof.
  intros Hs Hn Hx. destruct e; cbn [exec] in Hx; client_cases Hx; client_cbn; cbn [is_run rank];
    repeat match goal with H : run_at s = _ |- _ => rewrite H end; cbn [rank]; split_and!; try done; try lia; congruence.
Qed.

Lemma stopped_run s es s' :
  stopped s = true -> run_at s <> NotStarted -> run s es = Some s' ->
  stopped s' = true /\ run_at s' <> NotStarted /\ (rank (run_at s') + run_events es <= rank (run_at s))%nat.
Proof.
  unfold run_events. revert s. induction es as [|e es IH]; intros s Hs Hn; cbn [run].
  { intros [= <-]. cbn. split_and!; try done. lia. }
  destruct (exec s e) as [s1|] eqn:Ex; [|done]. intros Hr.
  destruct (stopped_step s e s1 Hs Hn Ex) as (Hs1 & Hn1 & Hle).
  destruct (IH s1 Hs1 Hn1 Hr) as (? & ? & ?). split_and!; [done|done|].
  cbn [List.filter]. destruct (is_run e); cbn [length]; lia.
Qed.

(** [Run] is never stuck. *)
Lemma run_goes_on s :
  stopped s = true -> run_at s <> NotStarted ->
  run_at s = Returned \/ exists e s2, is_run e = true /\ exec s e = Some s2 /\ stops s2 = stops s.
Proof.
  intros Hs Hn. destruct (run_at s) eqn:E; [done|right..|by left].
  - exists RunLoop. eexists. cbn [exec]. unfold run_loop. by rewrite E, Hs.
  - exists DialFailed. eexists. cbn [exec]. unfold dial_failed. by rewrite E.
  - exists Lost. eexists. cbn [exec]. unfold lost. by rewrite E.
  - exists WaitStopped. eexists. cbn [exec]. unfold wait_stopped. by rewrite E, Hs.
Qed.

Lemma stop_can_return n s i :
  (rank (run_at s) <= n)%nat -> inv s -> stopped s = true -> run_at s <> NotStarted ->
  stops s !! i = Some Awaiting -> exists es s2, run s es = Some s2 /\ stops s2 !! i = Some Done.
Proof.
  revert s. induction n as [|n IH]; intros s Hn Hi Hs Hr Haw.
  all: destruct (run_goes_on s Hs Hr) as [E|(e & s2 & He & Hx & Est)].
  1,3: exists [StopEnd i], (set_stop i Done s); cbn [run exec]; unfold stop_end;
    rewrite Haw, (inv_wg s Hi), E; split; [done|apply lookup_insert_eq].
  all: destruct (stopped_step s e s2 Hs Hr Hx) as (Hs2 & Hr2 & Hle); rewrite He in Hle.
  { lia. }
  destruct (IH s2) as (es & s3 & Hes & Hd);
    [lia|by eapply client_exec_inv|done|done|by rewrite Est|].
  exists (e :: es), s3. cbn [run]. by rewrite Hx.
Qed.

(** C30 (client.go, [Run], [Stop]): [Stop] ends [Run].  Once the client is stopped, a
    [Run] that has begun does at most three more things (the dial or the read it is
    in, the [select] after it, the one at the top of the loop), can always go on
    until it has returned, and from any such point the call of [Stop] that waits for
    it can return. *)
Theorem relay_client_run_ends (s s' : client) (es : list event) (i : nat) :
  inv s -> stopped s = true -> run_at s <> NotStarted -> run s es = Some s' ->
  (run_events es <= 3)%nat
  /\ (run_at s' = Returned \/ exists e s2, is_run e = true /\ exec s' e = Some s2)
  /\ (stops s' !! i = Some Awaiting -> exists more s2, run s' more = Some s2 /\ stops s2 !! i = Some Done).
Proof.
  intros Hi Hs Hn Hr. destruct (stopped_run s es s' Hs Hn Hr) as (Hs' & Hn' & Hle).
  assert (forall p, rank p <= 3)%nat as H3 by (intros []; cbn; lia). specialize (H3 (run_at s)). split_and!.
  - lia.
  - destruct (run_goes_on s' Hs' Hn') as [?|(e & s2 & ? & ? & _)]; [by left|right; eauto].
  - intros Haw. apply (stop_can_return (rank (run_at s')) s' i); try done. by eapply client_run_inv.
Qed.

(** ** The backoff *)

Definition backoff_of (p : run_phase) : option Z :=
  match p with
  | LoopTop b | Dialing b | Running _ b | Waiting b => Some b
  | NotStarted | Returned => None
  end.

Definition is_fire (e : event) : bool := match e with TimerFires => true | _ => false end.
Definition is_stop (e : event) : bool := match e with StopBegin _ => true | _ => false end.

(** How often the timer has fired. *)
Definition fires (es : list event) : nat := length (List.filter is_fire es).

Lemma step_backoff s e s' n :
  stopped s = false -> is_stop e = false -> exec s e = Some s' ->
  (run_at s = NotStarted -> n = 0%nat) ->
  (forall b, backoff_of (run_at s) = Some b -> b = Nat.iter n next_backoff first_backoff) ->
  let n' := if is_fire e then S n else n in
  stopped s' = false /\ (run_at s' = NotStarted -> n' = 0%nat)
  /\ (forall b, backoff_of (run_at s') = Some b -> b = Nat.iter n' next_backoff first_backoff).
Proof.
  intros Hs He Hx H0 Hb. destruct e; try discriminate He; cbn [exec] in Hx; client_cases Hx; client_cbn; cbn [is_fire];
    repeat match goal with H : run_at s = _ |- _ => rewrite H in * end; cbn [backoff_of] in *;
    split_and!; try done; try (intros b' [= <-]); try (by apply Hb); try congruence.
  - by rewrite (H0 eq_refl).
  - rewrite (Hb _ eq_refl). done.
Qed.

(** (client.go, [Run], [runOnce]): the backoff never shrinks.  [runOnce] returns
    without an error only once the client is stopped, so the line of [Run] that
    resets the wait to a second is never reached before: as long as [Stop] is not
    called, the wait before an attempt depends only on how many attempts there were,
    not on how many of them connected or how long the connections held, and from
    the sixth on it is a minute. *)
Theorem backoff_never_resets (es : list event) (s : client) (b : Z) :
  run NewClient es = Some s -> forallb (fun e => negb (is_stop e)) es = true ->
  backoff_of (run_at s) = Some b ->
  b = Nat.iter (fires es) next_backoff first_backoff /\ ((6 <= fires es)%nat -> b = Minute).
Proof.
  intros Hr Hns Hb. assert (b = Nat.iter (fires es) next_backoff first_backoff) as ->.
  { assert (forall s0 n, run s0 es = Some s -> stopped s0 = false -> (run_at s0 = NotStarted -> n = 0%nat) ->
      (forall b, backoff_of (run_at s0) = Some b -> b = Nat.iter n next_backoff first_backoff) ->
      b = Nat.iter (n + fires es) next_backoff first_backoff) as Hgen;
      [|apply (Hgen NewClient 0%nat Hr); done].
    clear Hr. revert Hns. unfold fires. induction es as [|e es IH]; intros Hns s0 n; cbn [run].
    { intros [= <-] _ _ Hall. cbn [List.filter length]. rewrite Nat.add_0_r. by apply Hall. }
    cbn [forallb] in Hns. apply andb_true_iff in Hns as [He Hns]. apply negb_true_iff in He.
    destruct (exec s0 e) as [s1|] eqn:Ex; [|done]. intros Hr Hst H0 Hall.
    destruct (step_backoff s0 e s1 n Hst He Ex H0 Hall) as (Hst1 & H1 & Hall1).
    rewrite (IH Hns s1 _ Hr Hst1 H1 Hall1). f_equal. cbn [List.filter].
    destruct (is_fire e); cbn [length]; lia. }
  split; [done|]. intros H6. replace (fires es) with ((fires es - 6) + 6)%nat by lia.
  rewrite Nat.iter_add. change (Nat.iter 6 next_backoff first_backoff) with Minute.
  induction (fires es - 6)%nat as [|k IH]; [done|]. cbn [Nat.iter nat_rect]. unfold Nat.iter in IH. by rewrite IH.
Qed.

(** ** Concrete runs *)

Module ClientRuns.

(** The client connects, is stopped while it reads, and [Stop] returns. *)
Definition connect : list event := [RunStart; RunLoop; Dialed 7].
Definition halt : list event := [StopBegin 1; StopClose 1].
Definition wind_down : list event := [Lost; WaitStopped; StopEnd 1].

Definition state_after (es : list event) : client := default NewClient (run NewClient es).

Lemma run_state es :
  match run NewClient es with Some _ => true | None => false end = true ->
  run NewClient es = Some (state_after es).
Proof. unfold state_after. by destruct (run NewClient es). Qed.

Lemma halted_run : run NewClient (connect ++ halt) = Some (state_after (connect ++ halt)).
Proof. apply run_state. by vm_compute. Qed.

Lemma ended_run : run NewClient (connect ++ halt ++ wind_down) = Some (state_after (connect ++ halt ++ wind_down)).
Proof. apply run_state. by vm_compute. Qed.

Lemma ended_stops : stops (state_after (connect ++ halt ++ wind_down)) !! 1%nat = Some Done.
Proof. by vm_compute. Qed.

Lemma halted_waits : stopped (state_after (connect ++ halt)) = true
  /\ stops (state_after (connect ++ halt)) !! 1%nat = Some Awaiting.
Proof. by vm_compute. Qed.

Lemma halted_started : run_at (state_after (connect ++ halt)) <> NotStarted.
Proof. by vm_compute. Qed.

Lemma relay_client_stops_witness :
  stops (state_after (connect ++ halt ++ wind_down)) !! 1%nat = Some Done
  /\ activeConn (state_after (connect ++ halt ++ wind_down)) = None.
Proof.
  split; [exact ended_stops|].
  destruct (relay_client_stops (connect ++ halt ++ wind_down) _ ended_run) as (_ & _ & Hd).
  exact (proj1 (Hd 1%nat ended_stops)).
Defined.

Lemma relay_client_run_ends_witness :
  exists more s2, run (state_after (connect ++ halt)) more = Some s2 /\ stops s2 !! 1%nat = Some Done.
Proof.
  destruct (relay_client_run_ends (state_after (connect ++ halt)) (state_after (connect ++ halt)) [] 1
    (client_run_inv _ _ _ NewClient_inv halted_run) (proj1 halted_waits) halted_started eq_refl) as (_ & _ & Hm).
  exact (Hm (proj2 halted_waits)).
Defined.

(** Six connections that were each made and lost: the seventh is tried after a minute. *)
Definition flaky : list event := RunStart :: concat (replicate 6 [RunLoop; Dialed 7; Lost; TimerFires]).

Lemma flaky_run : run NewClient flaky = Some (state_after flaky).
Proof. apply run_state. by vm_compute. Qed.

Lemma flaky_backoff : backoff_of (run_at (state_after flaky)) = Some Minute.
Proof. by vm_compute. Qed.

Lemma flaky_no_stop : forallb (fun e => negb (is_stop e)) flaky = true.
Proof. by vm_compute. Qed.

Lemma backoff_never_resets_witness :
  fires flaky = 6%nat /\ Minute = Nat.iter (fires flaky) next_backoff first_backoff.
Proof.
  split; [reflexivity|].
  exact (proj1 (backoff_never_resets flaky _ Minute flaky_run flaky_no_stop flaky_backoff)).
Defined.

(** [Stop] can return before a [Run] that was started with [go] has counted itself
    in, and a second call returns while the first one still waits. *)
Example stop_returns_early :
  let s := state_after [StopBegin 1; StopClose 1; StopEnd 1; RunStart] in
  stops s !! 1%nat = Some Done /\ in_run (run_at s) = true.
Proof. vm_compute. split; reflexivity. Qed.

Example second_stop_does_not_wait :
  let s := state_after (connect ++ halt ++ [StopBegin 2]) in
  stops s !! 2%nat = Some FoundStopped /\ in_run (run_at s) = true.
Proof. vm_compute. split; reflexivity. Qed.

End ClientRuns.
