(* ===== verification/Peer.v ===== *)
(** * Peers: signed messages and connections (core/peer/peer.go)

    Three parts.  [Wire]: the message struct, its JSON form, signing, framing
    and the read loop's verification of what arrives, on byte streams.
    [Addresses]: the advertised address list and relay addresses.  [Conns]: the
    tables of live connections; a [*peerConn] is a number into [conns], so
    aliasing is explicit. *)

From S2P Require Import Prelude GoStrings Encoding Json Sha256 Crypto.

(** ** Messages *)

Definition MaxMessageSize : Z := Z.shiftl 1 20.
Definition DefaultMaxConnections : Z := 1024.
Definition ProtocolVersion : Z := 1.
Definition MinSupportedVersion : Z := 1.

Record Message := MkMessage {
  m_V : Z;
  m_Type : bytes;
  m_From : bytes;
  m_PublicKey : bytes;
  m_ReqID : bytes;
  m_Payload : bytes;
  m_Sig : bytes
}.

#[global] Instance Message_eq_dec : EqDecision Message.
Proof. solve_decision. Defined.

Definition empty_message : Message := MkMessage 0 [] [] [] [] [] [].

(** [Message{Type: t, Payload: p}] *)
Definition mk_message (t p : bytes) : Message := MkMessage 0 t [] [] [] p [].

Definition with_ReqID (m : Message) (r : bytes) : Message :=
  MkMessage (m_V m) (m_Type m) (m_From m) (m_PublicKey m) r (m_Payload m) (m_Sig m).

Definition with_Sig (m : Message) (s : bytes) : Message :=
  MkMessage (m_V m) (m_Type m) (m_From m) (m_PublicKey m) (m_ReqID m) (m_Payload m) s.

Definition is_nil (s : bytes) : bool := bool_decide (s = []).

#[global] Instance Message_codec : Codec Message := {|
  to_json m := JObj (
    omitempty (m_V m =? 0) (bs "v", JInt (m_V m)) ++
    [(bs "type", JStr (m_Type m)); (bs "from", JStr (m_From m))] ++
    omitempty (is_nil (m_PublicKey m)) (bs "pk", JStr (m_PublicKey m)) ++
    omitempty (is_nil (m_ReqID m)) (bs "reqid", JStr (m_ReqID m)) ++
    [(bs "payload", JStr (m_Payload m))] ++
    omitempty (is_nil (m_Sig m)) (bs "sig", JStr (m_Sig m)));
  zero_value := empty_message;
  set_field k j m :=
    let '(MkMessage v t f pk r p s) := m in
    if key_is k "v" then (fun v => MkMessage v t f pk r p s) <$> dec_uint32 j v
    else if key_is k "type" then (fun t => MkMessage v t f pk r p s) <$> dec_string j t
    else if key_is k "from" then (fun f => MkMessage v t f pk r p s) <$> dec_string j f
    else if key_is k "pk" then (fun pk => MkMessage v t f pk r p s) <$> dec_string j pk
    else if key_is k "reqid" then (fun r => MkMessage v t f pk r p s) <$> dec_string j r
    else if key_is k "payload" then (fun p => MkMessage v t f pk r p s) <$> dec_string j p
    else if key_is k "sig" then (fun s => MkMessage v t f pk r p s) <$> dec_string j s
    else Some m
|}.

(** A connection as the read loop sees it: the key that is locked in, if any. *)
Record RemoteIdentity := MkRemote { remotePub : option bytes; remoteID : bytes }.

Inductive peer_error :=
| ErrTooLarge | ErrVersion | ErrMissingKey | ErrBadKey | ErrFromMismatch | ErrKeyChanged
| ErrSignature.

Module Wire.
Section Wire.
Context `{Ed25519}.

(** [sendOn] up to the writes: the message as it is sent and its bytes. *)
Definition seal (id : Identity) (msg : Message) : Message :=
  let msg := MkMessage ProtocolVersion (m_Type msg) (Identity_ID id)
               (PublicKeyToHex (PublicKey id)) (m_ReqID msg) (m_Payload msg) [] in
  let data := Marshal msg in
  with_Sig msg (Sign id data).

(** The bytes [sendOn] writes on the connection. *)
Definition sendOn (id : Identity) (msg : Message) : result peer_error bytes :=
  let signed := Marshal (seal id msg) in
  if MaxMessageSize <? Z.of_nat (length signed) then Err ErrTooLarge
  else Ok (be_encode 4 (Z.of_nat (length signed)) ++ signed).

Definition verifyMessage (pc : RemoteIdentity) (msg : Message) : result peer_error RemoteIdentity :=
  let v := if m_V msg =? 0 then 1 else m_V msg in
  if v <? MinSupportedVersion then Err ErrVersion else
  if is_nil (m_PublicKey msg) then Err ErrMissingKey else
  match PublicKeyFromHex (m_PublicKey msg) with
  | Err _ => Err ErrBadKey
  | Ok pub =>
      if negb (is_nil (m_From msg)) && bool_decide (m_From msg <> PublicKeyToID pub)
      then Err ErrFromMismatch else
      if match remotePub pc with Some k => bool_decide (k <> pub) | None => false end
      then Err ErrKeyChanged else
      let sig := m_Sig msg in
      let data := Marshal (with_Sig msg []) in
      match Verify pub data sig with
      | Err _ => Err ErrSignature
      | Ok _ =>
          Ok (match remotePub pc with
              | None => MkRemote (Some pub) (PublicKeyToID pub)
              | Some _ => pc
              end)
      end
  end.

(** How one pass of the read loop ends. *)
Inductive frame :=
| Closed                                        (* end of input, bad size, bad JSON, rejected *)
| Frame (msg : Message) (pc : RemoteIdentity) (rest : bytes).

Definition read_frame (pc : RemoteIdentity) (stream : bytes) : frame :=
  if (length stream <? 4)%nat then Closed else
  let size := be_decode (take 4 stream) in
  let stream := drop 4 stream in
  if (size =? 0) || (MaxMessageSize <? size) then Closed else
  if Z.of_nat (length stream) <? size then Closed else
  let buf := take (Z.to_nat size) stream in
  match Unmarshal buf with
  | None => Closed
  | Some msg =>
      match verifyMessage pc msg with
      | Err _ => Closed
      | Ok pc' => Frame msg pc' (drop (Z.to_nat size) stream)
      end
  end.

(** The messages [readLoop] hands to [handleMessage], in order, from all the
    bytes of a connection.  Every pass consumes bytes, so the length of the
    input is enough fuel ([readLoop_fuel]). *)
Fixpoint read_loop (fuel : nat) (pc : RemoteIdentity) (stream : bytes) : list Message :=
  match fuel with
  | O => []
  | S f =>
      match read_frame pc stream with
      | Closed => []
      | Frame msg pc' rest => msg :: read_loop f pc' rest
      end
  end.

Definition readLoop (pc : RemoteIdentity) (stream : bytes) : list Message :=
  read_loop (length stream) pc stream.

(** ** Facts *)

(** Messages whose strings are valid UTF-8. *)
Definition msg_text (m : Message) : Prop :=
  utf8_valid (m_Type m) = true /\ utf8_valid (m_From m) = true
  /\ utf8_valid (m_PublicKey m) = true /\ utf8_valid (m_ReqID m) = true
  /\ utf8_valid (m_Payload m) = true /\ utf8_valid (m_Sig m) = true.

Definition msg_fine (m : Message) : Prop := msg_text m /\ 0 <= m_V m < 2 ^ 32.

#[global, program] Instance Message_laws : CodecLaws Message msg_fine := {| codec_depth := 1 |}.
Next Obligation. done. Qed.
Next Obligation.
  intros [v t f pk r p s] [(H1 & H2 & H3 & H4 & H5 & H6) _]. simpl in *.
  unfold omitempty. repeat case_match; repeat constructor; simpl; auto with altnet; by eexists.
Qed.
Next Obligation.
  intros [v t f pk r p s] [_ Hv]. simpl in Hv. unfold to_json, Message_codec. cbn [m_V m_Type m_From m_PublicKey m_ReqID m_Payload m_Sig].
  unfold omitempty, is_nil.
  destruct (Z.eqb_spec v 0) as [->|Hz];
    repeat (case_bool_decide; subst); cbn -[dec_uint32 JInt]; rewrite ?dec_uint32_JInt by done; done.
Qed.

Lemma hex_text l : utf8_valid (hex_encode l) = true.
Proof.
  apply utf8_valid_ascii. eapply forallb_impl; [|apply hex_encode_lower_plain].
  intros b Hb. by destruct b.
Qed.

Lemma seal_fine id m :
  utf8_valid (m_Type m) = true -> utf8_valid (m_ReqID m) = true -> utf8_valid (m_Payload m) = true ->
  msg_fine (seal id m).
Proof.
  intros. repeat split; simpl; try done; apply hex_text.
Qed.

Lemma Marshal_nonempty (m : Message) : (1 <= length (Marshal m))%nat.
Proof. unfold Marshal. simpl. lia. Qed.

(** A sealed message passes the checks of a connection to its sender. *)
Lemma verify_seal id m pc :
  id_wf id -> remotePub pc = None \/ remotePub pc = Some (PublicKey id) ->
  verifyMessage pc (seal id m) = Ok (match remotePub pc with
    | None => MkRemote (Some (PublicKey id)) (Identity_ID id) | Some _ => pc end).
Proof.
  intros Hid Hpc. unfold verifyMessage. unfold seal at 1 2 3 4 5. simpl m_V. simpl m_PublicKey. simpl m_From.
  simpl Z.eqb. cbv iota. simpl Z.ltb. cbv iota.
  assert (is_nil (PublicKeyToHex (PublicKey id)) = false) as ->.
  { apply bool_decide_eq_false. intros E. apply (f_equal length) in E.
    unfold PublicKeyToHex in E. rewrite hex_encode_length, id_wf_public in E by done. done. }
  rewrite PublicKeyFromHex_ToHex by by apply id_wf_public.
  rewrite (bool_decide_eq_false_2 (Identity_ID id <> PublicKeyToID (PublicKey id))) by (intros E; by apply E).
  rewrite andb_false_r.
  assert (match remotePub pc with Some k => bool_decide (k <> PublicKey id) | None => false end = false) as ->.
  { destruct Hpc as [->| ->]; [done|]. apply bool_decide_eq_false. tauto. }
  unfold seal. simpl m_Sig. unfold with_Sig. simpl.
  by rewrite Verify_Sign.
Qed.

Lemma read_frame_send id m pc frame rest :
  id_wf id -> utf8_valid (m_Type m) = true -> utf8_valid (m_ReqID m) = true ->
  utf8_valid (m_Payload m) = true ->
  remotePub pc = Some (PublicKey id) -> sendOn id m = Ok frame ->
  read_frame pc (frame ++ rest) = Frame (seal id m) pc rest.
Proof.
  intros Hid H1 H2 H3 Hpc Hs. unfold sendOn in Hs.
  set (signed := Marshal (seal id m)) in *.
  destruct (Z.ltb_spec MaxMessageSize (Z.of_nat (length signed))) as [|Hl]; [done|].
  assert (frame = be_encode 4 (Z.of_nat (length signed)) ++ signed) as -> by congruence.
  unfold read_frame.
  assert (length (be_encode 4 (Z.of_nat (length signed))) = 4%nat) as H4 by apply be_encode_length.
  assert (1 <= length signed)%nat as Hne by apply Marshal_nonempty.
  rewrite <- app_assoc. rewrite length_app, H4.
  destruct (Nat.ltb_spec (4 + length (signed ++ rest)) 4) as [|_]; [lia|].
  rewrite take_app_length', drop_app_length' by done. rewrite be_decode_encode.
  change MaxMessageSize with 1048576 in *.
  rewrite Z.mod_small by (change (256 ^ Z.of_nat 4) with 4294967296; lia).
  destruct (Z.eqb_spec (Z.of_nat (length signed)) 0) as [|_]; [lia|].
  destruct (Z.ltb_spec 1048576 (Z.of_nat (length signed))) as [|_]; [lia|]. simpl orb. cbv iota.
  rewrite length_app. destruct (Z.ltb_spec (Z.of_nat (length signed + length rest)) (Z.of_nat (length signed)))
    as [|_]; [lia|].
  rewrite Nat2Z.id, take_app_length, drop_app_length. unfold signed.
  rewrite Unmarshal_Marshal by by apply seal_fine.
  rewrite verify_seal by auto. by rewrite Hpc.
Qed.

Lemma read_frame_rest pc stream m pc' rest :
  read_frame pc stream = Frame m pc' rest -> (length rest < length stream)%nat.
Proof.
  unfold read_frame. destruct (Nat.ltb_spec (length stream) 4); [done|].
  destruct ((_ =? 0) || _) eqn:E; [done|]. apply orb_false_iff in E as [E _]. apply Z.eqb_neq in E.
  destruct (_ <? _); [done|]. destruct (Unmarshal _) as [msg|]; [|done].
  destruct (verifyMessage pc msg); [|done]. intros [= _ _ <-]. rewrite !length_drop. lia.
Qed.

(** Any amount of fuel above the length of the input gives the same messages. *)
Lemma readLoop_fuel fuel pc stream :
  (length stream <= fuel)%nat -> read_loop fuel pc stream = readLoop pc stream.
Proof.
  unfold readLoop. remember (length stream) as n eqn:Hn. assert (length stream <= n)%nat as Hle by lia.
  clear Hn. revert fuel pc stream Hle. induction n as [|n IH]; intros fuel pc stream Hle Hf.
  - destruct stream; [|simpl in Hle; lia]. destruct fuel; [done|]. by simpl.
  - destruct fuel as [|fuel]; [lia|]. simpl. destruct (read_frame pc stream) as [|m pc' rest] eqn:E; [done|].
    apply read_frame_rest in E. f_equal. apply IH; lia.
Qed.

Lemma readLoop_step pc stream :
  readLoop pc stream
  = match read_frame pc stream with
    | Closed => []
    | Frame m pc' rest => m :: readLoop pc' rest
    end.
Proof.
  rewrite <- (readLoop_fuel (S (length stream))) by lia. simpl.
  destruct (read_frame pc stream) as [|m pc' rest] eqn:E; [done|].
  apply read_frame_rest in E. f_equal. apply readLoop_fuel. lia.
Qed.

Lemma readLoop_sent (id : Identity) (pc : RemoteIdentity) (msgs : list Message)
    (frames : list bytes) :
  id_wf id -> remotePub pc = Some (PublicKey id) ->
  Forall (fun m => utf8_valid (m_Type m) = true /\ utf8_valid (m_ReqID m) = true
                   /\ utf8_valid (m_Payload m) = true) msgs ->
  Forall2 (fun m f => sendOn id m = Ok f) msgs frames ->
  readLoop pc (concat frames) = seal id <$> msgs.
Proof.
  intros Hid Hpc Ht Hf. induction Hf as [|m f msgs frames Hm Hf IH]; simpl.
  { by rewrite readLoop_step. }
  inversion Ht as [|? ? (? & ? & ?) Ht']; subst.
  rewrite readLoop_step, (read_frame_send id m) by done. by rewrite IH.
Qed.

(** (peer.go, [sendOn], [readLoop], [verifyMessage]): what an honest peer
    writes on a connection arrives: on the concatenation of the frames of any
    messages with valid UTF-8 fields that fit the size limit, the reader that
    has the sender's key dispatches exactly those messages, sealed by the
    sender, in order, and stops cleanly. *)
Theorem send_receive_roundtrip (id : Identity) (pc : RemoteIdentity) (msgs : list Message)
    (frames : list bytes) :
  id_wf id -> remotePub pc = Some (PublicKey id) ->
  Forall (fun m => utf8_valid (m_Type m) = true /\ utf8_valid (m_ReqID m) = true
                   /\ utf8_valid (m_Payload m) = true) msgs ->
  Forall2 (fun m f => sendOn id m = Ok f) msgs frames ->
  readLoop pc (concat frames) = seal id <$> msgs.
Proof. apply readLoop_sent. Qed.

(** The version a message counts as: one without a version is of version 1. *)
Definition effective_version (msg : Message) : Z := if m_V msg =? 0 then 1 else m_V msg.

Lemma verifyMessage_Ok pc msg pc' :
  verifyMessage pc msg = Ok pc' ->
  (1 <= effective_version msg /\ MinSupportedVersion <= effective_version msg) /\
  exists pub, PublicKeyFromHex (m_PublicKey msg) = Ok pub
    /\ (m_From msg = [] \/ m_From msg = PublicKeyToID pub)
    /\ (remotePub pc = None \/ remotePub pc = Some pub)
    /\ Verify pub (Marshal (with_Sig msg [])) (m_Sig msg) = Ok tt
    /\ remotePub pc' = Some pub.
Proof.
  unfold verifyMessage. fold (effective_version msg).
  destruct (Z.ltb_spec (effective_version msg) MinSupportedVersion) as [|Hv]; [done|].
  intros E. split; [by split|]. revert E. destruct (is_nil _); [done|].
  destruct (PublicKeyFromHex _) as [pub|]; [|done]. destruct (negb _ && _) eqn:Ef; [done|].
  destruct (match remotePub pc with Some k => _ | None => _ end) eqn:Ek; [done|].
  destruct (Verify _ _ _) as [[]|] eqn:Es; [|done]. intros [= <-]. exists pub.
  assert (remotePub pc = None \/ remotePub pc = Some pub) as Hr.
  { destruct (remotePub pc) as [k|]; [right|by left]. f_equal.
    apply bool_decide_eq_false in Ek. by destruct (decide (k = pub)). }
  split_and!; try done.
  - apply andb_false_iff in Ef as [Ef|Ef]; [left|right].
    + apply negb_false_iff, bool_decide_eq_true in Ef. done.
    + apply bool_decide_eq_false in Ef. by destruct (decide (m_From msg = PublicKeyToID pub)).
  - destruct Hr as [E|E]; by rewrite E.
Qed.

(** C18 (peer.go, [readLoop], [verifyMessage]): every message dispatched from a
    connection, whatever bytes arrive on it, carries the key the connection was
    established with, has a valid signature under that key over its own content,
    names as sender that key's ID or nobody at all, and is of a supported
    version, counting one without a version as version 1. *)
Theorem dispatched_authentic (pc : RemoteIdentity) (key stream : bytes) (msg : Message) :
  remotePub pc = Some key -> msg ∈ readLoop pc stream ->
  PublicKeyFromHex (m_PublicKey msg) = Ok key
  /\ Verify key (Marshal (with_Sig msg [])) (m_Sig msg) = Ok tt
  /\ (m_From msg = [] \/ m_From msg = PublicKeyToID key)
  /\ 1 <= effective_version msg /\ MinSupportedVersion <= effective_version msg.
Proof.
  unfold readLoop. generalize (length stream). intros n. revert pc stream.
  induction n as [|n IH]; intros pc stream Hpc; simpl; [set_solver|].
  destruct (read_frame pc stream) as [|m pc' rest] eqn:E; [set_solver|].
  assert (verifyMessage pc m = Ok pc') as Hv.
  { unfold read_frame in E. repeat (case_match; try discriminate E). by simplify_eq. }
  destruct (verifyMessage_Ok _ _ _ Hv) as (Hver & pub & Hk & Hf & Hr & Hs & Hpc').
  assert (pub = key) as -> by (destruct Hr; congruence).
  rewrite elem_of_cons. intros [->|Hin]; [done|]. by apply (IH pc' rest).
Qed.
End Wire.
End Wire.

(** ** Concrete runs *)

Definition alice : Identity := toy_identity Byte.x01.

Lemma alice_wf : id_wf alice.
Proof. apply toy_identity_wf. Qed.

Definition alice_conn : RemoteIdentity := MkRemote (Some (PublicKey alice)) (Identity_ID alice).

Definition frame_of (m : Message) : bytes :=
  match Wire.sendOn alice m with Ok f => f | Err _ => [] end.

Lemma frame_of_spec m : is_ok (Wire.sendOn alice m) = true -> Wire.sendOn alice m = Ok (frame_of m).
Proof. unfold frame_of. by destruct (Wire.sendOn alice m). Qed.

Definition chat : Message := mk_message (bs "chat") (bs "hi <b>").

Lemma chat_sent : is_ok (Wire.sendOn alice chat) = true.
Proof. by vm_compute. Qed.

Lemma send_receive_roundtrip_witness :
  Wire.readLoop alice_conn (concat [frame_of chat; frame_of chat]) = Wire.seal alice <$> [chat; chat].
Proof.
  apply (Wire.send_receive_roundtrip alice alice_conn [chat; chat] [frame_of chat; frame_of chat]
    alice_wf eq_refl).
  - apply Forall_cons. split; [done|]. apply Forall_cons. split; [done|apply Forall_nil_2].
  - do 2 (apply List.Forall2_cons; [apply frame_of_spec, chat_sent|]). apply List.Forall2_nil.
Defined.

(** A message signed by [alice] that does not name its sender. *)
Definition unnamed (m : Message) : Message :=
  let m := MkMessage 1 (m_Type m) [] (PublicKeyToHex (PublicKey alice)) [] (m_Payload m) [] in
  with_Sig m (Sign alice (Marshal m)).

Lemma dispatched_authentic_witness :
  let m := unnamed (mk_message (bs "dht_ping") []) in
  let stream := be_encode 4 (Z.of_nat (length (Marshal m))) ++ Marshal m in
  m ∈ Wire.readLoop alice_conn stream
  /\ Verify (PublicKey alice) (Marshal (with_Sig m [])) (m_Sig m) = Ok tt.
Proof.
  intros m stream.
  assert (m ∈ Wire.readLoop alice_conn stream) as Hin
    by (apply (bool_decide_eq_true_1 _); by vm_compute).
  split; [done|]. apply (Wire.dispatched_authentic alice_conn (PublicKey alice) stream m eq_refl Hin).
Defined.

(** [chat] with a payload that is not UTF-8. *)
Definition garbled : Message := mk_message (bs "chat") [Byte.xff].

(** (peer.go, [sendOn], [verifyMessage]): the condition on UTF-8 of
    [send_receive_roundtrip] is needed.  Marshalling writes the escape [\ufffd]
    for a byte that is not UTF-8, and marshalling what was parsed from it writes
    the character itself, so the signature does not verify: a message with such
    a payload is sent without an error, and the reader hands on neither it nor
    the well-formed message after it. *)
Example garbled_message_ends_connection :
  is_ok (Wire.sendOn alice garbled) = true
  /\ length (Wire.readLoop alice_conn (frame_of chat)) = 1%nat
  /\ Wire.readLoop alice_conn (frame_of garbled ++ frame_of chat) = []
  /\ Wire.verifyMessage alice_conn <$> Unmarshal (drop 4 (frame_of garbled))
     = Some (Err ErrSignature).
Proof. split_and!; by vm_compute. Qed.

(** ** Addresses *)

Module Addresses.

Definition relay_url (relayAddr peerID : bytes) : bytes :=
  bs "relay://" ++ relayAddr ++ bs "/" ++ peerID.

(** [peerID] is [p.Identity.ID()]. *)
Definition AdvertisedAddresses (address : bytes) (relays : list bytes) (public : bool)
    (peerID : bytes) : list bytes :=
  let addrs := if public && negb (is_nil address) then [address] else [] in
  let addrs := addrs ++ ((fun ra => relay_url ra peerID) <$> relays) in
  if bool_decide (addrs = []) then [address] else addrs.

Definition AdvertisedAddress (address : bytes) (relays : list bytes) (public : bool)
    (peerID : bytes) : bytes :=
  match AdvertisedAddresses address relays public peerID with
  | [] => address
  | a :: _ => a
  end.

Definition encodeAddresses (addrs : list bytes) : bytes := Join addrs (bs ",").

Definition decodeAddresses (payload : bytes) : list bytes :=
  if is_nil payload then [] else
  List.filter (fun p => negb (is_nil p)) (TrimSpace <$> SplitByte payload Byte.x2c).

Definition parseRelayAddress (address : bytes) : option (bytes * bytes) :=
  let prefix := bs "relay://" in
  if negb (HasPrefix address prefix) then None else
  let rest := drop (length prefix) address in
  match IndexByte rest Byte.x2f with
  | None => None
  | Some slash =>
      if (slash =? 0)%nat || (slash =? length rest - 1)%nat then None
      else Some (take slash rest, drop (S slash) rest)
  end.

Lemma IndexByte_Some s c i :
  IndexByte s c = Some i ->
  (i < length s)%nat /\ (c ∉ take i s) /\ s = take i s ++ c :: drop (S i) s.
Proof.
  revert i. induction s as [|b s IH]; intros i; simpl; [done|].
  case_bool_decide as E.
  - intros [= <-]. subst. split_and!; [lia|set_solver|done].
  - destruct (IndexByte s c) as [j|]; [|done]. intros [= <-].
    destruct (IH j eq_refl) as (Hl & Hn & Hs). split_and!; [lia| |].
    + simpl. set_solver.
    + simpl. by rewrite <- Hs.
Qed.

(** An address that a hello can carry. *)
Definition plain_address (a : bytes) : bool :=
  negb (is_nil a) && forallb plain a && bool_decide (Byte.x2c ∉ a).

(** (peer.go, [encodeAddresses], [decodeAddresses]; dht.go,
    [decodeAddressesPayload]): the address list a hello carries comes back
    unchanged, in order, for addresses that are not empty and have no commas,
    spaces or bytes outside ASCII; and whatever payload arrives, no decoded
    address is empty or has surrounding space. *)
Theorem addresses_roundtrip (addrs : list bytes) (payload : bytes) :
  forallb plain_address addrs = true ->
  decodeAddresses (encodeAddresses addrs) = addrs
  /\ Forall (fun a => a <> [] /\ TrimSpace a = a) (decodeAddresses payload).
Proof.
  intros Ha. split.
  - unfold decodeAddresses, encodeAddresses. destruct addrs as [|a addrs]; [done|].
    assert (forallb (fun p => negb (is_nil p)) (a :: addrs) = true) as Hne.
    { eapply forallb_impl; [|exact Ha]. intros p Hp. unfold plain_address in Hp.
      zbool. by apply negb_true_iff. }
    assert (Join (a :: addrs) (bs ",") <> []) as Hj.
    { destruct (Join_cons a addrs (bs ",")) as [r ->]. simpl in Hne. destruct a; done. }
    unfold is_nil at 1. rewrite bool_decide_eq_false_2 by done.
    change (bs ",") with [Byte.x2c]. rewrite SplitByte_Join.
    + replace (TrimSpace <$> (a :: addrs)) with (a :: addrs); [by apply filter_all|].
      clear Hne Hj. induction (a :: addrs) as [|x l IH]; [done|].
      simpl in Ha. apply andb_true_iff in Ha as [Hx Hl]. rewrite fmap_cons, <- IH by done.
      f_equal. symmetry. apply TrimSpace_plain. unfold plain_address in Hx. by zbool.
    + done.
    + apply Forall_forall. intros x Hx. rewrite forallb_forall in Ha.
      apply list_elem_of_In, Ha in Hx. unfold plain_address in Hx. by zbool.
  - unfold decodeAddresses. destruct (is_nil payload); [constructor|].
    apply Forall_forall. intros a Hin. apply list_elem_of_In, filter_In in Hin as [Hin Hne].
    apply list_elem_of_In, list_elem_of_fmap in Hin as (p & -> & _).
    split; [|apply TrimSpace_idem]. unfold is_nil in Hne. by zbool.
Qed.

Lemma addresses_roundtrip_witness :
  decodeAddresses (encodeAddresses [bs "10.0.0.1:7000"; bs "relay://r.example:9/ab"])
  = [bs "10.0.0.1:7000"; bs "relay://r.example:9/ab"].
Proof.
  apply (addresses_roundtrip [bs "10.0.0.1:7000"; bs "relay://r.example:9/ab"] []). by vm_compute.
Defined.

(** (peer.go, [parseRelayAddress], [AdvertisedAddresses]): a relay address
    parses into exactly the relay and peer parts that build it, the relay part
    being what precedes the first slash; so every relay address a peer
    advertises for a relay host without a slash parses back. *)
Theorem relay_address_roundtrip (address : bytes) (relayAddr peerID : bytes) :
  parseRelayAddress address = Some (relayAddr, peerID)
  <-> address = relay_url relayAddr peerID /\ relayAddr <> [] /\ peerID <> []
      /\ Byte.x2f ∉ relayAddr.
Proof.
  unfold parseRelayAddress, relay_url. split.
  - destruct (HasPrefix address _) eqn:Hp; [|done]. apply HasPrefix_spec in Hp as [rest ->].
    simpl negb. cbv iota. rewrite drop_app_length.
    destruct (IndexByte rest Byte.x2f) as [i|] eqn:Hi; [|done].
    destruct ((i =? 0)%nat || (i =? length rest - 1)%nat) eqn:E; [done|].
    intros [= <- <-]. apply IndexByte_Some in Hi as (Hl & Hn & Hs). zbool. split_and!; [| | |done].
    + f_equal. exact Hs.
    + destruct rest; [simpl in Hl; lia|]. destruct i; [lia|done].
    + intros Hd. apply (f_equal length) in Hd. rewrite length_drop in Hd. simpl in Hd. lia.
  - intros (-> & Hr & Hp & Hs). rewrite (proj2 (HasPrefix_spec _ _)) by eauto.
    simpl negb. cbv iota. rewrite drop_app_length.
    change (relayAddr ++ bs "/" ++ peerID) with (relayAddr ++ Byte.x2f :: peerID).
    rewrite IndexByte_app, length_app by done. simpl length.
    destruct relayAddr as [|r relayAddr]; [done|]. destruct peerID as [|c peerID]; [done|].
    destruct (Nat.eqb_spec (length (r :: relayAddr)) 0); [done|].
    destruct (Nat.eqb_spec (length (r :: relayAddr))
      (length (r :: relayAddr) + S (length (c :: peerID)) - 1)) as [E|_]; [simpl in E; lia|].
    simpl orb. cbv iota. rewrite take_app_length.
    do 2 f_equal. change (Byte.x2f :: c :: peerID) with ([Byte.x2f] ++ c :: peerID).
    rewrite app_assoc. apply drop_app_length'. rewrite length_app. simpl. lia.
Qed.

End Addresses.

(** ** Connections *)

Module Conns.

Record peerConn := MkConn { pc_remoteID : bytes; pc_addresses : list bytes }.

(** The connection tables of a [Peer]; [conns] holds the objects the pointers
    of the two maps refer to. *)
Record tables := MkTables {
  peers : gmap bytes nat;
  peersByID : gmap bytes nat;
  conns : gmap nat peerConn;
  maxConnections : Z
}.

Definition SetMaxConnections (t : tables) (n : Z) : tables :=
  MkTables (peers t) (peersByID t) (conns t) n.

Definition atConnectionLimit (t : tables) : bool :=
  (0 <? maxConnections t) && (maxConnections t <=? Z.of_nat (size (peersByID t))).

Definition IsConnected (t : tables) (addr : bytes) : bool := bool_decide (is_Some (peers t !! addr)).

Definition appendUnique (slice : list bytes) (s : bytes) : list bytes :=
  if bool_decide (s ∈ slice) then slice else slice ++ [s].

(** [p.peers[addr] = pc; pc.addresses = appendUnique(pc.addresses, addr)] *)
Definition set_alias (t : tables) (addr : bytes) (c : nat) (pc : peerConn) : tables :=
  MkTables (<[addr := c]> (peers t)) (peersByID t)
    (<[c := MkConn (pc_remoteID pc) (appendUnique (pc_addresses pc) addr)]> (conns t))
    (maxConnections t).

Definition with_peersByID (t : tables) (m : gmap bytes nat) : tables :=
  MkTables (peers t) m (conns t) (maxConnections t).

(** The tables after [registerConn(c, addr)] and the existing connection it
    returns.  [c] is a live pointer, so its lookup never fails. *)
Definition registerConn (t : tables) (c : nat) (addr : bytes) : tables * option nat :=
  match conns t !! c with
  | None => (t, None)
  | Some pc =>
      if negb (is_nil (pc_remoteID pc)) then
        match peersByID t !! pc_remoteID pc with
        | Some cur =>
            if bool_decide (cur <> c) then
              match conns t !! cur with
              | Some pcur => (set_alias t addr cur pcur, Some cur)
              | None => (t, None)
              end
            else (set_alias (with_peersByID t (<[pc_remoteID pc := c]> (peersByID t))) addr c pc, None)
        | None => (set_alias (with_peersByID t (<[pc_remoteID pc := c]> (peersByID t))) addr c pc, None)
        end
      else (set_alias t addr c pc, None)
  end.

Definition drop_alias (c : nat) (m : gmap bytes nat) (a : bytes) : gmap bytes nat :=
  if bool_decide (m !! a = Some c) then delete a m else m.

Definition removeConn (t : tables) (c : nat) : tables :=
  match conns t !! c with
  | None => t
  | Some pc =>
      let byID :=
        if negb (is_nil (pc_remoteID pc)) && bool_decide (peersByID t !! pc_remoteID pc = Some c)
        then delete (pc_remoteID pc) (peersByID t) else peersByID t in
      MkTables (foldl (drop_alias c) (peers t) (pc_addresses pc)) byID (conns t) (maxConnections t)
  end.

Definition AddPeerAddress (t : tables) (peerID addr : bytes) : tables * bool :=
  match peersByID t !! peerID with
  | None => (t, false)
  | Some c =>
      if bool_decide (peers t !! addr = Some c) then (t, false)
      else match conns t !! c with
           | Some pc => (set_alias t addr c pc, true)
           | None => (t, false)
           end
  end.

(** A new connection object after its handshake: a pointer not used before. *)
Definition new_conn (t : tables) (c : nat) (remoteID : bytes) : tables :=
  MkTables (peers t) (peersByID t) (<[c := MkConn remoteID []]> (conns t)) (maxConnections t).

(** The end of [Stop]: every address is forgotten, the table by ID is not. *)
Definition close_all (t : tables) : tables :=
  MkTables ∅ (peersByID t) (conns t) (maxConnections t).

(** What comes of setting up one connection. *)
Inductive setup := Refused | HandshakeFailed | Duplicate (existing : nat) | HelloFailed | Established.

(** What [Connect], [handleIncoming] and [handleIncomingFromRelay] have in
    common, from the limit check to the read loop: [hs] is the ID the handshake verified ([None] if the
    dial or the handshake failed), [addr] the address the connection is filed
    under, [hello_ok] whether the hello could be sent. *)
Definition setup_conn (t : tables) (c : nat) (addr : bytes) (hs : option bytes) (hello_ok : bool)
  : tables * setup :=
  if atConnectionLimit t then (t, Refused) else
  match hs with
  | None => (t, HandshakeFailed)
  | Some remoteID =>
      match registerConn (new_conn t c remoteID) c addr with
      | (t', Some existing) => (t', Duplicate existing)
      | (t', None) => if hello_ok then (t', Established) else (removeConn t' c, HelloFailed)
      end
  end.

Definition Connect (t : tables) (c : nat) (address : bytes) (hs : option bytes) (hello_ok : bool) :=
  setup_conn t c address hs hello_ok.

Definition handleIncoming (t : tables) (c : nat) (remoteAddr : bytes) (hs : option bytes)
    (hello_ok : bool) := setup_conn t c remoteAddr hs hello_ok.

(** Connections through a relay are filed under the URL that reaches the peer. *)
Definition handleIncomingFromRelay (t : tables) (c : nat) (relayAddr : bytes) (hs : option bytes)
    (hello_ok : bool) :=
  setup_conn t c (Addresses.relay_url relayAddr (default [] hs)) hs hello_ok.

(** *** Facts *)

Inductive op :=
| OConnect (c : nat) (address : bytes) (hs : option bytes) (hello_ok : bool)
| OIncoming (c : nat) (remoteAddr : bytes) (hs : option bytes) (hello_ok : bool)
| ORelayed (c : nat) (relayAddr : bytes) (hs : option bytes) (hello_ok : bool)
| OAlias (peerID addr : bytes)
| ORemove (c : nat)
| OLimit (n : Z)
| OStop.

Definition exec (t : tables) (o : op) : tables :=
  match o with
  | OConnect c address hs hello_ok => fst (Connect t c address hs hello_ok)
  | OIncoming c remoteAddr hs hello_ok => fst (handleIncoming t c remoteAddr hs hello_ok)
  | ORelayed c relayAddr hs hello_ok => fst (handleIncomingFromRelay t c relayAddr hs hello_ok)
  | OAlias peerID addr => fst (AddPeerAddress t peerID addr)
  | ORemove c => removeConn t c
  | OLimit n => SetMaxConnections t n
  | OStop => close_all t
  end.

(** Connection setups use fresh pointers and verified (non-empty) IDs. *)
Definition op_fresh (t : tables) (o : op) : Prop :=
  match o with
  | OConnect c _ hs _ | OIncoming c _ hs _ | ORelayed c _ hs _ =>
      conns t !! c = None /\ hs <> Some []
  | _ => True
  end.

Inductive step : tables -> tables -> Prop :=
| step_op t o : op_fresh t o -> step t (exec t o).

(** Both maps point at live objects; an ID maps to a connection with that ID;
    an address maps to the one connection of its peer, which knows it. *)
Definition tables_ok (t : tables) : Prop :=
  (forall c pc, conns t !! c = Some pc -> pc_remoteID pc <> [])
  /\ (forall id c, peersByID t !! id = Some c ->
        exists pc, conns t !! c = Some pc /\ pc_remoteID pc = id)
  /\ (forall a c, peers t !! a = Some c ->
        exists pc, conns t !! c = Some pc /\ a ∈ pc_addresses pc
          /\ peersByID t !! pc_remoteID pc = Some c).

Lemma appendUnique_elem a s x : x ∈ appendUnique s a <-> x = a \/ x ∈ s.
Proof. unfold appendUnique. case_bool_decide; set_solver. Qed.

Lemma set_alias_ok t addr c pc :
  tables_ok t -> conns t !! c = Some pc -> peersByID t !! pc_remoteID pc = Some c ->
  tables_ok (set_alias t addr c pc).
Proof.
  intros (H0 & H1 & H2) Hc Hid. split_and!; simpl.
  - intros c' pc' [[<- <-]|[_ ?]]%lookup_insert_Some; simpl; eauto.
  - intros id c' Hb. destruct (H1 id c' Hb) as (pc' & Hc' & <-).
    destruct (decide (c = c')) as [<-|Hne].
    + rewrite lookup_insert_eq. eexists. split; [done|]. simpl. congruence.
    + rewrite lookup_insert_ne by done. eauto.
  - intros a c' [[<- <-]|[Hne Ha]]%lookup_insert_Some.
    + rewrite lookup_insert_eq. eexists. split; [done|]. simpl. split; [|done].
      apply appendUnique_elem. by left.
    + destruct (H2 a c' Ha) as (pc' & Hc' & Hin & Hb). destruct (decide (c = c')) as [<-|Hnc].
      * rewrite lookup_insert_eq. eexists. split; [done|]. simpl. simplify_eq. split; [|done].
        apply appendUnique_elem. by right.
      * rewrite lookup_insert_ne by done. eauto.
Qed.

Lemma new_conn_ok t c id : tables_ok t -> conns t !! c = None -> id <> [] -> tables_ok (new_conn t c id).
Proof.
  intros (H0 & H1 & H2) Hc Hid. split_and!; simpl.
  - intros c' pc' [[<- <-]|[_ ?]]%lookup_insert_Some; simpl; eauto.
  - intros id' c' Hb. destruct (H1 id' c' Hb) as (pc' & Hc' & ?).
    rewrite lookup_insert_ne by congruence. eauto.
  - intros a c' Ha. destruct (H2 a c' Ha) as (pc' & Hc' & ?).
    rewrite lookup_insert_ne by congruence. eauto.
Qed.

(** Filing a new connection under an ID nobody holds. *)
Lemma claim_ok t c pc :
  tables_ok t -> conns t !! c = Some pc -> peersByID t !! pc_remoteID pc = None ->
  tables_ok (with_peersByID t (<[pc_remoteID pc := c]> (peersByID t))).
Proof.
  intros (H0 & H1 & H2) Hc Hn. split_and!; simpl; [done| |].
  - intros id c' [[<- <-]|[_ ?]]%lookup_insert_Some; eauto.
  - intros a c' Ha. destruct (H2 a c' Ha) as (pc' & Hc' & Hin & Hb). exists pc'. split_and!; [done|done|].
    rewrite lookup_insert_ne; [done|congruence].
Qed.

Lemma drop_alias_lookup c m x a :
  drop_alias c m x !! a = if decide (a = x /\ m !! a = Some c) then None else m !! a.
Proof.
  unfold drop_alias. destruct (decide (a = x)) as [->|Hne].
  - case_bool_decide; [rewrite lookup_delete_eq, decide_True by done; done|].
    by rewrite decide_False by tauto.
  - rewrite decide_False by tauto. case_bool_decide; [by rewrite lookup_delete_ne|done].
Qed.

Lemma drop_aliases_lookup c l m a :
  foldl (drop_alias c) m l !! a
  = if decide (a ∈ l /\ m !! a = Some c) then None else m !! a.
Proof.
  revert m. induction l as [|x l IH]; intros m; cbn [foldl].
  { rewrite decide_False; [done|set_solver]. }
  rewrite IH, drop_alias_lookup. repeat case_decide; set_solver.
Qed.

Lemma removeConn_ok t c : tables_ok t -> tables_ok (removeConn t c).
Proof.
  intros (H0 & H1 & H2). unfold removeConn. destruct (conns t !! c) as [pc|] eqn:Hc; [|done].
  assert (forall id c', c' <> c -> peersByID t !! id = Some c' ->
    (if negb (is_nil (pc_remoteID pc)) && bool_decide (peersByID t !! pc_remoteID pc = Some c)
     then delete (pc_remoteID pc) (peersByID t) else peersByID t) !! id = Some c') as Hkeep.
  { intros id c' Hne Hb. destruct (negb _ && _) eqn:E; [|done]. zbool.
    rewrite lookup_delete_ne; [done|congruence]. }
  split_and!; simpl; [done| |].
  - intros id c' Hb. apply H1. destruct (negb _ && _); [|done].
    by apply lookup_delete_Some in Hb as [_ ?].
  - intros a c' Ha. rewrite drop_aliases_lookup in Ha. case_decide as E; [done|].
    destruct (H2 a c' Ha) as (pc' & Hc' & Hin & Hb). exists pc'. split_and!; [done|done|].
    apply Hkeep; [|done]. intros ->. apply E. simplify_eq. done.
Qed.

Lemma registerConn_ok t c pc addr :
  tables_ok t -> conns t !! c = Some pc -> tables_ok (fst (registerConn t c addr)).
Proof.
  intros Ht Hc. destruct Ht as (H0 & H1 & H2) eqn:E. clear E. unfold registerConn. rewrite Hc.
  assert (is_nil (pc_remoteID pc) = false) as -> by (apply bool_decide_eq_false; eauto). simpl.
  destruct (peersByID t !! pc_remoteID pc) as [cur|] eqn:Hb.
  - case_bool_decide as Hcur.
    + destruct (H1 _ _ Hb) as (pcur & Hpc & Hid). rewrite Hpc. simpl.
      apply set_alias_ok; [done|done|congruence].
    + assert (cur = c) as -> by (destruct (decide (cur = c)); tauto). simpl.
      rewrite insert_id by done. apply set_alias_ok; [by destruct t|done|done].
  - simpl. apply set_alias_ok; [by apply claim_ok|done|]. simpl. apply lookup_insert_eq.
Qed.

Lemma setup_ok t c addr hs hello_ok :
  tables_ok t -> conns t !! c = None -> hs <> Some [] -> tables_ok (fst (setup_conn t c addr hs hello_ok)).
Proof.
  intros Ht Hc Hid. unfold setup_conn. destruct (atConnectionLimit t); [done|].
  destruct hs as [id|]; [|done].
  assert (tables_ok (new_conn t c id)) as Hn by (apply new_conn_ok; [done|done|congruence]).
  pose proof (registerConn_ok (new_conn t c id) c (MkConn id []) addr Hn) as Hr.
  destruct (registerConn _ _ _) as [t' [e|]]; simpl in *;
    [|destruct hello_ok; [|apply removeConn_ok]]; apply Hr; apply lookup_insert_eq.
Qed.

Lemma exec_ok t o : tables_ok t -> op_fresh t o -> tables_ok (exec t o).
Proof.
  intros Ht Hf. destruct o as [c addr hs hello_ok|c addr hs hello_ok|c addr hs hello_ok|id addr|c|n|];
    simpl in *; [by apply setup_ok; destruct Hf..| | | |].
  - unfold AddPeerAddress. destruct (peersByID t !! id) as [c|] eqn:Hb; [|done].
    case_bool_decide; [done|]. destruct Ht as (H0 & H1 & H2) eqn:E. clear E.
    destruct (H1 _ _ Hb) as (pc & Hc & <-). rewrite Hc. by apply set_alias_ok.
  - by apply removeConn_ok.
  - done.
  - destruct Ht as (H0 & H1 & _). split_and!; done.
Qed.

Definition no_conns (max : Z) : tables := MkTables ∅ ∅ ∅ max.

Lemma reachable_ok max t : rtc step (no_conns max) t -> tables_ok t.
Proof.
  intros Hr. remember (no_conns max) as t0 eqn:E0.
  assert (tables_ok t0) as H0 by (subst; split_and!; done). clear E0.
  induction Hr as [|t1 t2 t3 Hs _ IH]; [done|]. destruct Hs as [t o Hf]. apply IH. by apply exec_ok.
Qed.

(** The ID of the peer an address leads to. *)
Definition remote_of (t : tables) (addr : bytes) : option bytes :=
  match peers t !! addr with Some c => pc_remoteID <$> conns t !! c | None => None end.

(** (peer.go, [Connect], [handleIncoming], [registerConn], [removeConn]): in every state
    the connection tables can reach, two addresses that lead to the same peer
    share one connection, which is the one on file for the peer's ID; and after
    [removeConn] no address and no ID leads to the removed connection. *)
Theorem one_connection_per_peer (max : Z) (t : tables) :
  rtc step (no_conns max) t ->
  (forall a b ca cb id, peers t !! a = Some ca -> peers t !! b = Some cb ->
     remote_of t a = Some id -> remote_of t b = Some id ->
     ca = cb /\ peersByID t !! id = Some ca)
  /\ (forall c, let t' := removeConn t c in
      (forall a, peers t' !! a <> Some c) /\ (forall id, peersByID t' !! id <> Some c)).
Proof.
  intros Hr. pose proof (reachable_ok _ _ Hr) as (H0 & H1 & H2). split.
  - intros a b ca cb id Ha Hb Hra Hrb. unfold remote_of in Hra, Hrb. rewrite Ha in Hra. rewrite Hb in Hrb.
    destruct (H2 a ca Ha) as (pa & Ea & _ & Ia). destruct (H2 b cb Hb) as (pb & Eb & _ & Ib).
    rewrite Ea in Hra. rewrite Eb in Hrb. simplify_eq/=. split; congruence.
  - intros c. simpl. unfold removeConn. destruct (conns t !! c) as [pc|] eqn:Hc.
    + split; simpl.
      * intros a. rewrite drop_aliases_lookup. case_decide as E; [done|]. intros Ha. apply E.
        destruct (H2 a c Ha) as (pc' & Hc' & Hin & _). simplify_eq. done.
      * intros id Hb. destruct (negb _ && _) eqn:E.
        -- apply lookup_delete_Some in Hb as [Hne Hb]. destruct (H1 id c Hb) as (pc' & ? & ?). congruence.
        -- destruct (H1 id c Hb) as (pc' & ? & Hid). simplify_eq.
           rewrite (bool_decide_eq_true_2 (peersByID t !! _ = _)) in E by done.
           rewrite andb_true_r in E. apply negb_false_iff, bool_decide_eq_true in E. by apply (H0 c pc).
    + split; [intros a Ha; destruct (H2 a c Ha) as (? & ? & _)|intros id Hb; destruct (H1 id c Hb) as (? & ? & _)];
        congruence.
Qed.

Lemma one_connection_per_peer_witness :
  let t1 := exec (no_conns 10) (OConnect 1 (bs "10.0.0.1:1") (Some (bs "id")) true) in
  let t2 := exec t1 (ORelayed 2 (bs "r") (Some (bs "id")) true) in
  peers t2 !! bs "relay://r/id" = Some 1%nat
  /\ forall a, peers (removeConn t2 1) !! a <> Some 1%nat.
Proof.
  intros t1 t2. split; [by vm_compute|].
  assert (rtc step (no_conns 10) t2) as Hr.
  { eapply rtc_l; [|apply rtc_once]; apply step_op; by split. }
  apply (one_connection_per_peer 10 t2 Hr).
Defined.

(** The connection limit is checked before the handshake and the registration
    after it; a setup that runs alone keeps the number of peers within it. *)
Lemma setup_within_limit t c addr hs hello_ok :
  0 < maxConnections t -> Z.of_nat (size (peersByID t)) <= maxConnections t ->
  Z.of_nat (size (peersByID (fst (setup_conn t c addr hs hello_ok)))) <= maxConnections t.
Proof.
  intros Hm Hs. unfold setup_conn. destruct (atConnectionLimit t) eqn:El; [done|].
  unfold atConnectionLimit in El. destruct (Z.ltb_spec 0 (maxConnections t)); [|lia]. simpl in El. zbool.
  destruct hs as [id|]; [|done].
  assert (Z.of_nat (size (peersByID (fst (registerConn (new_conn t c id) c addr)))) <= maxConnections t) as Hr.
  { unfold registerConn. simpl. rewrite lookup_insert_eq. simpl.
    destruct (negb _); [|done]. pose proof (map_size_insert id c (peersByID t)) as Hi.
    destruct (peersByID t !! id) as [cur|] eqn:Hb; rewrite ?Hb in Hi; simpl in Hi.
    - case_bool_decide; simpl; [|by rewrite Hi]. by destruct (<[c := _]> (conns t) !! cur).
    - simpl. rewrite Hi. lia. }
  destruct (registerConn _ _ _) as [t' [e|]]; simpl in *; [done|]. destruct hello_ok; [done|]. simpl.
  unfold removeConn. destruct (conns t' !! c); [|done]. simpl. destruct (negb _ && _); [|done].
  rewrite map_size_delete. case_match; simpl in *; lia.
Qed.

End Conns.

(** ** Requests and dispatch *)

Module Dispatch.

(** What [handleMessage] does with a message: hand it to the goroutine waiting
    on channel [ch], answer a ping, call every registered handler. *)
Inductive action := Deliver (ch : nat) (msg : Message) | SendOn (reply : Message) | CallHandlers (msg : Message).

Definition handleMessage (pending : gmap bytes nat) (msg : Message) : gmap bytes nat * list action :=
  let waiting := if negb (is_nil (m_ReqID msg)) then pending !! m_ReqID msg else None in
  match waiting with
  | Some ch => (delete (m_ReqID msg) pending, [Deliver ch msg])
  | None =>
      (pending,
       (if bool_decide (m_Type msg = bs "ping") then [SendOn (mk_message (bs "pong") (bs "alive"))]
        else []) ++ [CallHandlers msg])
  end.

(** The part of [Request] under [pendingMu] at its start and at its end. *)
Definition request_begin (pending : gmap bytes nat) (reqID : bytes) (ch : nat) : gmap bytes nat :=
  <[reqID := ch]> pending.

Definition request_end (pending : gmap bytes nat) (reqID : bytes) : gmap bytes nat :=
  delete reqID pending.

(** The pending table together with everything delivered so far, and the
    channels made so far. *)
Record state := MkState {
  pending : gmap bytes nat;
  delivered : list (nat * Message);
  made : gset nat
}.

Definition deliveries (acts : list action) : list (nat * Message) :=
  omap (fun a => match a with Deliver ch m => Some (ch, m) | _ => None end) acts.

(** Requests start with a fresh channel; messages arrive and requests end in
    any order.  Request IDs may repeat. *)
Inductive step : state -> state -> Prop :=
| step_begin s reqID ch :
    ch ∉ made s ->
    step s (MkState (request_begin (pending s) reqID ch) (delivered s) ({[ch]} ∪ made s))
| step_end s reqID :
    step s (MkState (request_end (pending s) reqID) (delivered s) (made s))
| step_recv s msg :
    step s (MkState (fst (handleMessage (pending s) msg))
              (delivered s ++ deliveries (snd (handleMessage (pending s) msg))) (made s)).

Definition inv (s : state) : Prop :=
  NoDup (delivered s).*1
  /\ (forall r ch, pending s !! r = Some ch -> (ch ∉ (delivered s).*1) /\ ch ∈ made s)
  /\ (forall r r' ch, pending s !! r = Some ch -> pending s !! r' = Some ch -> r = r')
  /\ (forall ch, ch ∈ (delivered s).*1 -> ch ∈ made s).

Lemma step_inv s s' : step s s' -> inv s -> inv s'.
Proof.
  intros Hs (H1 & H2 & H3 & H4).
  destruct Hs as [s reqID ch Hch|s reqID|s msg]; unfold inv, request_begin, request_end; simpl.
  - split_and!; [done| | |set_solver].
    + intros r c [[<- <-]|[_ Hr]]%lookup_insert_Some; [|destruct (H2 r c Hr); set_solver].
      split; [|set_solver]. intros Hin. by apply Hch, H4.
    + intros r r' c [[<- <-]|[_ Hr]]%lookup_insert_Some [[<- ?]|[_ Hr']]%lookup_insert_Some; eauto.
      * exfalso. by apply Hch, (H2 r' ch).
      * subst. exfalso. by apply Hch, (H2 r c).
  - split_and!; [done| | |done].
    + intros r c [_ Hr]%lookup_delete_Some. eauto.
    + intros r r' c [_ ?]%lookup_delete_Some [_ ?]%lookup_delete_Some. eauto.
  - unfold handleMessage.
    destruct (if negb (is_nil (m_ReqID msg)) then _ else _) as [ch|] eqn:E; simpl.
    + assert (pending s !! m_ReqID msg = Some ch) as Hp by (by destruct (negb _)).
      rewrite fmap_app. simpl. destruct (H2 _ _ Hp) as [Hn Hm]. split_and!.
      * apply NoDup_app. split_and!; [done|set_solver|apply NoDup_singleton].
      * intros r c [Hr Hc]%lookup_delete_Some. destruct (H2 r c Hc). split; [|done].
        rewrite elem_of_app, list_elem_of_singleton. intros [?| ->]; [done|]. apply Hr. eauto.
      * intros r r' c [_ ?]%lookup_delete_Some [_ ?]%lookup_delete_Some. eauto.
      * intros c. rewrite elem_of_app, list_elem_of_singleton. intros [?| ->]; eauto.
    + assert (deliveries ((if bool_decide (m_Type msg = bs "ping")
        then [SendOn (mk_message (bs "pong") (bs "alive"))] else []) ++ [CallHandlers msg]) = []) as ->
        by (by destruct (bool_decide _)).
      rewrite app_nil_r. done.
Qed.

Definition init : state := MkState ∅ [] ∅.

(** (peer.go, [handleMessage], [Request]): however requests, replies,
    timeouts and repeated request IDs interleave, every request's channel gets at
    most one message, so the send on it (capacity one) never blocks the read
    loop. *)
Theorem reply_delivered_once (s : state) :
  rtc step init s -> NoDup (delivered s).*1.
Proof.
  intros Hr. cut (inv s); [by intros (? & _)|]. remember init as s0 eqn:E0.
  assert (inv s0) as H0 by (subst; split_and!; simpl; [constructor|done|done|set_solver]). clear E0.
  induction Hr as [|s1 s2 s3 Hs _ IH]; [done|]. apply IH. by eapply step_inv.
Qed.

Lemma reply_delivered_once_witness :
  let m := with_ReqID (mk_message (bs "dht_pong") []) (bs "r1") in
  exists s, rtc step init s /\ delivered s = [(7%nat, m)] /\ NoDup (delivered s).*1.
Proof.
  intros m.
  set (s1 := MkState (request_begin ∅ (bs "r1") 7) [] ({[7%nat]} ∪ made init)).
  set (s2 := MkState (fst (handleMessage (pending s1) m))
               ([] ++ deliveries (snd (handleMessage (pending s1) m))) (made s1)).
  set (s3 := MkState (fst (handleMessage (pending s2) m))
               (delivered s2 ++ deliveries (snd (handleMessage (pending s2) m))) (made s2)).
  assert (rtc step init s3) as Hr.
  { eapply rtc_l; [exact (step_begin init (bs "r1") 7 ltac:(set_solver))|].
    eapply rtc_l; [exact (step_recv s1 m)|]. apply rtc_once, (step_recv s2 m). }
  exists s3. split; [done|]. split; [by vm_compute|]. by apply reply_delivered_once.
Defined.

End Dispatch.
