(* ===== verification/SingleFlight.v ===== *)
(** * Coalesced calls (core/dht/dht.go, [get]; core/peer/peer.go, [EnsureConnected])

    Two operations share work between goroutines that ask for the same thing at
    the same time: the first caller registers itself in a table under a mutex and
    does the work, later callers wait for its channel to be closed.  The pattern
    is one step relation over an interface, [Coalesced], which says how the two
    users differ: the key of the table, the check made before it, what the work
    does, and what a waiting caller returns.  Every step is one critical section
    or one channel operation, and steps of different goroutines interleave freely. *)

From S2P Require Import Prelude.

Class Coalesced (A V E : Type) := {
  ck : A -> bytes;                        (* key of the in-flight table *)
  pre : E -> A -> option V;               (* returned before the table is looked at *)
  work : E -> A -> E -> V -> Prop;        (* the call the first caller makes *)
  follow : E -> A -> V -> V;              (* what a caller that waited returns *)
  other : E -> E -> Prop                  (* what the rest of the program may do *)
}.

Section SingleFlight.
Context {A V E : Type} `{Coalesced A V E}.

(** Where a goroutine is in the function; [p] is the channel (or struct) of a flight. *)
Inductive proc :=
| Entering (a : A)              (* before the first critical section *)
| Running (a : A) (p : nat)     (* registered, doing the work *)
| Ran (a : A) (p : nat)         (* the work is done and its result kept *)
| Unlisted (a : A) (p : nat)    (* removed from the table, channel still open *)
| Waiting (a : A) (p : nat)     (* blocked on the channel *)
| Returned (a : A) (v : V)
| Crashed.                      (* close of a closed channel *)

(** A flight: what it was started for, its result, whether its channel is closed. *)
Record flight := MkFlight { f_arg : A; f_value : option V; f_closed : bool }.

(** [runs] records the work done so far. *)
Record state := MkState {
  env : E;
  table : gmap bytes nat;
  flights : gmap nat flight;
  procs : gmap nat proc;
  runs : list (A * V)
}.

Definition with_procs (s : state) (g : nat) (pr : proc) : state :=
  MkState (env s) (table s) (flights s) (<[g := pr]> (procs s)) (runs s).

Definition with_flight (s : state) (p : nat) (f : flight) : state :=
  MkState (env s) (table s) (<[p := f]> (flights s)) (procs s) (runs s).

Definition with_table (s : state) (t : gmap bytes nat) : state :=
  MkState (env s) t (flights s) (procs s) (runs s).

Definition with_run (s : state) (e : E) (r : A * V) : state :=
  MkState e (table s) (flights s) (procs s) (r :: runs s).

Inductive step : state -> state -> Prop :=
| step_other s e :
    other (env s) e -> step s (MkState e (table s) (flights s) (procs s) (runs s))
| step_call s g a :
    procs s !! g = None ->
    step s (with_procs s g
              (match pre (env s) a with Some v => Returned a v | None => Entering a end))
| step_join s g a p :
    procs s !! g = Some (Entering a) -> table s !! ck a = Some p ->
    step s (with_procs s g (Waiting a p))
| step_lead s g a p :
    procs s !! g = Some (Entering a) -> table s !! ck a = None -> flights s !! p = None ->
    step s (with_procs (with_flight (with_table s (<[ck a := p]> (table s))) p (MkFlight a None false))
              g (Running a p))
| step_work s g a p e v :
    procs s !! g = Some (Running a p) -> work (env s) a e v ->
    step s (with_procs (with_flight (with_run s e (a, v)) p (MkFlight a (Some v) false)) g (Ran a p))
| step_unlist s g a p :
    procs s !! g = Some (Ran a p) ->
    step s (with_procs (with_table s (delete (ck a) (table s))) g (Unlisted a p))
| step_close s g a p v :
    procs s !! g = Some (Unlisted a p) -> flights s !! p = Some (MkFlight a (Some v) false) ->
    step s (with_procs (with_flight s p (MkFlight a (Some v) true)) g (Returned a v))
| step_close_twice s g a p w :
    procs s !! g = Some (Unlisted a p) -> flights s !! p = Some (MkFlight a w true) ->
    step s (with_procs s g Crashed)
| step_wake s g a p f v :
    procs s !! g = Some (Waiting a p) -> flights s !! p = Some f ->
    f_closed f = true -> f_value f = Some v ->
    step s (with_procs s g (Returned a (follow (env s) a v))).

Definition start (e : E) : state := MkState e ∅ ∅ ∅ [].

(** ** The invariant *)

(** The goroutine that has yet to close the channel of [p]. *)
Definition owns (pr : proc) (a : A) (p : nat) : Prop :=
  pr = Running a p \/ pr = Ran a p \/ pr = Unlisted a p.

Definition proc_ok (s : state) (pr : proc) : Prop :=
  match pr with
  | Entering _ => True
  | Running a p => table s !! ck a = Some p /\ flights s !! p = Some (MkFlight a None false)
  | Ran a p => table s !! ck a = Some p /\ exists v, flights s !! p = Some (MkFlight a (Some v) false)
  | Unlisted a p => exists v, flights s !! p = Some (MkFlight a (Some v) false)
  | Waiting a p => exists f, flights s !! p = Some f /\ ck (f_arg f) = ck a
  | Returned a v =>
      (exists e, pre e a = Some v) \/ (a, v) ∈ runs s
      \/ exists a' v' e, ck a' = ck a /\ (a', v') ∈ runs s /\ v = follow e a v'
  | Crashed => False
  end.

Record inv (s : state) : Prop := {
  inv_procs : forall g pr, procs s !! g = Some pr -> proc_ok s pr;
  inv_open : forall p f, flights s !! p = Some f ->
    if f_closed f then exists v, f_value f = Some v
    else exists g pr, procs s !! g = Some pr /\ owns pr (f_arg f) p;
  inv_value : forall p f v, flights s !! p = Some f -> f_value f = Some v -> (f_arg f, v) ∈ runs s;
  inv_table : forall k p, table s !! k = Some p ->
    exists g a, (procs s !! g = Some (Running a p) \/ procs s !! g = Some (Ran a p)) /\ ck a = k;
  inv_owner : forall g g' pr pr' a a' p,
    procs s !! g = Some pr -> procs s !! g' = Some pr' -> owns pr a p -> owns pr' a' p -> g = g'
}.

Lemma owns_fun pr a a' p p' : owns pr a p -> owns pr a' p' -> a = a' /\ p = p'.
Proof. unfold owns. intros [-> | [-> | ->]] [? | [? | ?]]; by simplify_eq. Qed.

(** What an owner's state says about its flight, whatever its phase. *)
Lemma owner_flight s pr a p :
  proc_ok s pr -> owns pr a p -> exists w, flights s !! p = Some (MkFlight a w false).
Proof. intros Hok [-> | [-> | ->]]; simpl in Hok; naive_solver. Qed.

(** States of other goroutines survive a change that keeps their table entry and
    their flight (its argument, for those that wait) and loses no run. *)
Lemma proc_ok_frame s s' pr :
  proc_ok s pr ->
  (forall r, r ∈ runs s -> r ∈ runs s') ->
  (forall a p, owns pr a p -> flights s' !! p = flights s !! p
     /\ (table s !! ck a = Some p -> table s' !! ck a = Some p)) ->
  (forall p f, flights s !! p = Some f -> exists f', flights s' !! p = Some f' /\ f_arg f' = f_arg f) ->
  proc_ok s' pr.
Proof.
  intros Hok Hruns Hown Harg. destruct pr as [a|a p|a p|a p|a p|a v|]; simpl in *; try done.
  - destruct (Hown a p) as [-> Ht]; [by left|]. naive_solver.
  - destruct (Hown a p) as [-> Ht]; [by right; left|]. naive_solver.
  - destruct (Hown a p) as [-> _]; [by right; right|]. done.
  - destruct Hok as (f & Hf & Hck). destruct (Harg p f Hf) as (f' & Hf' & Ha).
    exists f'. by rewrite Ha.
  - destruct Hok as [?|[?|(a' & v' & e & ? & ? & ?)]]; [by left|by right; left; auto|].
    right; right. exists a', v', e. auto.
Qed.

(** A goroutine that owns no flight moves to a state that owns none. *)
Lemma inv_switch s g pr :
  inv s -> (forall pr0 a p, procs s !! g = Some pr0 -> ~ owns pr0 a p) ->
  (forall a p, ~ owns pr a p) -> proc_ok s pr -> inv (with_procs s g pr).
Proof.
  intros [I1 I2 I3 I4 I5] Hold Hnew Hok. split; simpl; [| |done| |].
  - intros g' pr' [[<- <-]|[_ Hp]]%lookup_insert_Some; [done|by apply (I1 g')].
  - intros p f Hf. specialize (I2 p f Hf). destruct (f_closed f); [done|].
    destruct I2 as (g' & pr' & Hp & Ho). exists g', pr'. split; [|done].
    rewrite lookup_insert_ne; [done|]. intros <-. by apply (Hold pr' (f_arg f) p).
  - intros k p Hk. destruct (I4 k p Hk) as (g' & a & Hp & Hck). exists g', a. split; [|done].
    destruct (decide (g' = g)) as [->|Hne]; [|by rewrite lookup_insert_ne].
    exfalso. destruct Hp as [Hp|Hp]; apply (Hold _ a p Hp); unfold owns; auto.
  - intros g1 g2 pr1 pr2 a1 a2 p [[<- <-]|[_ H1]]%lookup_insert_Some
      [[<- <-]|[_ H2]]%lookup_insert_Some O1 O2; try done.
    + by destruct (Hnew a1 p).
    + by destruct (Hnew a2 p).
    + by apply (I5 g1 g2 pr1 pr2 a1 a2 p).
Qed.

(** An owner moves on to the state [pr] of the same flight, or gives it up: what
    has to be checked when the table, its flight and the runs change with it. *)
Lemma inv_owner_moves s s' g pr0 pr a p v c :
  inv s -> procs s !! g = Some pr0 -> owns pr0 a p ->
  procs s' = <[g := pr]> (procs s) -> proc_ok s' pr -> runs s ⊆ runs s' ->
  (forall q, q <> p -> flights s' !! q = flights s !! q) ->
  flights s' !! p = Some (MkFlight a (Some v) c) -> (a, v) ∈ runs s' ->
  (c = false -> owns pr a p) -> (forall b q, owns pr b q -> b = a /\ q = p) ->
  (forall k q, table s' !! k = Some q -> table s !! k = Some q) ->
  (forall k q, q <> p -> table s !! k = Some q -> table s' !! k = Some q) ->
  (table s' !! ck a = Some p -> pr = Ran a p) ->
  inv s'.
Proof.
  intros Hinv Hg Ho Hprocs Hok Hruns Hfl Hp Hv Hc Hpr T1 T2 T3.
  pose proof Hinv as [I1 I2 I3 I4 I5].
  destruct (owner_flight s pr0 a p (I1 _ _ Hg) Ho) as [w Hw].
  assert (forall g' pr' a' q, g' <> g -> procs s !! g' = Some pr' -> owns pr' a' q -> q <> p) as Hothers.
  { intros g' pr' a' q Hne Hg' Ho' ->. by apply Hne, (I5 g' g pr' pr0 a' a p). }
  split.
  - rewrite Hprocs. intros g' pr' [[<- <-]|[Hne Hg']]%lookup_insert_Some; [done|].
    apply (proc_ok_frame s); [by apply (I1 g')|done| |].
    + intros a' q Ho'. assert (q <> p) as Hq by by apply (Hothers g' pr' a' q).
      split; [by apply Hfl|]. by apply T2.
    + intros q f Hf. destruct (decide (q = p)) as [->|Hq]; [|rewrite Hfl by done; eauto].
      exists (MkFlight a (Some v) c). split; [done|]. by simplify_eq.
  - intros q f Hf. rewrite Hprocs. destruct (decide (q = p)) as [->|Hq].
    + simplify_eq/=. destruct c; [by eexists|]. exists g, pr. rewrite lookup_insert_eq. auto.
    + rewrite Hfl in Hf by done. specialize (I2 q f Hf). destruct (f_closed f); [done|].
      destruct I2 as (g' & pr' & Hg' & Ho'). exists g', pr'. split; [|done].
      rewrite lookup_insert_ne; [done|]. intros <-. rewrite Hg in Hg'. simplify_eq.
      by destruct (owns_fun pr' a (f_arg f) p q).
  - intros q f v' Hf Hv'. destruct (decide (q = p)) as [->|Hq]; [by simplify_eq/=|].
    rewrite Hfl in Hf by done. by apply Hruns, (I3 q f).
  - intros k q Hk. destruct (I4 k q (T1 k q Hk)) as (g' & a' & Hg' & <-). rewrite Hprocs.
    destruct (decide (g' = g)) as [->|Hne].
    + assert (owns pr0 a' q) as Ho' by (unfold owns; destruct Hg'; simplify_eq; auto).
      destruct (owns_fun pr0 a a' p q Ho Ho') as [<- <-]. exists g, a.
      rewrite lookup_insert_eq, (T3 Hk). auto.
    + exists g', a'. rewrite lookup_insert_ne by done. auto.
  - rewrite Hprocs. intros g1 g2 pr1 pr2 a1 a2 q [[<- <-]|[Hn1 H1]]%lookup_insert_Some
      [[<- <-]|[Hn2 H2]]%lookup_insert_Some O1 O2; [done|exfalso..|].
    + destruct (Hpr a1 q O1) as [_ ->]. by apply (Hothers g2 pr2 a2 p).
    + destruct (Hpr a2 q O2) as [_ ->]. by apply (Hothers g1 pr1 a1 p).
    + by apply (I5 g1 g2 pr1 pr2 a1 a2 q).
Qed.

(** A new flight. *)
Lemma inv_lead s g a p :
  inv s -> procs s !! g = Some (Entering a) -> table s !! ck a = None -> flights s !! p = None ->
  inv (with_procs (with_flight (with_table s (<[ck a := p]> (table s))) p (MkFlight a None false))
         g (Running a p)).
Proof.
  intros [I1 I2 I3 I4 I5] Hg Ht Hf.
  assert (forall g' pr' a' q, procs s !! g' = Some pr' -> owns pr' a' q -> q <> p) as Hfresh.
  { intros g' pr' a' q Hg' Ho' ->. destruct (owner_flight s pr' a' p (I1 _ _ Hg') Ho'). congruence. }
  split; simpl.
  - intros g' pr' [[<- <-]|[Hne Hg']]%lookup_insert_Some.
    { simpl. by rewrite !lookup_insert_eq. }
    apply (proc_ok_frame s); [by apply (I1 g')|done| |]; simpl.
    + intros a' q Ho'. rewrite lookup_insert_ne by (intros <-; by apply (Hfresh g' pr' a' p)).
      split; [done|]. intros Hta. rewrite lookup_insert_ne; [done|]. congruence.
    + intros q f Hq. exists f. rewrite lookup_insert_ne; [done|]. congruence.
  - intros q f [[<- <-]|[Hne Hq]]%lookup_insert_Some.
    { exists g, (Running a p). rewrite lookup_insert_eq. unfold owns. auto. }
    specialize (I2 q f Hq). destruct (f_closed f); [done|]. destruct I2 as (g' & pr' & Hg' & Ho').
    exists g', pr'. rewrite lookup_insert_ne; [done|]. intros <-. rewrite Hg in Hg'. simplify_eq.
    by destruct Ho' as [?|[?|?]].
  - intros q f v [[<- <-]|[Hne Hq]]%lookup_insert_Some; [done|]. by apply (I3 q).
  - intros k q [[<- <-]|[Hne Hk]]%lookup_insert_Some.
    { exists g, a. rewrite lookup_insert_eq. auto. }
    destruct (I4 k q Hk) as (g' & a' & Hg' & <-). exists g', a'.
    rewrite lookup_insert_ne; [done|]. intros <-. rewrite Hg in Hg'. by destruct Hg'.
  - intros g1 g2 pr1 pr2 a1 a2 q [[<- <-]|[Hn1 H1]]%lookup_insert_Some
      [[<- <-]|[Hn2 H2]]%lookup_insert_Some O1 O2; [done|exfalso..|by apply (I5 g1 g2 pr1 pr2 a1 a2 q)].
    + destruct O1 as [?|[?|?]]; simplify_eq. by apply (Hfresh g2 pr2 a2 q).
    + destruct O2 as [?|[?|?]]; simplify_eq. by apply (Hfresh g1 pr1 a1 q).
Qed.

(** Only a goroutine that still runs or has just run is in the table. *)
Lemma unlisted_not_in_table s g a p k :
  inv s -> procs s !! g = Some (Unlisted a p) -> table s !! k <> Some p.
Proof.
  intros [I1 I2 I3 I4 I5] Hg Hk. destruct (I4 k p Hk) as (g' & a' & Hg' & _).
  assert (g' = g) as -> by (destruct Hg' as [Hg'|Hg']; apply (I5 g' g _ _ a' a p Hg' Hg); unfold owns; auto).
  destruct Hg'; congruence.
Qed.

Lemma flight_step_inv s s' : step s s' -> inv s -> inv s'.
Proof.
  assert (forall (x : A) (q : nat) (y : A), ~ owns (Entering y) x q) as Hno1
    by (intros ? ? ? [?|[?|?]]; done).
  assert (forall (x : A) (q : nat) (y : A) r, ~ owns (Waiting y r) x q) as Hno2
    by (intros ? ? ? ? [?|[?|?]]; done).
  assert (forall (x : A) (q : nat) (y : A) (v : V), ~ owns (Returned y v) x q) as Hno3
    by (intros ? ? ? ? [?|[?|?]]; done).
  intros Hs Hinv. pose proof Hinv as [I1 I2 I3 I4 I5]. destruct Hs as
    [s e _|s g a Hg|s g a p Hg Ht|s g a p Hg Ht Hf|s g a p e v Hg Hw|s g a p Hg|s g a p v Hg Hf
    |s g a p w Hg Hf|s g a p f v Hg Hf Hc Hv].
  - split; simpl; try done.
  - apply inv_switch; [done|congruence| |]; destruct (pre (env s) a) as [v|] eqn:Epre; [intros ? ?; apply Hno3|intros ? ?; apply Hno1|by left; exists (env s)|done].
  - apply inv_switch; [done|intros ? ? ?; rewrite Hg; intros [= <-]; apply Hno1|intros ? ?; apply Hno2|].
    destruct (I4 _ _ Ht) as (g' & a' & Hg' & Hck).
    destruct Hg' as [Hg'|Hg']; apply I1 in Hg'; simpl in Hg'; simpl; naive_solver.
  - by apply inv_lead.
  - assert (proc_ok s (Running a p)) as [Ht Hf] by by apply (I1 g).
    eapply (inv_owner_moves s _ g _ (Ran a p) a p v false Hinv Hg); unfold owns; simpl; auto.
    + split; [done|]. exists v. apply lookup_insert_eq.
    + intros r Hr. by right.
    + intros q Hq. by rewrite lookup_insert_ne.
    + apply lookup_insert_eq.
    + by left.
    + intros b q [?|[?|?]]; by simplify_eq.
  - assert (proc_ok s (Ran a p)) as [Ht (v & Hf)] by by apply (I1 g).
    eapply (inv_owner_moves s _ g _ (Unlisted a p) a p v false Hinv Hg); unfold owns; simpl; auto.
    + by exists v.
    + by apply (I3 p _ v Hf).
    + intros b q [?|[?|?]]; by simplify_eq.
    + by intros k q [_ ?]%lookup_delete_Some.
    + intros k q Hq Hk. rewrite lookup_delete_ne; [done|]. intros <-. congruence.
    + by rewrite lookup_delete_eq.
  - eapply (inv_owner_moves s _ g _ (Returned a v) a p v true Hinv Hg); unfold owns; simpl; auto.
    + right; left. by apply (I3 p _ v Hf).
    + intros q Hq. by rewrite lookup_insert_ne.
    + apply lookup_insert_eq.
    + by apply (I3 p _ v Hf).
    + done.
    + intros b q [?|[?|?]]; done.
    + intros Hk. by destruct (unlisted_not_in_table s g a p (ck a)).
  - assert (proc_ok s (Unlisted a p)) as (v & Hf') by by apply (I1 g). congruence.
  - apply inv_switch; [done|intros ? ? ?; rewrite Hg; intros [= <-]; apply Hno2|intros ? ?; apply Hno3|].
    assert (proc_ok s (Waiting a p)) as (f' & Hf' & Hck) by by apply (I1 g).
    simplify_eq. right; right. exists (f_arg f), v, (env s). split_and!; [done| |done].
    by apply (I3 p f v).
Qed.

Lemma start_inv e : inv (start e).
Proof. by split; simpl. Qed.

Lemma flight_inv e s : rtc step (start e) s -> inv s.
Proof.
  intros Hr. pose proof (start_inv e) as H0. induction Hr; [done|]. eauto using flight_step_inv.
Qed.

(** How the environment evolves: by the work of flights and by the rest of the program. *)
Definition evolves : E -> E -> Prop := rtc (fun x y => other x y \/ exists a v, work x a y v).

(** Every run recorded was made by [work], in an environment that could arise. *)
Definition runs_made (e : E) (s : state) : Prop :=
  evolves e (env s)
  /\ forall a v, (a, v) ∈ runs s -> exists e1 e2, evolves e e1 /\ work e1 a e2 v.

Lemma step_runs e s s' : step s s' -> runs_made e s -> runs_made e s'.
Proof.
  intros Hs [He Hr]. destruct Hs as [s e' Ho| | | |s g a p e' v Hg Hw| | | |]; try done; simpl.
  - split; [|done]. eapply rtc_r; [done|]. by left.
  - split; simpl; [eapply rtc_r; [done|]; right; eauto|].
    intros a' v' [?|?]%elem_of_cons; [simplify_eq; eauto|by apply Hr].
Qed.

Lemma reachable_runs e s : rtc step (start e) s -> runs_made e s.
Proof.
  intros Hr. assert (runs_made e (start e)) as H0.
  { split; [apply rtc_refl|]. intros a v Hin. by apply elem_of_nil in Hin. }
  induction Hr; [done|]. eauto using step_runs.
Qed.

(** A caller that waits is released: its flight's owner can finish, whatever
    phase it is in, and then the caller returns. *)
Lemma waiter_returns s g a p :
  inv s -> (forall b, exists e' v, work (env s) b e' v) ->
  procs s !! g = Some (Waiting a p) ->
  exists s' v, rtc step s s' /\ procs s' !! g = Some (Returned a v).
Proof.
  intros Hinv Htotal Hg.
  assert (forall s, procs s !! g = Some (Waiting a p) ->
            (exists b v, flights s !! p = Some (MkFlight b (Some v) true)) ->
            exists s' v, rtc step s s' /\ procs s' !! g = Some (Returned a v)) as Hwake.
  { intros t Ht (b & v & Hf). eexists _, _.
    split; [apply rtc_once; by eapply step_wake|]. apply lookup_insert_eq. }
  assert (forall s h b v, h <> g -> procs s !! g = Some (Waiting a p) -> procs s !! h = Some (Unlisted b p) ->
            flights s !! p = Some (MkFlight b (Some v) false) ->
            exists s' v, rtc step s s' /\ procs s' !! g = Some (Returned a v)) as Hclose.
  { intros t h b v Hne Ht Hh Hf.
    destruct (Hwake (with_procs (with_flight t p (MkFlight b (Some v) true)) h (Returned b v)))
      as (s' & v' & Hs' & Hv'); [simpl; by rewrite lookup_insert_ne|exists b, v; apply lookup_insert_eq|].
    exists s', v'. split; [|done]. eapply rtc_l; [by eapply step_close|done]. }
  assert (forall s h b v, h <> g -> procs s !! g = Some (Waiting a p) -> procs s !! h = Some (Ran b p) ->
            flights s !! p = Some (MkFlight b (Some v) false) ->
            exists s' v, rtc step s s' /\ procs s' !! g = Some (Returned a v)) as Hunlist.
  { intros t h b v Hne Ht Hh Hf.
    destruct (Hclose (with_procs (with_table t (delete (ck b) (table t))) h (Unlisted b p)) h b v)
      as (s' & v' & Hs' & Hv'); [done|simpl; by rewrite lookup_insert_ne|apply lookup_insert_eq|done|].
    exists s', v'. split; [|done]. eapply rtc_l; [by eapply step_unlist|done]. }
  pose proof Hinv as [I1 I2 I3 I4 I5].
  assert (proc_ok s (Waiting a p)) as ([b w c] & Hf & Hck) by by apply (I1 g).
  pose proof (I2 p _ Hf) as Ho. simpl in Ho. destruct c.
  { destruct Ho as [v ->]. by apply (Hwake s); [|exists b, v]. }
  destruct Ho as (h & pr & Hh & Ho). assert (h <> g) as Hne.
  { intros ->. rewrite Hg in Hh. simplify_eq. by destruct Ho as [?|[?|?]]. }
  pose proof (I1 h pr Hh) as Hok. destruct Ho as [-> | [-> | ->]]; simpl in Hok.
  - destruct (Htotal b) as (e' & v & Hw).
    destruct (Hunlist (with_procs (with_flight (with_run s e' (b, v)) p (MkFlight b (Some v) false)) h (Ran b p)) h b v)
      as (s' & v' & Hs' & Hv'); [done|simpl; by rewrite lookup_insert_ne|apply lookup_insert_eq|apply lookup_insert_eq|].
    exists s', v'. split; [|done]. eapply rtc_l; [by eapply step_work|done].
  - destruct Hok as [_ [v Hv]]. by apply (Hunlist s h b v).
  - destruct Hok as [v Hv]. by apply (Hclose s h b v).
Qed.

(** Two goroutines never do the work of one key at the same time. *)
Lemma one_runner s g g' a a' p p' :
  inv s -> procs s !! g = Some (Running a p) -> procs s !! g' = Some (Running a' p') ->
  ck a = ck a' -> g = g'.
Proof.
  intros [I1 I2 I3 I4 I5] Hg Hg' Hck.
  destruct (I1 g _ Hg) as [Ht _]. destruct (I1 g' _ Hg') as [Ht' _].
  assert (p = p') as -> by congruence.
  apply (I5 g g' _ _ a a' p' Hg Hg'); unfold owns; auto.
Qed.

End SingleFlight.

Arguments proc : clear implicits.
Arguments state : clear implicits.
