(* ===== verification/Session.v ===== *)
(** * A peer's connections, put together (core/peer/peer.go over core/secure)

    The message layer of Peer.v on the secure channel of Secure.v, the calls that
    send ([Send], [Reply], [Request], [Broadcast]), and the connecting side:
    [EnsureConnected], in which concurrent calls share one dial (an instance of
    SingleFlight.v), and what becomes of two peers that dial each other. *)

From S2P Require Import Prelude GoStrings Encoding Json Sha256 AesGcm Crypto Secure Peer SingleFlight.

Section Session.
Context `{Ed25519}.

(** ** Messages on a connection *)

Inductive send_error := SendTooLarge | SendWrite (e : secure_error).

(** [sendOn]: the length and the message are two writes of the connection.
    [ws] gives the ends of the raw writes of each. *)
Definition sendOn (id : Identity) (ws : (raw_end * raw_end) * (raw_end * raw_end)) (msg : Message)
    (c : Conn) : result send_error unit * Conn :=
  let signed := Marshal (Wire.seal id msg) in
  if MaxMessageSize <? Z.of_nat (length signed) then (Err SendTooLarge, c) else
  let lenBuf := be_encode 4 (Z.of_nat (length signed)) in
  match Write ws.1.1 ws.1.2 lenBuf c with
  | (Err e, c) => (Err (SendWrite e), c)
  | (Ok _, c) =>
      match Write ws.2.1 ws.2.2 signed c with
      | (Err e, c) => (Err (SendWrite e), c)
      | (Ok _, c) => (Ok tt, c)
      end
  end.

(** One pass of [readLoop] on a connection. *)
Inductive received :=
| Ended
| Received (msg : Message) (pc : RemoteIdentity) (c : Conn).

Definition receive (pc : RemoteIdentity) (c : Conn) : received :=
  match ReadFull 4 c with
  | (Err _, _) => Ended
  | (Ok lenBuf, c) =>
      let size := be_decode lenBuf in
      if (size =? 0) || (MaxMessageSize <? size) then Ended else
      match ReadFull (Z.to_nat size) c with
      | (Err _, _) => Ended
      | (Ok buf, c) =>
          match Unmarshal buf with
          | None => Ended
          | Some msg =>
              match Wire.verifyMessage pc msg with
              | Err _ => Ended
              | Ok pc => Received msg pc c
              end
          end
      end
  end.

Fixpoint receive_loop (fuel : nat) (pc : RemoteIdentity) (c : Conn) : list Message :=
  match fuel with
  | O => []
  | S fuel =>
      match receive pc c with
      | Ended => []
      | Received msg pc c => msg :: receive_loop fuel pc c
      end
  end.

(** The messages a connection dispatches; each takes five bytes of plaintext or more. *)
Definition readLoop (pc : RemoteIdentity) (c : Conn) : list Message :=
  receive_loop (length (plain c)) pc c.

(** The peer behind a connection, as [Connect] and [handleIncoming] record it. *)
Definition remote_identity (c : Conn) : RemoteIdentity :=
  MkRemote (Some (RemotePublicKey c)) (PublicKeyToID (RemotePublicKey c)).

Lemma receive_plain pc c :
  Wire.read_frame pc (plain c)
  = match receive pc c with
    | Ended => Wire.Closed
    | Received m pc' c' => Wire.Frame m pc' (plain c')
    end.
Proof.
  unfold Wire.read_frame, receive. pose proof (ReadFull_spec 4 c) as H4.
  destruct (Nat.leb_spec 4 (length (plain c))) as [Hle|Hgt].
  - rewrite (proj2 (Nat.ltb_ge _ _)) by lia. destruct H4 as (c1 & -> & Hc1). cbv zeta.
    destruct ((_ =? 0) || _) eqn:Esz; [done|]. zbool.
    pose proof (be_decode_range (take 4 (plain c))) as Hr.
    pose proof (ReadFull_spec (Z.to_nat (be_decode (take 4 (plain c)))) c1) as Hs. rewrite Hc1 in Hs.
    destruct (Nat.leb_spec (Z.to_nat (be_decode (take 4 (plain c)))) (length (drop 4 (plain c)))).
    + rewrite (proj2 (Z.ltb_ge _ _)) by lia. destruct Hs as (c2 & -> & Hc2).
      destruct (Unmarshal _) as [m|]; [|done]. destruct (Wire.verifyMessage pc m); [|done].
      by rewrite Hc2.
    + rewrite (proj2 (Z.ltb_lt _ _)) by lia. by destruct Hs as (e & c2 & ->).
  - rewrite (proj2 (Nat.ltb_lt _ _)) by lia. by destruct H4 as (e & c1 & ->).
Qed.

Lemma receive_loop_stream fuel pc c : receive_loop fuel pc c = Wire.read_loop fuel pc (plain c).
Proof.
  revert pc c. induction fuel as [|fuel IH]; intros pc c; [done|].
  cbn [receive_loop Wire.read_loop]. rewrite receive_plain.
  destruct (receive pc c) as [|m pc' c']; [done|]. by rewrite IH.
Qed.

Lemma readLoop_stream pc c : readLoop pc c = Wire.readLoop pc (plain c).
Proof. apply receive_loop_stream. Qed.

(** ** Sending, then receiving *)

Definition undisturbed : (raw_end * raw_end) * (raw_end * raw_end) := ((RawDone, RawDone), (RawDone, RawDone)).

Definition send_all (id : Identity) (msgs : list Message) (c : Conn) : Conn :=
  foldl (fun c m => (sendOn id undisturbed m c).2) c msgs.

(** The two writes of a message. *)
Definition chunks (id : Identity) (m : Message) : list bytes :=
  let signed := Marshal (Wire.seal id m) in [be_encode 4 (Z.of_nat (length signed)); signed].

Definition sendable (id : Identity) (m : Message) : Prop :=
  is_ok (Wire.sendOn id m) = true
  /\ utf8_valid (m_Type m) = true /\ utf8_valid (m_ReqID m) = true /\ utf8_valid (m_Payload m) = true.

(** Every message the layer sends is within what the channel carries. *)
Lemma chunks_usable id m : is_ok (Wire.sendOn id m) = true -> Forall Pipe.usable (chunks id m).
Proof.
  unfold Wire.sendOn, chunks. cbv zeta. pose proof (Wire.Marshal_nonempty (Wire.seal id m)) as Hne.
  revert Hne. generalize (Marshal (Wire.seal id m)). intros signed Hne.
  destruct (Z.ltb_spec MaxMessageSize (Z.of_nat (length signed))) as [|Hle]; [discriminate|]. intros _.
  unfold MaxMessageSize in Hle. change (Z.shiftl 1 20) with 1048576 in Hle.
  repeat (apply Forall_cons; split); [| |apply Forall_nil_2].
  - split; [intros Hnil; by apply (f_equal length) in Hnil; rewrite be_encode_length in Hnil|].
    unfold fits. rewrite be_encode_length. vm_compute. discriminate.
  - split; [intros ->; simpl in Hne; lia|]. unfold fits. change MaxFrameSize with 1048640. lia.
Qed.

Definition next (i : Z) (pts : list bytes) : Z := foldl (fun i _ => uint64 (i + 1)) i pts.

Lemma frames_app key i ps qs :
  Pipe.frames key i (ps ++ qs) = Pipe.frames key i ps ++ Pipe.frames key (next i ps) qs.
Proof.
  revert i. induction ps as [|p ps IH]; intros i; [done|].
  cbn [Pipe.frames app next foldl]. by rewrite IH, app_assoc.
Qed.

Lemma sendOn_ok id m c :
  is_ok (Wire.sendOn id m) = true ->
  sendOn id undisturbed m c
  = (Ok tt, set_raw_out (raw_out c ++ Pipe.frames (sendKey c) (sendCount c) (chunks id m))
              (set_sendCount (next (sendCount c) (chunks id m)) c)).
Proof.
  intros Hok. pose proof (chunks_usable id m Hok) as Hu. revert Hok Hu.
  unfold Wire.sendOn, sendOn, chunks. cbv zeta. generalize (Marshal (Wire.seal id m)). intros signed.
  destruct (MaxMessageSize <? Z.of_nat (length signed)); [discriminate|]. intros _.
  rewrite !Forall_cons. intros ([_ H1] & [_ H2] & _). cbn [undisturbed fst snd].
  rewrite Write_fits by done. rewrite Write_fits by done.
  cbn [raw_out sendKey sendCount set_raw_out set_sendCount Pipe.frames next foldl].
  rewrite app_nil_r, app_assoc. reflexivity.
Qed.

Lemma send_all_ok id msgs c :
  Forall (fun m => is_ok (Wire.sendOn id m) = true) msgs ->
  let pts := concat (chunks id <$> msgs) in
  send_all id msgs c
  = set_raw_out (raw_out c ++ Pipe.frames (sendKey c) (sendCount c) pts)
      (set_sendCount (next (sendCount c) pts) c).
Proof.
  intros Hall. cbv zeta. revert c. induction Hall as [|m msgs Hm Hall IH]; intros c.
  - cbn. rewrite app_nil_r. by destruct c.
  - unfold send_all. cbn [foldl]. fold (send_all id msgs (sendOn id undisturbed m c).2).
    rewrite IH, sendOn_ok, fmap_cons by done. cbn [snd concat].
    cbn [raw_out sendKey sendCount set_raw_out set_sendCount].
    rewrite frames_app, app_assoc. unfold next. by rewrite foldl_app.
Qed.

Lemma concat_chunks id msgs :
  Forall (fun m => is_ok (Wire.sendOn id m) = true) msgs ->
  exists fs, concat (concat (chunks id <$> msgs)) = concat fs
             /\ Forall2 (fun m f => Wire.sendOn id m = Ok f) msgs fs.
Proof.
  induction 1 as [|m msgs Hm Hall (fs & Heq & Hfs)]; [by exists []|].
  destruct (Wire.sendOn id m) as [f|] eqn:Ef; [|discriminate]. exists (f :: fs).
  split; [|by constructor]. rewrite fmap_cons. cbn [concat]. rewrite concat_app, Heq. f_equal.
  unfold Wire.sendOn in Ef. unfold chunks. cbv zeta in *. revert Ef.
  generalize (Marshal (Wire.seal id m)). intros signed.
  destruct (_ <? _); [discriminate|]. intros Ef. injection Ef as <-. cbn [concat]. by rewrite app_nil_r.
Qed.

(** C11 (peer.go, [sendOn], [readLoop] on the connections of secure.go's
    [Handshake]): two peers that connect understand each other.  Whatever messages
    (of valid UTF-8 and within the size limit) the dialing peer sends after the
    handshake, the accepting peer's handshake on the bytes that were written
    succeeds, attributes the connection to the dialing peer's key, and its read
    loop dispatches exactly those messages, signed by that peer, in order. *)
Theorem session_delivers `{X25519} (idA idB : Identity) (a b rA : bytes) (msgs : list Message) :
  id_wf idA -> id_wf idB -> Forall (sendable idA) msgs ->
  exists cA cB,
    Handshake true (Some a) RawDone (responder_message idB b (x_public a) ++ rA)
      (PrivateKey idA) true None = (Ok cA, initiator_message idA a)
    /\ Handshake true (Some b) RawDone (raw_out (send_all idA msgs cA))
         (PrivateKey idB) false None = (Ok cB, responder_message idB b (x_public a))
    /\ readLoop (remote_identity cB) cB = Wire.seal idA <$> msgs.
Proof.
  intros HA HB Hm.
  assert (Forall (fun m => is_ok (Wire.sendOn idA m) = true) msgs) as Hok
    by (eapply Forall_impl; [exact Hm|]; by intros m [? _]).
  destruct (handshake_agrees idA idB a b rA [] None None) as (cA & ? & HhA & _ & _);
    [done..|by left|by left|].
  set (pts := concat (chunks idA <$> msgs)).
  destruct (handshake_agrees idA idB a b rA (Pipe.frames (sendKey cA) 0 pts) None None)
    as (cA' & cB & HhA' & HhB & Hag'); [done..|by left|by left|].
  rewrite HhA in HhA'. assert (cA' = cA) as -> by congruence.
  destruct Hag' as (_ & HpB & Hk & _ & _ & _ & Hs0 & _ & _ & Hr0 & _ & Hbuf & _ & Hin & Hout & _).
  exists cA, cB. split; [done|]. rewrite send_all_ok by done. fold pts.
  cbn [raw_out set_raw_out]. rewrite Hs0, Hout. split; [done|].
  assert (plain cB = concat pts) as Hplain.
  { apply plain_frames; [|done|by rewrite Hin, Hk, Hr0].
    unfold pts. clear - Hok. induction Hok as [|m msgs Hm _ IH]; [by apply Forall_nil_2|].
    rewrite fmap_cons. cbn [concat]. apply Forall_app. split; [by apply chunks_usable|done]. }
  rewrite readLoop_stream, Hplain. destruct (concat_chunks idA msgs Hok) as (fs & Hfs & Hf2).
  unfold pts. rewrite Hfs. apply Wire.readLoop_sent; [done| | |done].
  - unfold remote_identity, RemotePublicKey. cbn [Peer.remotePub]. by rewrite HpB.
  - eapply Forall_impl; [exact Hm|]. by intros m [_ ?].
Qed.

(** C34 (peer.go, [readLoop]; secure.go, [Read]): the read loop on a connection,
    with its short reads, frame boundaries and buffering, dispatches the same
    messages as on the plain byte stream the connection decrypts to, for every
    connection and whatever bytes arrive on it.  In particular what the theorems
    of the message layer say of streams holds of connections. *)
Theorem readLoop_on_connection (pc : RemoteIdentity) (c : Conn) :
  readLoop pc c = Wire.readLoop pc (plain c).
Proof. apply readLoop_stream. Qed.

End Session.

(** ** Dialing *)

Module Dial.
Import Conns.

Inductive dial_error := DialFailed (s : setup) | ConcurrentDialFailed.

(** What [Connect] returns: a connection deduplicated to an existing one is a success. *)
Definition connect_result (s : setup) : result dial_error unit :=
  match s with
  | Duplicate _ | Established => Ok tt
  | s => Err (DialFailed s)
  end.

(** [EnsureConnected] as a coalesced call: [IsConnected] before the table of dials
    is looked at, [Connect] as the work, [IsConnected] again after waiting. *)
#[global] Instance EnsureConnected : Coalesced bytes (result dial_error unit) tables := {|
  ck addr := addr;
  pre t addr := if IsConnected t addr then Some (Ok tt) else None;
  work t addr t' v := exists c hs hello_ok s,
    op_fresh t (OConnect c addr hs hello_ok)
    /\ Connect t c addr hs hello_ok = (t', s) /\ v = connect_result s;
  follow t addr _ := if IsConnected t addr then Ok tt else Err ConcurrentDialFailed;
  other := Conns.step
|}.

Lemma work_total (t : tables) (addr : bytes) : exists t' v, work t addr t' v.
Proof.
  set (c := fresh (dom (conns t))). set (r := Connect t c addr None true).
  exists r.1, (connect_result r.2), c, None, true, r.2. split; [|split; [apply surjective_pairing|done]].
  split; [|done]. apply not_elem_of_dom, is_fresh.
Qed.

Lemma evolves_steps t t' : evolves t t' -> rtc Conns.step t t'.
Proof.
  induction 1 as [|t1 t2 t3 Hs _ IH]; [done|]. eapply rtc_l; [|exact IH].
  destruct Hs as [Hs|(addr & v & c & hs & ok & s & Hf & Hc & _)]; [done|].
  pose proof (step_op t1 (OConnect c addr hs ok) Hf) as Hst. simpl in Hst. by rewrite Hc in Hst.
Qed.

(** A dial that succeeds leaves its address connected. *)
Lemma connect_connected (t t' : tables) (addr : bytes) :
  tables_ok t -> work t addr t' (Ok tt) -> IsConnected t' addr = true.
Proof.
  intros (H0 & H1 & H2) (c & hs & ok & s & [Hf Hhs] & Hc & Hv). apply bool_decide_eq_true.
  unfold Connect, setup_conn in Hc. destruct (atConnectionLimit t); [by simplify_eq|].
  destruct hs as [id|]; [|by simplify_eq].
  assert (exists t1 ex, registerConn (new_conn t c id) c addr = (t1, ex) /\ is_Some (peers t1 !! addr))
    as (t1 & ex & Er & Hp).
  { unfold registerConn. simpl conns. rewrite lookup_insert_eq. cbn [pc_remoteID].
    assert (is_nil id = false) as -> by (apply bool_decide_eq_false; congruence). cbn [negb].
    assert (forall t0 k pk, is_Some (peers (set_alias t0 addr k pk) !! addr)) as Hset
      by (intros; simpl; rewrite lookup_insert_eq; eauto).
    simpl peersByID. destruct (peersByID t !! id) as [cur|] eqn:Eid; [|by eexists _, _].
    destruct (bool_decide (cur <> c)) eqn:Ecur; [|by eexists _, _]. apply bool_decide_eq_true in Ecur.
    destruct (H1 id cur Eid) as (pcur & Hcur & _). rewrite lookup_insert_ne, Hcur by congruence.
    by eexists _, _. }
  rewrite Er in Hc. destruct ex as [e|]; [by simplify_eq|]. destruct ok; by simplify_eq.
Qed.

(** C31 (peer.go, [EnsureConnected]): however calls of [EnsureConnected] interleave
    with each other and with everything else that changes the connection tables,
    at most one goroutine dials an address at a time, no wake-up channel is closed
    twice, the tables keep their invariant, a successful dial leaves the address
    connected, and no caller waits for ever: from any state in which one waits,
    the dial it waits for can end and the caller returns. *)
Theorem dials_coalesced (max : Z) (s : state bytes (result dial_error unit) tables) :
  rtc SingleFlight.step (start (no_conns max)) s ->
  (forall g g' addr p p', procs s !! g = Some (Running addr p) ->
     procs s !! g' = Some (Running addr p') -> g = g')
  /\ (forall g, procs s !! g <> Some Crashed)
  /\ tables_ok (env s)
  /\ (forall addr t', work (env s) addr t' (Ok tt) -> IsConnected t' addr = true)
  /\ (forall g addr p, procs s !! g = Some (Waiting addr p) ->
        exists s' v, rtc SingleFlight.step s s' /\ procs s' !! g = Some (Returned addr v)).
Proof.
  intros Hr. pose proof (flight_inv _ _ Hr) as Hinv. pose proof (reachable_runs _ _ Hr) as [He _].
  apply evolves_steps, reachable_ok in He. split_and!.
  - intros g g' addr p p' Hg Hg'. by apply (one_runner s g g' addr addr p p').
  - intros g Hg. by apply (inv_procs s Hinv g Crashed).
  - done.
  - intros addr t'. by apply connect_connected.
  - intros g addr p Hg. apply (waiter_returns s g addr p); [done|apply work_total|done].
Qed.

(** ** Two peers that dial each other *)

(** Both have dialed before either has accepted: each files its own dial, then
    accepts the other's connection, finds it a duplicate and closes it.  The
    closed connection is the one the other filed, whose read loop ends. *)
Definition cross_dial (t : tables) (dialed accepted : nat) (addr from id : bytes) : tables * setup :=
  let t1 := fst (Connect t dialed addr (Some id) true) in
  let '(t2, s) := handleIncoming t1 accepted from (Some id) true in
  (removeConn t2 dialed, s).

Lemma registerConn_new t c addr id :
  peersByID t !! id = None -> id <> [] ->
  registerConn (new_conn t c id) c addr
  = (set_alias (with_peersByID (new_conn t c id) (<[id := c]> (peersByID t))) addr c (MkConn id []), None).
Proof.
  intros Hid Hne. unfold registerConn. simpl conns. rewrite lookup_insert_eq. cbn [pc_remoteID].
  assert (is_nil id = false) as -> by (by apply bool_decide_eq_false). cbn [negb].
  simpl peersByID. by rewrite Hid.
Qed.

(** (peer.go, [handleIncoming], [registerConn], [readLoop]): when two peers without
    a connection dial each other at the same time, the deduplication closes both
    connections: each side finds the incoming one to be a duplicate of its own
    dial and closes it, and neither is left with the other on file. *)
Theorem crossing_dials_lose_both (tA tB : tables) (c1 c2 c3 c4 : nat)
    (addrA addrB fromA fromB idA idB : bytes) :
  peersByID tA !! idB = None -> peersByID tB !! idA = None -> idA <> [] -> idB <> [] ->
  c1 <> c3 -> c2 <> c4 ->
  maxConnections tA = 0 -> maxConnections tB = 0 ->
  let '(tA', sA) := cross_dial tA c1 c3 addrB fromB idB in
  let '(tB', sB) := cross_dial tB c2 c4 addrA fromA idA in
  sA = Duplicate c1 /\ sB = Duplicate c2
  /\ peersByID tA' !! idB = None /\ peersByID tB' !! idA = None.
Proof.
  assert (forall t c c' addr from id,
            peersByID t !! id = None -> id <> [] -> c <> c' -> maxConnections t = 0 ->
            exists t', cross_dial t c c' addr from id = (t', Duplicate c) /\ peersByID t' !! id = None) as Hone.
  { intros t c c' addr from id Hid Hne Hcc Hmax. unfold cross_dial, Connect, handleIncoming, setup_conn.
    unfold atConnectionLimit at 2. rewrite Hmax. cbn [Z.ltb Z.compare andb].
    rewrite registerConn_new by done. cbn [fst].
    unfold atConnectionLimit. simpl maxConnections. rewrite Hmax. cbn [Z.ltb Z.compare andb].
    unfold registerConn. simpl conns. rewrite lookup_insert_eq. cbn [pc_remoteID].
    assert (is_nil id = false) as -> by (by apply bool_decide_eq_false). cbn [negb].
    simpl peersByID. rewrite lookup_insert_eq, bool_decide_eq_true_2 by done.
    rewrite lookup_insert_ne, lookup_insert_eq by done. eexists. split; [reflexivity|].
    unfold removeConn. simpl conns. rewrite lookup_insert_eq. cbn [pc_remoteID peersByID].
    assert (is_nil id = false) as -> by (by apply bool_decide_eq_false). cbn [negb andb].
    simpl peersByID. rewrite lookup_insert_eq, bool_decide_eq_true_2 by done. apply lookup_delete_eq. }
  intros HA HB Hna Hnb H13 H24 HmA HmB.
  destruct (Hone tA c1 c3 addrB fromB idB) as (tA' & -> & ?); [done..|].
  destruct (Hone tB c2 c4 addrA fromA idA) as (tB' & -> & ?); [done..|]. done.
Qed.

End Dial.

(** ** Requests *)

Module Requests.
Import Conns.

(** [newReqID]: 16 random bytes in hexadecimal, or the random source's error. *)
Definition newReqID (rand : option bytes) : option bytes := hex_encode <$> rand.

(** [Send] hands the message to the connection the address is filed under. *)
Definition Send (t : tables) (address : bytes) (msg : Message) : option (nat * Message) :=
  match peers t !! address with
  | None => None
  | Some c => Some (c, msg)
  end.

(** [Reply] copies the request's ID. *)
Definition Reply (t : tables) (address : bytes) (request reply : Message) : option (nat * Message) :=
  Send t address (with_ReqID reply (m_ReqID request)).

(** [Broadcast]: one send per address on file. *)
Definition Broadcast (t : tables) (msg : Message) : list (nat * Message) :=
  (fun kv => (kv.2, msg)) <$> map_to_list (peers t).

Definition PeerCount (t : tables) : nat := size (peers t).
Definition uniqueConnCount (t : tables) : nat := size (peersByID t).

Definition PeerCountByAddr (t : tables) : gmap bytes bytes :=
  omap (fun c => pc_remoteID <$> conns t !! c) (peers t).

Inductive request_error := ReqNotConnected | ReqNoRandom | ReqSend | ReqTimeout.

(** [Request]: [ensured] is the outcome of [EnsureConnected], [t] the tables after
    it, [ch] the new channel, [sent] whether [sendOn] succeeds, [answer] what the
    [select] finds first: a reply or the timeout.  The result, the pending table
    while the request waits (if it gets that far), and the table at the end. *)
Definition Request (ensured : bool) (t : tables) (rand : option bytes) (ch : nat) (address : bytes)
    (msg : Message) (sent : bool) (answer : option Message) (pending : gmap bytes nat)
  : result request_error Message * option (gmap bytes nat * Message) * gmap bytes nat :=
  if negb ensured then (Err ReqNotConnected, None, pending) else
  match newReqID rand with
  | None => (Err ReqNoRandom, None, pending)
  | Some reqID =>
      let msg := with_ReqID msg reqID in
      let waiting := Dispatch.request_begin pending reqID ch in
      let after := Dispatch.request_end waiting reqID in
      match Send t address msg with
      | None => (Err ReqSend, None, after)
      | Some (_, m) =>
          if negb sent then (Err ReqSend, None, after) else
          match answer with
          | Some reply => (Ok reply, Some (waiting, m), after)
          | None => (Err ReqTimeout, Some (waiting, m), after)
          end
      end
  end.

(** While a request waits, the reply it waits for (a message with its ID) is the
    one the dispatcher delivers to its channel, and no other message is; however
    it ends, nothing of it is left in the pending table. *)
Lemma request_correlates ensured t rand ch address msg sent answer pending r w after :
  Request ensured t rand ch address msg sent answer pending = (r, w, after) ->
  (forall x, newReqID rand = Some x -> pending !! x = None) ->
  (forall k c, pending !! k = Some c -> c <> ch) ->
  after = pending
  /\ match w with
     | None => is_ok r = false
     | Some (waiting, m) =>
         newReqID rand = Some (m_ReqID m)
         /\ forall reply, m_ReqID m <> [] ->
              (exists q, Dispatch.Deliver ch q ∈ (Dispatch.handleMessage waiting reply).2)
              <-> m_ReqID reply = m_ReqID m
     end.
Proof.
  intros HR Hfresh Hch. unfold Request in HR. destruct ensured; cbn [negb] in HR; [|by simplify_eq].
  destruct (newReqID rand) as [x|] eqn:Ex; [|by simplify_eq]. specialize (Hfresh x eq_refl).
  assert (Dispatch.request_end (Dispatch.request_begin pending x ch) x = pending) as Hend.
  { unfold Dispatch.request_end, Dispatch.request_begin. rewrite delete_insert_eq.
    by apply delete_id. }
  rewrite Hend in HR.
  assert (forall (m0 : Message) reply, m_ReqID m0 = x -> x <> [] ->
    (exists q, Dispatch.Deliver ch q ∈ (Dispatch.handleMessage (Dispatch.request_begin pending x ch) reply).2)
    <-> m_ReqID reply = x) as Hdel.
  { intros m0 reply _ Hx. unfold Dispatch.handleMessage, Dispatch.request_begin.
    destruct (decide (m_ReqID reply = x)) as [->|Hne].
    - assert (is_nil x = false) as -> by (by apply bool_decide_eq_false). cbn [negb].
      rewrite lookup_insert_eq. split; [done|]. intros _. exists reply. by apply list_elem_of_singleton.
    - rewrite lookup_insert_ne by done. split; [|done]. intros [q Hq]. exfalso.
      destruct (if negb _ then _ else _) as [c|] eqn:Ec; simpl in Hq.
      + apply list_elem_of_singleton in Hq. assert (c = ch) as Hcc by congruence.
        destruct (negb (is_nil (m_ReqID reply))); [|discriminate Ec]. by apply (Hch (m_ReqID reply) c).
      + destruct (bool_decide _); simpl in Hq; set_solver. }
  destruct (Send t address (with_ReqID msg x)) as [[c m]|] eqn:Es; [|by simplify_eq].
  unfold Send in Es. destruct (peers t !! address); [|done]. simplify_eq.
  destruct sent; cbn [negb] in HR; [|by simplify_eq].
  destruct answer as [reply|]; simplify_eq; (split; [done|]); simpl; (split; [done|]);
    intros reply' Hx; by apply (Hdel (with_ReqID msg x)).
Qed.

(** (peer.go, [Broadcast], [PeerCount]): a broadcast goes out once per address on
    file, so a peer known under two addresses gets the message twice and counts
    twice in [PeerCount]. *)
Theorem broadcast_per_address (t : tables) (msg : Message) :
  length (Broadcast t msg) = PeerCount t
  /\ (forall c, (exists a, peers t !! a = Some c) <-> (c, msg) ∈ Broadcast t msg)
  /\ (forall a b c, a <> b -> peers t !! a = Some c -> peers t !! b = Some c ->
        exists l1 l2 l3, Broadcast t msg = l1 ++ (c, msg) :: l2 ++ (c, msg) :: l3).
Proof.
  unfold Broadcast, PeerCount. split_and!.
  - by rewrite length_fmap, length_map_to_list.
  - intros c. rewrite list_elem_of_fmap. split.
    + intros [a Ha]. exists (a, c). split; [done|]. by apply elem_of_map_to_list.
    + intros ([a c'] & Heq & Hin). simplify_eq/=. apply elem_of_map_to_list in Hin. eauto.
  - intros a b c Hab Ha Hb. apply elem_of_map_to_list in Ha, Hb.
    apply list_elem_of_split in Ha as (l1 & l2 & Heq). rewrite Heq in Hb |- *.
    rewrite fmap_app, fmap_cons. cbn [snd].
    apply elem_of_app in Hb as [Hb|Hb].
    + apply list_elem_of_split in Hb as (k1 & k2 & ->). rewrite fmap_app, fmap_cons. cbn [snd].
      eexists _, _, _. by rewrite <- app_assoc.
    + apply elem_of_cons in Hb as [Hb|Hb]; [by simplify_eq|].
      apply list_elem_of_split in Hb as (k1 & k2 & ->). rewrite fmap_app, fmap_cons. cbn [snd].
      by eexists _, _, _.
Qed.

End Requests.

(** ** Concrete runs *)

Lemma session_delivers_witness :
  exists cA cB,
    Handshake true (Some (bs "a")) RawDone
      (responder_message (toy_identity Byte.x02) (bs "b") (x_public (bs "a")) ++ [])
      (PrivateKey alice) true None = (Ok cA, initiator_message alice (bs "a"))
    /\ Handshake true (Some (bs "b")) RawDone (raw_out (send_all alice [chat; chat] cA))
         (PrivateKey (toy_identity Byte.x02)) false None
       = (Ok cB, responder_message (toy_identity Byte.x02) (bs "b") (x_public (bs "a")))
    /\ readLoop (remote_identity cB) cB = Wire.seal alice <$> [chat; chat].
Proof.
  apply (session_delivers alice (toy_identity Byte.x02) (bs "a") (bs "b") [] [chat; chat]).
  - apply toy_identity_wf.
  - apply toy_identity_wf.
  - repeat (apply Forall_cons; split; [split; [exact chat_sent|by split_and!]|]). apply Forall_nil_2.
Defined.

Module DialRun.
Import Conns Dial.

Abbreviation dials := (state bytes (result dial_error unit) tables).

Definition addr : bytes := bs "10.0.0.1:1".

(** Two calls for one address: the first dials, the second waits. *)
Definition s0 : dials := start (no_conns 10).
Definition s1 : dials := with_procs s0 1 (Entering addr).
Definition s2 : dials := with_procs s1 2 (Entering addr).
Definition s3 : dials :=
  with_procs (with_flight (with_table s2 (<[addr := 0%nat]> (table s2))) 0 (MkFlight addr None false))
    1 (Running addr 0).
Definition s4 : dials := with_procs s3 2 (Waiting addr 0).

Lemma dial_s4_reached : rtc SingleFlight.step s0 s4.
Proof.
  eapply rtc_l; [exact (step_call s0 1 addr eq_refl)|].
  eapply rtc_l; [exact (step_call s1 2 addr eq_refl)|].
  eapply rtc_l; [exact (step_lead s2 1 addr 0 eq_refl eq_refl eq_refl)|].
  apply rtc_once. exact (step_join s3 2 addr 0 eq_refl eq_refl).
Qed.

Lemma dials_coalesced_witness :
  exists s' v, rtc SingleFlight.step s4 s' /\ procs s' !! 2%nat = Some (Returned addr v).
Proof. apply (dials_coalesced 10 s4 dial_s4_reached) with (p := 0%nat). reflexivity. Defined.

Lemma crossing_dials_lose_both_witness :
  let '(tA', sA) := cross_dial (no_conns 0) 1 3 (bs "b:1") (bs "b:9") (bs "idB") in
  let '(tB', sB) := cross_dial (no_conns 0) 2 4 (bs "a:1") (bs "a:9") (bs "idA") in
  sA = Duplicate 1 /\ sB = Duplicate 2
  /\ peersByID tA' !! bs "idB" = None /\ peersByID tB' !! bs "idA" = None.
Proof. by apply crossing_dials_lose_both. Defined.

End DialRun.
