(* ===== verification/PeerNode.v ===== *)
(** * The life of a peer (core/peer/peer.go)

    The [Peer] object from [New] to [Stop]: its listener, its relay registrations
    (each a client of RelayClient.v) and its connection tables (Peer.v).  The
    goroutines the methods start (the accept loop, one goroutine per accepted
    connection or tunnel, the relay clients, the read loops) and a call of [Stop]
    are a state machine whose events interleave freely. *)

From S2P Require Import RelayClient.
From S2P Require Import Prelude GoStrings Encoding Json Sha256 AesGcm Crypto Secure Relay Peer SingleFlight Session.
Import Peer.Addresses Peer.Conns.

(** What [dialAddress] reaches; a plain TCP connection has keep-alive turned on. *)
Inductive net_conn := TCPConn (id : nat) (keep_alive : option Z) | OtherConn (id : nat).

Definition KeepAlivePeriod : Z := 30 * Second.

Definition enableKeepAlive (c : net_conn) : net_conn :=
  match c with TCPConn id _ => TCPConn id (Some KeepAlivePeriod) | OtherConn id => OtherConn id end.

Inductive dial_error := NotARelayAddress | DialFailed.

(** [dial_tcp] is [net.Dial], [dial_via] is [relay.DialVia]. *)
Definition dialAddress (dial_tcp : bytes -> option net_conn) (dial_via : bytes -> bytes -> option net_conn)
    (address : bytes) : result dial_error net_conn :=
  if HasPrefix address (bs "relay://") then
    match parseRelayAddress address with
    | None => Err NotARelayAddress
    | Some (relayAddr, peerID) => match dial_via relayAddr peerID with Some c => Ok c | None => Err DialFailed end
    end
  else match dial_tcp address with Some c => Ok (enableKeepAlive c) | None => Err DialFailed end.

Definition shortID (id : bytes) : bytes := if (length id <=? 8)%nat then id else take 8 id.

(** Where a connection that is being set up comes from. *)
Inductive source := FromDial (address : bytes) | FromListener (remoteAddr : bytes) | FromRelay (relayAddr : bytes).

(** Where a call of [Stop] is: [StoppingRelays] goes through the clients it took. *)
Inductive stop_phase := NotStopped | SaidGoodbye | ClosedListener | StoppingRelays (rest : list nat) | Stopped.

(** The listener: its address and whether it is closed.  [clients] are the relay
    clients ever made, with their relay; [relays] points into them. *)
Record Peer := MkPeer {
  p_id : bytes;                               (* [Identity.ID()] *)
  Address : bytes;
  listener : option (bytes * bool);
  conn_tables : tables;
  handlers : list nat;
  clients : list (bytes * RelayClient.client);
  relays : list nat;
  public : bool;
  setups : gmap nat (source * bool);          (* connections in the making; past the limit check? *)
  stop_at : stop_phase
}.

Definition with_listener (a : bytes) (l : option (bytes * bool)) (p : Peer) : Peer :=
  MkPeer (p_id p) a l (conn_tables p) (handlers p) (clients p) (relays p) (public p) (setups p) (stop_at p).
Definition with_tables (t : tables) (p : Peer) : Peer :=
  MkPeer (p_id p) (Address p) (listener p) t (handlers p) (clients p) (relays p) (public p) (setups p) (stop_at p).
Definition with_clients (cs : list (bytes * RelayClient.client)) (rs : list nat) (p : Peer) : Peer :=
  MkPeer (p_id p) (Address p) (listener p) (conn_tables p) (handlers p) cs rs (public p) (setups p) (stop_at p).
Definition with_setups (m : gmap nat (source * bool)) (p : Peer) : Peer :=
  MkPeer (p_id p) (Address p) (listener p) (conn_tables p) (handlers p) (clients p) (relays p) (public p) m (stop_at p).
Definition with_stop (s : stop_phase) (p : Peer) : Peer :=
  MkPeer (p_id p) (Address p) (listener p) (conn_tables p) (handlers p) (clients p) (relays p) (public p) (setups p) s.

(** ** The methods *)

Definition New (id : Identity) (address : bytes) : Peer :=
  MkPeer (Identity_ID id) address None (no_conns DefaultMaxConnections) [] [] [] false ∅ NotStopped.

Definition AddHandler (h : nat) (p : Peer) : Peer :=
  MkPeer (p_id p) (Address p) (listener p) (conn_tables p) (handlers p ++ [h]) (clients p) (relays p) (public p)
    (setups p) (stop_at p).

(** [bound] is the address [net.Listen] bound, [None] when it failed. *)
Definition Start (bound : option bytes) (p : Peer) : result bytes Peer :=
  match bound with
  | None => Err (Address p)
  | Some a => Ok (with_listener a (Some (a, false)) p)
  end.

Definition LocalAddr (p : Peer) : bytes := match listener p with None => Address p | Some (a, _) => a end.

Definition SetPublic (b : bool) (p : Peer) : Peer :=
  MkPeer (p_id p) (Address p) (listener p) (conn_tables p) (handlers p) (clients p) (relays p) b (setups p) (stop_at p).

Definition IsPublic (p : Peer) : bool := public p.

(** The relays in the order of registration; nothing is ever taken off this list. *)
Definition RelayAddresses (p : Peer) : list bytes := (clients p).*1.

Definition use_relay (p : Peer) (addr : bytes) : Peer :=
  if is_nil addr then p else
  with_clients (clients p ++ [(addr, RelayClient.NewClient)]) (relays p ++ [length (clients p)]) p.

Definition UseRelay (relayAddrs : list bytes) (p : Peer) : Peer := foldl use_relay p relayAddrs.

Definition peer_AdvertisedAddresses (p : Peer) : list bytes :=
  AdvertisedAddresses (Address p) (RelayAddresses p) (public p) (p_id p).

(** The payload of the hello. *)
Definition hello_payload (p : Peer) : bytes := encodeAddresses (peer_AdvertisedAddresses p).

Definition UniqueConnCount (p : Peer) : nat := Requests.uniqueConnCount (conn_tables p).

(** ** Connections in the making *)

(** A goroutine for connection [c] begins; pointers are not used twice. *)
Definition begin_setup (c : nat) (from : source) (p : Peer) : option Peer :=
  match setups p !! c, conns (conn_tables p) !! c with
  | None, None => Some (with_setups (<[c := (from, false)]> (setups p)) p)
  | _, _ => None
  end.

(** [acceptLoop]: the listener gives a connection. *)
Definition accept (c : nat) (remoteAddr : bytes) (p : Peer) : option Peer :=
  match listener p with
  | Some (_, false) => begin_setup c (FromListener remoteAddr) p
  | _ => None
  end.

(** [acceptRelayedTunnels] of the [i]th client takes a tunnel. *)
Definition accept_tunnel (i c : nat) (p : Peer) : option Peer :=
  match clients p !! i with
  | Some (relayAddr, cl) =>
      match RelayClient.tunnel_taken cl with
      | Some cl => begin_setup c (FromRelay relayAddr)
                     (with_clients (<[i := (relayAddr, cl)]> (clients p)) (relays p) p)
      | None => None
      end
  | None => None
  end.

(** The limit check at the start of [Connect], [handleIncoming] and
    [handleIncomingFromRelay]. *)
Definition check_limit (c : nat) (p : Peer) : option Peer :=
  match setups p !! c with
  | Some (from, false) =>
      Some (with_setups (if atConnectionLimit (conn_tables p) then delete c (setups p)
                         else <[c := (from, true)]> (setups p)) p)
  | _ => None
  end.

Definition filed_under (from : source) (remoteID : bytes) : bytes :=
  match from with
  | FromDial a | FromListener a => a
  | FromRelay relayAddr => relay_url relayAddr remoteID
  end.

(** The rest: [hs] is the ID the handshake verified ([None] when the dial or the
    handshake failed), [hello_ok] whether the hello was sent. *)
Definition finish_setup (c : nat) (hs : option bytes) (hello_ok : bool) (p : Peer) : option Peer :=
  match setups p !! c with
  | Some (from, true) =>
      let p := with_setups (delete c (setups p)) p in
      match hs with
      | None => Some p
      | Some [] => None
      | Some remoteID =>
          Some (match registerConn (new_conn (conn_tables p) c remoteID) c (filed_under from remoteID) with
                | (t, Some _) => with_tables t p
                | (t, None) => with_tables (if hello_ok then t else removeConn t c) p
                end)
      end
  | _ => None
  end.

(** ** [Stop] *)

Definition stop_goodbye (p : Peer) : option (Peer * list (nat * Message)) :=
  match stop_at p with
  | NotStopped => Some (with_stop SaidGoodbye p, Requests.Broadcast (conn_tables p) (mk_message (bs "goodbye") []))
  | _ => None
  end.

Definition stop_listener (p : Peer) : option Peer :=
  match stop_at p with
  | SaidGoodbye =>
      Some (with_stop ClosedListener
              (with_listener (Address p) (match listener p with Some (a, _) => Some (a, true) | None => None end) p))
  | _ => None
  end.

Definition stop_take_relays (p : Peer) : option Peer :=
  match stop_at p with
  | ClosedListener => Some (with_stop (StoppingRelays (relays p)) (with_clients (clients p) [] p))
  | _ => None
  end.

(** One step of [c.Stop()] for the first client that is left. *)
Definition stop_relay (p : Peer) : option Peer :=
  match stop_at p with
  | StoppingRelays (i :: rest) =>
      match clients p !! i with
      | None => None
      | Some (a, cl) =>
          let put cl := with_clients (<[i := (a, cl)]> (clients p)) (relays p) p in
          match RelayClient.stops cl !! 0%nat with
          | None => put <$> RelayClient.stop_begin 0 cl
          | Some (RelayClient.Closing _) => put <$> RelayClient.stop_close 0 cl
          | Some RelayClient.Awaiting => put <$> RelayClient.stop_end 0 cl
          | Some RelayClient.Done | Some RelayClient.FoundStopped => Some (with_stop (StoppingRelays rest) p)
          end
      end
  | _ => None
  end.

Definition stop_conns (p : Peer) : option Peer :=
  match stop_at p with
  | StoppingRelays [] => Some (with_stop Stopped (with_tables (close_all (conn_tables p)) p))
  | _ => None
  end.

(** ** All together *)

Inductive event :=
| EStart (bound : bytes) | EHandler (h : nat) | EPublic (b : bool) | ELimit (n : Z) | EUseRelay (addrs : list bytes)
| EAlias (peerID addr : bytes) | EDial (c : nat) (address : bytes)
| EAccept (c : nat) (remoteAddr : bytes) | ETunnel (i c : nat)
| ECheck (c : nat) | EFinish (c : nat) (hs : option bytes) (hello_ok : bool)
| EDisconnected (c : nat)                       (* the end of a read loop *)
| EClient (i : nat) (e : RelayClient.event)     (* a step of a relay client *)
| EGoodbye | ECloseListener | ETakeRelays | EStopRelay | ECloseConns.

(** What the clients do on their own. *)
Definition own_event (e : RelayClient.event) : bool :=
  match e with
  | RelayClient.StopBegin _ | RelayClient.StopClose _ | RelayClient.StopEnd _ | RelayClient.TunnelTaken => false
  | _ => true
  end.

Definition client_step (i : nat) (e : RelayClient.event) (p : Peer) : option Peer :=
  match clients p !! i with
  | Some (a, cl) =>
      if own_event e then
        (fun cl => with_clients (<[i := (a, cl)]> (clients p)) (relays p) p) <$> RelayClient.exec cl e
      else None
  | None => None
  end.

(** [Start] is called once, and not after [Stop]. *)
Definition exec (p : Peer) (e : event) : option Peer :=
  match e with
  | EStart a =>
      match listener p, stop_at p, Start (Some a) p with None, NotStopped, Ok p => Some p | _, _, _ => None end
  | EHandler h => Some (AddHandler h p)
  | EPublic b => Some (SetPublic b p)
  | ELimit n => Some (with_tables (SetMaxConnections (conn_tables p) n) p)
  | EUseRelay addrs => Some (UseRelay addrs p)
  | EAlias peerID addr => Some (with_tables (AddPeerAddress (conn_tables p) peerID addr).1 p)
  | EDial c address => begin_setup c (FromDial address) p
  | EAccept c a => accept c a p
  | ETunnel i c => accept_tunnel i c p
  | ECheck c => check_limit c p
  | EFinish c hs hello_ok => finish_setup c hs hello_ok p
  | EDisconnected c => Some (with_tables (removeConn (conn_tables p) c) p)
  | EClient i e => client_step i e p
  | EGoodbye => fst <$> stop_goodbye p
  | ECloseListener => stop_listener p
  | ETakeRelays => stop_take_relays p
  | EStopRelay => stop_relay p
  | ECloseConns => stop_conns p
  end.

Fixpoint run (p : Peer) (es : list event) : option Peer :=
  match es with
  | [] => Some p
  | e :: es => match exec p e with Some p => run p es | None => None end
  end.

(** * Facts *)

Definition left_of (s : stop_phase) : list nat := match s with StoppingRelays l => l | _ => [] end.

Definition listener_closed (s : stop_phase) : bool :=
  match s with NotStopped | SaidGoodbye => false | _ => true end.

(** Only this peer's [Stop] stops a client. *)
Definition client_ok (cl : RelayClient.client) : Prop :=
  RelayClient.inv cl
  /\ (RelayClient.stopped cl = true -> is_Some (RelayClient.stops cl !! 0%nat))
  /\ (RelayClient.stops cl !! 0%nat <> Some RelayClient.FoundStopped).

Definition client_done (p : Peer) (i : nat) : Prop :=
  exists a cl, clients p !! i = Some (a, cl) /\ RelayClient.stops cl !! 0%nat = Some RelayClient.Done.

Record inv (p : Peer) : Prop := {
  inv_tables : tables_ok (conn_tables p);
  inv_fresh c : is_Some (setups p !! c) -> conns (conn_tables p) !! c = None;
  inv_relay_addrs : Forall (fun a => a <> []) (RelayAddresses p);
  inv_clients i a cl : clients p !! i = Some (a, cl) -> client_ok cl;
  inv_relays i : (i < length (clients p))%nat ->
    i ∈ relays p \/ i ∈ left_of (stop_at p) \/ client_done p i;
  inv_bound a b : listener p = Some (a, b) -> Address p = a;
  inv_closed a b : listener_closed (stop_at p) = true -> listener p = Some (a, b) -> b = true
}.

Lemma New_inv id address : inv (New id address).
Proof.
  split; cbn; try done. intros i Hi. lia.
Qed.

Lemma NewClient_ok : client_ok RelayClient.NewClient.
Proof. split; [apply RelayClient.NewClient_inv|]. done. Qed.

(** A change to the connection tables alone. *)
Lemma tables_inv t p :
  inv p -> tables_ok t -> (forall c, is_Some (setups p !! c) -> conns t !! c = None) -> inv (with_tables t p).
Proof. intros [H1 H2 H3 H4 H5 H6 H7] Ht Hf. by split. Qed.

Lemma use_relay_inv a p : inv p -> inv (use_relay p a).
Proof.
  intros Hi. pose proof Hi as [H1 H2 H3 H4 H5 H6 H7]. unfold use_relay, is_nil. case_bool_decide as Ha; [done|].
  split; cbn; try done.
  - unfold RelayAddresses. cbn. rewrite fmap_app. apply Forall_app. split; [done|]. by repeat constructor.
  - intros i b cl [Hl|[_ Hl]]%lookup_app_Some; [by apply (H4 i b)|].
    apply list_lookup_singleton_Some in Hl as [_ [= <- <-]]. exact NewClient_ok.
  - intros i Hl. rewrite length_app in Hl. cbn in Hl. rewrite elem_of_app, list_elem_of_singleton.
    destruct (decide (i = length (clients p))) as [->|Hne]; [tauto|].
    destruct (H5 i) as [?|[?|(b & cl & Hc & Hd)]]; [lia|tauto|tauto|]. right. right. exists b, cl.
    split; [|done]. cbn. by apply lookup_app_l_Some.
Qed.

Lemma UseRelay_inv l p : inv p -> inv (UseRelay l p).
Proof. unfold UseRelay. revert p. induction l as [|a l IH]; intros p Hi; [done|]. by apply IH, use_relay_inv. Qed.

(** A client changes. *)
Lemma client_inv i a cl cl' p :
  inv p -> clients p !! i = Some (a, cl) -> client_ok cl' ->
  (RelayClient.stops cl !! 0%nat = Some RelayClient.Done -> RelayClient.stops cl' !! 0%nat = Some RelayClient.Done) ->
  inv (with_clients (<[i := (a, cl')]> (clients p)) (relays p) p).
Proof.
  intros [H1 H2 H3 H4 H5 H6 H7] Hl Hok Hd. pose proof (lookup_lt_Some _ _ _ Hl) as Hlen.
  split; cbn; try done.
  - unfold RelayAddresses. cbn. rewrite list_fmap_insert. cbn. rewrite list_insert_id; [done|].
    by rewrite list_lookup_fmap, Hl.
  - intros j b c Hj. destruct (decide (i = j)) as [<-|Hne].
    + rewrite list_lookup_insert_eq in Hj by done. by injection Hj as <- <-.
    + rewrite list_lookup_insert_ne in Hj by done. by apply (H4 j b).
  - intros j Hj. rewrite length_insert in Hj. destruct (H5 j Hj) as [?|[?|(b & c & Hc & Hdc)]]; [tauto|tauto|].
    right. right. unfold client_done. cbn. destruct (decide (i = j)) as [<-|Hne].
    + rewrite list_lookup_insert_eq by done. rewrite Hl in Hc. injection Hc as <- <-. eauto.
    + rewrite list_lookup_insert_ne by done. eauto.
Qed.

Lemma own_event_frame cl e cl' :
  own_event e = true \/ e = RelayClient.TunnelTaken -> RelayClient.exec cl e = Some cl' ->
  RelayClient.stops cl' = RelayClient.stops cl /\ RelayClient.stopped cl' = RelayClient.stopped cl.
Proof.
  intros He Hx. destruct e; try (by destruct He as [He|He]; discriminate He);
    cbn [RelayClient.exec] in Hx; RelayClient.client_cases Hx; done.
Qed.

Lemma own_event_ok cl e cl' :
  own_event e = true \/ e = RelayClient.TunnelTaken -> RelayClient.exec cl e = Some cl' ->
  client_ok cl -> client_ok cl'.
Proof.
  intros He Hx (H1 & H2 & H3). destruct (own_event_frame cl e cl' He Hx) as [E1 E2].
  split; [by eapply RelayClient.client_exec_inv|]. by rewrite E1, E2.
Qed.

(** *** Connections in the making *)

Lemma setups_inv m p :
  inv p -> (forall c, is_Some (m !! c) -> conns (conn_tables p) !! c = None) -> inv (with_setups m p).
Proof. intros [H1 H2 H3 H4 H5 H6 H7] Hm. by split. Qed.

Lemma begin_setup_inv c from p p' : begin_setup c from p = Some p' -> inv p -> inv p'.
Proof.
  unfold begin_setup. destruct (setups p !! c); [done|].
  destruct (conns (conn_tables p) !! c) eqn:Ec; [done|]. intros [= <-] Hi. apply setups_inv; [done|].
  intros c' [x Hx]. apply lookup_insert_Some in Hx as [[<- _]|[_ Hx]]; [done|]. apply (inv_fresh p Hi). by eexists.
Qed.

Lemma check_limit_inv c p p' : check_limit c p = Some p' -> inv p -> inv p'.
Proof.
  unfold check_limit. destruct (setups p !! c) as [[from []]|] eqn:Ec; try done. intros [= <-] Hi.
  apply setups_inv; [done|]. intros c' [x Hx]. apply (inv_fresh p Hi). destruct (atConnectionLimit _).
  - apply lookup_delete_Some in Hx as [_ Hx]. by eexists.
  - apply lookup_insert_Some in Hx as [[<- _]|[_ Hx]]; [by rewrite Ec|by eexists].
Qed.

(** Registering and removing do not make connection objects. *)
Lemma registerConn_conns t c addr c' : conns t !! c' = None -> conns (registerConn t c addr).1 !! c' = None.
Proof.
  intros Hc. unfold registerConn.
  repeat case_match; cbn; try done; (rewrite lookup_insert_ne; [done|congruence]).
Qed.

Lemma removeConn_conns t c : conns (removeConn t c) = conns t.
Proof. unfold removeConn. by destruct (conns t !! c). Qed.

Lemma finish_setup_inv c hs ok p p' : finish_setup c hs ok p = Some p' -> inv p -> inv p'.
Proof.
  unfold finish_setup. destruct (setups p !! c) as [[from []]|] eqn:Ec; try done. intros Hx Hi.
  pose proof (inv_fresh p Hi c) as Hfree. rewrite Ec in Hfree. specialize (Hfree (ex_intro _ _ eq_refl)).
  assert (inv (with_setups (delete c (setups p)) p)) as Hi'.
  { apply setups_inv; [done|]. intros c' [x Hc']. apply lookup_delete_Some in Hc' as [_ Hc'].
    apply (inv_fresh p Hi). by eexists. }
  destruct hs as [[|b id]|]; [done| |by injection Hx as <-]. cbn [conn_tables with_setups] in Hx.
  pose proof (new_conn_ok (conn_tables p) c (b :: id) (inv_tables p Hi) Hfree ltac:(done)) as Hn.
  pose proof (registerConn_ok _ c (MkConn (b :: id) []) (filed_under from (b :: id)) Hn (lookup_insert_eq _ _ _)) as Hr.
  assert (forall c', is_Some (delete c (setups p) !! c') ->
    conns (registerConn (new_conn (conn_tables p) c (b :: id)) c (filed_under from (b :: id))).1 !! c' = None) as Hf.
  { intros c' [x Hc']. apply lookup_delete_Some in Hc' as [Hne Hc']. apply registerConn_conns. cbn.
    rewrite lookup_insert_ne by done. apply (inv_fresh p Hi). by eexists. }
  destruct (registerConn _ _ _) as [t [e|]]; cbn [fst] in *.
  - injection Hx as <-. by apply tables_inv.
  - destruct ok; injection Hx as <-; apply tables_inv; try done; [by apply removeConn_ok|].
    intros c' Hc'. rewrite removeConn_conns. by apply Hf.
Qed.

Lemma AddPeerAddress_conns t id addr c' : conns t !! c' = None -> conns (AddPeerAddress t id addr).1 !! c' = None.
Proof.
  intros Hc. unfold AddPeerAddress. repeat case_match; cbn; try done; (rewrite lookup_insert_ne; [done|congruence]).
Qed.

Lemma accept_tunnel_inv i c p p' : accept_tunnel i c p = Some p' -> inv p -> inv p'.
Proof.
  unfold accept_tunnel. destruct (clients p !! i) as [[a cl]|] eqn:El; [|done].
  destruct (RelayClient.tunnel_taken cl) as [cl'|] eqn:Et; [|done]. intros Hb Hi.
  destruct (own_event_frame cl RelayClient.TunnelTaken cl' (or_intror eq_refl) Et) as [Es _].
  apply (begin_setup_inv _ _ _ _ Hb). apply (client_inv i a cl); [done|done| |by rewrite Es].
  apply (own_event_ok cl RelayClient.TunnelTaken); [by right|done|]. by apply (inv_clients p Hi i a).
Qed.

Lemma client_step_inv i e p p' : client_step i e p = Some p' -> inv p -> inv p'.
Proof.
  unfold client_step. destruct (clients p !! i) as [[a cl]|] eqn:El; [|done].
  destruct (own_event e) eqn:Eo; [|done]. destruct (RelayClient.exec cl e) as [cl'|] eqn:Ex; [|done].
  intros [= <-] Hi. destruct (own_event_frame cl e cl' (or_introl Eo) Ex) as [Es _].
  apply (client_inv i a cl); [done|done| |by rewrite Es].
  apply (own_event_ok cl e); [by left|done|]. by apply (inv_clients p Hi i a).
Qed.

(** *** [Stop] *)

(** A step of the peer's call of a client's [Stop]. *)
Lemma stopping_ok cl e cl' :
  e = RelayClient.StopBegin 0 \/ e = RelayClient.StopClose 0 \/ e = RelayClient.StopEnd 0 ->
  RelayClient.exec cl e = Some cl' -> client_ok cl -> client_ok cl'.
Proof.
  intros He Hx (H1 & H2 & H3).
  split; [by eapply RelayClient.client_exec_inv|].
  assert (RelayClient.stops cl !! 0%nat = None -> RelayClient.stopped cl = true -> False) as Hno
    by (intros E [? ?]%H2; congruence).
  destruct He as [->|[->| ->]]; cbn [RelayClient.exec] in Hx; RelayClient.client_cases Hx; RelayClient.client_cbn;
    rewrite ?lookup_insert_eq; try (split; [by eexists|done]).
  by destruct Hno.
Qed.

Lemma stop_relay_inv p p' : stop_relay p = Some p' -> inv p -> inv p'.
Proof.
  unfold stop_relay. destruct (stop_at p) as [| | |[|i l]|] eqn:Es; try done.
  destruct (clients p !! i) as [[a cl]|] eqn:El; [|done]. intros Hx Hi.
  pose proof (inv_clients p Hi i a cl El) as Hok.
  assert (forall cl' ev, RelayClient.exec cl ev = Some cl' ->
    ev = RelayClient.StopBegin 0 \/ ev = RelayClient.StopClose 0 \/ ev = RelayClient.StopEnd 0 ->
    RelayClient.stops cl !! 0%nat <> Some RelayClient.Done ->
    inv (with_clients (<[i := (a, cl')]> (clients p)) (relays p) p)) as Hstep.
  { intros cl' ev Hev Hk Hnd. apply (client_inv i a cl); [done|done|by eapply stopping_ok|done]. }
  destruct (RelayClient.stops cl !! 0%nat) as [[]|] eqn:E0.
  - destruct (RelayClient.stop_close 0 cl) as [cl'|] eqn:Ex; [|done]. injection Hx as <-.
    apply (Hstep cl' (RelayClient.StopClose 0)); [done|tauto|done].
  - destruct (RelayClient.stop_end 0 cl) as [cl'|] eqn:Ex; [|done]. injection Hx as <-.
    apply (Hstep cl' (RelayClient.StopEnd 0)); [done|tauto|done].
  - injection Hx as <-. destruct Hi as [H1 H2 H3 H4 H5 H6 H7]. rewrite Es in *. split; cbn; try done.
    intros j Hj. destruct (H5 j Hj) as [?|[[->|?]%elem_of_cons|?]]; try tauto.
    right. right. by exists a, cl.
  - by destruct Hok as (_ & _ & Hn).
  - destruct (RelayClient.stop_begin 0 cl) as [cl'|] eqn:Ex; [|done]. injection Hx as <-.
    apply (Hstep cl' (RelayClient.StopBegin 0)); [done|tauto|done].
Qed.

Lemma stop_phases_inv p p' :
  stop_listener p = Some p' \/ stop_take_relays p = Some p' \/ stop_conns p = Some p' -> inv p -> inv p'.
Proof.
  intros Hx Hi. pose proof Hi as [H1 H2 H3 H4 H5 H6 H7].
  destruct Hx as [Hx|[Hx|Hx]]; unfold stop_listener, stop_take_relays, stop_conns in Hx;
    destruct (stop_at p) as [| | |[|i l]|] eqn:Es; try done; injection Hx as <-; split; cbn; try done.
  - destruct (listener p) as [[]|] eqn:El; [|done]. intros a' b' [= <- <-]. by eapply H6.
  - destruct (listener p) as [[]|]; [|done]. by intros a' b' _ [= <- <-].
  - intros i Hj. destruct (H5 i Hj) as [?|[Hn|?]]; [tauto| |tauto]. by apply not_elem_of_nil in Hn.
  - by apply (exec_ok (conn_tables p) OStop).
Qed.

Lemma peer_step p e p' : exec p e = Some p' -> inv p -> inv p'.
Proof.
  intros Hx Hi. destruct e; cbn [exec] in Hx.
  - destruct (listener p) eqn:El; [done|]. destruct (stop_at p) eqn:Es; try done. injection Hx as <-.
    destruct Hi as [H1 H2 H3 H4 H5 H6 H7]. split; cbn; try done; [by intros a b [= <- <-]|by rewrite Es].
  - injection Hx as <-. by destruct Hi.
  - injection Hx as <-. by destruct Hi.
  - injection Hx as <-. apply tables_inv; [done|apply Hi|apply Hi].
  - injection Hx as <-. by apply UseRelay_inv.
  - injection Hx as <-. apply tables_inv; [done| |].
    + apply (exec_ok (conn_tables p) (OAlias peerID addr)); [apply Hi|done].
    + intros c Hc. by apply AddPeerAddress_conns, (inv_fresh p Hi).
  - by eapply begin_setup_inv.
  - unfold accept in Hx. destruct (listener p) as [[? []]|]; try done. by eapply begin_setup_inv.
  - by eapply accept_tunnel_inv.
  - by eapply check_limit_inv.
  - by eapply finish_setup_inv.
  - injection Hx as <-. apply tables_inv; [done|by apply removeConn_ok, Hi|].
    intros c' Hc. rewrite removeConn_conns. by apply (inv_fresh p Hi).
  - by eapply client_step_inv.
  - unfold stop_goodbye in Hx. destruct (stop_at p) eqn:Es; try done. injection Hx as <-.
    destruct Hi as [H1 H2 H3 H4 H5 H6 H7]. rewrite Es in *. by split.
  - apply (stop_phases_inv p); tauto.
  - apply (stop_phases_inv p); tauto.
  - by eapply stop_relay_inv.
  - apply (stop_phases_inv p); tauto.
Qed.

Lemma peer_run p es p' : run p es = Some p' -> inv p -> inv p'.
Proof.
  revert p. induction es as [|e es IH]; intros p; cbn [run]; [by intros [= <-]|].
  destruct (exec p e) as [p1|] eqn:E; [|done]. intros Hr Hi. apply (IH p1 Hr). by eapply peer_step.
Qed.

Lemma run_app p es es' :
  run p (es ++ es') = match run p es with Some p => run p es' | None => None end.
Proof. revert p. induction es as [|e es IH]; intros p; [done|]. cbn [run app]. by destruct (exec p e). Qed.

(** The identity never changes. *)
Lemma UseRelay_id l p : p_id (UseRelay l p) = p_id p.
Proof.
  unfold UseRelay. revert p. induction l as [|a l IH]; intros p; [done|]. cbn [foldl]. rewrite IH.
  unfold use_relay. by destruct (is_nil a).
Qed.

Lemma begin_setup_id c from p p' : begin_setup c from p = Some p' -> p_id p' = p_id p.
Proof. unfold begin_setup. repeat case_match; intros; simplify_eq; done. Qed.

Ltac same_id Hx := repeat match type of Hx with
  | context [match ?x with _ => _ end] => destruct x; try discriminate Hx
  end; try (injection Hx as <-; exact eq_refl).

Lemma step_id p e p' : exec p e = Some p' -> p_id p' = p_id p.
Proof.
  intros Hx. destruct e; cbn [exec] in Hx.
  - unfold Start in Hx. same_id Hx.
  - same_id Hx.
  - same_id Hx.
  - same_id Hx.
  - injection Hx as <-. apply UseRelay_id.
  - same_id Hx.
  - by eapply begin_setup_id.
  - unfold accept in Hx. destruct (listener p) as [[? []]|]; try discriminate Hx. by eapply begin_setup_id.
  - unfold accept_tunnel in Hx. destruct (clients p !! i) as [[a cl]|]; [|discriminate Hx].
    destruct (RelayClient.tunnel_taken cl); [|discriminate Hx]. apply begin_setup_id in Hx. exact Hx.
  - unfold check_limit in Hx. destruct (setups p !! c) as [[? []]|]; try discriminate Hx. same_id Hx.
  - unfold finish_setup in Hx. destruct (setups p !! c) as [[? []]|]; try discriminate Hx.
    destruct hs as [[|]|]; [discriminate Hx| |same_id Hx]. cbv zeta in Hx.
    destruct (registerConn _ _ _) as [? []]; injection Hx as <-; exact eq_refl.
  - same_id Hx.
  - unfold client_step in Hx. destruct (clients p !! i) as [[a cl]|]; [|discriminate Hx].
    destruct (own_event e); [|discriminate Hx]. destruct (RelayClient.exec cl e); [|discriminate Hx].
    injection Hx as <-. exact eq_refl.
  - unfold stop_goodbye in Hx. same_id Hx.
  - unfold stop_listener in Hx. same_id Hx.
  - unfold stop_take_relays in Hx. same_id Hx.
  - unfold stop_relay in Hx. destruct (stop_at p) as [| | |[|i l]|]; try discriminate Hx.
    destruct (clients p !! i) as [[a cl]|]; [|discriminate Hx]. cbv zeta in Hx.
    destruct (RelayClient.stops cl !! 0%nat) as [[]|];
      [destruct (RelayClient.stop_close 0 cl)|destruct (RelayClient.stop_end 0 cl)| | |
       destruct (RelayClient.stop_begin 0 cl)]; try discriminate Hx; injection Hx as <-; exact eq_refl.
  - unfold stop_conns in Hx. same_id Hx.
Qed.

Lemma run_id p es p' : run p es = Some p' -> p_id p' = p_id p.
Proof.
  revert p. induction es as [|e es IH]; intros p; cbn [run]; [by intros [= <-]|].
  destruct (exec p e) as [p1|] eqn:E; [|done]. intros Hr. rewrite (IH p1 Hr). by eapply step_id.
Qed.

(** ** What others make of the addresses *)

Lemma hex_encode_digits l b : b ∈ hex_encode l -> is_Some (from_hex_digit b).
Proof.
  induction l as [|x l IH]; cbn [hex_encode]; [by intros ?%not_elem_of_nil|]. pose proof (u8_range x).
  rewrite !elem_of_cons. intros [->|[->|Hb]]; [| |by apply IH];
    rewrite from_hex_digit_hex_digit by (Z.div_mod_to_equations; lia); by eexists.
Qed.

Lemma ID_plain id : plain_address (Identity_ID id) = true.
Proof.
  unfold plain_address, Identity_ID, PublicKeyToID. rewrite !andb_true_iff. split_and!.
  - unfold is_nil. rewrite bool_decide_eq_false_2; [done|]. intros E. apply (f_equal length) in E.
    rewrite hex_encode_length, sha256_length in E. discriminate E.
  - apply hex_encode_plain.
  - apply bool_decide_eq_true_2. intros [? Hd]%hex_encode_digits. by vm_compute in Hd.
Qed.

Lemma relay_url_plain ra id : plain_address ra = true -> plain_address id = true -> plain_address (relay_url ra id) = true.
Proof.
  unfold plain_address, relay_url. rewrite !andb_true_iff, !bool_decide_eq_true.
  intros [[_ Ha] Hac] [[_ Hi] Hic]. split_and!; [done| |].
  - rewrite !forallb_app, Ha, Hi. done.
  - rewrite !elem_of_app. intros [Hm|[Hm|[Hm|Hm]]]; try done; revert Hm; apply (bool_decide_eq_false_1 _); by vm_compute.
Qed.

Lemma advertised_elem p a :
  a ∈ peer_AdvertisedAddresses p <->
  (a = Address p /\ (public p = true /\ Address p <> [] \/ RelayAddresses p = []))
  \/ exists ra, ra ∈ RelayAddresses p /\ a = relay_url ra (p_id p).
Proof.
  assert (a ∈ (fun ra => relay_url ra (p_id p)) <$> RelayAddresses p
    <-> exists ra, ra ∈ RelayAddresses p /\ a = relay_url ra (p_id p)) as Hurl.
  { rewrite list_elem_of_fmap. naive_solver. }
  unfold peer_AdvertisedAddresses, AdvertisedAddresses, is_nil.
  destruct (public p) eqn:Ep, (decide (Address p = [])) as [E|E];
    rewrite ?(bool_decide_eq_true_2 _ E), ?(bool_decide_eq_false_2 _ E); cbn [andb negb app].
  2: { rewrite bool_decide_eq_false_2 by done. rewrite elem_of_cons, Hurl. tauto. }
  all: destruct (RelayAddresses p) as [|ra l] eqn:El;
    [rewrite bool_decide_eq_true_2 by done; rewrite list_elem_of_singleton, <- Hurl; cbn [fmap list_fmap];
     pose proof (not_elem_of_nil a); tauto
    |rewrite bool_decide_eq_false_2 by done; rewrite Hurl; naive_solver].
Qed.

(** (peer.go, [AdvertisedAddresses], [UseRelay], [encodeAddresses], [decodeAddresses],
    [dialAddress]): a peer can be called back under everything it advertises.  Whatever
    happened to it, if its listen address and its relays are plain text without commas,
    the payload of its hello decodes to the list it advertises, which is not empty, and
    dialing an entry is a TCP dial of its listen address, with keep-alive on, or a dial
    for its own ID through a relay it registered with; and every such relay is on the
    list. *)
Theorem advertised_reaches (id : Identity) (address : bytes) (es : list event) (p : Peer)
    (dial_tcp : bytes -> option net_conn) (dial_via : bytes -> bytes -> option net_conn) :
  run (New id address) es = Some p ->
  forallb plain_address (Address p :: RelayAddresses p) = true ->
  HasPrefix (Address p) (bs "relay://") = false ->
  Forall (fun ra => Byte.x2f ∉ ra) (RelayAddresses p) ->
  decodeAddresses (hello_payload p) = peer_AdvertisedAddresses p
  /\ peer_AdvertisedAddresses p <> []
  /\ (forall a, a ∈ peer_AdvertisedAddresses p ->
        (a = Address p /\ dialAddress dial_tcp dial_via a
           = match dial_tcp (Address p) with Some c => Ok (enableKeepAlive c) | None => Err DialFailed end)
        \/ exists ra, ra ∈ RelayAddresses p /\ dialAddress dial_tcp dial_via a
           = match dial_via ra (Identity_ID id) with Some c => Ok c | None => Err DialFailed end)
  /\ (forall ra, ra ∈ RelayAddresses p -> relay_url ra (Identity_ID id) ∈ peer_AdvertisedAddresses p).
Proof.
  intros Hr Hpl Hpre Hsl. pose proof (peer_run _ _ _ Hr (New_inv id address)) as Hi.
  pose proof (run_id _ _ _ Hr) as Hid. cbn in Hid.
  assert (forallb plain_address (peer_AdvertisedAddresses p) = true) as Hadv.
  { apply forallb_forall. intros a Ha. apply list_elem_of_In, advertised_elem in Ha.
    rewrite forallb_forall in Hpl. destruct Ha as [[-> _]|(ra & Hra & ->)]; [apply Hpl; by left|].
    apply relay_url_plain; [apply Hpl; right; by apply list_elem_of_In|]. rewrite Hid. apply ID_plain. }
  split; [by apply (addresses_roundtrip _ [])|]. split.
  { unfold peer_AdvertisedAddresses, AdvertisedAddresses. by case_bool_decide. }
  split.
  - intros a Ha. apply advertised_elem in Ha as [[-> _]|(ra & Hra & ->)].
    + left. split; [done|]. unfold dialAddress. by rewrite Hpre.
    + right. exists ra. split; [done|]. rewrite Hid.
      rewrite Forall_forall in Hsl. pose proof (inv_relay_addrs p Hi) as Hne. rewrite Forall_forall in Hne.
      assert (Identity_ID id <> []) as Hidne.
      { pose proof (ID_plain id) as Hpi. intros E. rewrite E in Hpi. discriminate Hpi. }
      pose proof (proj2 (relay_address_roundtrip (relay_url ra (Identity_ID id)) ra (Identity_ID id))
        (conj eq_refl (conj (Hne ra Hra) (conj Hidne (Hsl ra Hra))))) as Hp.
      unfold dialAddress. rewrite Hp, (proj2 (HasPrefix_spec _ _)) by (eexists; exact eq_refl). exact eq_refl.
  - intros ra Hra. apply advertised_elem. right. exists ra. by rewrite Hid.
Qed.

(** ** What happens after [Stop] *)

(** The events that begin the setup of connection [c]. *)
Definition begins (c : nat) (e : event) : bool :=
  match e with EDial c' _ | EAccept c' _ | ETunnel _ c' => Nat.eqb c' c | _ => false end.

(** Pointer [c] was never handed out, or its connection came to nothing. *)
Definition unused (c : nat) (p : Peer) : Prop := setups p !! c = None /\ conns (conn_tables p) !! c = None.

Lemma begin_setup_unused c c' from p p' :
  begin_setup c' from p = Some p' -> c' <> c -> unused c p -> unused c p'.
Proof.
  unfold begin_setup. repeat case_match; try done. intros [= <-] Hne [H1 H2]. split; [|done].
  cbn. by rewrite lookup_insert_ne.
Qed.

Lemma finish_setup_unused c c' hs ok p p' : finish_setup c' hs ok p = Some p' -> unused c p -> unused c p'.
Proof.
  unfold finish_setup. destruct (setups p !! c') as [[from []]|] eqn:Ec; try done. intros Hx [H1 H2].
  assert (c' <> c) as Hne by congruence.
  assert (delete c' (setups p) !! c = None) as Hd by by rewrite lookup_delete_ne.
  destruct hs as [[|b id]|]; [done| |by injection Hx as <-]. cbn [conn_tables with_setups] in Hx.
  pose proof (registerConn_conns (new_conn (conn_tables p) c' (b :: id)) c' (filed_under from (b :: id)) c) as Hr.
  destruct (registerConn _ _ _) as [t [e|]]; cbn [fst] in Hr;
    [|destruct ok]; injection Hx as <-; (split; [exact Hd|]); cbn; rewrite ?removeConn_conns;
    apply Hr; cbn; by rewrite lookup_insert_ne.
Qed.

Lemma UseRelay_unused c l p : unused c p -> unused c (UseRelay l p).
Proof.
  unfold UseRelay. revert p. induction l as [|a l IH]; intros p Hu; [done|]. apply IH. unfold use_relay.
  by destruct (is_nil a).
Qed.

(** A connection only comes from an event that begins it. *)
Lemma step_unused c p e p' : exec p e = Some p' -> begins c e = false -> unused c p -> unused c p'.
Proof.
  intros Hx Hb Hu. destruct e; cbn [exec begins] in Hx, Hb; try apply Nat.eqb_neq in Hb.
  - unfold Start in Hx. repeat case_match; try done. by injection Hx as <-.
  - by injection Hx as <-.
  - by injection Hx as <-.
  - by injection Hx as <-.
  - injection Hx as <-. by apply UseRelay_unused.
  - injection Hx as <-. split; [apply Hu|]. apply AddPeerAddress_conns, Hu.
  - by eapply begin_setup_unused.
  - unfold accept in Hx. destruct (listener p) as [[? []]|]; try done. by eapply begin_setup_unused.
  - unfold accept_tunnel in Hx. destruct (clients p !! i) as [[a cl]|]; [|done].
    destruct (RelayClient.tunnel_taken cl); [|done]. by eapply begin_setup_unused.
  - unfold check_limit in Hx. destruct (setups p !! c0) as [[from []]|] eqn:Ec; try done. injection Hx as <-.
    destruct Hu as [H1 H2]. split; [|done]. cbn. destruct (atConnectionLimit _).
    + rewrite lookup_delete_ne; congruence.
    + rewrite lookup_insert_ne; congruence.
  - by eapply finish_setup_unused.
  - injection Hx as <-. split; [apply Hu|]. cbn. rewrite removeConn_conns. apply Hu.
  - unfold client_step in Hx. destruct (clients p !! i) as [[a cl]|]; [|done].
    destruct (own_event e); [|done]. destruct (RelayClient.exec cl e); [|done]. by injection Hx as <-.
  - unfold stop_goodbye in Hx. destruct (stop_at p); try done. by injection Hx as <-.
  - unfold stop_listener in Hx. destruct (stop_at p); try done. by injection Hx as <-.
  - unfold stop_take_relays in Hx. destruct (stop_at p); try done. by injection Hx as <-.
  - unfold stop_relay in Hx. repeat case_match; try done; cbn in Hx; simplify_option_eq; done.
  - unfold stop_conns in Hx. repeat case_match; try done. by injection Hx as <-.
Qed.

(** A client whose [Stop] has returned, and its relay. *)
Definition done_at (i : nat) (ra : bytes) (p : Peer) : Prop :=
  exists cl, clients p !! i = Some (ra, cl) /\ RelayClient.stops cl !! 0%nat = Some RelayClient.Done.

Lemma insert_done i ra j a cl cl' p :
  done_at i ra p -> clients p !! j = Some (a, cl) ->
  (RelayClient.stops cl !! 0%nat = Some RelayClient.Done -> RelayClient.stops cl' !! 0%nat = Some RelayClient.Done) ->
  done_at i ra (with_clients (<[j := (a, cl')]> (clients p)) (relays p) p).
Proof.
  intros (cl0 & Hl & Hd) Hj Hs. unfold done_at. cbn. destruct (decide (j = i)) as [->|Hne].
  - rewrite list_lookup_insert_eq by by eapply lookup_lt_Some. rewrite Hl in Hj. injection Hj as <- <-. eauto.
  - rewrite list_lookup_insert_ne by done. eauto.
Qed.

Lemma UseRelay_done i ra l p : done_at i ra p -> done_at i ra (UseRelay l p).
Proof.
  unfold UseRelay. revert p. induction l as [|a l IH]; intros p Hd; [done|]. apply IH. unfold use_relay.
  destruct (is_nil a); [done|]. destruct Hd as (cl & Hl & Hd). exists cl. split; [|done]. cbn.
  by apply lookup_app_l_Some.
Qed.

(** Once [Stop] has returned it stays so, nothing more comes from the listener, and
    the clients it stopped stay stopped. *)
Lemma step_stopped p e p' :
  inv p -> stop_at p = Stopped -> exec p e = Some p' ->
  stop_at p' = Stopped /\ (forall c a, e <> EAccept c a)
  /\ forall i ra, done_at i ra p -> done_at i ra p'.
Proof.
  intros Hi Hs Hx. destruct e; cbn [exec] in Hx.
  - by rewrite Hs in Hx; destruct (listener p).
  - by injection Hx as <-.
  - by injection Hx as <-.
  - by injection Hx as <-.
  - injection Hx as <-. split; [|split; [done|]; intros; by apply UseRelay_done].
    clear Hi. unfold UseRelay. revert p Hs. induction addrs as [|a l IH]; intros p Hs; [done|]. apply IH.
    unfold use_relay. by destruct (is_nil a).
  - by injection Hx as <-.
  - unfold begin_setup in Hx. repeat case_match; try done. by injection Hx as <-.
  - unfold accept in Hx. destruct (listener p) as [[a []]|] eqn:El; try done.
    assert (listener_closed (stop_at p) = true) as Hc by by rewrite Hs. by pose proof (inv_closed p Hi a false Hc El).
  - unfold accept_tunnel in Hx. destruct (clients p !! i) as [[a cl]|] eqn:El; [|done].
    destruct (RelayClient.tunnel_taken cl) as [cl'|] eqn:Et; [|done].
    destruct (own_event_frame cl RelayClient.TunnelTaken cl' (or_intror eq_refl) Et) as [Est _].
    unfold begin_setup in Hx. repeat case_match; try done. injection Hx as <-. split_and!; [done|done|].
    intros j ra Hd. apply (insert_done j ra i a cl cl' p Hd El). by rewrite Est.
  - unfold check_limit in Hx. repeat case_match; try done; by injection Hx as <-.
  - unfold finish_setup in Hx. cbv zeta in Hx. repeat case_match; try done; by injection Hx as <-.
  - by injection Hx as <-.
  - unfold client_step in Hx. destruct (clients p !! i) as [[a cl]|] eqn:El; [|done].
    destruct (own_event e) eqn:Eo; [|done]. destruct (RelayClient.exec cl e) as [cl'|] eqn:Ex; [|done].
    injection Hx as <-. destruct (own_event_frame cl e cl' (or_introl Eo) Ex) as [Est _].
    split_and!; [done|done|]. intros j ra Hd. apply (insert_done j ra i a cl cl' p Hd El). by rewrite Est.
  - unfold stop_goodbye in Hx. by rewrite Hs in Hx.
  - unfold stop_listener in Hx. by rewrite Hs in Hx.
  - unfold stop_take_relays in Hx. by rewrite Hs in Hx.
  - unfold stop_relay in Hx. by rewrite Hs in Hx.
  - unfold stop_conns in Hx. by rewrite Hs in Hx.
Qed.

Lemma run_stopped more p p' :
  inv p -> stop_at p = Stopped -> run p more = Some p' ->
  stop_at p' = Stopped
  /\ (forall c, unused c p -> ~ unused c p' -> (exists a, EDial c a ∈ more) \/ exists i, ETunnel i c ∈ more)
  /\ forall i ra, done_at i ra p -> done_at i ra p'.
Proof.
  revert p. induction more as [|e more IH]; intros p Hi Hs; cbn [run].
  { intros [= <-]. split_and!; [done|by intros c H1 H2|done]. }
  destruct (exec p e) as [p1|] eqn:E; [|done]. intros Hr.
  destruct (step_stopped p e p1 Hi Hs E) as (Hs1 & Hne & Hd1).
  destruct (IH p1 (peer_step p e p1 E Hi) Hs1 Hr) as (Hs' & Hnew & Hd'). split_and!; [done| |auto].
  intros c Hu Hnu. destruct (begins c e) eqn:Eb.
  - destruct e; try discriminate Eb; cbn [begins] in Eb; apply Nat.eqb_eq in Eb as <-.
    + left. eexists. apply list_elem_of_here.
    + by destruct (Hne c0 remoteAddr).
    + right. eexists. apply list_elem_of_here.
  - destruct (Hnew c (step_unused c p e p1 E Eb Hu) Hnu) as [[a Ha]|[a Ha]]; [left|right];
      exists a; by apply list_elem_of_further.
Qed.


(** ** Concrete runs *)

Module PeerRuns.

Definition me : Peer := New alice (bs "127.0.0.1:0").

(** A peer starts, registers with a relay, takes a connection and a tunnel, and stops. *)
Definition up : list event :=
  [EStart (bs "127.0.0.1:7001"); EUseRelay [bs "r.example:9"; []]; EClient 0 RelayClient.RunStart;
   EClient 0 RelayClient.RunLoop; EClient 0 (RelayClient.Dialed 7); EAccept 1 (bs "10.0.0.2:4000"); ECheck 1;
   EFinish 1 (Some (bs "bob")) true; EClient 0 (RelayClient.TunnelSent 8); ETunnel 0 2; ECheck 2;
   EFinish 2 (Some (bs "carol")) true].
Definition down : list event :=
  [EGoodbye; ECloseListener; ETakeRelays; EStopRelay; EStopRelay; EClient 0 RelayClient.Lost;
   EClient 0 RelayClient.WaitStopped; EStopRelay; EStopRelay; ECloseConns].

Definition after (es : list event) : Peer := default me (run me es).
Definition ran (es : list event) : bool := match run me es with Some _ => true | None => false end.

Lemma ran_after es : ran es = true -> run (New alice (bs "127.0.0.1:0")) es = Some (after es).
Proof. unfold ran, after, me. by destruct (run _ es). Qed.

Lemma up_ran : ran up = true.
Proof. by vm_compute. Qed.

Lemma relays_up : RelayAddresses (after up) = [bs "r.example:9"].
Proof. by vm_compute. Qed.

Lemma up_plain : forallb plain_address (Address (after up) :: RelayAddresses (after up)) = true.
Proof. by vm_compute. Qed.

Lemma up_direct : HasPrefix (Address (after up)) (bs "relay://") = false.
Proof. by vm_compute. Qed.

Lemma up_no_slash : Forall (fun ra => Byte.x2f ∉ ra) (RelayAddresses (after up)).
Proof. rewrite relays_up. repeat constructor. apply (bool_decide_eq_false_1 _). by vm_compute. Qed.

Definition tcp (a : bytes) : option net_conn := Some (TCPConn 1 None).
Definition via (relayAddr peerID : bytes) : option net_conn :=
  if bool_decide (peerID = Identity_ID alice) then Some (OtherConn 2) else None.

Lemma advertised_reaches_witness :
  decodeAddresses (hello_payload (after up)) = peer_AdvertisedAddresses (after up)
  /\ relay_url (bs "r.example:9") (Identity_ID alice) ∈ peer_AdvertisedAddresses (after up).
Proof.
  destruct (advertised_reaches alice (bs "127.0.0.1:0") up (after up) tcp via (ran_after up up_ran) up_plain up_direct
    up_no_slash) as (H1 & _ & _ & H4). split; [exact H1|]. apply H4. rewrite relays_up. apply list_elem_of_here.
Defined.

(** A run in which a tunnel waits to be taken when [Stop] returns, and what happens then. *)
Definition late : list event := up ++ [EClient 0 (RelayClient.TunnelSent 9)] ++ down.
Definition afterwards : list event := [ETunnel 0 3; ECheck 3; EFinish 3 (Some (bs "dave")) true].

Lemma late_ran : ran late = true.
Proof. by vm_compute. Qed.

Lemma late_stopped : stop_at (after late) = Stopped.
Proof. by vm_compute. Qed.

Lemma late_afterwards_ran : ran (late ++ afterwards) = true.
Proof. by vm_compute. Qed.

Lemma afterwards_ran : run (after late) afterwards = Some (after (late ++ afterwards)).
Proof.
  pose proof (ran_after _ late_afterwards_ran) as H. rewrite run_app, (ran_after _ late_ran) in H. exact H.
Qed.

Lemma late_relays : relays (after late) = [].
Proof. by vm_compute. Qed.

Lemma late_client :
  clients (after late) !! 0%nat
  = Some (bs "r.example:9", (default ([], RelayClient.NewClient) (clients (after late) !! 0%nat)).2).
Proof. by vm_compute. Qed.


(** The tunnels a relay client has opened are taken after [Stop] as before it: nothing
    closes the channel, and a peer behind the relay is connected to a stopped peer. *)
Example queued_tunnel_survives_stop :
  stop_at (after (late ++ afterwards)) = Stopped
  /\ IsConnected (conn_tables (after (late ++ afterwards)))
       (relay_url (bs "r.example:9") (bs "dave")) = true.
Proof. split; by vm_compute. Qed.

(** A connection whose handshake was under way is filed after [Stop] has closed the
    others, and stays. *)
Example late_connection_survives_stop :
  let es := [EStart (bs "127.0.0.1:7001"); EAccept 1 (bs "10.0.0.2:4000"); ECheck 1; EGoodbye; ECloseListener;
             ETakeRelays; ECloseConns; EFinish 1 (Some (bs "bob")) true] in
  ran es = true /\ stop_at (after es) = Stopped /\ IsConnected (conn_tables (after es)) (bs "10.0.0.2:4000") = true.
Proof. vm_compute. split_and!; reflexivity. Qed.

(** The limit is checked before the handshake only: two connections that are set up at
    the same time exceed a limit of one. *)
Example limit_overrun :
  let es := [EStart (bs "127.0.0.1:7001"); ELimit 1; EAccept 1 (bs "10.0.0.2:4000"); EAccept 2 (bs "10.0.0.3:4000");
             ECheck 1; ECheck 2; EFinish 1 (Some (bs "bob")) true; EFinish 2 (Some (bs "carol")) true] in
  ran es = true /\ UniqueConnCount (after es) = 2%nat /\ maxConnections (conn_tables (after es)) = 1.
Proof. vm_compute. split_and!; reflexivity. Qed.

(** A stopped peer still advertises its relays. *)
Example stopped_still_advertises :
  relay_url (bs "r.example:9") (p_id (after (up ++ down))) ∈ peer_AdvertisedAddresses (after (up ++ down)).
Proof. apply (bool_decide_eq_true_1 _). by vm_compute. Qed.

End PeerRuns.
