(* ===== verification/RelayPath.v ===== *)
(** * Reaching a peer through its relay (core/peer, core/relay)

    The parts of a relayed connection put together: the address a peer advertises
    (PeerNode.v), the lines the dialer, the relay and the peer's client exchange and
    the relay's handling of them (Relay.v). *)

From S2P Require Import RelayClient.
From S2P Require Import Prelude GoStrings Encoding Json Sha256 AesGcm Crypto Secure Relay Peer SingleFlight Session.
From S2P Require Import PeerNode.
Import Relay.Server Relay.ServerFacts Peer.Addresses.

Lemma ID_valid id : validHexID (Identity_ID id) = true.
Proof.
  apply validHexID_spec. exists (sha256 (PublicKey id)). unfold Identity_ID, PublicKeyToID.
  rewrite hex_decode_encode. split; [done|apply sha256_length].
Qed.

(** C16 (peer.go, [AdvertisedAddresses], [dialAddress]; client.go, [DialVia], [runOnce],
    [openTunnel]; server.go, [handle], [handleDial], [handleTunnel]): a peer behind a relay
    can be reached.  For a peer with a relay (an address without a slash), the address it
    advertises for it splits into that relay and the peer's own ID; the line [DialVia]
    sends there is read by the relay as a dial for that ID; if the peer's client is
    registered and its queue has room, the relay queues an OPEN with a new token, the
    client reads it and answers with a tunnel for that token, which the relay reads as
    such, and then the dialer's connection and the tunnel are piped together, whatever
    else the relay serves; the dialer's [DialVia] returns a connection from which exactly
    the bytes after the relay's OK are read. *)
Theorem relay_path_connects (id : Identity) (address : bytes) (es : list PeerNode.event) (p : Peer) (ra : bytes)
    (s : server) (d t c : nat) (rand : bytes) (r : registration) :
  PeerNode.run (PeerNode.New id address) es = Some p -> ra ∈ RelayAddresses p -> (Byte.x2f ∉ ra) ->
  panicked s = false -> registrations s !! Identity_ID id = Some c -> regs s !! c = Some r -> r_phase r = Live ->
  (length (r_out r) < out_capacity)%nat -> fresh_conn s d = true -> fresh_conn s t = true -> d <> t ->
  length rand = 16%nat ->
  let tok := hex_encode rand in
  (relay_url ra (Identity_ID id) ∈ peer_AdvertisedAddresses p
   /\ parseRelayAddress (relay_url ra (Identity_ID id)) = Some (ra, Identity_ID id))
  /\ (exists out, (forall answer k, (DialVia (Identity_ID id) answer k).2 = out)
        /\ forall rest, handle (out ++ rest) = Dial (Identity_ID id))
  /\ (exists s', run s [EDial d (Identity_ID id); EList d (Some rand); EPush d; ETunnel t tok; EHand t; EReceive d;
                       EConfirm d true true] = Some s'
        /\ dials s' !! d = Some (Piping (Identity_ID id) tok t)
        /\ exists r', regs s' !! c = Some r' /\ r_out r' = r_out r ++ [open_line tok])
  /\ (exists out, runOnce (Identity_ID id) (RespOK ++ [Byte.x0a] ++ push_line tok) = (Ok [tok], out))
  /\ (exists out, writeLine (CmdTunnel ++ bs " " ++ tok) = Ok out /\ forall rest, handle (out ++ rest) = Tunnel tok)
  /\ (forall data k, exists conn out, DialVia (Identity_ID id) (RespOK ++ [Byte.x0a] ++ data) k = (Ok conn, out)
        /\ prefix_bytes conn = data).
Proof.
  intros Hr Hra Hsl Hp Hreg Hrc Hph Hlen Hfd Hft Hdt Hrand tok.
  pose proof (PeerNode.peer_run _ _ _ Hr (PeerNode.New_inv id address)) as Hi.
  pose proof (PeerNode.run_id _ _ _ Hr) as Hid. cbn in Hid.
  destruct (control_protocol (Identity_ID id) [rand] (ID_valid id) (Forall_cons_2 _ _ _ Hrand (Forall_nil_2 _)))
    as ((o1 & Ho1 & _) & (o2 & Ho2 & Hh2) & Htok & _).
  split_and!.
  - apply advertised_elem. right. exists ra. by rewrite Hid.
  - apply relay_address_roundtrip. pose proof (PeerNode.inv_relay_addrs p Hi) as Hne. rewrite Forall_forall in Hne.
    split_and!; [done|by apply Hne| |done]. intros E. pose proof (ID_valid id) as Hv. rewrite E in Hv. discriminate Hv.
  - exists o2. split; [|done]. intros answer k. unfold DialVia. rewrite Ho2.
    destruct (readLine answer) as [[resp|] rest]; [|done]. by destruct (negb _).
  - by apply dial_connects with (r := r).
  - exists o1. cbn in Ho1. by rewrite app_nil_r in Ho1.
  - apply Forall_cons in Htok as [Ht _]. exact Ht.
  - intros data k. apply DialVia_ok, ID_valid.
Qed.

(** ** A concrete path *)

Module PathRuns.
Import PeerRuns.

Definition token_bytes : bytes := replicate 16 Byte.x2a.
Definition relay_state : server := default NewServer (run NewServer [ERegister 1 (Identity_ID alice); EGreet 1 true]).

Lemma relay_knows : registrations relay_state !! Identity_ID alice = Some 1%nat.
Proof. by vm_compute. Qed.

Lemma relay_live : regs relay_state !! 1%nat = Some (MkReg (Identity_ID alice) [] true Live []).
Proof. by vm_compute. Qed.

Lemma relay_free : panicked relay_state = false /\ fresh_conn relay_state 2 = true /\ fresh_conn relay_state 3 = true.
Proof. by vm_compute. Qed.

Lemma relay_listed : bs "r.example:9" ∈ RelayAddresses (after up).
Proof. rewrite relays_up. apply list_elem_of_here. Qed.

Lemma relay_plain : Byte.x2f ∉ bs "r.example:9".
Proof. apply (bool_decide_eq_false_1 _). by vm_compute. Qed.

Lemma relay_path_connects_witness :
  relay_url (bs "r.example:9") (Identity_ID alice) ∈ peer_AdvertisedAddresses (after up)
  /\ exists s', run relay_state [EDial 2 (Identity_ID alice); EList 2 (Some token_bytes); EPush 2;
                                ETunnel 3 (hex_encode token_bytes); EHand 3; EReceive 2; EConfirm 2 true true] = Some s'
       /\ dials s' !! 2%nat = Some (Piping (Identity_ID alice) (hex_encode token_bytes) 3).
Proof.
  destruct (relay_path_connects alice (bs "127.0.0.1:0") up (after up) (bs "r.example:9") relay_state 2 3 1 token_bytes
    (MkReg (Identity_ID alice) [] true Live []) (ran_after up up_ran) relay_listed relay_plain (proj1 relay_free) relay_knows
    relay_live eq_refl ltac:(unfold out_capacity; cbn; lia) (proj1 (proj2 relay_free)) (proj2 (proj2 relay_free))
    ltac:(lia) eq_refl) as ((H1 & _) & _ & (s' & H2 & H3 & _) & _).
  split; [exact H1|]. exists s'. exact (conj H2 H3).
Defined.

End PathRuns.
