(* ===== verification/Revoke.v ===== *)
(** * Signed revocations (core/dht/revoke.go, the parts without DHT state)

    The payload and its JSON form, the bytes that are signed, signing, and the
    set of trusted revokers.  What a node does with a revocation is in Dht.v. *)

From S2P Require Import Prelude GoStrings Encoding Json Sha256 Crypto.

Record RevokePayload := MkRevoke {
  rp_Name : bytes;
  rp_Chunks : list bytes;
  rp_Timestamp : Z;
  rp_Nonce : bytes;
  rp_PublicKey : bytes;
  rp_Signature : bytes
}.

#[global] Instance RevokePayload_codec : Codec RevokePayload := {|
  to_json p := JObj
    [(bs "name", JStr (rp_Name p)); (bs "chunks", JStrs (rp_Chunks p));
     (bs "timestamp", JInt (rp_Timestamp p)); (bs "nonce", JStr (rp_Nonce p));
     (bs "pubkey", JStr (rp_PublicKey p)); (bs "signature", JStr (rp_Signature p))];
  zero_value := MkRevoke [] [] 0 [] [] [];
  set_field k j p :=
    let '(MkRevoke n c t o pk s) := p in
    if key_is k "name" then (fun n => MkRevoke n c t o pk s) <$> dec_string j n
    else if key_is k "chunks" then (fun c => MkRevoke n c t o pk s) <$> dec_slice dec_string [] j c
    else if key_is k "timestamp" then (fun t => MkRevoke n c t o pk s) <$> dec_int64 j t
    else if key_is k "nonce" then (fun o => MkRevoke n c t o pk s) <$> dec_string j o
    else if key_is k "pubkey" then (fun pk => MkRevoke n c t o pk s) <$> dec_string j pk
    else if key_is k "signature" then (fun s => MkRevoke n c t o pk s) <$> dec_string j s
    else Some p
|}.

(** In seconds. *)
Definition MaxRevokeAge : Z := 24 * 3600.
Definition MaxRevokeFutureSkew : Z := 5 * 60.

Definition newline : byte := Byte.x0a.

Section Revoke.
Context `{GoUnicode} `{Ed25519}.

(** [strings.ToLower(strings.TrimSpace(s))] *)
Definition normalise (s : bytes) : bytes := ToLower (TrimSpace s).

Definition RevokeCanonical (name : bytes) (chunks : list bytes) (timestamp : Z) (nonce : bytes)
  : bytes :=
  let sorted := sort_Strings (normalise <$> chunks) in
  bs "revoke" ++ [newline] ++ normalise name ++ [newline] ++ Join sorted [newline] ++ [newline]
  ++ print_Z timestamp ++ [newline] ++ nonce.

Definition canonical_of (p : RevokePayload) : bytes :=
  RevokeCanonical (rp_Name p) (rp_Chunks p) (rp_Timestamp p) (rp_Nonce p).

Definition revokeID (p : RevokePayload) : bytes := hex_encode (sha256 (canonical_of p)).

Inductive revoke_error := ErrNameRequired | ErrNonce.

(** [rand] is what the random source gives for the 16 bytes of the nonce, [ts]
    the clock in seconds.  (The nil-identity check has no counterpart: an
    [Identity] here is a value.) *)
Definition SignRevoke (id : Identity) (name : bytes) (chunks : list bytes) (rand : option bytes)
    (ts : Z) : result revoke_error RevokePayload :=
  if bool_decide (TrimSpace name = []) then Err ErrNameRequired else
  match rand with
  | None => Err ErrNonce
  | Some nonceBytes =>
      let nonce := hex_encode nonceBytes in
      let sig := Sign id (RevokeCanonical name chunks ts nonce) in
      let normChunks := sort_Strings (normalise <$> chunks) in
      Ok (MkRevoke (normalise name) normChunks ts nonce (PublicKeyToHex (PublicKey id)) sig)
  end.

(** ** Trusted revokers: [None] is the nil set. *)

Definition Trusted_Add (t : option (gset bytes)) (hexKey : bytes) : option (gset bytes) * bool :=
  match t with
  | None => (None, false)
  | Some keys =>
      let hexKey := normalise hexKey in
      if negb (is_ok (PublicKeyFromHex hexKey)) then (t, false)
      else if bool_decide (hexKey ∈ keys) then (t, false)
      else (Some ({[hexKey]} ∪ keys), true)
  end.

Definition Trusted_Contains (t : option (gset bytes)) (hexKey : bytes) : bool :=
  match t with
  | None => false
  | Some keys => bool_decide (normalise hexKey ∈ keys)
  end.

Definition Trusted_Size (t : option (gset bytes)) : nat :=
  match t with None => 0 | Some keys => size keys end.

(** * Facts *)

Definition revoke_fine (p : RevokePayload) : Prop :=
  utf8_valid (rp_Name p) = true /\ Forall (fun c => utf8_valid c = true) (rp_Chunks p)
  /\ in_int64 (rp_Timestamp p) /\ utf8_valid (rp_Nonce p) = true
  /\ utf8_valid (rp_PublicKey p) = true /\ utf8_valid (rp_Signature p) = true.

#[global, program] Instance RevokePayload_laws : CodecLaws RevokePayload revoke_fine :=
  {| codec_depth := 2 |}.
Next Obligation. done. Qed.
Next Obligation.
  intros [n c t o pk s] (H1 & H2 & H3 & H4 & H5 & H6).
  cbn [rp_Name rp_Chunks rp_Timestamp rp_Nonce rp_PublicKey rp_Signature] in *.
  apply (JObj_ok 1).
  do 6 (apply List.Forall_cons; [split; [done|cbn [snd]; auto with altnet]|]). apply List.Forall_nil.
Qed.
Next Obligation.
  intros [n c t o pk s] (_ & _ & H3 & _). simpl in H3.
  unfold to_json, RevokePayload_codec. cbn [rp_Name rp_Chunks rp_Timestamp rp_Nonce rp_PublicKey rp_Signature].
  lazy -[dec_slice JStrs dec_int64 JInt].
  repeat match goal with
  | |- context [dec_slice ?d ?z ?j ?o] =>
      change (dec_slice d z j o) with (dec_slice dec_string [] (JStrs c) []);
      rewrite dec_slice_strings
  | |- context [dec_int64 ?j ?o] => rewrite (dec_int64_JInt t) by done
  end.
  done.
Qed.

(** (revoke.go, [RevokeCanonical], [revokeID]): the signed bytes and the
    deduplication key do not depend on the order of the chunk list, nor on the
    letter case and surrounding space of the chunks and the name once these are
    normalised. *)
Theorem revoke_order_independent (p q : RevokePayload) :
  normalise (rp_Name p) = normalise (rp_Name q) ->
  (normalise <$> rp_Chunks p) ≡ₚ (normalise <$> rp_Chunks q) ->
  rp_Timestamp p = rp_Timestamp q -> rp_Nonce p = rp_Nonce q ->
  canonical_of p = canonical_of q /\ revokeID p = revokeID q.
Proof.
  intros Hn Hc Ht Ho. assert (canonical_of p = canonical_of q) as E.
  { unfold canonical_of, RevokeCanonical. by rewrite Hn, Ht, Ho, (sort_Strings_proper _ _ Hc). }
  split; [done|]. unfold revokeID. by rewrite E.
Qed.

(** The lines of the signed bytes. *)
Definition revoke_lines (p : RevokePayload) : list bytes :=
  let cs := sort_Strings (normalise <$> rp_Chunks p) in
  bs "revoke" :: normalise (rp_Name p) :: cs ++ [print_Z (rp_Timestamp p); rp_Nonce p].

(** No field has a newline inside, and there is at least one chunk. *)
Definition one_line_fields (p : RevokePayload) : Prop :=
  (newline ∉ normalise (rp_Name p)) /\ (newline ∉ rp_Nonce p) /\ rp_Chunks p <> []
  /\ Forall (fun c => newline ∉ normalise c) (rp_Chunks p).

Lemma print_Z_no_newline z : newline ∉ print_Z z.
Proof.
  unfold print_Z. rewrite elem_of_app. intros [Hin|Hin].
  - destruct (z <? 0); set_solver.
  - pose proof (uint_bytes_digits (N.to_uint (Z.to_N (Z.abs z)))) as Hd.
    rewrite forallb_forall in Hd. by apply list_elem_of_In, Hd in Hin.
Qed.

Lemma Join_app l1 l2 sep : l1 <> [] -> l2 <> [] -> Join (l1 ++ l2) sep = Join l1 sep ++ sep ++ Join l2 sep.
Proof.
  intros H1 H2. induction l1 as [|s l1 IH]; [done|]. destruct l1 as [|s' l1].
  - destruct l2; done.
  - change (Join ((s :: s' :: l1) ++ l2) sep) with (s ++ sep ++ Join ((s' :: l1) ++ l2) sep).
    rewrite IH by done. change (Join (s :: s' :: l1) sep) with (s ++ sep ++ Join (s' :: l1) sep).
    by rewrite !app_assoc.
Qed.

Lemma canonical_lines p :
  rp_Chunks p <> [] -> canonical_of p = Join (revoke_lines p) [newline].
Proof.
  intros Hc. unfold canonical_of, RevokeCanonical, revoke_lines.
  set (cs := sort_Strings (normalise <$> rp_Chunks p)).
  assert (cs <> []) as Hcs.
  { intros E. assert (cs ≡ₚ normalise <$> rp_Chunks p) as Hp by apply sort_Strings_perm.
    rewrite E in Hp. apply Permutation_nil_l in Hp. by destruct (rp_Chunks p). }
  change (bs "revoke" :: normalise (rp_Name p) :: cs ++ [print_Z (rp_Timestamp p); rp_Nonce p])
    with ([bs "revoke"; normalise (rp_Name p)] ++ (cs ++ [print_Z (rp_Timestamp p); rp_Nonce p])).
  rewrite !Join_app by (done || by destruct cs). cbn [Join]. by rewrite <- !app_assoc.
Qed.

Lemma canonical_split p :
  one_line_fields p -> SplitByte (canonical_of p) newline = revoke_lines p.
Proof.
  intros (Hn & Ho & Hc & Hf). rewrite canonical_lines by done.
  apply SplitByte_Join; [done|]. unfold revoke_lines.
  apply Forall_cons. split; [by vm_compute; set_solver|]. apply Forall_cons. split; [done|].
  apply Forall_app. split.
  - rewrite sort_Strings_perm, Forall_fmap. done.
  - repeat constructor; [apply print_Z_no_newline|done].
Qed.

(** (revoke.go, [RevokeCanonical]): for payloads with at least one chunk whose
    fields have no newline inside, the signed bytes determine the normalised
    name, the sorted normalised chunk list, the timestamp and the nonce, so a
    signature covers exactly one revocation. *)
Theorem canonical_injective (p q : RevokePayload) :
  one_line_fields p -> one_line_fields q -> canonical_of p = canonical_of q ->
  normalise (rp_Name p) = normalise (rp_Name q)
  /\ (normalise <$> rp_Chunks p) ≡ₚ (normalise <$> rp_Chunks q)
  /\ rp_Timestamp p = rp_Timestamp q /\ rp_Nonce p = rp_Nonce q.
Proof.
  intros Hp Hq E. apply (f_equal (fun s => SplitByte s newline)) in E.
  rewrite !canonical_split in E by done. unfold revoke_lines in E. injection E as Hn E.
  apply app_inj_2 in E as [Hc E]; [|done]. injection E as Ht Ho. split_and!; [done| | |done].
  - by rewrite <- (sort_Strings_perm (normalise <$> rp_Chunks p)), Hc, sort_Strings_perm.
  - apply (f_equal parse_Z) in Ht. rewrite !parse_Z_print_Z in Ht. by simplify_eq.
Qed.

Lemma normalise_plain s : forallb lower_plain s = true -> normalise s = s.
Proof.
  intros Hs. unfold normalise. rewrite TrimSpace_lower_plain by done. by apply ToLower_lower_plain.
Qed.

(** What [SignRevoke] produces verifies under the signer's key. *)
Lemma SignRevoke_verifies id name chunks rand ts p :
  id_wf id -> SignRevoke id name chunks rand ts = Ok p ->
  (forall s, s ∈ name :: chunks -> normalise (normalise s) = normalise s) ->
  PublicKeyFromHex (rp_PublicKey p) = Ok (PublicKey id)
  /\ Verify (PublicKey id) (canonical_of p) (rp_Signature p) = Ok tt.
Proof.
  intros Hid Hs Hidem. unfold SignRevoke in Hs. case_bool_decide; [done|].
  destruct rand as [nb|]; [|done]. injection Hs as <-. cbn [rp_PublicKey rp_Signature].
  split; [by apply PublicKeyFromHex_ToHex, id_wf_public|].
  assert (canonical_of (MkRevoke (normalise name) (sort_Strings (normalise <$> chunks)) ts
    (hex_encode nb) (PublicKeyToHex (PublicKey id))
    (Sign id (RevokeCanonical name chunks ts (hex_encode nb)))) = RevokeCanonical name chunks ts (hex_encode nb))
    as ->; [|by apply Verify_Sign].
  unfold canonical_of, RevokeCanonical. cbn [rp_Name rp_Chunks rp_Timestamp rp_Nonce].
  rewrite Hidem by set_solver. do 6 f_equal. apply sort_Strings_proper.
  rewrite sort_Strings_perm. apply reflexive_eq. rewrite <- list_fmap_compose.
  apply list_fmap_ext. intros i x Hx. apply Hidem. rewrite elem_of_cons. right.
  apply list_elem_of_lookup. eauto.
Qed.
(** (revoke.go, [RevokeCanonical], [revokeID]): the newline condition of
    [canonical_injective] is needed, and nothing in the code enforces it.  A
    revocation of two chunks and one of a name with a newline and a single chunk
    have the same signed bytes and the same deduplication key, so a signature on
    the first is also a signature on the second, which purges one chunk less. *)
Theorem canonical_collision (ts : Z) (nonce pk sig : bytes) :
  let h1 := bs "0a00000000000000000000000000000000000000000000000000000000000000" in
  let h2 := bs "0b00000000000000000000000000000000000000000000000000000000000000" in
  let p := MkRevoke (bs "site.alt") [h1; h2] ts nonce pk sig in
  let q := MkRevoke (bs "site.alt" ++ [newline] ++ h1) [h2] ts nonce pk sig in
  canonical_of p = canonical_of q /\ revokeID p = revokeID q.
Proof.
  intros h1 h2 p q. assert (canonical_of p = canonical_of q) as E.
  { unfold canonical_of, RevokeCanonical, p, q.
    cbn [rp_Name rp_Chunks rp_Timestamp rp_Nonce fmap list_fmap].
    assert (normalise h1 = h1) as -> by by apply normalise_plain.
    assert (normalise h2 = h2) as -> by by apply normalise_plain.
    assert (normalise (bs "site.alt" ++ [newline] ++ h1) = bs "site.alt" ++ [newline] ++ h1) as ->
      by reflexivity.
    assert (normalise (bs "site.alt") = bs "site.alt") as -> by by apply normalise_plain.
    assert (sort_Strings [h1; h2] = [h1; h2]) as -> by reflexivity.
    assert (sort_Strings [h2] = [h2]) as -> by reflexivity.
    cbn [Join]. by rewrite <- !app_assoc. }
  split; [done|]. unfold revokeID. by rewrite E.
Qed.

End Revoke.

(** ** Concrete values *)

(** A hash of one repeated byte, as hex text. *)
Definition hash_of (b : byte) : bytes := hex_encode (replicate 32 b).

Definition sample_revoke (chunks : list bytes) : RevokePayload :=
  MkRevoke (bs "site.alt") chunks 1000 (bs "00ff") (bs "pk") (bs "sig").

Lemma revoke_order_independent_witness :
  revokeID (sample_revoke [hash_of Byte.x01; hash_of Byte.x02])
  = revokeID (sample_revoke [hash_of Byte.x02; hash_of Byte.x01]).
Proof.
  apply revoke_order_independent; [done| |done|done]. unfold sample_revoke.
  cbn [rp_Chunks fmap list_fmap]. apply Permutation_swap.
Defined.

Lemma canonical_injective_witness :
  exists p q, one_line_fields p /\ one_line_fields q /\ p <> q
    /\ (normalise <$> rp_Chunks p) ≡ₚ (normalise <$> rp_Chunks q).
Proof.
  exists (sample_revoke [hash_of Byte.x01; hash_of Byte.x02]),
         (sample_revoke [hash_of Byte.x02; hash_of Byte.x01]).
  assert (forall l, forallb (fun c => bool_decide (newline ∉ normalise c)) l = true -> l <> [] ->
    one_line_fields (sample_revoke l)) as Hol.
  { intros l Hl Hne. split_and!; [by vm_compute; set_solver|by vm_compute; set_solver|done|].
    apply Forall_forall. intros c Hc. rewrite forallb_forall in Hl.
    by apply list_elem_of_In, Hl, bool_decide_eq_true_1 in Hc. }
  assert (one_line_fields (sample_revoke [hash_of Byte.x01; hash_of Byte.x02])) as H1
    by (apply Hol; [by vm_compute|done]).
  assert (one_line_fields (sample_revoke [hash_of Byte.x02; hash_of Byte.x01])) as H2
    by (apply Hol; [by vm_compute|done]).
  split_and!; [done|done|intros E; by vm_compute in E|].
  apply (canonical_injective _ _ H1 H2). by vm_compute.
Defined.
