(* ===== verification/NodeId.v ===== *)
(** * Node identifiers and the XOR metric (core/dht/id.go)

    A [NodeID] is the Go array type [[32]byte]: a byte list of length 32.
    The loops of [Equal], [CommonPrefixLen] and [DistanceLess] are translated
    as they are; the theorems relate them to the 256-bit integer distance. *)

From S2P Require Import Prelude GoStrings Encoding.

Definition IDSize : nat := 32.

Record NodeID := MkID {
  id_bytes : bytes;
  id_len : Is_true (length id_bytes =? IDSize)%nat
}.

Lemma id_length (n : NodeID) : length (id_bytes n) = IDSize.
Proof. apply Nat.eqb_eq, Is_true_eq_true, id_len. Qed.

Lemma NodeID_eq (a b : NodeID) : id_bytes a = id_bytes b -> a = b.
Proof.
  destruct a as [la pa], b as [lb pb]; simpl. intros ->.
  f_equal. apply Is_true_pi.
Qed.

#[global] Instance NodeID_eq_dec : EqDecision NodeID.
Proof.
  intros a b. destruct (decide (id_bytes a = id_bytes b)) as [E|E].
  - left. by apply NodeID_eq.
  - right. congruence.
Defined.

Lemma pad_len (l : bytes) :
  Is_true (length (take IDSize (l ++ replicate IDSize Byte.x00)) =? IDSize)%nat.
Proof.
  apply Is_true_eq_left, Nat.eqb_eq.
  rewrite length_take, length_app, length_replicate. unfold IDSize. lia.
Qed.

(** [var id NodeID; copy(id[:], raw)]. *)
Definition id_copy (raw : bytes) : NodeID :=
  MkID (take IDSize (raw ++ replicate IDSize Byte.x00)) (pad_len raw).

Lemma id_copy_full raw : length raw = IDSize -> id_bytes (id_copy raw) = raw.
Proof. intros H. simpl. rewrite <- H at 1. apply take_app_length. Qed.

Lemma id_copy_bytes (n : NodeID) : id_copy (id_bytes n) = n.
Proof. apply NodeID_eq, id_copy_full, id_length. Qed.

(** ** Operations *)

Inductive id_error := ErrHex | ErrIDSize.

Definition IDFromHex (s : bytes) : result id_error NodeID :=
  match hex_decode s with
  | None => Err ErrHex
  | Some raw =>
      if negb (length raw =? IDSize)%nat then Err ErrIDSize else Ok (id_copy raw)
  end.

Definition Hex (n : NodeID) : bytes := hex_encode (id_bytes n).

Definition String (n : NodeID) : bytes := take 8 (Hex n).

Fixpoint equal_loop (n other : bytes) : bool :=
  match n, other with
  | a :: n', b :: other' => if bool_decide (a <> b) then false else equal_loop n' other'
  | _, _ => true
  end.

Definition Equal (n other : NodeID) : bool := equal_loop (id_bytes n) (id_bytes other).

Definition byte_xor (a b : byte) : byte := of_u8 (Z.lxor (u8 a) (u8 b)).

Lemma xor_len (n other : NodeID) :
  Is_true (length (zip_with byte_xor (id_bytes n) (id_bytes other)) =? IDSize)%nat.
Proof.
  apply Is_true_eq_left, Nat.eqb_eq. rewrite length_zip_with, !id_length. done.
Qed.

Definition XOR (n other : NodeID) : NodeID :=
  MkID (zip_with byte_xor (id_bytes n) (id_bytes other)) (xor_len n other).

(** [for j := 0; j < 8; j++ { if x&(1<<(7-j)) != 0 { return j } }] *)
Definition first_bit (x : Z) : option nat :=
  fst <$> list_find (fun j => Z.land x (Z.shiftl 1 (7 - Z.of_nat j)) <> 0) (seq 0 8).

Fixpoint cpl_loop (i : nat) (n other : bytes) : nat :=
  match n, other with
  | a :: n', b :: other' =>
      let x := u8 (byte_xor a b) in
      if x =? 0 then cpl_loop (S i) n' other'
      else match first_bit x with
           | Some j => (i * 8 + j)%nat
           | None => cpl_loop (S i) n' other'
           end
  | _, _ => (IDSize * 8)%nat
  end.

Definition CommonPrefixLen (n other : NodeID) : nat :=
  cpl_loop 0 (id_bytes n) (id_bytes other).

Fixpoint distance_less_loop (self a b : bytes) : bool :=
  match self, a, b with
  | s :: self', x :: a', y :: b' =>
      let da := byte_xor s x in
      let db := byte_xor s y in
      if bool_decide (da <> db) then u8 da <? u8 db
      else distance_less_loop self' a' b'
  | _, _, _ => false
  end.

Definition DistanceLess (self a b : NodeID) : bool :=
  distance_less_loop (id_bytes self) (id_bytes a) (id_bytes b).

Definition distanceBigInt (a b : NodeID) : Z := be_decode (id_bytes (XOR a b)).

(** * Facts *)

(** ** Identity and text form *)

Lemma equal_loop_spec l1 l2 :
  length l1 = length l2 -> equal_loop l1 l2 = true <-> l1 = l2.
Proof.
  revert l2. induction l1 as [|a l1 IH]; intros [|b l2]; simpl; try done.
  intros [= Hl]. case_bool_decide as Hab; [naive_solver|].
  rewrite IH by done. assert (a = b) by (destruct (decide (a = b)); naive_solver).
  naive_solver.
Qed.

Lemma Equal_spec a b : Equal a b = bool_decide (a = b).
Proof.
  apply eq_bool_prop_intro. rewrite bool_decide_spec, Is_true_true.
  unfold Equal. rewrite equal_loop_spec by by rewrite !id_length.
  split; [apply NodeID_eq|congruence].
Qed.

#[global] Instance Hex_inj : Inj (=) (=) Hex.
Proof. intros a b H. by apply NodeID_eq, (inj hex_encode). Qed.

Lemma Hex_length n : length (Hex n) = 64%nat.
Proof. unfold Hex. by rewrite hex_encode_length, id_length. Qed.

Lemma Hex_lower_plain n : forallb lower_plain (Hex n) = true.
Proof. apply hex_encode_lower_plain. Qed.

Lemma IDFromHex_Ok s n :
  IDFromHex s = Ok n <-> hex_decode s = Some (id_bytes n).
Proof.
  unfold IDFromHex. destruct (hex_decode s) as [raw|]; [|done].
  destruct (Nat.eqb_spec (length raw) IDSize) as [E|E]; simpl.
  - split.
    + intros [= <-]. by rewrite id_copy_full.
    + intros [= ->]. by rewrite id_copy_bytes.
  - split; [done|]. intros [= ->]. by rewrite id_length in E.
Qed.

(** Parsing undoes printing. *)
Lemma IDFromHex_Hex n : IDFromHex (Hex n) = Ok n.
Proof. apply IDFromHex_Ok, hex_decode_encode. Qed.

(** What a parsed ID prints as: the parsed text in lower case. *)
Lemma Hex_IDFromHex s n :
  IDFromHex s = Ok n -> Hex n = map lower_byte s /\ length s = 64%nat.
Proof.
  intros [H _]%IDFromHex_Ok%hex_decode_lower. unfold Hex. rewrite <- H.
  split; [done|]. apply (f_equal length) in H.
  rewrite length_map in H. by rewrite H, hex_encode_length, id_length.
Qed.

(** ** The XOR distance as an integer *)

Lemma testbit_split a x k i :
  0 <= k -> 0 <= i -> 0 <= x < 2 ^ k ->
  Z.testbit (a * 2 ^ k + x) i = if i <? k then Z.testbit x i else Z.testbit a (i - k).
Proof.
  intros Hk Hi Hx. destruct (Z.ltb_spec i k).
  - rewrite <- (Z.mod_pow2_bits_low _ k) by lia.
    rewrite Z.add_comm, Z.mod_add, Z.mod_small by lia. done.
  - replace i with (i - k + k) at 1 by lia. rewrite <- Z.div_pow2_bits by lia.
    rewrite Z.add_comm, Z.div_add, Z.div_small by lia. done.
Qed.

Lemma lxor_range x y k :
  0 <= k -> 0 <= x < 2 ^ k -> 0 <= y < 2 ^ k -> 0 <= Z.lxor x y < 2 ^ k.
Proof.
  intros Hk Hx Hy. replace (Z.lxor x y) with (Z.lxor x y mod 2 ^ k);
    [apply Z.mod_pos_bound; lia|].
  apply Z.bits_inj'. intros i Hi. destruct (Z.ltb_spec i k).
  - by apply Z.mod_pow2_bits_low.
  - rewrite Z.mod_pow2_bits_high by lia. symmetry. rewrite Z.lxor_spec.
    rewrite <- (Z.mod_small x (2 ^ k)), <- (Z.mod_small y (2 ^ k)) by lia.
    by rewrite !Z.mod_pow2_bits_high by lia.
Qed.

Lemma lxor_split a b x y k :
  0 <= k -> 0 <= x < 2 ^ k -> 0 <= y < 2 ^ k ->
  Z.lxor (a * 2 ^ k + x) (b * 2 ^ k + y) = Z.lxor a b * 2 ^ k + Z.lxor x y.
Proof.
  intros Hk Hx Hy. apply Z.bits_inj'. intros i Hi.
  pose proof (lxor_range x y k Hk Hx Hy).
  rewrite Z.lxor_spec, !testbit_split by done.
  destruct (i <? k); by rewrite Z.lxor_spec.
Qed.

Lemma u8_byte_xor a b : u8 (byte_xor a b) = Z.lxor (u8 a) (u8 b).
Proof.
  unfold byte_xor. rewrite u8_of_u8. apply Z.mod_small.
  apply (lxor_range _ _ 8); [lia|apply u8_range..].
Qed.

Lemma pow256 n : 256 ^ Z.of_nat n = 2 ^ (8 * Z.of_nat n).
Proof. by rewrite Z.pow_mul_r by lia. Qed.

Lemma be_decode_xor l1 l2 :
  length l1 = length l2 ->
  be_decode (zip_with byte_xor l1 l2) = Z.lxor (be_decode l1) (be_decode l2).
Proof.
  revert l2. induction l1 as [|a l1 IH]; intros [|b l2]; simpl; try done.
  intros [= Hl]. rewrite IH by done.
  rewrite length_zip_with_l_eq by done. rewrite <- Hl, u8_byte_xor, pow256.
  pose proof (be_decode_range l1) as H1. pose proof (be_decode_range l2) as H2.
  rewrite <- Hl in H2. rewrite pow256 in *. symmetry. apply lxor_split; [lia|done..].
Qed.

(** The integer a NodeID stands for. *)
Definition id_Z (n : NodeID) : Z := be_decode (id_bytes n).

Lemma id_Z_range n : 0 <= id_Z n < 2 ^ 256.
Proof.
  unfold id_Z. pose proof (be_decode_range (id_bytes n)) as H.
  by rewrite id_length, pow256 in H.
Qed.

Lemma id_Z_inj a b : id_Z a = id_Z b -> a = b.
Proof. intros H. apply NodeID_eq, be_decode_inj; [by rewrite !id_length|done]. Qed.

Lemma distanceBigInt_lxor a b : distanceBigInt a b = Z.lxor (id_Z a) (id_Z b).
Proof. apply be_decode_xor. by rewrite !id_length. Qed.

Lemma distance_range a b : 0 <= distanceBigInt a b < 2 ^ 256.
Proof.
  rewrite distanceBigInt_lxor. apply lxor_range; [lia|apply id_Z_range..].
Qed.

Lemma distance_sym a b : distanceBigInt a b = distanceBigInt b a.
Proof. rewrite !distanceBigInt_lxor. apply Z.lxor_comm. Qed.

Lemma distance_zero a b : distanceBigInt a b = 0 <-> a = b.
Proof.
  rewrite distanceBigInt_lxor, Z.lxor_eq_0_iff. split; [apply id_Z_inj|congruence].
Qed.

Lemma distance_inj t a b : distanceBigInt t a = distanceBigInt t b -> a = b.
Proof.
  rewrite !distanceBigInt_lxor. intros H. apply id_Z_inj.
  apply (f_equal (Z.lxor (id_Z t))) in H.
  by rewrite <- !Z.lxor_assoc, Z.lxor_nilpotent, !Z.lxor_0_l in H.
Qed.

Lemma lxor_le_add x y : 0 <= x -> 0 <= y -> Z.lxor x y <= x + y.
Proof.
  intros Hx Hy. pose proof (Z.add_lxor_2land x y).
  assert (0 <= Z.land x y) by (apply Z.land_nonneg; lia). lia.
Qed.

Lemma distance_triangle a b c :
  distanceBigInt a c <= distanceBigInt a b + distanceBigInt b c.
Proof.
  pose proof (distance_range a b). pose proof (distance_range b c).
  rewrite !distanceBigInt_lxor in *.
  replace (Z.lxor (id_Z a) (id_Z c))
    with (Z.lxor (Z.lxor (id_Z a) (id_Z b)) (Z.lxor (id_Z b) (id_Z c))).
  - apply lxor_le_add; lia.
  - by rewrite Z.lxor_assoc, <- (Z.lxor_assoc (id_Z b)), Z.lxor_nilpotent, Z.lxor_0_l.
Qed.

(** (id.go, [XOR]): the XOR of two IDs, read as a 256-bit big-endian
    integer, is a metric: symmetric, zero exactly on equal IDs, and it obeys the
    triangle inequality; and it is unidirectional, one ID per distance. *)
Theorem xor_metric (a b c : NodeID) :
  distanceBigInt a b = distanceBigInt b a
  /\ (distanceBigInt a b = 0 <-> Equal a b = true)
  /\ distanceBigInt a c <= distanceBigInt a b + distanceBigInt b c
  /\ (distanceBigInt a b = distanceBigInt a c -> b = c).
Proof.
  rewrite Equal_spec, bool_decide_eq_true.
  eauto using distance_sym, distance_zero, distance_triangle, distance_inj.
Qed.

(** ** [DistanceLess] compares distances *)

Lemma digit_lt p x y r t :
  0 <= r < p -> 0 <= t < p -> x < y -> x * p + r < y * p + t.
Proof. nia. Qed.

Lemma distance_less_loop_spec s a b :
  length s = length a -> length s = length b ->
  distance_less_loop s a b
  = (be_decode (zip_with byte_xor s a) <? be_decode (zip_with byte_xor s b)).
Proof.
  revert a b. induction s as [|x s IH]; intros [|y a] [|z b]; simpl; try done.
  intros [= Ha] [= Hb].
  pose proof (be_decode_range (zip_with byte_xor s a)) as Ra.
  pose proof (be_decode_range (zip_with byte_xor s b)) as Rb.
  rewrite !length_zip_with_l_eq in * by done.
  case_bool_decide as Hd.
  - assert (u8 (byte_xor x y) <> u8 (byte_xor x z)) by (by intros ?%u8_inj).
    set (p := 256 ^ Z.of_nat (length s)) in *.
    destruct (Z.ltb_spec (u8 (byte_xor x y)) (u8 (byte_xor x z)));
      symmetry; [apply Z.ltb_lt|apply Z.ltb_ge, Z.lt_le_incl]; apply digit_lt; lia.
  - rewrite IH by done. assert (byte_xor x y = byte_xor x z) as ->
      by (destruct (decide (byte_xor x y = byte_xor x z)); naive_solver).
    set (p := 256 ^ Z.of_nat (length s)) in *.
    destruct (Z.ltb_spec (be_decode (zip_with byte_xor s a)) (be_decode (zip_with byte_xor s b)));
      symmetry; [apply Z.ltb_lt|apply Z.ltb_ge]; lia.
Qed.

(** (id.go, [DistanceLess]): the byte-wise comparison loop decides exactly
    the order of the two XOR distances as 256-bit integers. *)
Theorem DistanceLess_spec (self a b : NodeID) :
  DistanceLess self a b = (distanceBigInt self a <? distanceBigInt self b).
Proof. apply distance_less_loop_spec; by rewrite !id_length. Qed.

(** ** [CommonPrefixLen] is the position of the first differing bit *)

Lemma first_bit_spec b :
  u8 b <> 0 -> first_bit (u8 b) = Some (Z.to_nat (7 - Z.log2 (u8 b))).
Proof. destruct b; try (intros _; vm_compute; reflexivity). by intros []. Qed.

Lemma log2_split x y k :
  0 < x -> 0 <= k -> 0 <= y < 2 ^ k -> Z.log2 (x * 2 ^ k + y) = Z.log2 x + k.
Proof.
  intros Hx Hk Hy. pose proof (Z.log2_spec x Hx) as [Hl Hu]. pose proof (Z.log2_nonneg x).
  apply Z.log2_unique; [lia|].
  replace (Z.succ (Z.log2 x + k)) with (Z.succ (Z.log2 x) + k) by lia.
  rewrite !Z.pow_add_r by lia. nia.
Qed.

Lemma cpl_loop_spec i n o :
  length n = length o -> (i + length n = IDSize)%nat ->
  let d := be_decode (zip_with byte_xor n o) in
  Z.of_nat (cpl_loop i n o) = if d =? 0 then 256 else 255 - Z.log2 d.
Proof.
  revert i o. induction n as [|a n IH]; intros i [|b o]; simpl; try done.
  intros [= Hl] Hi. pose proof (be_decode_range (zip_with byte_xor n o)) as R.
  rewrite length_zip_with_l_eq, pow256 in * by done.
  pose proof (u8_range (byte_xor a b)).
  destruct (Z.eqb_spec (u8 (byte_xor a b)) 0) as [E|E].
  - rewrite IH by (done || lia). by rewrite E, Z.mul_0_l, Z.add_0_l.
  - rewrite first_bit_spec by done. pose proof (Z.log2_nonneg (u8 (byte_xor a b))).
    assert (Z.log2 (u8 (byte_xor a b)) <= 7) by (apply Z.lt_succ_r, Z.log2_lt_pow2; lia).
    rewrite (proj2 (Z.eqb_neq _ 0)) by nia. rewrite log2_split by lia.
    unfold IDSize in *. lia.
Qed.

Lemma CommonPrefixLen_log2 a b :
  Z.of_nat (CommonPrefixLen a b)
  = if distanceBigInt a b =? 0 then 256 else 255 - Z.log2 (distanceBigInt a b).
Proof. apply cpl_loop_spec; rewrite !id_length; done. Qed.

Lemma CommonPrefixLen_le a b : (CommonPrefixLen a b <= 256)%nat.
Proof.
  pose proof (CommonPrefixLen_log2 a b) as H. pose proof (Z.log2_nonneg (distanceBigInt a b)).
  destruct (distanceBigInt a b =? 0); lia.
Qed.

Lemma CommonPrefixLen_256 a b : CommonPrefixLen a b = 256%nat <-> a = b.
Proof.
  pose proof (CommonPrefixLen_log2 a b) as H. pose proof (Z.log2_nonneg (distanceBigInt a b)).
  destruct (Z.eqb_spec (distanceBigInt a b) 0) as [E|E].
  - split; [intros _; by apply distance_zero|lia].
  - split; [lia|intros ->]. by destruct E; apply distance_zero.
Qed.

Lemma CommonPrefixLen_lt a b : a <> b -> (CommonPrefixLen a b < 256)%nat.
Proof.
  intros H. pose proof (CommonPrefixLen_le a b).
  assert (CommonPrefixLen a b <> 256%nat) by (by rewrite CommonPrefixLen_256). lia.
Qed.

Lemma CommonPrefixLen_Equal_lt a b : Equal a b = false -> (CommonPrefixLen b a < 256)%nat.
Proof. rewrite Equal_spec, bool_decide_eq_false. intros. by apply CommonPrefixLen_lt. Qed.

(** (id.go, [CommonPrefixLen]): the nested loops return the number of leading
    bits the two IDs share, most significant bit first: all bits before that
    position agree, the bit at that position differs, and the result is 256
    exactly for equal IDs.  Sharing a longer prefix with a target means being
    strictly closer to it. *)
Theorem CommonPrefixLen_spec (a b : NodeID) :
  let n := CommonPrefixLen a b in
  (forall i, (i < n)%nat ->
     Z.testbit (id_Z a) (255 - Z.of_nat i) = Z.testbit (id_Z b) (255 - Z.of_nat i))
  /\ ((n < 256)%nat ->
      Z.testbit (id_Z a) (255 - Z.of_nat n) <> Z.testbit (id_Z b) (255 - Z.of_nat n))
  /\ (n = 256%nat <-> a = b)
  /\ (forall c, (CommonPrefixLen a c < n)%nat -> DistanceLess a b c = true).
Proof.
  intros n. pose proof (CommonPrefixLen_log2 a b) as H. pose proof (CommonPrefixLen_le a b).
  pose proof (distance_range a b) as R. fold n in H.
  remember (distanceBigInt a b) as d eqn:Ed.
  assert (forall j, Z.testbit d j = xorb (Z.testbit (id_Z a) j) (Z.testbit (id_Z b) j)) as Hd.
  { intros j. by rewrite Ed, distanceBigInt_lxor, Z.lxor_spec. }
  split_and!.
  - intros i Hi. apply xorb_eq. rewrite <- Hd. destruct (Z.eqb_spec d 0) as [->|E].
    + apply Z.bits_0.
    + apply Z.bits_above_log2; lia.
  - intros Hn Hc. destruct (Z.eqb_spec d 0) as [E|E]; [lia|].
    assert (Z.testbit d (255 - Z.of_nat n) = true) as Hb.
    { replace (255 - Z.of_nat n) with (Z.log2 d) by lia. apply Z.bit_log2. lia. }
    rewrite Hd, Hc, xorb_nilpotent in Hb. done.
  - apply CommonPrefixLen_256.
  - intros c Hc. rewrite DistanceLess_spec, <- Ed. apply Z.ltb_lt.
    pose proof (CommonPrefixLen_log2 a c) as Hlc. pose proof (distance_range a c).
    destruct (Z.eqb_spec (distanceBigInt a c) 0) as [E'|E']; [lia|].
    destruct (Z.eqb_spec d 0) as [E|E]; [lia|]. apply Z.log2_lt_cancel. lia.
Qed.

(** ** Order facts used by the routing table and the lookups *)

Lemma DistanceLess_irrefl t a : DistanceLess t a a = false.
Proof. rewrite DistanceLess_spec. apply Z.ltb_irrefl. Qed.

Lemma DistanceLess_true t a b :
  DistanceLess t a b = true <-> distanceBigInt t a < distanceBigInt t b.
Proof. rewrite DistanceLess_spec. apply Z.ltb_lt. Qed.

Lemma DistanceLess_false t a b :
  DistanceLess t a b = false <-> distanceBigInt t b <= distanceBigInt t a.
Proof. rewrite DistanceLess_spec. apply Z.ltb_ge. Qed.

#[export] Hint Resolve Hex_lower_plain IDFromHex_Hex CommonPrefixLen_lt : altnet.
