(* ===== verification/Blocklist.v ===== *)
(** * The chunk-hash blocklist (core/dht/blocklist.go)

    A [*Blocklist] is [None] when nil, otherwise the set of blocked hashes, each
    the hex text of a key.  The mutex makes every method atomic. *)

From S2P Require Import Prelude GoStrings Encoding NodeId.

Abbreviation Blocklist := (option (gset bytes)).

Definition NewBlocklist : Blocklist := Some ∅.

(** ** Reading a file *)

(** [bufio.MaxScanTokenSize] *)
Definition max_token : nat := Z.to_nat (64 * 1024).

(** [bufio.ScanLines] drops one carriage return before the newline. *)
Definition drop_cr (line : bytes) : bytes := TrimSuffix line [Byte.x0d].

(** The lines a [bufio.Scanner] yields before a line that does not fit its
    buffer, and whether it met one ([sc.Err() != nil]). *)
Fixpoint scan_fitting (lines : list bytes) : list bytes * bool :=
  match lines with
  | [] => ([], false)
  | [l] => if bool_decide (l = []) then ([], false)
           else if (max_token <=? length l)%nat then ([], true) else ([drop_cr l], false)
  | l :: lines' =>
      if (max_token <=? length l)%nat then ([], true)
      else let '(out, err) := scan_fitting lines' in (drop_cr l :: out, err)
  end.

Definition scan_lines (content : bytes) : list bytes * bool :=
  scan_fitting (SplitByte content Byte.x0a).

Section Blocklist.
Context `{GoUnicode}.

(** The hash one line adds, if any. *)
Definition line_hash (text : bytes) : option bytes :=
  let line := TrimSpace text in
  if bool_decide (line = []) || HasPrefix line (bs "#") then None else
  let line := match IndexByte line Byte.x23 with
              | Some i => TrimSpace (take i line)
              | None => line
              end in
  if negb (is_ok (IDFromHex (ToLower line))) then None else Some (ToLower line).

Definition add_line (hashes : gset bytes) (text : bytes) : gset bytes :=
  match line_hash text with Some h => {[h]} ∪ hashes | None => hashes end.

(** The file: absent, unreadable, or its content. *)
Inductive file_state := Absent | Unreadable | Content (b : bytes).

(** The blocklist and whether an error is returned with it; [None] with an
    error is the nil blocklist of a file that cannot be opened. *)
Definition LoadBlocklistFromFile (f : file_state) : Blocklist * bool :=
  match f with
  | Absent => (NewBlocklist, false)
  | Unreadable => (None, true)
  | Content b =>
      let '(lines, err) := scan_lines b in
      (Some (foldl add_line ∅ lines), err)
  end.

Definition Blocklist_Contains (b : Blocklist) (key : NodeID) : bool :=
  match b with
  | None => false
  | Some hashes => bool_decide (Hex key ∈ hashes)
  end.

Definition Blocklist_Size (b : Blocklist) : nat :=
  match b with None => 0 | Some hashes => size hashes end.

Definition Blocklist_Add (b : Blocklist) (key : NodeID) : Blocklist * bool :=
  match b with
  | None => (None, false)
  | Some hashes =>
      if bool_decide (Hex key ∈ hashes) then (b, false) else (Some ({[Hex key]} ∪ hashes), true)
  end.

(** * Facts *)

Lemma Add_Contains b key k :
  Blocklist_Contains (fst (Blocklist_Add b key)) k
  = match b with None => false | Some _ => bool_decide (k = key) || Blocklist_Contains b k end.
Proof.
  destruct b as [hs|]; [|done]. simpl. destruct (decide (Hex key ∈ hs)) as [Hk|Hk].
  - rewrite bool_decide_eq_true_2 by done. simpl. case_bool_decide as E1.
    + by rewrite orb_true_r.
    + rewrite bool_decide_eq_false_2; [done|]. intros ->. done.
  - rewrite bool_decide_eq_false_2 by done. simpl. apply eq_bool_prop_intro.
    rewrite orb_True, !bool_decide_spec, elem_of_union, elem_of_singleton.
    split; (intros [E|E]; [left|by right]).
    + by apply (inj Hex).
    + by rewrite E.
Qed.

Lemma load_lines_spec lines hs h :
  h ∈ foldl add_line hs lines
  <-> h ∈ hs \/ exists l, l ∈ lines /\ line_hash l = Some h.
Proof.
  revert hs. induction lines as [|l lines IH]; intros hs; simpl; [set_solver|].
  rewrite IH. unfold add_line. destruct (line_hash l) as [h'|] eqn:E.
  - rewrite elem_of_union, elem_of_singleton. split.
    + intros [[->|?]|(l' & ? & ?)]; [right|by left|right]; set_solver.
    + intros [?|(l' & [->|?]%elem_of_cons & Hl)]; [by auto| |eauto].
      left. left. congruence.
  - split.
    + intros [?|(l' & ? & ?)]; [by left|right; set_solver].
    + intros [?|(l' & [->|?]%elem_of_cons & Hl)]; [by auto|congruence|eauto].
Qed.

(** Everything on a loaded blocklist is the hex text of a key. *)
Lemma line_hash_valid l h : line_hash l = Some h -> exists n, IDFromHex h = Ok n.
Proof.
  unfold line_hash. destruct (_ || _); [done|].
  match goal with |- context [IDFromHex ?x] => destruct (IDFromHex x) as [n|] eqn:E end; [|done].
  simpl. intros [= <-]. eauto.
Qed.

(** (blocklist.go, [LoadBlocklistFromFile], [Contains]): a key is blocked by
    a loaded file exactly when some line before the first over-long one, once
    trimmed, cut at the first number sign and trimmed again, spells the key's
    hex form up to letter case; a missing file blocks nothing, and a file that
    cannot be opened yields no blocklist at all but an error. *)
Theorem loaded_blocklist_spec (f : file_state) (key : NodeID) :
  let '(bl, err) := LoadBlocklistFromFile f in
  (Blocklist_Contains bl key = true <->
   exists b l, f = Content b /\ l ∈ fst (scan_lines b) /\ line_hash l = Some (Hex key))
  /\ (err = true <-> f = Unreadable \/ exists b, f = Content b /\ snd (scan_lines b) = true).
Proof.
  destruct f as [| |b]; simpl.
  - split; [|naive_solver]. rewrite bool_decide_eq_true. set_solver.
  - naive_solver.
  - destruct (scan_lines b) as [lines err] eqn:E. cbn [fst snd] in *. simpl. split.
    + rewrite bool_decide_eq_true, load_lines_spec. split.
      * intros [?|(l & ? & ?)]; [set_solver|]. exists b, l. by rewrite E.
      * intros (b' & l & [= <-] & Hl & ?). rewrite E in Hl. eauto.
    + split; [intros ->; right; exists b; by rewrite E|].
      intros [?|(b' & [= <-] & ?)]; [done|]. by rewrite E in *.
Qed.

End Blocklist.
