(* ===== verification/Store.v ===== *)
(** * The local key-value store (core/dht/store.go)

    The maps of [localStore] are finite maps keyed by the 64-character hex text
    of a key, a Go map read of a missing key giving the zero value.  The store
    directory is a finite map from file names to contents and modification
    times.  [evictUntilUnder] ranges over a Go map and sorts with an unstable
    sort, so the order of keys last accessed at the same time is not
    determined: operations that evict take the order as an argument, and the
    theorems hold for every order the code can produce ([evict_order]). *)

From S2P Require Import Prelude GoStrings Encoding Sha256 NodeId.

Definition MaxValueSize : Z := 64 * 1024.
Definition DefaultStoreBudgetBytes : Z := Z.shiftl 1 30.
Definition DefaultPerPeerBudgetBytes : Z := Z.shiftl 64 20.

Definition ContentAddress (value : bytes) : NodeID := id_copy (sha256 value).

(** [len] of a byte slice, as an integer. *)
Definition len (v : bytes) : Z := Z.of_nat (length v).

Abbreviation directory := (gmap bytes (bytes * Time)).

Record localStore := MkStore {
  data : gmap bytes bytes;
  access : gmap bytes Time;
  total : Z;
  maxBytes : Z;
  dataDir : bool;                     (* [dataDir != ""] *)
  attribution : gmap bytes bytes;
  perPeer : gmap bytes Z;
  perPeerMax : Z;
  disk : directory                    (* the files of [dataDir] *)
}.

#[global] Instance localStore_eq_dec : EqDecision localStore.
Proof. solve_decision. Defined.

Definition newLocalStore : localStore := MkStore ∅ ∅ 0 0 false ∅ ∅ 0 ∅.

(** [s.perPeer[peer] -= size; if s.perPeer[peer] <= 0 { delete(s.perPeer, peer) }] *)
Definition debit (pp : gmap bytes Z) (peer : bytes) (size : Z) : gmap bytes Z :=
  let v := default 0 (pp !! peer) - size in
  if v <=? 0 then delete peer pp else <[peer := v]> pp.

(** The accounting for a value of [size] bytes that leaves key [hex]. *)
Definition debit_attr (s : localStore) (hex : bytes) (size : Z) : gmap bytes Z :=
  match attribution s !! hex with
  | Some attr => if bool_decide (attr <> []) then debit (perPeer s) attr size else perPeer s
  | None => perPeer s
  end.

(** Dropping one entry: the body [Delete] and [evictUntilUnder] share. *)
Definition drop_entry (s : localStore) (hex : bytes) : localStore :=
  match data s !! hex with
  | None => s
  | Some v =>
      let size := len v in
      MkStore (delete hex (data s)) (delete hex (access s)) (total s - size) (maxBytes s)
        (dataDir s) (delete hex (attribution s)) (debit_attr s hex size) (perPeerMax s)
        (if dataDir s then delete hex (disk s) else disk s)
  end.

Fixpoint evict_loop (cap : Z) (entries : list bytes) (s : localStore) : localStore :=
  match entries with
  | [] => s
  | hex :: entries' =>
      if total s <=? cap then s else evict_loop cap entries' (drop_entry s hex)
  end.

(** [entry.when] *)
Definition last_access (s : localStore) (hex : bytes) : Time := default 0 (access s !! hex).

Definition evictUntilUnder (ord : localStore -> list bytes) (cap : Z) (s : localStore)
  : localStore :=
  if (cap <=? 0) && (maxBytes s <=? 0) then s
  else if total s <=? cap then s
  else evict_loop cap (ord s) s.

Definition evictToFit (ord : localStore -> list bytes) (needed : Z) (s : localStore)
  : localStore :=
  if maxBytes s <=? 0 then s else
  let target := maxBytes s - needed in
  let target := if target <? 0 then 0 else target in
  evictUntilUnder ord target s.

(** ** [writeAtomic] *)

(** Where a [writeAtomic] stops. *)
Inductive write_stage := OpenFails | CopyFails | SyncFails | CloseFails | RenameFails | Renamed.

Definition tmp_name (path : bytes) : bytes := path ++ bs ".tmp".

(** The directories [writeAtomic] goes through, the last one being its result,
    and whether it returns without error.  [part] is what had been copied when
    a copy failed. *)
Definition writeAtomic_trace (st : write_stage) (part path data : bytes) (now : Time)
    (d : directory) : list directory * bool :=
  let tmp := tmp_name path in
  let created := <[tmp := ([], now)]> d in
  let copied := <[tmp := (data, now)]> d in
  match st with
  | OpenFails => ([d], false)
  | CopyFails => ([d; created; <[tmp := (part, now)]> d; delete tmp d], false)
  | SyncFails | CloseFails => ([d; created; copied; delete tmp d], false)
  | RenameFails => ([d; created; copied], false)
  | Renamed => ([d; created; copied; <[path := (data, now)]> (delete tmp d)], true)
  end.

Definition writeAtomic (st : write_stage) (part path data : bytes) (now : Time) (d : directory)
  : directory := default d (last (fst (writeAtomic_trace st part path data now d))).

(** ** Operations *)

Definition with_disk (s : localStore) (d : directory) : localStore :=
  MkStore (data s) (access s) (total s) (maxBytes s) (dataDir s) (attribution s) (perPeer s)
    (perPeerMax s) d.

(** The per-peer admission check of [put]. *)
Definition admitted (s : localStore) (hex : bytes) (size : Z) (peerID : bytes) : bool :=
  if bool_decide (peerID <> []) && (0 <? perPeerMax s) then
    let current := default 0 (perPeer s !! peerID) in
    let current :=
      if bool_decide (attribution s !! hex = Some peerID)
      then match data s !! hex with Some old => current - len old | None => current end
      else current in
    negb (perPeerMax s <? current + size)
  else true.

(** The refund of [put] when it overwrites an entry; the entry itself stays. *)
Definition refund (s : localStore) (hex : bytes) : localStore :=
  match data s !! hex with
  | None => s
  | Some old =>
      MkStore (data s) (access s) (total s - len old) (maxBytes s) (dataDir s) (attribution s)
        (debit_attr s hex (len old)) (perPeerMax s) (disk s)
  end.

(** The assignments of [put] once there is room. *)
Definition record_entry (s : localStore) (hex value peerID : bytes) (now : Time) : localStore :=
  let size := len value in
  MkStore (<[hex := value]> (data s)) (<[hex := now]> (access s)) (total s + size) (maxBytes s)
    (dataDir s)
    (if bool_decide (peerID <> []) then <[hex := peerID]> (attribution s)
     else delete hex (attribution s))
    (if bool_decide (peerID <> [])
     then <[peerID := default 0 (perPeer s !! peerID) + size]> (perPeer s) else perPeer s)
    (perPeerMax s) (disk s).

(** How the environment answers one [put]: the clock, the order an eviction
    uses, and how the file write ends. *)
Record put_env := MkPutEnv {
  pe_now : Time;
  pe_ord : localStore -> list bytes;
  pe_write : write_stage;
  pe_part : bytes
}.

(** [put] while it holds the mutex; [None] is the early [return false]. *)
Definition put_locked (e : put_env) (s : localStore) (hex value peerID : bytes)
  : option localStore :=
  if negb (admitted s hex (len value) peerID) then None else
  let s := refund s hex in
  let s := evictToFit (pe_ord e) (len value) s in
  Some (record_entry s hex value peerID (pe_now e)).

Definition put (e : put_env) (s : localStore) (key : NodeID) (value peerID : bytes)
  : localStore * bool :=
  let hex := Hex key in
  match put_locked e s hex value peerID with
  | None => (s, false)
  | Some s' =>
      (if dataDir s' then
         with_disk s' (writeAtomic (pe_write e) (pe_part e) hex value (pe_now e) (disk s'))
       else s', true)
  end.

Definition Put (e : put_env) (s : localStore) (key : NodeID) (value : bytes) : localStore :=
  fst (put e s key value []).

Definition PutAttributed (e : put_env) (s : localStore) (key : NodeID) (value peerID : bytes)
  : localStore * bool := put e s key value peerID.

Definition SetPerPeerMax (s : localStore) (max : Z) : localStore :=
  MkStore (data s) (access s) (total s) (maxBytes s) (dataDir s) (attribution s) (perPeer s)
    max (disk s).

Definition PerPeerUsage (s : localStore) (peerID : bytes) : Z := default 0 (perPeer s !! peerID).

Definition Delete (s : localStore) (key : NodeID) : localStore := drop_entry s (Hex key).

Definition Get (s : localStore) (now : Time) (key : NodeID) : localStore * option bytes :=
  let hex := Hex key in
  match data s !! hex with
  | None => (s, None)
  | Some v =>
      (MkStore (data s) (<[hex := now]> (access s)) (total s) (maxBytes s) (dataDir s)
         (attribution s) (perPeer s) (perPeerMax s) (disk s), Some v)
  end.

Definition store_Size (s : localStore) : nat := size (data s).

Definition TotalBytes (s : localStore) : Z := total s.

(** ** Starting from a directory *)

(** What [os.ReadDir], [os.ReadFile] and [entry.Info] give for one name. *)
Record dir_entry := MkEntry {
  de_name : bytes;
  de_is_dir : bool;
  de_content : option bytes;
  de_mtime : option Time
}.

(** [filepath.Ext] of a name without separators. *)
Definition Ext (name : bytes) : bytes :=
  match LastIndexByte name Byte.x2e with Some i => drop i name | None => [] end.

Definition load_entry (now : Time) (s : localStore) (e : dir_entry) : localStore :=
  if de_is_dir e then s else
  let hexName := de_name e in
  if bool_decide (Ext hexName = bs ".tmp") then s else
  if negb (is_ok (IDFromHex hexName)) then s else
  match de_content e with
  | None => s
  | Some v =>
      if MaxValueSize <? len v then s else
      MkStore (<[hexName := v]> (data s)) (<[hexName := default now (de_mtime e)]> (access s))
        (total s + len v) (maxBytes s) (dataDir s) (attribution s) (perPeer s) (perPeerMax s)
        (disk s)
  end.

Definition loadFromDisk (now : Time) (entries : list dir_entry) (s : localStore) : localStore :=
  foldl (load_entry now) s entries.

(** The listing of a directory that holds only readable files. *)
Definition listing (d : directory) : list dir_entry :=
  (fun kv => MkEntry (fst kv) false (Some (fst (snd kv))) (Some (snd (snd kv)))) <$> map_to_list d.

(** [dir] is [None] for the empty string; [entries] is what the store directory
    lists, [None] an error of [os.MkdirAll] or [os.ReadDir]. *)
Definition newLocalStoreWithLimit (ord : localStore -> list bytes) (now : Time)
    (dir : option directory) (entries : option (list dir_entry)) (maxBytes : Z)
  : option localStore :=
  match dir with
  | None => Some (MkStore ∅ ∅ 0 maxBytes false ∅ ∅ 0 ∅)
  | Some d =>
      match entries with
      | None => None
      | Some l =>
          let s := loadFromDisk now l (MkStore ∅ ∅ 0 maxBytes true ∅ ∅ 0 d) in
          Some (evictUntilUnder ord maxBytes s)
      end
  end.

Definition newLocalStoreWithDir (ord : localStore -> list bytes) (now : Time)
    (dir : option directory) (entries : option (list dir_entry)) : option localStore :=
  newLocalStoreWithLimit ord now dir entries 0.

(** * Facts *)

(** ** Sums over a map *)

Definition msum {V} (f : bytes -> V -> Z) (m : gmap bytes V) : Z :=
  map_fold (fun k v acc => f k v + acc) 0 m.

Lemma msum_empty {V} (f : bytes -> V -> Z) : msum f ∅ = 0.
Proof. apply map_fold_empty. Qed.

Lemma msum_insert {V} (f : bytes -> V -> Z) k v m :
  m !! k = None -> msum f (<[k := v]> m) = f k v + msum f m.
Proof. intros H. unfold msum. rewrite map_fold_insert_L; [done|intros; lia|done]. Qed.

Lemma msum_delete {V} (f : bytes -> V -> Z) k v m :
  m !! k = Some v -> msum f m = f k v + msum f (delete k m).
Proof.
  intros H. rewrite <- (insert_delete_id m k v H) at 1.
  by rewrite msum_insert by apply lookup_delete_eq.
Qed.

Lemma msum_ext {V} (f g : bytes -> V -> Z) m :
  (forall k v, m !! k = Some v -> f k v = g k v) -> msum f m = msum g m.
Proof.
  induction m as [|k v m Hk IH] using map_ind; intros H; [by rewrite !msum_empty|].
  rewrite !msum_insert by done. rewrite (H k v) by apply lookup_insert_eq.
  rewrite IH; [done|]. intros j w Hj. apply H. rewrite lookup_insert_ne; [done|congruence].
Qed.

Lemma msum_nonneg {V} (f : bytes -> V -> Z) m :
  (forall k v, m !! k = Some v -> 0 <= f k v) -> 0 <= msum f m.
Proof.
  induction m as [|k v m Hk IH] using map_ind; intros H; [by rewrite msum_empty|].
  rewrite msum_insert by done. pose proof (H k v (lookup_insert_eq _ _ _)).
  enough (0 <= msum f m) by lia. apply IH. intros j w Hj. apply H.
  rewrite lookup_insert_ne; [done|congruence].
Qed.

Lemma msum_zero {V} (m : gmap bytes V) : msum (fun _ _ => 0) m = 0.
Proof.
  induction m as [|k v m Hk IH] using map_ind; [apply msum_empty|].
  by rewrite msum_insert, IH.
Qed.

Lemma len_nonneg v : 0 <= len v.
Proof. unfold len. lia. Qed.
#[export] Hint Resolve len_nonneg : altnet.

(** ** What the counters should say *)

(** The bytes held, and the bytes held on behalf of one peer. *)
Definition stored_bytes (d : gmap bytes bytes) : Z := msum (fun _ v => len v) d.

Definition attr_size (a : gmap bytes bytes) (p : bytes) (k : bytes) (v : bytes) : Z :=
  if bool_decide (a !! k = Some p) then len v else 0.

Definition peer_bytes (a d : gmap bytes bytes) (p : bytes) : Z := msum (attr_size a p) d.

(** The counters agree with a map [d] of values attributed as in [s]. *)
Definition counts (s : localStore) (d : gmap bytes bytes) : Prop :=
  total s = stored_bytes d
  /\ forall p, p <> [] -> PerPeerUsage s p = peer_bytes (attribution s) d p.

(** The two maps that shadow [data] have no stray keys. *)
Definition shadow_ok (s : localStore) : Prop :=
  dom (access s) = dom (data s) /\ dom (attribution s) ⊆ dom (data s).

Definition store_ok (s : localStore) : Prop := shadow_ok s /\ counts s (data s).

Lemma attr_size_nonneg a p k v : 0 <= attr_size a p k v.
Proof. unfold attr_size. case_bool_decide; [apply len_nonneg|done]. Qed.

Lemma peer_bytes_nonneg a d p : 0 <= peer_bytes a d p.
Proof. apply msum_nonneg. intros. apply attr_size_nonneg. Qed.

Lemma stored_bytes_nonneg d : 0 <= stored_bytes d.
Proof. apply msum_nonneg. intros. apply len_nonneg. Qed.
#[export] Hint Resolve attr_size_nonneg peer_bytes_nonneg stored_bytes_nonneg : altnet.

Lemma peer_bytes_attr a a' d p :
  (forall k v, d !! k = Some v -> (a !! k = Some p <-> a' !! k = Some p)) ->
  peer_bytes a d p = peer_bytes a' d p.
Proof.
  intros H. apply msum_ext. intros k v Hk. unfold attr_size.
  specialize (H k v Hk). repeat case_bool_decide; tauto.
Qed.

Lemma debit_lookup pp peer size p :
  default 0 (debit pp peer size !! p)
  = if decide (p = peer) then Z.max 0 (default 0 (pp !! peer) - size)
    else default 0 (pp !! p).
Proof.
  unfold debit. destruct (Z.leb_spec (default 0 (pp !! peer) - size) 0) as [E|E];
    case_decide as Ep; subst.
  - rewrite lookup_delete_eq. simpl. lia.
  - by rewrite lookup_delete_ne.
  - rewrite lookup_insert_eq. simpl. lia.
  - by rewrite lookup_insert_ne.
Qed.

(** The counters after the entry [v] of [hex] has been debited, when they
    agreed with [d] before. *)
Lemma debit_attr_usage s hex v d p :
  counts s d -> d !! hex = Some v -> p <> [] ->
  default 0 (debit_attr s hex (len v) !! p) = peer_bytes (attribution s) (delete hex d) p.
Proof.
  intros [_ Hc] Hd Hp. pose proof (Hc p Hp) as Hcp. unfold PerPeerUsage in Hcp.
  unfold peer_bytes in *. rewrite (msum_delete _ _ _ _ Hd) in Hcp.
  pose proof (peer_bytes_nonneg (attribution s) (delete hex d) p) as Hn. unfold peer_bytes in Hn.
  unfold debit_attr. unfold attr_size at 1 in Hcp.
  destruct (attribution s !! hex) as [attr|] eqn:Ea.
  - destruct (bool_decide (attr <> [])) eqn:Hne; zbool.
    + rewrite debit_lookup. destruct (decide (p = attr)) as [->|E].
      * rewrite bool_decide_eq_true_2 in Hcp by done. rewrite Hcp. lia.
      * rewrite bool_decide_eq_false_2 in Hcp by congruence. lia.
    + rewrite bool_decide_eq_false_2 in Hcp; [lia|]. intros [= ->]. done.
  - rewrite bool_decide_eq_false_2 in Hcp by done. lia.
Qed.

Lemma refund_counts s hex : store_ok s -> counts (refund s hex) (delete hex (data s)).
Proof.
  intros [Hs Hc]. unfold refund. destruct (data s !! hex) as [old|] eqn:E.
  - split; simpl.
    + destruct Hc as [-> _]. unfold stored_bytes. rewrite (msum_delete _ _ _ _ E). lia.
    + intros p Hp. by apply debit_attr_usage.
  - by rewrite delete_id.
Qed.

Lemma drop_entry_counts s hex d v :
  data s !! hex = Some v -> counts s d -> d !! hex = Some v ->
  counts (drop_entry s hex) (delete hex d).
Proof.
  intros Hv Hc Hd. unfold drop_entry. rewrite Hv. split; simpl.
  - destruct Hc as [-> _]. unfold stored_bytes. rewrite (msum_delete _ _ _ _ Hd). lia.
  - intros p Hp. unfold PerPeerUsage. simpl. rewrite (debit_attr_usage _ _ _ _ _ Hc Hd Hp).
    apply peer_bytes_attr. intros k w [Hk _]%lookup_delete_Some.
    by rewrite lookup_delete_ne.
Qed.

Lemma drop_entry_data s hex : data (drop_entry s hex) = delete hex (data s).
Proof. unfold drop_entry. destruct (data s !! hex) eqn:E; simpl; [done|by rewrite delete_id]. Qed.

Lemma drop_entry_shadow s hex : shadow_ok s -> shadow_ok (drop_entry s hex).
Proof.
  intros [H1 H2]. unfold drop_entry. destruct (data s !! hex); [|done].
  split; simpl; rewrite ?dom_delete_L; [by rewrite H1|set_solver].
Qed.

Lemma drop_entry_ok s hex : store_ok s -> store_ok (drop_entry s hex).
Proof.
  intros [Hs Hc]. split; [by apply drop_entry_shadow|].
  destruct (data s !! hex) as [v|] eqn:E.
  - rewrite drop_entry_data. by apply (drop_entry_counts _ _ _ v).
  - unfold drop_entry. by rewrite E.
Qed.

(** ** Eviction *)

Definition older (s : localStore) (a b : bytes) : Prop := last_access s a <= last_access s b.

#[global] Instance older_dec s : RelDecision (older s).
Proof. intros a b. unfold older. apply _. Defined.

(** The orders [evictUntilUnder] can work in: all keys, by last access. *)
Definition evict_order (s : localStore) (l : list bytes) : Prop :=
  l ≡ₚ (map_to_list (data s)).*1
  /\ StronglySorted (older s) l.

Definition ord_ok (ord : localStore -> list bytes) : Prop := forall s, evict_order s (ord s).

(** One such order. *)
Definition lru_order (s : localStore) : list bytes :=
  merge_sort (older s) (map_to_list (data s)).*1.

Lemma lru_order_ok : ord_ok lru_order.
Proof.
  intros s. split; [apply merge_sort_Permutation|].
  apply StronglySorted_merge_sort; [intros x y z|intros x y]; unfold older; lia.
Qed.

(** The loop drops the shortest prefix of its list that brings the total down
    to [cap], or all of it. *)
Lemma evict_loop_prefix cap l s :
  exists n,
    evict_loop cap l s = foldl drop_entry s (take n l)
    /\ (forall m, (m < n)%nat -> cap < total (foldl drop_entry s (take m l)))
    /\ (total (evict_loop cap l s) <= cap \/ n = length l).
Proof.
  revert s. induction l as [|k l IH]; intros s; simpl.
  { exists 0%nat. split_and!; [done|lia|by right]. }
  destruct (Z.leb_spec (total s) cap) as [E|E].
  { exists 0%nat. split_and!; [done|lia|by left]. }
  destruct (IH (drop_entry s k)) as (n & -> & Hmin & Hend). exists (S n). split_and!.
  - done.
  - intros [|m] Hm; simpl; [done|]. apply Hmin. lia.
  - destruct Hend as [?| ->]; auto.
Qed.

Lemma drop_entries_data s l k :
  data (foldl drop_entry s l) !! k = if bool_decide (k ∈ l) then None else data s !! k.
Proof.
  revert s. induction l as [|x l IH]; intros s; simpl; [done|].
  rewrite IH, drop_entry_data. destruct (decide (k = x)) as [->|Hne].
  - rewrite lookup_delete_eq, (bool_decide_eq_true_2 (x ∈ x :: l)) by set_solver.
    by case_bool_decide.
  - rewrite lookup_delete_ne by done. apply reflexive_eq. repeat case_bool_decide; set_solver.
Qed.

(** What no eviction and no deletion changes. *)
Definition same_config (s s' : localStore) : Prop :=
  maxBytes s' = maxBytes s /\ dataDir s' = dataDir s /\ perPeerMax s' = perPeerMax s.

Lemma drop_entries_config s l : same_config s (foldl drop_entry s l).
Proof.
  revert s. unfold same_config. induction l as [|x l IH]; intros s; simpl; [done|].
  destruct (IH (drop_entry s x)) as (-> & -> & ->). unfold drop_entry. by destruct (data s !! x).
Qed.

Lemma drop_entries_shadow s l : shadow_ok s -> shadow_ok (foldl drop_entry s l).
Proof. revert s. induction l as [|x l IH]; intros s Hs; simpl; auto using drop_entry_shadow. Qed.

(** Dropping entries other than [hex] keeps counters that leave [hex] out. *)
Lemma drop_entries_counts s l hex :
  hex ∉ l \/ data s !! hex = None -> counts s (delete hex (data s)) ->
  counts (foldl drop_entry s l) (delete hex (data (foldl drop_entry s l))).
Proof.
  revert s. induction l as [|x l IH]; intros s Hx Hc; simpl; [done|].
  apply IH.
  - destruct Hx as [Hx|Hx]; [left; set_solver|right]. rewrite drop_entry_data.
    apply lookup_delete_None. auto.
  - destruct (data s !! x) as [v|] eqn:Ev; [|unfold drop_entry; by rewrite Ev].
    assert (x <> hex) as Hne by (destruct Hx; [set_solver|congruence]).
    rewrite drop_entry_data, delete_delete. apply (drop_entry_counts _ _ _ v); [done|done|].
    by rewrite lookup_delete_ne.
Qed.

Lemma drop_entries_ok s l : store_ok s -> store_ok (foldl drop_entry s l).
Proof. revert s. induction l as [|x l IH]; intros s Hs; simpl; auto using drop_entry_ok. Qed.

(** Every eviction drops a prefix of the order, and ends at or under its cap or
    with nothing left. *)
Lemma evictUntilUnder_spec ord cap s :
  ord_ok ord -> 0 < maxBytes s ->
  exists n,
    evictUntilUnder ord cap s = foldl drop_entry s (take n (ord s))
    /\ (forall m, (m < n)%nat -> cap < total (foldl drop_entry s (take m (ord s))))
    /\ (total (evictUntilUnder ord cap s) <= cap \/ data (evictUntilUnder ord cap s) = ∅).
Proof.
  intros Ho Hm. unfold evictUntilUnder.
  destruct (Z.leb_spec (maxBytes s) 0); [lia|]. rewrite andb_false_r.
  destruct (Z.leb_spec (total s) cap) as [E|E].
  { exists 0%nat. rewrite take_0. split_and!; [done|lia|by left]. }
  destruct (evict_loop_prefix cap (ord s) s) as (n & Hn & Hmin & Hend).
  exists n. split_and!; [done|done|]. destruct Hend as [?|Hend]; [by left|]. right.
  apply map_eq. intros k. rewrite Hn, drop_entries_data, Hend, lookup_empty.
  case_bool_decide as Hk; [done|]. apply eq_None_not_Some. intros [v Hv]. apply Hk.
  rewrite take_ge by done. destruct (Ho s) as [Hperm _]. rewrite Hperm.
  apply list_elem_of_fmap. exists (k, v). split; [done|]. by apply elem_of_map_to_list.
Qed.

Lemma evictToFit_spec ord size s :
  ord_ok ord ->
  exists n,
    evictToFit ord size s = foldl drop_entry s (take n (ord s))
    /\ (0 < maxBytes s ->
        total (evictToFit ord size s) <= Z.max 0 (maxBytes s - size)
        \/ data (evictToFit ord size s) = ∅).
Proof.
  intros Ho. unfold evictToFit. destruct (Z.leb_spec (maxBytes s) 0) as [E|E].
  { exists 0%nat. rewrite take_0. split; [done|lia]. }
  destruct (Z.ltb_spec (maxBytes s - size) 0).
  - destruct (evictUntilUnder_spec ord 0 s Ho E) as (n & Hn & _ & Hend).
    exists n. split; [done|]. intros _. rewrite Z.max_l by lia. done.
  - destruct (evictUntilUnder_spec ord (maxBytes s - size) s Ho E) as (n & Hn & _ & Hend).
    exists n. split; [done|]. intros _. rewrite Z.max_r by lia. done.
Qed.

(** An eviction drops entries, whatever the order. *)
Lemma evictToFit_drops ord size s : exists l, evictToFit ord size s = foldl drop_entry s l.
Proof.
  unfold evictToFit, evictUntilUnder. repeat case_match; try (by exists []);
    match goal with |- context [evict_loop ?c ?l ?s] => destruct (evict_loop_prefix c l s) as (n & -> & _) end;
    by eexists.
Qed.

(** ** [put] *)

Lemma refund_data s hex : data (refund s hex) = data s.
Proof. unfold refund. by destruct (data s !! hex). Qed.

Lemma refund_shadow s hex : shadow_ok s -> shadow_ok (refund s hex).
Proof. unfold refund. by destruct (data s !! hex). Qed.

Lemma refund_config s hex : same_config s (refund s hex).
Proof. unfold same_config, refund. by destruct (data s !! hex). Qed.

(** A [put] over an entry that its own eviction does not drop. *)
Definition overwrite_survives (e : put_env) (s : localStore) (hex value : bytes) : Prop :=
  data s !! hex = None
  \/ is_Some (data (evictToFit (pe_ord e) (len value) (refund s hex)) !! hex).

Lemma record_entry_ok s hex value peerID now :
  shadow_ok s -> counts s (delete hex (data s)) ->
  store_ok (record_entry s hex value peerID now).
Proof.
  intros [H1 H2] [Ht Hp]. unfold record_entry. split; [split|split]; simpl.
  - by rewrite !dom_insert_L, H1.
  - case_bool_decide; rewrite ?dom_insert_L, ?dom_delete_L; set_solver.
  - unfold stored_bytes in *. rewrite <- (insert_delete_eq (data s)), msum_insert
      by apply lookup_delete_eq. lia.
  - intros p Hne. specialize (Hp p Hne). unfold PerPeerUsage, peer_bytes in *. simpl.
    rewrite <- (insert_delete_eq (data s)), msum_insert by apply lookup_delete_eq.
    set (a' := if bool_decide (peerID <> []) then <[hex := peerID]> _ else _).
    replace (msum (attr_size a' p) (delete hex (data s)))
      with (msum (attr_size (attribution s) p) (delete hex (data s))).
    2: { apply peer_bytes_attr. intros k v [Hk _]%lookup_delete_Some. unfold a'.
         case_bool_decide; by rewrite ?lookup_insert_ne, ?lookup_delete_ne by done. }
    rewrite <- Hp. unfold attr_size, a'. destruct (bool_decide (peerID <> [])) eqn:Ep; zbool.
    + rewrite lookup_insert_eq. destruct (decide (p = peerID)) as [->|Hd].
      * rewrite lookup_insert_eq, bool_decide_eq_true_2 by done. simpl. lia.
      * rewrite lookup_insert_ne, bool_decide_eq_false_2 by congruence. done.
    + rewrite lookup_delete_eq, bool_decide_eq_false_2 by done. done.
Qed.

(** The state in which an accepted [put] records its entry: some keys dropped
    after the refund, and room for the value. *)
Lemma put_locked_inv e s hex value peerID s' :
  ord_ok (pe_ord e) -> put_locked e s hex value peerID = Some s' ->
  admitted s hex (len value) peerID = true
  /\ exists n,
       let r := refund s hex in
       let s1 := evictToFit (pe_ord e) (len value) r in
       s1 = foldl drop_entry r (take n (pe_ord e r))
       /\ s' = record_entry s1 hex value peerID (pe_now e)
       /\ (0 < maxBytes s -> total s1 <= Z.max 0 (maxBytes s - len value) \/ data s1 = ∅).
Proof.
  intros Ho. unfold put_locked. destruct (admitted s hex (len value) peerID); simpl; [|done].
  intros [= <-]. split; [done|].
  destruct (evictToFit_spec (pe_ord e) (len value) (refund s hex) Ho) as (n & Hn & Hend).
  exists n. split_and!; [done|done|]. destruct (refund_config s hex) as (Hm & _).
  by rewrite Hm in Hend.
Qed.

Lemma put_locked_counts e s hex value peerID s' :
  ord_ok (pe_ord e) -> store_ok s -> overwrite_survives e s hex value ->
  put_locked e s hex value peerID = Some s' ->
  let s1 := evictToFit (pe_ord e) (len value) (refund s hex) in
  shadow_ok s1 /\ counts s1 (delete hex (data s1)).
Proof.
  intros Ho Hok Hsurv Hput.
  destruct (put_locked_inv _ _ _ _ _ _ Ho Hput) as (_ & n & Hn & _ & _). simpl.
  unfold overwrite_survives in Hsurv. rewrite Hn in Hsurv |- *.
  rewrite drop_entries_data, refund_data in Hsurv. split.
  - apply drop_entries_shadow, refund_shadow, Hok.
  - apply drop_entries_counts.
    + rewrite refund_data. destruct Hsurv as [?|[v Hv]]; [by right|left].
      intros Hin. by rewrite bool_decide_eq_true_2 in Hv.
    + rewrite refund_data. by apply refund_counts.
Qed.

Lemma store_ok_disk s d : store_ok s -> store_ok (with_disk s d).
Proof. done. Qed.

Lemma put_inv e s key value peerID s' b :
  put e s key value peerID = (s', b) ->
  (b = false /\ s' = s /\ put_locked e s (Hex key) value peerID = None)
  \/ (b = true /\ exists s1 d, put_locked e s (Hex key) value peerID = Some s1
      /\ s' = with_disk s1 d).
Proof.
  unfold put. destruct (put_locked _ _ _ _ _) as [s1|]; intros [= <- <-]; [right|by left].
  split; [done|]. exists s1. destruct (dataDir s1); [by eexists|].
  exists (disk s1). split; [done|]. by destruct s1.
Qed.

Lemma put_ok e s key value peerID :
  ord_ok (pe_ord e) -> store_ok s -> overwrite_survives e s (Hex key) value ->
  store_ok (fst (put e s key value peerID)).
Proof.
  intros Ho Hok Hsurv. destruct (put e s key value peerID) as [s' b] eqn:E.
  apply put_inv in E as [(-> & -> & _)|(-> & s1 & d & Hput & ->)]; [done|]. simpl.
  apply store_ok_disk. destruct (put_locked_inv _ _ _ _ _ _ Ho Hput) as (_ & n & _ & -> & _).
  destruct (put_locked_counts _ _ _ _ _ _ Ho Hok Hsurv Hput) as [Hs Hc].
  by apply record_entry_ok.
Qed.

Lemma Get_ok s now key : store_ok s -> store_ok (fst (Get s now key)).
Proof.
  intros [[H1 H2] Hc]. unfold Get. destruct (data s !! Hex key) as [v|] eqn:E; [|done].
  split; [|done]. split; simpl; [|done]. rewrite dom_insert_L, H1.
  apply elem_of_dom_2 in E. set_solver.
Qed.

Lemma newLocalStore_ok : store_ok newLocalStore.
Proof. split; [split; set_solver|]. split; [done|]. intros p _. done. Qed.

(** ** Sequences of operations *)

Inductive store_op :=
| OpPut (e : put_env) (key : NodeID) (value peerID : bytes)
| OpDelete (key : NodeID)
| OpGet (now : Time) (key : NodeID)
| OpSetPerPeerMax (max : Z).

Definition store_exec (s : localStore) (op : store_op) : localStore :=
  match op with
  | OpPut e key value peerID => fst (put e s key value peerID)
  | OpDelete key => Delete s key
  | OpGet now key => fst (Get s now key)
  | OpSetPerPeerMax max => SetPerPeerMax s max
  end.

(** No [put] of the run evicts the very entry it overwrites. *)
Fixpoint run_safe (s : localStore) (ops : list store_op) : Prop :=
  match ops with
  | [] => True
  | op :: ops' =>
      match op with
      | OpPut e key value _ => ord_ok (pe_ord e) /\ overwrite_survives e s (Hex key) value
      | _ => True
      end /\ run_safe (store_exec s op) ops'
  end.

(** C26 (store.go, [put], [Delete], [Get], [evictUntilUnder]): through any
    sequence of operations in which no [put] evicts the entry it is overwriting,
    [total] is the number of bytes held, every peer's counter is the number of
    bytes held on its behalf, and the access and attribution maps have no stray
    keys. *)
Theorem store_accounting (s : localStore) (ops : list store_op) :
  store_ok s -> run_safe s ops -> store_ok (foldl store_exec s ops).
Proof.
  revert s. induction ops as [|op ops IH]; intros s Hs Hr; simpl; [done|].
  destruct Hr as [Hop Hr]. apply IH; [|done]. destruct op; simpl.
  - destruct Hop. by apply put_ok.
  - by apply drop_entry_ok.
  - by apply Get_ok.
  - done.
Qed.

(** Keys and environments for concrete runs. *)
Definition key_of (n : Z) : NodeID := id_copy (be_encode 32 n).

Definition at_time (t : Time) : put_env := MkPutEnv t lru_order Renamed [].

Definition bounded_store (max : Z) : localStore := MkStore ∅ ∅ 0 max false ∅ ∅ 0 ∅.

Definition zeros (n : nat) : bytes := replicate n Byte.x00.

Lemma bounded_store_ok max : store_ok (bounded_store max).
Proof. split; [split; set_solver|]. split; [done|]. intros p _. done. Qed.

Lemma store_accounting_witness :
  let ops := [OpPut (at_time 1) (key_of 1) (zeros 4) (bs "peer"); OpGet 2 (key_of 1);
              OpPut (at_time 3) (key_of 2) (zeros 9) []] in
  store_ok (foldl store_exec (bounded_store 10) ops)
  /\ data (foldl store_exec (bounded_store 10) ops) !! Hex (key_of 1) = None.
Proof.
  split; [|by vm_compute]. apply store_accounting; [apply bounded_store_ok|].
  repeat split; try apply lru_order_ok; left; by vm_compute.
Defined.

(** (store.go, [put]): the condition of [store_accounting] is needed.  [put]
    refunds the size of the entry it overwrites but leaves the entry in the map,
    so the eviction that follows can drop it and refund it a second time.  In a
    store of 10 bytes, four local puts of at most 10 bytes end with 14 bytes
    held while [total] says 10. *)
Theorem overwrite_refunds_twice :
  let ops := [OpPut (at_time 1) (key_of 1) (zeros 4) []; OpPut (at_time 2) (key_of 2) (zeros 6) [];
              OpPut (at_time 3) (key_of 1) (zeros 10) []; OpPut (at_time 4) (key_of 3) (zeros 4) []] in
  let s := foldl store_exec (bounded_store 10) ops in
  maxBytes s = 10 /\ total s = 10 /\ stored_bytes (data s) = 14.
Proof. by vm_compute. Qed.

(** ** Budget and quota *)

(** (store.go, [put], [evictToFit]): in a store with a budget, after an
    accepted [put] that does not evict the entry it overwrites the store holds at
    most the budget, or, when the value alone is larger than the budget, exactly
    that value. *)
Theorem put_within_budget (e : put_env) (s : localStore) (key : NodeID) (value peerID : bytes) :
  ord_ok (pe_ord e) -> store_ok s -> overwrite_survives e s (Hex key) value -> 0 < maxBytes s ->
  let '(s', accepted) := put e s key value peerID in
  accepted = true ->
  stored_bytes (data s') <= maxBytes s
  \/ maxBytes s < len value /\ stored_bytes (data s') = len value.
Proof.
  intros Ho Hok Hsurv Hm. destruct (put e s key value peerID) as [s' b] eqn:E. intros ->.
  apply put_inv in E as [(? & _)|(_ & s1 & d & Hput & ->)]; [done|]. simpl.
  destruct (put_locked_inv _ _ _ _ _ _ Ho Hput) as (_ & n & _ & -> & Hend). simpl.
  destruct (put_locked_counts _ _ _ _ _ _ Ho Hok Hsurv Hput) as [_ [Ht _]].
  set (s1 := evictToFit _ _ _) in *. simpl. unfold stored_bytes in *.
  rewrite <- insert_delete_eq, msum_insert by apply lookup_delete_eq. rewrite <- Ht.
  pose proof (stored_bytes_nonneg (delete (Hex key) (data s1))) as Hn.
  unfold stored_bytes in Hn. rewrite <- Ht in Hn.
  destruct (Hend Hm) as [Hle|He]; [lia|].
  rewrite He, delete_empty, msum_empty in Ht. lia.
Qed.

Lemma put_within_budget_witness :
  let s := foldl store_exec (bounded_store 10)
             [OpPut (at_time 1) (key_of 1) (zeros 4) []; OpPut (at_time 2) (key_of 2) (zeros 6) []] in
  stored_bytes (data (fst (put (at_time 3) s (key_of 3) (zeros 5) []))) <= 10.
Proof.
  intros s.
  pose proof (put_within_budget (at_time 3) s (key_of 3) (zeros 5) [] lru_order_ok) as H.
  assert (store_ok s) as Hok by (repeat apply put_ok; try apply lru_order_ok;
    [apply bounded_store_ok|left; by vm_compute|left; by vm_compute]).
  specialize (H Hok ltac:(left; by vm_compute) ltac:(by vm_compute)).
  destruct (put (at_time 3) s (key_of 3) (zeros 5) []) as [s' b] eqn:E. cbn [fst].
  assert (b = true) as -> by (apply (f_equal snd) in E; vm_compute in E; by simplify_eq).
  assert (maxBytes s = 10) as Hm by (by vm_compute).
  assert (len (zeros 5) = 5) as Hl by (by vm_compute).
  rewrite Hm, Hl in H. clearbody s. specialize (H eq_refl). destruct H as [H|[H _]]; [exact H|lia].
Defined.

Lemma msum_subseteq {V} (f : bytes -> V -> Z) (m1 m2 : gmap bytes V) :
  (forall k v, 0 <= f k v) -> m1 ⊆ m2 -> msum f m1 <= msum f m2.
Proof.
  intros Hf. revert m2. induction m1 as [|k v m1 Hk IH] using map_ind; intros m2 Hsub.
  { rewrite msum_empty. by apply msum_nonneg. }
  assert (m2 !! k = Some v) as Hk2 by (eapply lookup_weaken; [apply lookup_insert_eq|done]).
  rewrite msum_insert by done. rewrite (msum_delete f k v m2 Hk2).
  enough (msum f m1 <= msum f (delete k m2)) by lia. apply IH.
  rewrite <- (delete_insert_id m1 k v Hk). by apply delete_mono.
Qed.

Lemma drop_entries_subseteq s l : data (foldl drop_entry s l) ⊆ data s.
Proof.
  apply map_subseteq_spec. intros k v. rewrite drop_entries_data. by case_bool_decide.
Qed.

Lemma drop_entries_attr s l k :
  is_Some (data (foldl drop_entry s l) !! k) ->
  attribution (foldl drop_entry s l) !! k = attribution s !! k.
Proof.
  rewrite drop_entries_data. case_bool_decide as Hk; [by intros []|]. intros _.
  revert s Hk. induction l as [|x l IH]; intros s Hk; simpl; [done|].
  rewrite IH by set_solver. unfold drop_entry. destruct (data s !! x); [|done]. simpl.
  rewrite lookup_delete_ne; [done|set_solver].
Qed.

(** Dropping entries never adds to what a peer is charged for. *)
Lemma drop_entries_peer_bytes s l hex p :
  peer_bytes (attribution (foldl drop_entry s l)) (delete hex (data (foldl drop_entry s l))) p
  <= peer_bytes (attribution s) (delete hex (data s)) p.
Proof.
  rewrite (peer_bytes_attr _ (attribution s)).
  - apply msum_subseteq; [intros; apply attr_size_nonneg|].
    apply delete_mono, drop_entries_subseteq.
  - intros k v [_ Hv]%lookup_delete_Some. by rewrite drop_entries_attr by eauto.
Qed.

Lemma refund_attr s hex : attribution (refund s hex) = attribution s.
Proof. unfold refund. by destruct (data s !! hex). Qed.

Lemma record_entry_peer_bytes s hex value peerID now q :
  peer_bytes (attribution (record_entry s hex value peerID now))
    (data (record_entry s hex value peerID now)) q
  = (if bool_decide (peerID <> [] /\ q = peerID) then len value else 0)
    + peer_bytes (attribution s) (delete hex (data s)) q.
Proof.
  unfold peer_bytes. simpl. rewrite <- (insert_delete_eq (data s)), msum_insert
    by apply lookup_delete_eq.
  f_equal.
  - unfold attr_size. destruct (bool_decide (peerID <> [])) eqn:E; zbool.
    + rewrite lookup_insert_eq. repeat case_bool_decide; naive_solver.
    + rewrite lookup_delete_eq. repeat case_bool_decide; naive_solver.
  - apply peer_bytes_attr. intros k v [Hk _]%lookup_delete_Some.
    case_bool_decide; by rewrite ?lookup_insert_ne, ?lookup_delete_ne by done.
Qed.

Lemma admitted_spec s hex size p :
  store_ok s -> p <> [] -> 0 < perPeerMax s ->
  admitted s hex size p
  = bool_decide (peer_bytes (attribution s) (delete hex (data s)) p + size <= perPeerMax s).
Proof.
  intros [[_ Hdom] [_ Hc]] Hp Hm. unfold admitted. rewrite bool_decide_eq_true_2 by done.
  destruct (Z.ltb_spec 0 (perPeerMax s)); [|lia]. simpl.
  specialize (Hc p Hp). unfold PerPeerUsage in Hc.
  enough ((if bool_decide (attribution s !! hex = Some p)
           then match data s !! hex with
                | Some old => default 0 (perPeer s !! p) - len old
                | None => default 0 (perPeer s !! p)
                end
           else default 0 (perPeer s !! p))
          = peer_bytes (attribution s) (delete hex (data s)) p) as ->.
  { destruct (Z.ltb_spec (perPeerMax s)
      (peer_bytes (attribution s) (delete hex (data s)) p + size));
      case_bool_decide; simpl; done || lia. }
  rewrite Hc. unfold peer_bytes. destruct (data s !! hex) as [old|] eqn:E.
  - rewrite (msum_delete _ _ _ _ E). unfold attr_size at 1 3. case_bool_decide; lia.
  - rewrite (delete_id _ _ E). by case_bool_decide.
Qed.

(** (store.go, [put]): with a per-peer cap, a remote peer's [put] is accepted
    exactly when the bytes already held for it under other keys plus the new
    value fit under the cap; a refused [put] changes nothing; after an accepted
    one the peer is within its cap; and no other peer is ever charged more. *)
Theorem put_quota (e : put_env) (s : localStore) (key : NodeID) (value p : bytes) :
  ord_ok (pe_ord e) -> store_ok s -> p <> [] -> 0 < perPeerMax s ->
  let '(s', accepted) := put e s key value p in
  accepted = bool_decide
    (peer_bytes (attribution s) (delete (Hex key) (data s)) p + len value <= perPeerMax s)
  /\ (accepted = false -> s' = s)
  /\ (accepted = true -> peer_bytes (attribution s') (data s') p <= perPeerMax s)
  /\ (forall q, q <> p ->
        peer_bytes (attribution s') (data s') q <= peer_bytes (attribution s) (data s) q).
Proof.
  intros Ho Hok Hp Hm. destruct (put e s key value p) as [s' b] eqn:E.
  apply put_inv in E as [(-> & -> & Hput)|(-> & s1 & d & Hput & ->)].
  { unfold put_locked in Hput. rewrite (admitted_spec s (Hex key)) in Hput by done.
    case_bool_decide; simpl in Hput; [done|]. split_and!; done || lia. }
  destruct (put_locked_inv _ _ _ _ _ _ Ho Hput) as (Ha & n & Hn & -> & _).
  rewrite admitted_spec in Ha by done. apply bool_decide_eq_true in Ha.
  rewrite bool_decide_eq_true_2 by done.
  pose proof (drop_entries_peer_bytes (refund s (Hex key))
    (take n (pe_ord e (refund s (Hex key)))) (Hex key)) as Hle.
  rewrite <- Hn, refund_attr, refund_data in Hle. cbn [attribution data with_disk].
  split_and!; [done|done| |].
  - intros _. rewrite record_entry_peer_bytes, bool_decide_eq_true_2 by done.
    specialize (Hle p). lia.
  - intros q Hq. rewrite record_entry_peer_bytes, bool_decide_eq_false_2 by tauto.
    specialize (Hle q).
    assert (peer_bytes (attribution s) (delete (Hex key) (data s)) q
            <= peer_bytes (attribution s) (data s) q); [|lia].
    apply msum_subseteq; [intros; apply attr_size_nonneg|apply delete_subseteq].
Qed.

Lemma put_quota_witness :
  let s := SetPerPeerMax (bounded_store 0) 10 in
  let s1 := fst (put (at_time 1) s (key_of 1) (zeros 6) (bs "peer")) in
  snd (put (at_time 2) s1 (key_of 2) (zeros 5) (bs "peer")) = false
  /\ fst (put (at_time 2) s1 (key_of 2) (zeros 5) (bs "peer")) = s1.
Proof.
  intros s s1.
  assert (store_ok s1) as Hok
    by (apply put_ok; [apply lru_order_ok|apply bounded_store_ok|left; by vm_compute]).
  pose proof (put_quota (at_time 2) s1 (key_of 2) (zeros 5) (bs "peer") lru_order_ok Hok) as H.
  specialize (H ltac:(done) ltac:(by vm_compute)).
  assert (snd (put (at_time 2) s1 (key_of 2) (zeros 5) (bs "peer")) = false) as Hf
    by (by vm_compute).
  split; [done|]. destruct (put (at_time 2) s1 _ _ _) as [s' b]. cbn [fst snd] in *.
  by apply H.
Defined.

(** ** Which entries go *)

Lemma refund_last_access s hex k : last_access (refund s hex) k = last_access s k.
Proof. unfold last_access, refund. by destruct (data s !! hex). Qed.

Lemma evictToFit_idle ord size s :
  maxBytes s <= 0 \/ 0 <= size /\ total s + size <= maxBytes s \/ total s <= 0 ->
  evictToFit ord size s = s.
Proof.
  intros H. unfold evictToFit. destruct (Z.leb_spec (maxBytes s) 0); [done|].
  unfold evictUntilUnder. destruct (Z.ltb_spec (maxBytes s - size) 0);
    destruct (Z.leb_spec (maxBytes s) 0); try lia; rewrite andb_false_r;
    match goal with |- context [?a <=? ?b] => destruct (Z.leb_spec a b) end; done || lia.
Qed.

Lemma put_get e s key value peerID now :
  snd (put e s key value peerID) = true ->
  snd (Get (fst (put e s key value peerID)) now key) = Some value.
Proof.
  destruct (put e s key value peerID) as [s' b] eqn:E. simpl. intros ->.
  apply put_inv in E as [(? & _)|(_ & s1 & d & Hput & ->)]; [done|].
  unfold put_locked in Hput. destruct (negb _); [done|]. injection Hput as <-.
  unfold Get. simpl. by rewrite lookup_insert_eq.
Qed.

(** (store.go, [put], [evictToFit], [Get]): after an accepted [put] the key
    reads back as the value; every other key keeps its value unless it was
    evicted; the evicted entries are the least recently used ones (none was used
    after an entry that stayed); and nothing is evicted when the new value fits. *)
Theorem put_evicts_lru (e : put_env) (s : localStore) (key : NodeID) (value peerID : bytes) :
  ord_ok (pe_ord e) ->
  let '(s', accepted) := put e s key value peerID in
  accepted = true ->
  (forall now, snd (Get s' now key) = Some value)
  /\ exists evicted,
       (forall k, k <> Hex key ->
          data s' !! k = if bool_decide (k ∈ evicted) then None else data s !! k)
       /\ (forall k k', k ∈ evicted -> k' ∉ evicted -> is_Some (data s !! k') ->
             last_access s k <= last_access s k')
       /\ (maxBytes s <= 0 \/ total (refund s (Hex key)) + len value <= maxBytes s ->
           evicted = []).
Proof.
  intros Ho. destruct (put e s key value peerID) as [s' b] eqn:E. intros ->.
  apply put_inv in E as [(? & _)|(_ & s1 & d & Hput & ->)]; [done|].
  destruct (put_locked_inv _ _ _ _ _ _ Ho Hput) as (_ & n & Hn & -> & _).
  set (r := refund s (Hex key)) in *. set (s1 := evictToFit _ _ _) in *.
  split. { intros now. unfold Get. simpl. by rewrite lookup_insert_eq. }
  set (lst := pe_ord e r) in *. destruct (Ho r) as [Hperm Hsorted]. fold lst in Hperm, Hsorted.
  exists (if bool_decide (s1 = r) then [] else take n lst). split_and!.
  - intros k Hk. simpl. rewrite lookup_insert_ne by done.
    destruct (bool_decide (s1 = r)) eqn:E; zbool.
    + rewrite E. unfold r. rewrite refund_data. rewrite bool_decide_eq_false_2 by set_solver. done.
    + rewrite Hn, drop_entries_data. unfold r. by rewrite refund_data.
  - intros k k'. case_bool_decide; [set_solver|]. intros Hk Hk' [v Hv].
    assert (k' ∈ drop n lst) as Hd.
    { assert (k' ∈ lst) as Hin.
      { rewrite Hperm. apply list_elem_of_fmap. exists (k', v). split; [done|].
        apply elem_of_map_to_list. unfold r. by rewrite refund_data. }
      rewrite <- (take_drop n lst), elem_of_app in Hin. tauto. }
    rewrite <- (take_drop n lst) in Hsorted.
    rewrite <- !(refund_last_access s (Hex key)). fold r.
    eapply (StronglySorted_app_1_elem_of (older r)); done.
  - intros Hfit. rewrite bool_decide_eq_true_2; [done|]. apply evictToFit_idle.
    destruct (refund_config s (Hex key)) as (Hm & _). fold r in Hm. rewrite Hm.
    destruct Hfit; [by left|right; left]. split; [apply len_nonneg|done].
Qed.

Lemma put_evicts_lru_witness :
  let s := foldl store_exec (bounded_store 10)
             [OpPut (at_time 1) (key_of 1) (zeros 5) []; OpPut (at_time 2) (key_of 2) (zeros 5) [];
              OpGet 3 (key_of 1)] in
  let s' := fst (put (at_time 4) s (key_of 3) (zeros 5) []) in
  snd (Get s' 5 (key_of 3)) = Some (zeros 5)
  /\ is_Some (data s' !! Hex (key_of 1)) /\ data s' !! Hex (key_of 2) = None.
Proof.
  intros s s'. split; [|split; [by eexists|]; by vm_compute].
  pose proof (put_evicts_lru (at_time 4) s (key_of 3) (zeros 5) [] lru_order_ok) as H.
  unfold s'. assert (snd (put (at_time 4) s (key_of 3) (zeros 5) []) = true) as Hb
    by (by vm_compute).
  destruct (put (at_time 4) s (key_of 3) (zeros 5) []) as [s2 b]. cbn [fst snd] in *.
  by apply H.
Defined.

(** ** The directory *)

Definition valid_name (k : bytes) : bool := is_ok (IDFromHex k).

Lemma valid_name_Hex key : valid_name (Hex key) = true.
Proof. unfold valid_name. by rewrite IDFromHex_Hex. Qed.

Lemma valid_name_length k : valid_name k = true -> length k = 64%nat.
Proof.
  unfold valid_name. destruct (IDFromHex k) as [n|] eqn:E; [|done].
  by apply Hex_IDFromHex in E as [_ ?].
Qed.

Lemma tmp_name_invalid key k : valid_name k = true -> tmp_name (Hex key) <> k.
Proof.
  intros Hk%valid_name_length <-. unfold tmp_name in Hk.
  rewrite length_app, Hex_length in Hk. simpl in Hk. lia.
Qed.

(** (store.go, [writeAtomic]): at every moment of a [writeAtomic] for a key,
    wherever it stops and whatever part of the value had been copied, the files a
    restart would load are the old ones, but for the key's own file, which holds
    the old content or the complete new value.  It holds the new value at the
    end exactly when [writeAtomic] reports success. *)
Theorem writeAtomic_crash_safe (st : write_stage) (part value : bytes) (key : NodeID)
    (now : Time) (d : directory) :
  let '(trace, ok) := writeAtomic_trace st part (Hex key) value now d in
  (forall d' k, d' ∈ trace -> valid_name k = true ->
     d' !! k = d !! k \/ k = Hex key /\ d' !! k = Some (value, now))
  /\ writeAtomic st part (Hex key) value now d !! Hex key
     = if ok then Some (value, now) else d !! Hex key.
Proof.
  assert (tmp_name (Hex key) <> Hex key) as Ht by apply tmp_name_invalid, valid_name_Hex.
  unfold writeAtomic. destruct st; simpl; (split;
    [intros d' k Hd Hk; pose proof (tmp_name_invalid key k Hk);
     rewrite ?elem_of_cons, ?elem_of_nil in Hd; destruct_or? Hd; subst;
       rewrite ?lookup_insert_ne, ?lookup_delete_ne by done; auto|
     rewrite ?lookup_insert_ne, ?lookup_delete_ne, ?lookup_insert_eq by done; done]).
  destruct (decide (k = Hex key)) as [->|Hne].
  - right. by rewrite lookup_insert_eq.
  - left. by rewrite lookup_insert_ne, lookup_delete_ne by done.
Qed.

(** The value [load_entry] takes from an entry. *)
Definition loadable (e : dir_entry) : option bytes :=
  if de_is_dir e || bool_decide (Ext (de_name e) = bs ".tmp") || negb (valid_name (de_name e))
  then None
  else match de_content e with
       | Some v => if MaxValueSize <? len v then None else Some v
       | None => None
       end.

Lemma load_entry_spec now s e :
  load_entry now s e =
  match loadable e with
  | None => s
  | Some v =>
      MkStore (<[de_name e := v]> (data s)) (<[de_name e := default now (de_mtime e)]> (access s))
        (total s + len v) (maxBytes s) (dataDir s) (attribution s) (perPeer s) (perPeerMax s)
        (disk s)
  end.
Proof.
  unfold load_entry, loadable, valid_name. destruct (de_is_dir e); [done|]. simpl.
  destruct (bool_decide _); [done|]. simpl. destruct (negb _); [done|]. simpl.
  destruct (de_content e); [|done]. by destruct (MaxValueSize <? _).
Qed.

(** Loading a directory without two entries of one name. *)
Lemma loadFromDisk_spec now l s :
  NoDup (de_name <$> l) -> (forall e, e ∈ l -> data s !! de_name e = None) ->
  (forall k v, data (loadFromDisk now l s) !! k = Some v <->
     data s !! k = Some v \/ exists e, e ∈ l /\ de_name e = k /\ loadable e = Some v)
  /\ attribution (loadFromDisk now l s) = attribution s
  /\ perPeer (loadFromDisk now l s) = perPeer s
  /\ same_config s (loadFromDisk now l s)
  /\ disk (loadFromDisk now l s) = disk s
  /\ total (loadFromDisk now l s) - stored_bytes (data (loadFromDisk now l s))
     = total s - stored_bytes (data s)
  /\ (dom (access s) = dom (data s) ->
      dom (access (loadFromDisk now l s)) = dom (data (loadFromDisk now l s))).
Proof.
  unfold loadFromDisk, same_config. revert s.
  induction l as [|e l IH]; intros s Hn Hf; simpl.
  { split_and!; try done. intros k v. split; [tauto|]. intros [?|(e & ? & _)]; [done|set_solver]. }
  apply NoDup_cons in Hn as [Hne Hn]. rewrite load_entry_spec.
  destruct (loadable e) as [v|] eqn:Ev.
  - assert (data s !! de_name e = None) as Hfe by (apply Hf; set_solver).
    match goal with |- context [foldl _ ?s1 l] => destruct (IH s1 Hn)
      as (Hd & -> & -> & (-> & -> & ->) & -> & -> & Ha) end.
    { intros e' He'. simpl. rewrite lookup_insert_ne; [apply Hf; set_solver|].
      intros E. apply Hne. rewrite E. by apply list_elem_of_fmap_2. }
    cbn [data access total] in *. split_and!; try done.
    + intros k w. rewrite Hd, lookup_insert_Some. split.
      * intros [[[<- <-]|[_ ?]]|(e' & ? & ? & ?)]; [|by left|]; right; set_solver.
      * intros [?|(e' & [->|?]%elem_of_cons & <- & ?)]; [|naive_solver|naive_solver].
        left. right. split; [congruence|done].
    + unfold stored_bytes. rewrite msum_insert by done. lia.
    + intros Hdom. apply Ha. by rewrite !dom_insert_L, Hdom.
  - destruct (IH s Hn) as (Hd & -> & -> & Hc & -> & -> & Ha); [intros; apply Hf; set_solver|].
    split_and!; try done; try apply Hc. intros k w. rewrite Hd. split.
    + intros [?|(e' & ? & ? & ?)]; [by left|right; set_solver].
    + intros [?|(e' & [->|?]%elem_of_cons & <- & ?)]; [by left|congruence|naive_solver].
Qed.

(** Memory and directory hold the same values, under valid names and within
    the size limit. *)
Definition mirrored (s : localStore) : Prop :=
  dataDir s = true
  /\ (forall k, valid_name k = true -> fst <$> disk s !! k = data s !! k)
  /\ (forall k v, data s !! k = Some v -> valid_name k = true /\ len v <= MaxValueSize).

(** Puts whose file write succeeds, of values within the size limit. *)
Definition op_persisted (op : store_op) : Prop :=
  match op with
  | OpPut e _ value _ => ord_ok (pe_ord e) /\ pe_write e = Renamed /\ len value <= MaxValueSize
  | _ => True
  end.

Lemma drop_entry_mirrored s hex : mirrored s -> mirrored (drop_entry s hex).
Proof.
  intros (Hd & Hk & Hv). unfold drop_entry. destruct (data s !! hex) as [v|]; [|done].
  split_and!; simpl; [done| |].
  - intros k Hvk. rewrite Hd. destruct (decide (k = hex)) as [->|Hne].
    + by rewrite !lookup_delete_eq.
    + rewrite !lookup_delete_ne by done. auto.
  - intros k w [_ ?]%lookup_delete_Some. eauto.
Qed.

Lemma drop_entries_mirrored s l : mirrored s -> mirrored (foldl drop_entry s l).
Proof. revert s. induction l as [|x l IH]; intros s Hs; simpl; auto using drop_entry_mirrored. Qed.

Lemma refund_mirrored s hex : mirrored s -> mirrored (refund s hex).
Proof. unfold refund. by destruct (data s !! hex). Qed.

Lemma put_mirrored e s key value peerID :
  ord_ok (pe_ord e) -> pe_write e = Renamed -> len value <= MaxValueSize -> mirrored s ->
  mirrored (fst (put e s key value peerID)).
Proof.
  intros Ho Hw Hl Hs. unfold put. destruct (put_locked _ _ _ _ _) as [s'|] eqn:E; [|done].
  destruct (put_locked_inv _ _ _ _ _ _ Ho E) as (_ & n & Hn & -> & _).
  assert (mirrored (evictToFit (pe_ord e) (len value) (refund s (Hex key)))) as (Hd & Hk & Hv).
  { rewrite Hn. by apply drop_entries_mirrored, refund_mirrored. }
  cbn [dataDir record_entry]. rewrite Hd. simpl. set (s1 := evictToFit _ _ _) in *.
  split_and!; simpl; [done| |].
  - intros k Hvk. rewrite Hw. unfold writeAtomic. simpl.
    destruct (decide (k = Hex key)) as [->|Hne].
    + by rewrite !lookup_insert_eq.
    + rewrite !lookup_insert_ne, lookup_delete_ne by (done || by apply tmp_name_invalid). auto.
  - intros k v [[<- <-]|[_ ?]]%lookup_insert_Some; [|by eauto].
    split; [apply valid_name_Hex|done].
Qed.

Lemma store_exec_mirrored s op : op_persisted op -> mirrored s -> mirrored (store_exec s op).
Proof.
  destruct op; simpl.
  - intros (? & ? & ?). by apply put_mirrored.
  - intros _. apply drop_entry_mirrored.
  - intros _. unfold Get. by destruct (data s !! Hex key).
  - done.
Qed.

Lemma valid_name_not_tmp k : valid_name k = true -> Ext k <> bs ".tmp".
Proof.
  unfold valid_name, IDFromHex. destruct (hex_decode k) as [l|] eqn:E; [|done]. intros _ He.
  unfold Ext in He. destruct (LastIndexByte k Byte.x2e) as [i|] eqn:Ei; [|done].
  apply hex_decode_lower in E as [E _].
  assert (Byte.x2e ∈ map lower_byte k) as Hin.
  { change Byte.x2e with (lower_byte Byte.x2e). apply list_elem_of_In, in_map, list_elem_of_In.
    rewrite <- (take_drop i k), elem_of_app, He. right. by left. }
  rewrite E in Hin. pose proof (hex_encode_lower_plain l) as Hp.
  rewrite forallb_forall in Hp. apply list_elem_of_In in Hin.
  clear -Hin. induction l as [|a l IH]; simpl in Hin; [done|].
  destruct Hin as [H|[H|H]]; [| |done]; revert H; by destruct a.
Qed.

Lemma listing_loadable s k v :
  mirrored s ->
  (exists e, e ∈ listing (disk s) /\ de_name e = k /\ loadable e = Some v)
  <-> data s !! k = Some v.
Proof.
  intros (_ & Hk & Hv). unfold listing. split.
  - intros (e & He & <- & Hl). apply list_elem_of_fmap in He as ([k w] & -> & Hin).
    apply elem_of_map_to_list in Hin. unfold loadable in Hl. simpl in *.
    destruct (bool_decide (Ext k = bs ".tmp") || negb (valid_name k)) eqn:Eb; [done|]. zbool.
    destruct (MaxValueSize <? len (fst w)); [done|]. simplify_eq. rewrite <- Hk by done.
    by rewrite Hin.
  - intros Hd. destruct (Hv k v Hd) as [Hval Hlen].
    pose proof (Hk k Hval) as Hf. rewrite Hd in Hf.
    destruct (disk s !! k) as [[v' t]|] eqn:Ed; simplify_eq/=.
    exists (MkEntry k false (Some v) (Some t)). split_and!; [|done|].
    + apply list_elem_of_fmap. exists (k, (v, t)). split; [done|]. by apply elem_of_map_to_list.
    + unfold loadable. simpl. rewrite bool_decide_eq_false_2 by by apply valid_name_not_tmp.
      rewrite Hval. simpl. destruct (Z.ltb_spec MaxValueSize (len v)); [lia|done].
Qed.

(** A store on an empty directory. *)
Definition empty_on_disk (max : Z) : localStore := MkStore ∅ ∅ 0 max true ∅ ∅ 0 ∅.

Lemma listing_names d : (de_name <$> listing d) = (map_to_list d).*1.
Proof. unfold listing. rewrite <- list_fmap_compose. by apply list_fmap_ext. Qed.

Lemma reload_mirrored ord now s l max :
  mirrored s -> l ≡ₚ listing (disk s) ->
  max <= 0 \/ stored_bytes (data s) <= max ->
  exists s',
    newLocalStoreWithLimit ord now (Some (disk s)) (Some l) max = Some s'
    /\ data s' = data s /\ disk s' = disk s /\ store_ok s' /\ forall p, PerPeerUsage s' p = 0.
Proof.
  intros Hm Hp Hfit. unfold newLocalStoreWithLimit.
  set (s0 := MkStore ∅ ∅ 0 max true ∅ ∅ 0 (disk s)).
  destruct (loadFromDisk_spec now l s0) as (Hd & Ha & Hpp & (Hmax & _) & Hdisk & Ht & Hdom).
  { rewrite Hp, listing_names. apply NoDup_fst_map_to_list. }
  { intros e _. apply lookup_empty. }
  set (s1 := loadFromDisk now l s0) in *.
  assert (data s1 = data s) as Hdata.
  { apply map_eq. intros k. apply option_eq. intros v.
    rewrite Hd, <- (listing_loadable s k v Hm). simpl. rewrite lookup_empty.
    setoid_rewrite Hp. naive_solver. }
  assert (total s1 = stored_bytes (data s)) as Htot.
  { rewrite Hdata in Ht. simpl in Ht. unfold stored_bytes in Ht at 2. rewrite msum_empty in Ht. lia. }
  assert (evictUntilUnder ord max s1 = s1) as He.
  { unfold evictUntilUnder. rewrite Hmax. simpl.
    destruct (Z.leb_spec max 0); simpl; [done|].
    destruct (Z.leb_spec (total s1) max); [done|lia]. }
  exists s1. rewrite He. split_and!; try done; [|intros p; unfold PerPeerUsage; by rewrite Hpp].
  split; [split; [by apply Hdom|rewrite Ha; set_solver]|]. split; [by rewrite Hdata|].
  intros p _. unfold PerPeerUsage. rewrite Hpp, Ha. symmetry. simpl. apply Z.le_antisymm;
    [|apply peer_bytes_nonneg].
  unfold peer_bytes. erewrite msum_ext; [apply Z.eq_le_incl; apply (msum_zero (data s1))|].
  intros k v _. unfold attr_size. by rewrite bool_decide_eq_false_2.
Qed.

Lemma loadFromDisk_config now l s : same_config s (loadFromDisk now l s).
Proof.
  unfold loadFromDisk, same_config. revert s. induction l as [|e l IH]; intros s; simpl; [done|].
  destruct (IH (load_entry now s e)) as (-> & -> & ->). unfold load_entry. by repeat case_match.
Qed.

Lemma evictUntilUnder_config ord cap s : same_config s (evictUntilUnder ord cap s).
Proof.
  unfold evictUntilUnder. destruct (_ && _); [done|]. destruct (_ <=? _); [done|].
  generalize (ord s) as l. intros l. revert s. unfold same_config.
  induction l as [|x l IH]; intros s; simpl; [done|]. destruct (_ <=? _); [done|].
  destruct (IH (drop_entry s x)) as (-> & -> & ->). apply (drop_entries_config s [x]).
Qed.

(** A new store has the budget it was given. *)
Lemma newLocalStoreWithLimit_budget ord now dir entries max s :
  newLocalStoreWithLimit ord now dir entries max = Some s -> maxBytes s = max.
Proof.
  unfold newLocalStoreWithLimit. destruct dir as [d|]; [|by intros [= <-]]. destruct entries as [l|]; [|done].
  intros [= <-]. set (s0 := loadFromDisk _ _ _).
  destruct (evictUntilUnder_config ord max s0) as (-> & _). apply (loadFromDisk_config now l).
Qed.

(** (store.go, [put], [Delete], [newLocalStoreWithLimit], [loadFromDisk]): a
    store whose file writes succeed can be restarted: after any sequence of
    operations, loading its directory in whatever order gives the same values
    with correct counters, provided they fit the budget of the new run.  What is
    not restored is the attribution: every peer's usage starts again from zero. *)
Theorem restart_keeps_values (ord : localStore -> list bytes) (now : Time) (max : Z)
    (ops : list store_op) (l : list dir_entry) (max' : Z) :
  let s := foldl store_exec (empty_on_disk max) ops in
  Forall op_persisted ops -> l ≡ₚ listing (disk s) ->
  max' <= 0 \/ stored_bytes (data s) <= max' ->
  exists s',
    newLocalStoreWithLimit ord now (Some (disk s)) (Some l) max' = Some s'
    /\ data s' = data s /\ disk s' = disk s /\ store_ok s' /\ forall p, PerPeerUsage s' p = 0.
Proof.
  intros s Hops Hl Hfit. apply reload_mirrored; [|done|done].
  assert (mirrored (empty_on_disk max)) as H0 by (split_and!; done).
  unfold s. clear s Hl Hfit. revert H0. generalize (empty_on_disk max).
  induction Hops as [|op ops Hop _ IH]; intros s Hs; simpl; [done|].
  by apply IH, store_exec_mirrored.
Qed.

Lemma restart_keeps_values_witness :
  let s := foldl store_exec (empty_on_disk 0)
             [OpPut (at_time 1) (key_of 1) (zeros 4) (bs "peer"); OpPut (at_time 2) (key_of 2) (zeros 6) [];
              OpDelete (key_of 2)] in
  PerPeerUsage s (bs "peer") = 4
  /\ exists s', newLocalStoreWithLimit lru_order 9 (Some (disk s)) (Some (listing (disk s))) 0 = Some s'
     /\ data s' = data s /\ PerPeerUsage s' (bs "peer") = 0.
Proof.
  intros s. split; [by vm_compute|].
  destruct (restart_keeps_values lru_order 9 0
    [OpPut (at_time 1) (key_of 1) (zeros 4) (bs "peer"); OpPut (at_time 2) (key_of 2) (zeros 6) [];
     OpDelete (key_of 2)] (listing (disk s)) 0) as (s' & ? & ? & _ & _ & ?).
  - repeat constructor; by try apply lru_order_ok.
  - done.
  - by left.
  - exists s'. auto.
Defined.
