(* ===== verification/StoreDisk.v ===== *)
(** * The store and its files

    store.go once more, with the file system between the operations.  [put] and
    [Delete] change the maps under the mutex and touch the directory after they have
    released it, so operations on one key can overlap on disk: [writeAtomic] opens,
    copies, syncs and renames the one temporary file of the key, and a removal waits
    its turn.  Store.v runs each operation to its end; here the file operations are
    tasks that interleave in any order, on names, inodes and open files.

    As long as the operations on one key do not overlap and no write fails, the
    directory follows the maps ([disk_follows_memory]), as Store.v has it.  When they
    do overlap, a deleted value can come back ([deleted_value_returns]) and a file can
    be half written under its final name ([torn_file]). *)

From S2P Require Import Prelude GoStrings Encoding Json Sha256 Crypto Peer NodeId Store.

(** ** Files *)

(** Names lead to inodes, and inodes hold the bytes: an open file stays the same file
    when it is renamed. *)
Record fs := MkFs { fs_names : gmap bytes nat; fs_inodes : gmap nat bytes; fs_next : nat }.

Definition file_at (f : fs) (path : bytes) : option bytes :=
  match fs_names f !! path with Some i => fs_inodes f !! i | None => None end.

(** [os.OpenFile] with [O_WRONLY|O_CREATE|O_TRUNC]. *)
Definition open_trunc (path : bytes) (f : fs) : nat * fs :=
  match fs_names f !! path with
  | Some i => (i, MkFs (fs_names f) (<[i := []]> (fs_inodes f)) (fs_next f))
  | None => (fs_next f, MkFs (<[path := fs_next f]> (fs_names f)) (<[fs_next f := []]> (fs_inodes f)) (S (fs_next f)))
  end.

(** [Write] at the offset of the open file; a gap is filled with zeros. *)
Definition write_at (i off : nat) (chunk : bytes) (f : fs) : fs :=
  MkFs (fs_names f)
    (alter (fun c => resize off Byte.x00 c ++ chunk ++ drop (off + length chunk) c) i (fs_inodes f)) (fs_next f).

Definition rename (a b : bytes) (f : fs) : option fs :=
  match fs_names f !! a with
  | Some i => Some (MkFs (<[b := i]> (delete a (fs_names f))) (fs_inodes f) (fs_next f))
  | None => None
  end.

Definition remove_all (paths : gset bytes) (f : fs) : fs :=
  MkFs (filter (fun p => p.1 ∉ paths) (fs_names f)) (fs_inodes f) (fs_next f).

Definition remove (path : bytes) (f : fs) : fs := remove_all {[path]} f.

(** ** What is left to do outside the mutex *)

Inductive task :=
| TWrite (hex value : bytes)                       (* [writeAtomic] is called *)
| TCopy (hex value : bytes) (i off : nat)          (* the file is open, [off] bytes are copied *)
| TRename (hex value : bytes)                      (* synced and closed *)
| TRemove (hex : bytes).

Definition task_key (t : task) : bytes :=
  match t with TWrite hex _ | TCopy hex _ _ _ | TRename hex _ | TRemove hex => hex end.

(** One file operation that succeeds. *)
Inductive task_step (f : fs) : task -> fs -> option task -> Prop :=
| do_open hex v i f' :
    open_trunc (tmp_name hex) f = (i, f') -> task_step f (TWrite hex v) f' (Some (TCopy hex v i 0))
| do_copy hex v i off n :
    (0 < n)%nat -> (off + n <= length v)%nat ->
    task_step f (TCopy hex v i off) (write_at i off (take n (drop off v)) f) (Some (TCopy hex v i (off + n)))
| do_close hex v i off :
    off = length v -> task_step f (TCopy hex v i off) f (Some (TRename hex v))
| do_rename hex v f' :
    rename (tmp_name hex) hex f = Some f' -> task_step f (TRename hex v) f' None
| do_remove hex : task_step f (TRemove hex) (remove hex f) None.

(** One that fails: what the error path of [writeAtomic] does. *)
Inductive task_fail (f : fs) : task -> fs -> Prop :=
| open_fails hex v : task_fail f (TWrite hex v) f
| copy_fails hex v i off : task_fail f (TCopy hex v i off) (remove (tmp_name hex) f)
| rename_fails hex v : task_fail f (TRename hex v) f
| remove_fails hex : task_fail f (TRemove hex) f.

(** ** The store *)

(** The maps (a [localStore] without a directory), the files and the tasks. *)
Record disk_state := MkDS { ds_mem : localStore; ds_fs : fs; ds_tasks : list task }.

(** The keys an eviction drops; their files are removed under the mutex. *)
Definition evicted (e : put_env) (m : localStore) (hex value : bytes) : gset bytes :=
  dom (data m) ∖ dom (data (evictToFit (pe_ord e) (len value) (refund m hex))).

Inductive ds_label := LPut (hex : bytes) (gone : gset bytes) | LDelete (hex : bytes) | LTask | LFail | LRead.

(** A [put] above the quota of the peer and a [Delete] of a key that is not there do
    nothing. *)
Inductive ds_step : disk_state -> ds_label -> disk_state -> Prop :=
| ds_put e key value peerID m m' f ts :
    put_locked e m (Hex key) value peerID = Some m' ->
    ds_step (MkDS m f ts) (LPut (Hex key) (evicted e m (Hex key) value))
      (MkDS m' (remove_all (evicted e m (Hex key) value) f) (ts ++ [TWrite (Hex key) value]))
| ds_delete key m f ts :
    is_Some (data m !! Hex key) ->
    ds_step (MkDS m f ts) (LDelete (Hex key)) (MkDS (Delete m key) f (ts ++ [TRemove (Hex key)]))
| ds_get now key m f ts : ds_step (MkDS m f ts) LRead (MkDS (Get m now key).1 f ts)
| ds_task m f f' t o l1 l2 :
    task_step f t f' o -> ds_step (MkDS m f (l1 ++ t :: l2)) LTask (MkDS m f' (l1 ++ option_list o ++ l2))
| ds_fail m f f' t l1 l2 :
    task_fail f t f' -> ds_step (MkDS m f (l1 ++ t :: l2)) LFail (MkDS m f' (l1 ++ l2)).

Definition any_step (s s' : disk_state) : Prop := exists l, ds_step s l s'.

(** Nothing is left to do for the key. *)
Definition idle (s : disk_state) (hex : bytes) : Prop := hex ∉ (task_key <$> ds_tasks s).

(** The operations on a key wait for each other, and no file operation fails. *)
Definition serial (s : disk_state) (l : ds_label) : Prop :=
  match l with
  | LPut hex gone => idle s hex /\ forall k, k ∈ gone -> idle s k
  | LDelete hex => idle s hex
  | LTask | LRead => True
  | LFail => False
  end.

Definition serial_step (s s' : disk_state) : Prop := exists l, ds_step s l s' /\ serial s l.

(** * Facts *)

(** ** Files *)

Ltac fs_cbn := cbn [fs_names fs_inodes fs_next open_trunc write_at rename remove_all fst snd].

(** A name leads to one file, and a file has one name. *)
Record fs_ok (f : fs) : Prop := {
  fs_inj p q i : fs_names f !! p = Some i -> fs_names f !! q = Some i -> p = q;
  fs_old p i : fs_names f !! p = Some i -> (i < fs_next f)%nat /\ is_Some (fs_inodes f !! i)
}.

(** The files under other names are as they were. *)
Definition only (k : bytes) (f f' : fs) : Prop :=
  forall p, p <> k -> p <> tmp_name k -> fs_names f' !! p = fs_names f !! p /\ file_at f' p = file_at f p.

Lemma open_trunc_spec k f i f' :
  fs_ok f -> open_trunc (tmp_name k) f = (i, f') ->
  fs_ok f' /\ only k f f' /\ fs_names f' !! tmp_name k = Some i /\ fs_inodes f' !! i = Some [].
Proof.
  intros [Hinj Hold]. unfold open_trunc. destruct (fs_names f !! tmp_name k) as [j|] eqn:E; intros [= <- <-].
  - split_and!; fs_cbn; [split; fs_cbn; [exact Hinj|]| |done|apply lookup_insert_eq].
    + intros p i Hp. destruct (Hold p i Hp) as [? ?]. split; [done|].
      destruct (decide (i = j)) as [->|]; [rewrite lookup_insert_eq; eauto|by rewrite lookup_insert_ne].
    + intros p _ Hp. split; [done|]. unfold file_at. fs_cbn. destruct (fs_names f !! p) as [i|] eqn:Ep; [|done].
      rewrite lookup_insert_ne; [done|]. intros <-. by destruct Hp; eapply Hinj.
  - split_and!; fs_cbn; [split; cbn| |by rewrite lookup_insert_eq|by rewrite lookup_insert_eq].
    + intros p q i [[<- <-]|[Hp Hpi]]%lookup_insert_Some [[<- Hj]|[Hq Hqi]]%lookup_insert_Some;
        [done|destruct (Hold _ _ Hqi); lia|destruct (Hold _ _ Hpi); lia|by eapply Hinj].
    + intros p i [[<- <-]|[Hp Hpi]]%lookup_insert_Some; [rewrite lookup_insert_eq; split; [lia|eauto]|].
      destruct (Hold _ _ Hpi). split; [lia|]. rewrite lookup_insert_ne by lia. done.
    + intros p _ Hp. fs_cbn. rewrite lookup_insert_ne by done. split; [done|]. unfold file_at. fs_cbn.
      rewrite lookup_insert_ne by done. destruct (fs_names f !! p) as [i|] eqn:Ep; [|done].
      destruct (Hold _ _ Ep). by rewrite lookup_insert_ne by lia.
Qed.

Lemma write_at_spec k i off chunk f :
  fs_ok f -> fs_names f !! tmp_name k = Some i -> fs_ok (write_at i off chunk f) /\ only k f (write_at i off chunk f).
Proof.
  intros [Hinj Hold] Hi. split.
  - split; fs_cbn; [done|]. intros p j Hj. destruct (Hold p j Hj) as [? [c Hc]]. split; [done|].
    destruct (decide (i = j)) as [->|]; [rewrite lookup_alter_eq, Hc; eauto|by rewrite lookup_alter_ne, Hc].
  - intros p _ Hp. split; [done|]. unfold file_at. fs_cbn. destruct (fs_names f !! p) as [j|] eqn:Ep; [|done].
    rewrite lookup_alter_ne; [done|]. intros <-. by destruct Hp; eapply Hinj.
Qed.

Lemma rename_spec k f f' v :
  fs_ok f -> rename (tmp_name k) k f = Some f' -> file_at f (tmp_name k) = Some v ->
  fs_ok f' /\ only k f f' /\ file_at f' k = Some v.
Proof.
  intros [Hinj Hold]. unfold rename. destruct (fs_names f !! tmp_name k) as [i|] eqn:E; [|done]. intros [= <-] Hv.
  unfold file_at in Hv. rewrite E in Hv. split_and!.
  - split; fs_cbn.
    + intros p q j [[<- <-]|[Hp [Hpt Hpj]%lookup_delete_Some]]%lookup_insert_Some
        [[<- Hj]|[Hq [Hqt Hqj]%lookup_delete_Some]]%lookup_insert_Some; [done|..|by eapply Hinj].
      * destruct Hqt. by eapply Hinj.
      * destruct Hpt. subst. by eapply Hinj.
    + intros p j [[_ <-]|[_ [_ Hpj]%lookup_delete_Some]]%lookup_insert_Some; eauto.
  - intros p Hp Hpt. unfold file_at. fs_cbn. rewrite lookup_insert_ne, lookup_delete_ne by done. done.
  - unfold file_at. fs_cbn. by rewrite lookup_insert_eq.
Qed.

Lemma remove_all_spec paths f :
  fs_ok f ->
  fs_ok (remove_all paths f)
  /\ forall p, (p ∈ paths -> file_at (remove_all paths f) p = None)
       /\ (p ∉ paths -> fs_names (remove_all paths f) !! p = fs_names f !! p
                        /\ file_at (remove_all paths f) p = file_at f p).
Proof.
  intros [Hinj Hold]. split.
  - split; fs_cbn.
    + intros p q i [Hp _]%map_lookup_filter_Some [Hq _]%map_lookup_filter_Some. by eapply Hinj.
    + intros p i [Hp _]%map_lookup_filter_Some. by eapply Hold.
  - intros p. unfold file_at. fs_cbn. split; intros Hp.
    + rewrite map_lookup_filter_None_2; [done|]. right. intros i _. naive_solver.
    + assert (filter (fun q : bytes * nat => q.1 ∉ paths) (fs_names f) !! p = fs_names f !! p) as ->; [|done].
      destruct (fs_names f !! p) as [i|] eqn:E; [by apply map_lookup_filter_Some|].
      apply map_lookup_filter_None_2. by left.
Qed.

(** ** The directory follows the maps *)

(** What a task has reached, when it has its key to itself. *)
Definition task_ok (m : localStore) (f : fs) (t : task) : Prop :=
  match t with
  | TWrite k v => data m !! k = Some v
  | TCopy k v i off =>
      data m !! k = Some v /\ fs_names f !! tmp_name k = Some i
      /\ fs_inodes f !! i = Some (take off v) /\ (off <= length v)%nat
  | TRename k v => data m !! k = Some v /\ file_at f (tmp_name k) = Some v
  | TRemove k => data m !! k = None
  end.

Record follows (s : disk_state) : Prop := {
  fo_fs : fs_ok (ds_fs s);
  fo_keys : NoDup (task_key <$> ds_tasks s);
  fo_valid t : t ∈ ds_tasks s -> valid_name (task_key t) = true;
  fo_tasks t : t ∈ ds_tasks s -> task_ok (ds_mem s) (ds_fs s) t;
  fo_data k v : data (ds_mem s) !! k = Some v -> valid_name k = true;
  fo_idle k : valid_name k = true -> idle s k -> file_at (ds_fs s) k = data (ds_mem s) !! k
}.

Lemma tmp_name_other k k' :
  valid_name k = true -> valid_name k' = true ->
  tmp_name k <> k' /\ (k <> k' -> tmp_name k <> tmp_name k').
Proof.
  intros Hk%valid_name_length Hk'%valid_name_length. split.
  - intros E. apply (f_equal length) in E. unfold tmp_name in E. rewrite length_app, Hk, Hk' in E. discriminate.
  - unfold tmp_name. intros Hne E. by apply app_inv_tail in E.
Qed.

(** Work on one key does not disturb the tasks of the others. *)
Lemma only_task m k f f' t :
  only k f f' -> valid_name k = true -> valid_name (task_key t) = true -> task_key t <> k ->
  task_ok m f t -> task_ok m f' t.
Proof.
  intros Ho Hk Ht Hne. destruct (tmp_name_other (task_key t) k Ht Hk) as [T1 T2].
  destruct (Ho (tmp_name (task_key t)) T1 (T2 Hne)) as [E1 E2].
  destruct t as [hex v|hex v i off|hex v|hex]; cbn [task_ok task_key] in *; [done| | |done].
  - intros (Hd & Hn & Hi & Hl). unfold file_at in E2. rewrite E1, Hn in E2. rewrite E1. split_and!; try done. congruence.
  - by rewrite E2.
Qed.

Lemma task_step_ok m f t f' o :
  fs_ok f -> valid_name (task_key t) = true -> task_ok m f t -> task_step f t f' o ->
  fs_ok f' /\ only (task_key t) f f'
  /\ match o with
     | Some t' => task_key t' = task_key t /\ task_ok m f' t'
     | None => file_at f' (task_key t) = data m !! task_key t
     end.
Proof.
  intros Hf Hk Ht Hs. destruct Hs as [hex v i f' E|hex v i off n Hn Hl|hex v i off ->|hex v f' E|hex]; cbn [task_key task_ok] in *.
  - destruct (open_trunc_spec hex f i f' Hf E) as (? & ? & ? & ?). by split_and!; try done; lia.
  - destruct Ht as (Hd & Hnm & Hi & _). destruct (write_at_spec hex i off (take n (drop off v)) f Hf Hnm) as [? ?].
    split_and!; try done. fs_cbn. rewrite lookup_alter_eq, Hi. cbn [fmap option_fmap option_map]. f_equal.
    assert (length (take off v) = off) as Hlo by (rewrite length_take; lia).
    rewrite resize_ge by lia. rewrite Hlo, Nat.sub_diag. cbn [replicate]. rewrite app_nil_r.
    rewrite (drop_ge (take off v)) by (rewrite length_take; lia). by rewrite app_nil_r, take_take_drop.
  - destruct Ht as (Hd & Hnm & Hi & _). split_and!; try done. unfold file_at. rewrite Hnm, Hi.
    by rewrite take_ge by lia.
  - destruct Ht as [Hd Hv]. destruct (rename_spec hex f f' v Hf E Hv) as (? & ? & E'). by rewrite E'.
  - destruct (remove_all_spec {[hex]} f Hf) as [? Hr]. split_and!; [done| |].
    + intros p Hp _. apply Hr. by rewrite elem_of_singleton.
    + rewrite Ht. by apply Hr, elem_of_singleton.
Qed.

Lemma follows_task m f f' t o l1 l2 :
  follows (MkDS m f (l1 ++ t :: l2)) -> task_step f t f' o -> follows (MkDS m f' (l1 ++ option_list o ++ l2)).
Proof.
  intros [Hf Hnd Hval Hok Hdata Hidle] Hs. cbn [ds_mem ds_fs ds_tasks] in *.
  assert (valid_name (task_key t) = true) as Hvt by (apply Hval; set_solver).
  destruct (task_step_ok m f t f' o Hf Hvt (Hok t ltac:(set_solver)) Hs) as (Hf' & Ho & Hpost).
  rewrite fmap_app, fmap_cons in Hnd. apply NoDup_app in Hnd as (Hnd1 & Hdis & [Hnt Hnd2]%NoDup_cons).
  assert (forall t', t' ∈ l1 \/ t' ∈ l2 -> task_key t' <> task_key t) as Hother.
  { intros t' [Hin|Hin] E; [apply (Hdis (task_key t'))|apply Hnt]; [by apply list_elem_of_fmap_2|rewrite E; by left|].
    rewrite <- E. by apply list_elem_of_fmap_2. }
  assert (forall t', t' ∈ l1 ++ option_list o ++ l2 -> task_ok m f' t' /\ valid_name (task_key t') = true) as Hall.
  { intros t' [Hin|[Hin|Hin]%elem_of_app]%elem_of_app.
    2:{ destruct o as [t2|]; [|by apply not_elem_of_nil in Hin]. apply list_elem_of_singleton in Hin as ->.
        destruct Hpost as [E ?]. by rewrite E. }
    all: split; [eapply only_task; [exact Ho|done|apply Hval; set_solver|apply Hother; tauto|apply Hok; set_solver]|apply Hval; set_solver]. }
  split; cbn [ds_mem ds_fs ds_tasks]; [done| |apply Hall|apply Hall|done|].
  - rewrite !fmap_app. destruct o as [t2|].
    + destruct Hpost as [E _]. change (task_key <$> option_list (Some t2)) with [task_key t2]. rewrite E.
      apply NoDup_app. split; [done|]. split; [done|by apply NoDup_cons].
    + apply NoDup_app. split_and!; [done| |done]. intros k Hk Hk2. apply (Hdis k Hk). by right.
  - intros k Hk Hi. unfold idle in *. cbn [ds_tasks] in *. rewrite !fmap_app in Hi.
    destruct (decide (k = task_key t)) as [->|Hne].
    + destruct o as [t2|]; [|done]. destruct Hpost as [E _]. destruct Hi. rewrite <- E, !elem_of_app. right. left. by left.
    + destruct (tmp_name_other (task_key t) k Hvt Hk) as [T _].
      rewrite (proj2 (Ho k Hne (fun E => T (eq_sym E)))). apply Hidle; [done|].
      rewrite fmap_app, fmap_cons. set_solver.
Qed.

(** The maps after a put. *)
Lemma put_locked_data e m hex v p m' :
  put_locked e m hex v p = Some m' ->
  data m' !! hex = Some v
  /\ forall k, k <> hex -> data m' !! k = if decide (k ∈ evicted e m hex v) then None else data m !! k.
Proof.
  unfold put_locked, evicted. destruct (admitted _ _ _ _); [|done]. intros [= <-]. cbn [record_entry data].
  set (m1 := evictToFit _ _ _).
  assert (data m1 ⊆ data m) as Hsub.
  { destruct (evictToFit_drops (pe_ord e) (len v) (refund m hex)) as [l El]. unfold m1. rewrite El.
    rewrite <- (refund_data m hex). apply drop_entries_subseteq. }
  split; [apply lookup_insert_eq|]. intros k Hk. rewrite lookup_insert_ne by done.
  destruct (data m1 !! k) as [w|] eqn:E1.
  - rewrite decide_False; [by rewrite (lookup_weaken _ _ _ _ E1 Hsub)|].
    rewrite elem_of_difference, !elem_of_dom, E1. intros [_ Hn]. by apply Hn.
  - destruct (data m !! k) as [w|] eqn:E2; [|by destruct (decide _)].
    rewrite decide_True; [done|]. rewrite elem_of_difference, !elem_of_dom, E1, E2. split; [done|]. by intros [? ?].
Qed.

(** An operation under the mutex whose keys have nothing left to do. *)
Lemma follows_locked s m' gone t :
  follows s -> valid_name (task_key t) = true -> idle s (task_key t) ->
  (forall k, k ∈ gone -> idle s k /\ valid_name k = true) ->
  (forall k, k <> task_key t -> data m' !! k = if decide (k ∈ gone) then None else data (ds_mem s) !! k) ->
  (forall f, task_ok m' f t) ->
  follows (MkDS m' (remove_all gone (ds_fs s)) (ds_tasks s ++ [t])).
Proof.
  intros I Hvt Hit Hgone Hdata Hok. pose proof I as [Hf Hnd Hval Hts Hd Hidle].
  destruct (remove_all_spec gone (ds_fs s) Hf) as [Hf' Hr].
  assert (forall t', t' ∈ ds_tasks s -> task_key t' <> task_key t /\ task_key t' ∉ gone) as Hother.
  { intros t' Hin. assert (task_key t' ∈ (task_key <$> ds_tasks s)) as Hk by by apply list_elem_of_fmap_2. split.
    - intros E. apply Hit. by rewrite <- E.
    - intros Hg. by apply (proj1 (Hgone _ Hg)). }
  split; cbn [ds_mem ds_fs ds_tasks]; [done|..].
  - rewrite fmap_app. apply NoDup_app. split_and!; [done| |apply NoDup_singleton].
    intros k Hk ->%list_elem_of_singleton. by apply Hit.
  - intros t' [Hin| ->%list_elem_of_singleton]%elem_of_app; [by apply Hval|done].
  - intros t' [Hin| ->%list_elem_of_singleton]%elem_of_app; [|done]. destruct (Hother t' Hin) as [Hne Hng].
    specialize (Hts t' Hin). pose proof (Hval t' Hin) as Hv'. specialize (Hdata _ Hne). rewrite decide_False in Hdata by done.
    assert (tmp_name (task_key t') ∉ gone) as Htg.
    { intros Hg. apply (proj1 (tmp_name_other _ _ Hv' (proj2 (Hgone _ Hg)))). done. }
    destruct (proj2 (Hr _) Htg) as [E1 E2].
    destruct t' as [hex v|hex v i off|hex v|hex]; cbn [task_ok task_key] in *; rewrite Hdata; [done| |by rewrite E2|done].
    by rewrite E1.
  - intros k v Hk. destruct (decide (k = task_key t)) as [->|Hne]; [done|].
    rewrite Hdata in Hk by done. destruct (decide _); [done|]. by eapply Hd.
  - intros k Hk Hi. unfold idle in Hi. cbn [ds_tasks] in Hi. rewrite fmap_app, not_elem_of_app in Hi.
    destruct Hi as [Hi Hne%not_elem_of_cons]. destruct Hne as [Hne _]. rewrite Hdata by done.
    destruct (decide (k ∈ gone)) as [Hg|Hg]; [by apply Hr|]. rewrite (proj2 (proj2 (Hr k) Hg)). by apply Hidle.
Qed.

Lemma serial_step_follows s s' : serial_step s s' -> follows s -> follows s'.
Proof.
  intros (l & Hs & Hser) I. destruct Hs as [e key v p m m' f ts Hp|key m f ts Hd|now key m f ts|m f f' t o l1 l2 Ht|];
    [| | | |done].
  - destruct Hser as [Hi Hg]. destruct (put_locked_data _ _ _ _ _ _ Hp) as [Hnew Hold].
    apply (follows_locked _ m' _ (TWrite (Hex key) v) I); try done; [apply valid_name_Hex|].
    intros k Hk. split; [by apply Hg|]. unfold evicted in Hk. apply elem_of_difference in Hk as [[w Hw]%elem_of_dom _].
    by apply (fo_data _ I k w).
  - pose proof (follows_locked _ (Delete m key) ∅ (TRemove (Hex key)) I) as Hf. cbn [ds_fs ds_mem ds_tasks task_key] in Hf.
    assert (remove_all ∅ f = f) as Ef.
    { unfold remove_all. destruct f as [nm ino nx]. cbn. f_equal. apply map_filter_id. intros; apply not_elem_of_empty. }
    rewrite Ef in Hf. unfold Delete in *. rewrite drop_entry_data in Hf. apply Hf; try done.
    + apply valid_name_Hex.
    + intros k Hk. by rewrite lookup_delete_ne.
    + intros f'. cbn. by rewrite drop_entry_data, lookup_delete_eq.
  - assert (data (Get m now key).1 = data m) as E by (unfold Get; by destruct (data m !! Hex key)).
    destruct I as [Hf Hnd Hval Hts Hd Hidle]. cbn [ds_mem ds_fs ds_tasks] in *.
    split; cbn [ds_mem ds_fs ds_tasks]; rewrite ?E; try done.
    intros t Ht. specialize (Hts t Ht). destruct t; cbn [task_ok] in *; by rewrite E.
  - by eapply follows_task.
Qed.

Definition empty_fs : fs := MkFs ∅ ∅ 0.

(** A new store on an empty directory. *)
Definition started (max : Z) : disk_state := MkDS (bounded_store max) empty_fs [].

Lemma started_follows max : follows (started max).
Proof.
  split; cbn [started ds_mem ds_fs ds_tasks].
  - by split.
  - apply NoDup_nil_2.
  - intros t Ht. by apply not_elem_of_nil in Ht.
  - intros t Ht. by apply not_elem_of_nil in Ht.
  - done.
  - done.
Qed.

(** [d] lists the files, with some modification times. *)
Definition dir_view (d : directory) (f : fs) : Prop := forall p, fst <$> d !! p = file_at f p.

(** C27 (store.go, [put], [Delete], [evictUntilUnder], [writeAtomic], [loadFromDisk]): the
    directory follows the maps although it is written outside the mutex.  Let any
    number of operations run, their file operations interleaved in any order, such
    that the operations on one key wait for each other's file operations and none of
    these fails.  Then at any time the file of a key with nothing left to do holds
    the value the maps have for it, or is not there when they have none; and when
    nothing is left to do at all, and no value is above [MaxValueSize], a restart with
    no budget, or with one the values fit in, loads exactly the values of the maps. *)
Theorem disk_follows_memory (max : Z) (s : disk_state) :
  rtc serial_step (started max) s ->
  (forall k, valid_name k = true -> idle s k -> file_at (ds_fs s) k = data (ds_mem s) !! k)
  /\ (ds_tasks s = [] ->
      forall d l ord now max', dir_view d (ds_fs s) -> l ≡ₚ listing d ->
        max' <= 0 \/ stored_bytes (data (ds_mem s)) <= max' ->
        (forall k v, data (ds_mem s) !! k = Some v -> len v <= MaxValueSize) ->
        exists s', newLocalStoreWithLimit ord now (Some d) (Some l) max' = Some s' /\ data s' = data (ds_mem s)).
Proof.
  intros Hr. assert (follows s) as I.
  { pose proof (started_follows max) as H0. clear -Hr H0. induction Hr; eauto using serial_step_follows. }
  split; [apply I|]. intros Ht d l ord now max' Hd Hl Hfit Hlen.
  set (m := MkStore (data (ds_mem s)) ∅ 0 0 true ∅ ∅ 0 d).
  destruct (reload_mirrored ord now m l max') as (s' & E & Es & _); [|done|done|by exists s'].
  split_and!; [done| |intros k v Hk; split; [by eapply fo_data|by eapply Hlen]]. intros k Hk. cbn [m disk data]. rewrite Hd. apply (fo_idle _ I k Hk).
  unfold idle. rewrite Ht. apply not_elem_of_nil.
Qed.

(** ** When operations on a key overlap *)

Lemma task_runs m f f' t o l1 l2 :
  task_step f t f' o -> serial_step (MkDS m f (l1 ++ t :: l2)) (MkDS m f' (l1 ++ option_list o ++ l2)).
Proof. intros Ht. exists LTask. split; [by constructor|done]. Qed.

(** The copy of a whole value. *)
Lemma copy_runs m f hex v i l1 l2 :
  fs_names f !! tmp_name hex = Some i -> fs_inodes f !! i = Some [] ->
  exists f', rtc serial_step (MkDS m f (l1 ++ TCopy hex v i 0 :: l2)) (MkDS m f' (l1 ++ TRename hex v :: l2))
    /\ fs_names f' = fs_names f /\ file_at f' (tmp_name hex) = Some v.
Proof.
  intros Hn Hi. destruct (decide (v = [])) as [->|Hv].
  - exists f. split; [|split; [done|unfold file_at; by rewrite Hn]].
    apply rtc_once, (task_runs m f f _ (Some (TRename hex []))). by constructor.
  - exists (write_at i 0 (take (length v) (drop 0 v)) f). split; [|split; [done|]].
    + set (f' := write_at _ _ _ _).
      apply rtc_l with (MkDS m f' (l1 ++ TCopy hex v i (0 + length v) :: l2)).
      { apply (task_runs m f f' _ (Some (TCopy hex v i (0 + length v)))). constructor; [|lia]. destruct v; [done|simpl; lia]. }
      apply rtc_once, (task_runs m f' f' _ (Some (TRename hex v))). constructor. lia.
    + unfold file_at. fs_cbn. rewrite Hn, lookup_alter_eq, Hi. cbn [fmap option_fmap option_map].
      rewrite drop_0, take_ge, drop_nil by lia. by rewrite app_nil_r.
Qed.

(** A write that nothing interferes with. *)
Lemma write_runs m f hex v l1 l2 :
  fs_ok f -> exists f', rtc serial_step (MkDS m f (l1 ++ TWrite hex v :: l2)) (MkDS m f' (l1 ++ l2))
    /\ file_at f' hex = Some v.
Proof.
  intros Hf. destruct (open_trunc (tmp_name hex) f) as [i f1] eqn:E.
  destruct (open_trunc_spec hex f i f1 Hf E) as (Hf1 & _ & Hn & Hi).
  destruct (copy_runs m f1 hex v i l1 l2 Hn Hi) as (f2 & Hc & En & Hv).
  assert (exists f3, rename (tmp_name hex) hex f2 = Some f3 /\ file_at f3 hex = Some v) as (f3 & Er & H3).
  { unfold rename. rewrite En, Hn. eexists. split; [done|]. unfold file_at in Hv |- *. fs_cbn.
    rewrite lookup_insert_eq. by rewrite En, Hn in Hv. }
  exists f3. split; [|done]. eapply rtc_l; [apply (task_runs m f f1 _ (Some (TCopy hex v i 0))); by constructor|].
  etrans; [exact Hc|]. apply rtc_once, (task_runs m f2 f3 _ None). by constructor.
Qed.

Lemma serial_any s s' : rtc serial_step s s' -> rtc any_step s s'.
Proof. induction 1 as [|a b c (l & Hs & _) _ IH]; [done|]. eapply rtc_l; [by exists l|done]. Qed.

(** A put of a value into an empty store. *)
Definition put_one (max : Z) (key : NodeID) (v : bytes) : localStore :=
  record_entry (evictToFit lru_order (len v) (bounded_store max)) (Hex key) v [] 1.

Lemma put_one_locked max key v : put_locked (at_time 1) (bounded_store max) (Hex key) v [] = Some (put_one max key v).
Proof. done. Qed.

(** (store.go, [put], [Delete]): a deleted value comes back.  [put] has put a value
    into the maps and released the mutex; before it writes the file, the value is
    deleted, by a revocation say, and the removal of the file that is not there yet
    is done.  Then [put] writes the file.  The maps no longer have the value, but its
    file is there for the next start to load, and the blocklist a revocation fills
    does not outlive the process. *)
Theorem deleted_value_returns (max : Z) (key : NodeID) (v : bytes) :
  exists s, rtc any_step (started max) s /\ ds_tasks s = [] /\ data (ds_mem s) !! Hex key = None
    /\ file_at (ds_fs s) (Hex key) = Some v.
Proof.
  set (m := put_one max key v). set (f := remove_all (evicted (at_time 1) (bounded_store max) (Hex key) v) empty_fs).
  destruct (write_runs (Delete m key) (remove (Hex key) f) (Hex key) v [] []) as (f' & Hr & Hv).
  { apply remove_all_spec, remove_all_spec. by split. }
  exists (MkDS (Delete m key) f' []). cbn [ds_tasks ds_mem ds_fs]. split_and!; [|done| |done].
  - apply rtc_l with (MkDS m f [TWrite (Hex key) v]).
    { eexists. apply (ds_put (at_time 1) key v [] (bounded_store max) m empty_fs []), put_one_locked. }
    apply rtc_l with (MkDS (Delete m key) f [TWrite (Hex key) v; TRemove (Hex key)]).
    { eexists. apply (ds_delete key m f [_]). exists v. apply lookup_insert_eq. }
    apply rtc_l with (MkDS (Delete m key) (remove (Hex key) f) [TWrite (Hex key) v]).
    { eexists. apply (ds_task _ f _ (TRemove (Hex key)) None [_] []). constructor. }
    by apply serial_any.
  - unfold Delete. by rewrite drop_entry_data, lookup_delete_eq.
Qed.

(** (store.go, [put], [writeAtomic]): a write is not atomic when the key is written
    twice at once.  Both writes use one temporary file; the second truncates it while
    the first is about to rename it, so the file under the final name is empty: what
    a crash leaves there is a value nobody has put. *)
Theorem torn_file (max : Z) (key : NodeID) (v : bytes) :
  exists s, rtc any_step (started max) s /\ data (ds_mem s) !! Hex key = Some v
    /\ file_at (ds_fs s) (Hex key) = Some [].
Proof.
  set (m := put_one max key v). set (f := remove_all (evicted (at_time 1) (bounded_store max) (Hex key) v) empty_fs).
  assert (fs_ok f) as Hf by (apply remove_all_spec; by split).
  destruct (open_trunc (tmp_name (Hex key)) f) as [i f1] eqn:E1.
  destruct (open_trunc_spec (Hex key) f i f1 Hf E1) as (Hf1 & _ & Hn & Hi).
  destruct (copy_runs m f1 (Hex key) v i [] [] Hn Hi) as (f2 & Hc & En & Hv).
  destruct (put_locked (at_time 2) m (Hex key) v []) as [m2|] eqn:Ep; [|done].
  set (gone := evicted (at_time 2) m (Hex key) v).
  assert (tmp_name (Hex key) ∉ gone) as Hg.
  { unfold gone, evicted, m, put_one. intros [Hin _]%elem_of_difference. apply elem_of_dom in Hin as [w Hw].
    assert (forall x, data (evictToFit lru_order (len v) (bounded_store max)) !! x = None) as Hno.
    { intros x. destruct (evictToFit_drops lru_order (len v) (bounded_store max)) as [l ->].
      rewrite drop_entries_data. by destruct (bool_decide _). }
    cbn [record_entry data] in Hw. apply lookup_insert_Some in Hw as [[Ex _]|[_ Hw]]; [|by rewrite Hno in Hw].
    symmetry in Ex. revert Ex. apply (tmp_name_other (Hex key) (Hex key)); apply valid_name_Hex. }
  set (f3 := remove_all gone f2).
  assert (fs_names f3 !! tmp_name (Hex key) = Some i) as Hn3.
  { unfold f3, remove_all. fs_cbn. apply map_lookup_filter_Some. by rewrite En. }
  set (f4 := MkFs (fs_names f3) (<[i := []]> (fs_inodes f3)) (fs_next f3)).
  assert (open_trunc (tmp_name (Hex key)) f3 = (i, f4)) as E4 by (unfold open_trunc; by rewrite Hn3).
  set (f5 := MkFs (<[Hex key := i]> (delete (tmp_name (Hex key)) (fs_names f4))) (fs_inodes f4) (fs_next f4)).
  assert (rename (tmp_name (Hex key)) (Hex key) f4 = Some f5) as E5.
  { unfold rename. change (fs_names f4) with (fs_names f3). by rewrite Hn3. }
  exists (MkDS m2 f5 [TCopy (Hex key) v i 0]). split_and!.
  - apply rtc_l with (MkDS m f [TWrite (Hex key) v]).
    { eexists. apply (ds_put (at_time 1) key v [] (bounded_store max) m empty_fs []), put_one_locked. }
    apply rtc_l with (MkDS m f1 [TCopy (Hex key) v i 0]).
    { eexists. apply (ds_task m f f1 _ (Some (TCopy (Hex key) v i 0)) [] []). by constructor. }
    etrans; [apply serial_any, Hc|].
    apply rtc_l with (MkDS m2 f3 [TRename (Hex key) v; TWrite (Hex key) v]).
    { eexists. by apply (ds_put (at_time 2) key v [] m m2 f2 [_]). }
    apply rtc_l with (MkDS m2 f4 [TRename (Hex key) v; TCopy (Hex key) v i 0]).
    { eexists. apply (ds_task m2 f3 f4 _ (Some (TCopy (Hex key) v i 0)) [_] []). by constructor. }
    apply rtc_once. eexists. apply (ds_task m2 f4 f5 _ None [] [_]). by constructor.
  - exact (proj1 (put_locked_data _ _ _ _ _ _ Ep)).
  - unfold file_at. replace (fs_names f5 !! Hex key) with (Some i) by (symmetry; apply lookup_insert_eq).
    apply lookup_insert_eq.
Qed.

(** ** A put and a delete that wait for each other *)

Lemma disk_follows_memory_witness :
  exists s, rtc serial_step (started 0) s /\ file_at (ds_fs s) (Hex (key_of 5)) = data (ds_mem s) !! Hex (key_of 5)
    /\ data (ds_mem s) !! Hex (key_of 5) = Some (bs "value").
Proof.
  set (m := put_one 0 (key_of 5) (bs "value")).
  set (gone := evicted (at_time 1) (bounded_store 0) (Hex (key_of 5)) (bs "value")).
  assert (fs_ok (remove_all gone empty_fs)) as Hf by (apply remove_all_spec; by split).
  destruct (write_runs m (remove_all gone empty_fs) (Hex (key_of 5)) (bs "value") [] [] Hf) as (f' & Hr & _).
  assert (rtc serial_step (started 0) (MkDS m f' [])) as Hrun.
  { apply rtc_l with (MkDS m (remove_all gone empty_fs) [TWrite (Hex (key_of 5)) (bs "value")]); [|exact Hr].
    exists (LPut (Hex (key_of 5)) gone). split.
    - apply (ds_put (at_time 1) (key_of 5) (bs "value") [] (bounded_store 0) m empty_fs []), put_one_locked.
    - split; [apply not_elem_of_nil|]. intros k _. apply not_elem_of_nil. }
  exists (MkDS m f' []). split; [exact Hrun|]. split; [|apply lookup_insert_eq].
  exact (proj1 (disk_follows_memory 0 _ Hrun) (Hex (key_of 5)) (valid_name_Hex _) (not_elem_of_nil _)).
Defined.
