(* ===== verification/Routing.v ===== *)
(** * The k-bucket routing table (core/dht/routing.go)

    [Update], [Hint] and [Remove] run under the table's mutex, so each is one
    atomic function on the table.  The asynchronous tail of a full-bucket
    [Update], [maybeEvictHead], holds the mutex only at its start and at its
    end, with a network ping in between: it is two atomic parts, and the step
    relation [rt_step] interleaves them with every other operation. *)

From S2P Require Import Prelude GoStrings Encoding NodeId.

Definition K : nat := 20.

Record Contact := MkContact {
  ID : NodeID;
  Address : bytes;
  AltAddresses : list bytes;
  LastSeen : Time
}.

#[global] Instance Contact_eq_dec : EqDecision Contact.
Proof. solve_decision. Defined.

Definition AllAddresses (c : Contact) : list bytes :=
  (if bool_decide (Address c = []) then [] else [Address c]) ++ AltAddresses c.

(** [evictionPing] records whether a ping callback is installed; what it
    answers is an input of [evict_finish]. *)
Record RoutingTable := MkRT {
  self : NodeID;
  buckets : list (list Contact);
  evictionPing : bool
}.

Definition NewRoutingTable (id : NodeID) : RoutingTable :=
  MkRT id (replicate (IDSize * 8) []) false.

Definition with_bucket (rt : RoutingTable) (idx : nat) (b : list Contact) : RoutingTable :=
  MkRT (self rt) (<[idx := b]> (buckets rt)) (evictionPing rt).

(** [&rt.buckets[idx]].  [Update] and [Hint] only index a bucket below 256
    (their first guard, [CommonPrefixLen_Equal_lt]), so the default is never
    used there. *)
Definition bucket_at (rt : RoutingTable) (idx : nat) : list Contact :=
  default [] (buckets rt !! idx).

(** [append(s[:i], s[i+1:]...)] *)
Definition remove_at {A} (i : nat) (l : list A) : list A := take i l ++ drop (S i) l.

(** The first position of a contact with the given ID. *)
Definition find_id (id : NodeID) (b : list Contact) : option (nat * Contact) :=
  list_find (fun c => Equal (ID c) id = true) b.

Definition set_LastSeen (c : Contact) (t : Time) : Contact :=
  MkContact (ID c) (Address c) (AltAddresses c) t.

(** The closure [add] of [mergeAddresses], on the pair (seen, out.AltAddresses). *)
Definition merge_add (st : gset bytes * list bytes) (s : bytes) : gset bytes * list bytes :=
  let '(seen, out) := st in
  if bool_decide (s = []) || bool_decide (s ∈ seen) then st
  else ({[s]} ∪ seen, out ++ [s]).

Definition mergeAddresses (fresh prior : Contact) : Contact :=
  let seen := if bool_decide (Address fresh = []) then ∅ else {[Address fresh]} in
  let st := foldl merge_add (seen, []) (AltAddresses fresh) in
  let st := if bool_decide (Address prior = []) then st else merge_add st (Address prior) in
  let st := foldl merge_add st (AltAddresses prior) in
  MkContact (ID fresh) (Address fresh) (snd st) (LastSeen fresh).

(** The goroutine a full-bucket [Update] starts. *)
Record EvictTask := MkTask { et_idx : nat; et_head : Contact; et_candidate : Contact }.

(** The table after [Update], and the eviction goroutine it starts, if any. *)
Definition Update (rt : RoutingTable) (c : Contact) (now : Time)
  : RoutingTable * option EvictTask :=
  if Equal (ID c) (self rt) then (rt, None) else
  let idx := CommonPrefixLen (self rt) (ID c) in
  let b := bucket_at rt idx in
  let c := set_LastSeen c now in
  match find_id (ID c) b with
  | Some (i, existing) =>
      (with_bucket rt idx (remove_at i b ++ [mergeAddresses c existing]), None)
  | None =>
      if (length b <? K)%nat then (with_bucket rt idx (b ++ [c]), None)
      else if negb (evictionPing rt) then (rt, None)
      else match b with
           | head :: _ => (rt, Some (MkTask idx head c))
           | [] => (rt, None)
           end
  end.

Definition SetEvictionPing (rt : RoutingTable) (fn : bool) : RoutingTable :=
  MkRT (self rt) (buckets rt) fn.

(** [maybeEvictHead] up to the ping: whether it goes on to ping the head. *)
Definition evict_begin (rt : RoutingTable) : bool := evictionPing rt.

(** [maybeEvictHead] after the ping returned [alive]. *)
Definition evict_finish (rt : RoutingTable) (t : EvictTask) (alive : bool) (now : Time)
  : RoutingTable :=
  let b := bucket_at rt (et_idx t) in
  if alive then
    match b with
    | h :: b' =>
        if Equal (ID h) (ID (et_head t))
        then with_bucket rt (et_idx t) (b' ++ [set_LastSeen h now])
        else rt
    | [] => rt
    end
  else
    let b1 := match find_id (ID (et_head t)) b with
              | Some (i, _) => remove_at i b
              | None => b
              end in
    if (length b1 <? K)%nat
    then with_bucket rt (et_idx t) (b1 ++ [set_LastSeen (et_candidate t) now])
    else with_bucket rt (et_idx t) b1.

(** [maybeEvictHead] when nothing runs between its two halves. *)
Definition maybeEvictHead (rt : RoutingTable) (t : EvictTask) (alive : bool) (now : Time)
  : RoutingTable :=
  if evict_begin rt then evict_finish rt t alive now else rt.

Definition Hint (rt : RoutingTable) (c : Contact) : RoutingTable :=
  if Equal (ID c) (self rt) then rt else
  let idx := CommonPrefixLen (self rt) (ID c) in
  let b := bucket_at rt idx in
  match find_id (ID c) b with
  | Some _ => rt
  | None =>
      if (length b <? K)%nat then with_bucket rt idx (set_LastSeen c 0 :: b) else rt
  end.

(** [Remove] has no guard for the local ID: bucket 256 does not exist, and the
    index panics. *)
Definition Remove (rt : RoutingTable) (id : NodeID) : outcome RoutingTable :=
  let idx := CommonPrefixLen (self rt) id in
  match buckets rt !! idx with
  | None => Panic
  | Some b =>
      Ret (match find_id id b with
           | Some (i, _) => with_bucket rt idx (remove_at i b)
           | None => rt
           end)
  end.

Definition Size (rt : RoutingTable) : nat := sum_list_with length (buckets rt).

Definition All (rt : RoutingTable) : list Contact := concat (buckets rt).

(** The inner loop of [Closest]: the index of the closest contact in
    [all[i:]], starting from [minIdx] and scanning the indices [js]. *)
Fixpoint closest_scan (target : NodeID) (all : list Contact) (js : list nat) (minIdx : nat)
  : nat :=
  match js with
  | [] => minIdx
  | j :: js' =>
      match all !! j, all !! minIdx with
      | Some cj, Some cm =>
          closest_scan target all js' (if DistanceLess target (ID cj) (ID cm) then j else minIdx)
      | _, _ => minIdx
      end
  end.

(** [all[i], all[m] = all[m], all[i]] *)
Definition swap {A} (l : list A) (i m : nat) : list A :=
  match l !! i, l !! m with
  | Some x, Some y => <[m := x]> (<[i := y]> l)
  | _, _ => l
  end.

(** The outer loop of [Closest], [k] iterations left from index [i]. *)
Fixpoint select_loop (target : NodeID) (all : list Contact) (i k : nat) : list Contact :=
  match k with
  | O => all
  | S k' =>
      let m := closest_scan target all (seq (S i) (length all - S i)) i in
      select_loop target (swap all i m) (S i) k'
  end.

Definition Closest (rt : RoutingTable) (target : NodeID) (n : nat) : list Contact :=
  let all := All rt in
  let n := if (length all <? n)%nat then length all else n in
  take n (select_loop target all 0 n).

(** * Facts *)

(** ** [Closest] is a partial selection sort *)

(** Contacts ordered by distance to the target. *)
Definition closer (target : NodeID) (a b : Contact) : Prop :=
  distanceBigInt target (ID a) <= distanceBigInt target (ID b).

#[global] Instance closer_dec target : RelDecision (closer target).
Proof. intros a b. unfold closer. apply _. Defined.

#[global] Instance closer_preorder target : PreOrder (closer target).
Proof. split; [intros a|intros a b c]; unfold closer; lia. Qed.

Lemma closest_scan_spec target all js m cm :
  Forall (fun j => (j < length all)%nat) js -> all !! m = Some cm ->
  exists r cr,
    closest_scan target all js m = r /\ all !! r = Some cr /\ r ∈ m :: js
    /\ closer target cr cm
    /\ (forall j cj, j ∈ js -> all !! j = Some cj -> closer target cr cj).
Proof.
  revert m cm. induction js as [|j js IH]; intros m cm Hjs Hm; simpl.
  { exists m, cm. split_and!; try done; [set_solver|set_solver]. }
  inversion Hjs as [|? ? Hj Hjs']; subst.
  destruct (lookup_lt_is_Some_2 all j Hj) as [cj Ej]. rewrite Ej, Hm.
  destruct (DistanceLess target (ID cj) (ID cm)) eqn:Hd.
  - apply DistanceLess_true in Hd.
    destruct (IH j cj Hjs' Ej) as (r & cr & -> & Hr & Hin & Hc & Hall).
    exists r, cr. split_and!; [done|done|set_solver|unfold closer in *; lia|].
    intros i ci [->|Hi]%elem_of_cons Hci; [by simplify_eq|eauto].
  - apply DistanceLess_false in Hd.
    destruct (IH m cm Hjs' Hm) as (r & cr & -> & Hr & Hin & Hc & Hall).
    exists r, cr. split_and!; [done|done|set_solver|done|].
    intros i ci [->|Hi]%elem_of_cons Hci; [simplify_eq|eauto].
    unfold closer in *. lia.
Qed.

Lemma swap_app {A} (pre suf : list A) r :
  swap (pre ++ suf) (length pre) (length pre + r) = pre ++ swap suf 0 r.
Proof.
  unfold swap. rewrite !lookup_app_r by lia. rewrite Nat.sub_diag.
  replace (length pre + r - length pre)%nat with r by lia.
  destruct (suf !! 0%nat), (suf !! r); try done.
  replace (length pre) with (length pre + 0)%nat at 2 by lia.
  by rewrite !insert_app_r.
Qed.

Lemma swap_zero {A} (suf : list A) r y :
  suf !! r = Some y -> exists rest, swap suf 0 r = y :: rest /\ suf ≡ₚ y :: rest.
Proof.
  destruct suf as [|x suf]; [done|]. unfold swap. simpl lookup at 1. intros Hr.
  rewrite Hr. destruct r as [|r]; simpl in *.
  { simplify_eq. by exists suf. }
  exists (<[r := x]> suf). split; [done|].
  apply list_elem_of_split_length in Hr as (l1 & l2 & -> & ->).
  rewrite <- (Nat.add_0_r (length l1)), insert_app_r. simpl. solve_Permutation.
Qed.

Lemma select_loop_spec target k pre suf :
  (k <= length suf)%nat ->
  exists sel rest,
    select_loop target (pre ++ suf) (length pre) k = pre ++ sel ++ rest
    /\ length sel = k /\ suf ≡ₚ sel ++ rest
    /\ StronglySorted (closer target) sel
    /\ (forall x y, x ∈ sel -> y ∈ rest -> closer target x y).
Proof.
  revert pre suf. induction k as [|k IH]; intros pre suf Hk; simpl.
  { exists [], suf. split_and!; try done; [constructor|set_solver]. }
  destruct suf as [|c suf'] eqn:Es; [simpl in Hk; lia|]. rewrite <- Es in *.
  destruct (closest_scan_spec target (pre ++ suf)
    (seq (S (length pre)) (length (pre ++ suf) - S (length pre))) (length pre) c)
    as (m & y & -> & Hm & Hin & Hc & Hall).
  { apply Forall_forall. intros j Hj%elem_of_seq. lia. }
  { rewrite lookup_app_r, Nat.sub_diag, Es by lia. done. }
  assert (exists r, m = length pre + r)%nat as [r ->].
  { exists (m - length pre)%nat. apply elem_of_cons in Hin as [->|Hin%elem_of_seq]; lia. }
  rewrite lookup_app_r in Hm by lia.
  replace (length pre + r - length pre)%nat with r in Hm by lia.
  rewrite swap_app. destruct (swap_zero suf r y Hm) as (rest' & -> & Hp).
  assert (forall x, x ∈ suf -> closer target y x) as Hmin.
  { intros x Hx. apply list_elem_of_lookup in Hx as [i Hi].
    destruct i as [|i]; [rewrite Es in Hi; by simplify_eq/=|].
    apply (Hall (length pre + S i)%nat).
    - apply lookup_lt_Some in Hi as Hlt. rewrite elem_of_seq, length_app. lia.
    - rewrite lookup_app_r by lia. rewrite <- Hi. f_equal. lia. }
  destruct (IH (pre ++ [y]) rest') as (sel & rest & E & Hl & Hps & Hs & Hle).
  { apply Permutation_length in Hp. simpl in Hp. lia. }
  rewrite <- app_assoc, length_app, Nat.add_1_r in E. simpl in E.
  exists (y :: sel), rest. split_and!.
  - rewrite E. by rewrite <- app_assoc.
  - simpl. by rewrite Hl.
  - rewrite Hp, Hps. done.
  - constructor; [done|]. apply Forall_forall. intros x Hx. apply Hmin.
    rewrite Hp, Hps. set_solver.
  - intros x z [->|Hx]%elem_of_cons Hz; [|eauto]. apply Hmin. rewrite Hp, Hps. set_solver.
Qed.

Lemma Size_All rt : Size rt = length (All rt).
Proof.
  unfold Size, All. induction (buckets rt) as [|b l IH]; simpl; [done|].
  by rewrite length_app, IH.
Qed.

Lemma Closest_sorted (rt : RoutingTable) (target : NodeID) (n : nat) :
  let out := Closest rt target n in
  length out = Nat.min n (Size rt)
  /\ StronglySorted (closer target) out
  /\ exists rest, All rt ≡ₚ out ++ rest
       /\ forall x y, x ∈ out -> y ∈ rest -> closer target x y.
Proof.
  unfold Closest. rewrite Size_All. set (all := All rt).
  set (n' := if (length all <? n)%nat then length all else n).
  assert (n' = Nat.min n (length all)) as Hn'.
  { unfold n'. destruct (Nat.ltb_spec (length all) n); lia. }
  destruct (select_loop_spec target n' [] all) as (sel & rest & E & Hl & Hp & Hs & Hle); [lia|].
  simpl in E. rewrite E, <- Hl, take_app_length. split_and!; [lia|done|].
  by exists rest.
Qed.

(** (routing.go, [Closest]): the in-place selection sort returns exactly
    [min n size] contacts of the table, in order of XOR distance to the target,
    and every contact it leaves out is at least as far away as every one it
    returns. *)
Theorem Closest_spec (rt : RoutingTable) (target : NodeID) (n : nat) :
  let out := Closest rt target n in
  length out = Nat.min n (Size rt)
  /\ StronglySorted (closer target) out
  /\ exists rest, All rt ≡ₚ out ++ rest
       /\ forall x y, x ∈ out -> y ∈ rest -> closer target x y.
Proof. apply Closest_sorted. Qed.

Lemma Closest_elem rt target n c : c ∈ Closest rt target n -> c ∈ All rt.
Proof.
  destruct (Closest_sorted rt target n) as (_ & _ & rest & -> & _). set_solver.
Qed.

(** ** Buckets *)

Lemma find_id_Some id b i c :
  find_id id b = Some (i, c) -> b !! i = Some c /\ ID c = id.
Proof.
  unfold find_id. intros (Hl & He & _)%list_find_Some.
  by rewrite Equal_spec, bool_decide_eq_true in He.
Qed.

Lemma find_id_None id b : find_id id b = None <-> id ∉ (ID <$> b).
Proof.
  unfold find_id. rewrite list_find_None, Forall_forall, list_elem_of_fmap.
  split.
  - intros H (c & -> & Hc). apply (H c Hc). by rewrite Equal_spec, bool_decide_eq_true.
  - intros H c Hc He. rewrite Equal_spec, bool_decide_eq_true in He. subst. eauto.
Qed.

Lemma remove_at_perm {A} i (l : list A) x : l !! i = Some x -> l ≡ₚ x :: remove_at i l.
Proof.
  intros H. unfold remove_at. rewrite <- (take_drop_middle l i x H) at 1.
  by rewrite Permutation_middle.
Qed.

Lemma remove_at_length {A} i (l : list A) x :
  l !! i = Some x -> S (length (remove_at i l)) = length l.
Proof. intros H%remove_at_perm%Permutation_length. done. Qed.

(** The invariant of bucket [i]: at most [K] contacts, each sharing exactly [i]
    leading bits with the local ID. *)
Definition bucket_wf (s : NodeID) (i : nat) (b : list Contact) : Prop :=
  (length b <= K)%nat /\ Forall (fun c => CommonPrefixLen s (ID c) = i) b.

Definition rt_wf (rt : RoutingTable) : Prop :=
  length (buckets rt) = 256%nat
  /\ forall i b, buckets rt !! i = Some b -> bucket_wf (self rt) i b.

(** No two contacts of a bucket have the same ID. *)
Definition rt_nodup (rt : RoutingTable) : Prop :=
  forall i b, buckets rt !! i = Some b -> NoDup (ID <$> b).

Lemma bucket_at_lookup rt i : rt_wf rt -> (i < 256)%nat -> buckets rt !! i = Some (bucket_at rt i).
Proof.
  intros [Hl _] Hi. unfold bucket_at.
  destruct (lookup_lt_is_Some_2 (buckets rt) i) as [b ->]; [lia|done].
Qed.

Lemma with_bucket_wf rt i b :
  rt_wf rt -> bucket_wf (self rt) i b -> rt_wf (with_bucket rt i b).
Proof.
  intros [Hl Hb] Hw. split; simpl; [by rewrite length_insert|].
  intros j b' [(-> & <- & _)|[_ Hj]]%list_lookup_insert_Some; eauto.
Qed.

Lemma with_bucket_nodup rt i b :
  rt_nodup rt -> NoDup (ID <$> b) -> rt_nodup (with_bucket rt i b).
Proof.
  intros Hn Hb j b' [(-> & <- & _)|[_ Hj]]%list_lookup_insert_Some; eauto.
Qed.

Lemma bucket_wf_nil s i : bucket_wf s i [].
Proof. split; [simpl; lia|constructor]. Qed.

Lemma bucket_wf_at rt i : rt_wf rt -> bucket_wf (self rt) i (bucket_at rt i).
Proof.
  intros [_ H]. unfold bucket_at. destruct (buckets rt !! i) eqn:E; simpl; eauto.
  apply bucket_wf_nil.
Qed.

Lemma bucket_nodup_at rt i : rt_nodup rt -> NoDup (ID <$> bucket_at rt i).
Proof.
  intros H. unfold bucket_at. destruct (buckets rt !! i) eqn:E; simpl; eauto. constructor.
Qed.

Lemma bucket_wf_perm s i b b' : b ≡ₚ b' -> bucket_wf s i b -> bucket_wf s i b'.
Proof.
  intros Hp [Hl Hf]. split; [by rewrite <- Hp|by rewrite <- Hp].
Qed.

Lemma bucket_wf_cons s i c b :
  bucket_wf s i (c :: b) <->
  (length b < K)%nat /\ CommonPrefixLen s (ID c) = i /\ bucket_wf s i b.
Proof. unfold bucket_wf. rewrite Forall_cons. simpl. intuition lia. Qed.

(** Moving the contact at [i] to the tail, possibly changed but for its ID. *)
Lemma move_to_tail_perm b i c c' :
  b !! i = Some c -> ID c' = ID c ->
  (ID <$> remove_at i b ++ [c']) ≡ₚ (ID <$> b).
Proof.
  intros Hi%remove_at_perm Hc. rewrite Hi at 2. rewrite fmap_app. simpl. rewrite Hc.
  by rewrite Permutation_app_comm.
Qed.

Lemma bucket_wf_ids s i b b' :
  (ID <$> b) ≡ₚ (ID <$> b') -> bucket_wf s i b -> bucket_wf s i b'.
Proof.
  intros Hp [Hl Hf]. split.
  - apply Permutation_length in Hp. rewrite !length_fmap in Hp. lia.
  - assert (Forall (fun id => CommonPrefixLen s id = i) (ID <$> b')) as H.
    + rewrite <- Hp. by rewrite Forall_fmap.
    + by rewrite Forall_fmap in H.
Qed.

Lemma bucket_wf_snoc s i c b :
  (length b < K)%nat -> CommonPrefixLen s (ID c) = i -> bucket_wf s i b ->
  bucket_wf s i (b ++ [c]).
Proof.
  intros Hl Hc Hb. apply (bucket_wf_perm _ _ (c :: b)).
  - by rewrite Permutation_app_comm.
  - by apply bucket_wf_cons.
Qed.

Lemma bucket_wf_remove s i b j c :
  b !! j = Some c -> bucket_wf s i b -> bucket_wf s i (remove_at j b).
Proof.
  intros Hj Hb. apply (bucket_wf_perm _ _ _ _ (remove_at_perm _ _ _ Hj)) in Hb.
  by apply bucket_wf_cons in Hb as (_ & _ & ?).
Qed.

Lemma bucket_nodup_remove b j c :
  b !! j = Some c -> NoDup (ID <$> b) ->
  NoDup (ID <$> remove_at j b) /\ ID c ∉ (ID <$> remove_at j b).
Proof.
  intros Hj Hn. rewrite (remove_at_perm _ _ _ Hj) in Hn. apply NoDup_cons in Hn. tauto.
Qed.

(** ** Every operation keeps the buckets well formed *)

Lemma mergeAddresses_ID f p : ID (mergeAddresses f p) = ID f.
Proof. done. Qed.

Lemma NewRoutingTable_wf id : rt_wf (NewRoutingTable id) /\ rt_nodup (NewRoutingTable id).
Proof.
  split; [split|]; [apply length_replicate| |];
    intros i b [-> _]%lookup_replicate_1; [apply bucket_wf_nil|constructor].
Qed.

Lemma Update_wf rt c now :
  rt_wf rt ->
  let '(rt', ot) := Update rt c now in
  rt_wf rt' /\ self rt' = self rt
  /\ forall t, ot = Some t ->
       et_idx t = CommonPrefixLen (self rt) (ID (et_candidate t)) /\ (et_idx t < 256)%nat.
Proof.
  intros Hw. unfold Update. destruct (Equal (ID c) (self rt)) eqn:He; [by split_and!|].
  apply CommonPrefixLen_Equal_lt in He.
  pose proof (bucket_wf_at rt (CommonPrefixLen (self rt) (ID c)) Hw) as Hb. simpl.
  destruct (find_id (ID c) (bucket_at rt _)) as [[i e]|] eqn:Hf.
  - apply find_id_Some in Hf as [Hi Hid]. split_and!; [|done|done].
    apply with_bucket_wf; [done|]. eapply bucket_wf_ids; [|done].
    symmetry. by eapply move_to_tail_perm.
  - destruct (Nat.ltb_spec (length (bucket_at rt (CommonPrefixLen (self rt) (ID c)))) K).
    + split_and!; [|done|done]. apply with_bucket_wf; [done|]. by apply bucket_wf_snoc.
    + destruct (evictionPing rt); simpl; [|by split_and!].
      destruct (bucket_at rt _); split_and!; try done. intros t [= <-]. done.
Qed.

Lemma Hint_wf rt c : rt_wf rt -> rt_wf (Hint rt c) /\ self (Hint rt c) = self rt.
Proof.
  intros Hw. unfold Hint. destruct (Equal (ID c) (self rt)); [done|]. simpl.
  destruct (find_id _ _); [done|].
  destruct (Nat.ltb_spec (length (bucket_at rt (CommonPrefixLen (self rt) (ID c)))) K); [|done].
  split; [|done]. apply with_bucket_wf; [done|]. apply bucket_wf_cons.
  split_and!; [done|done|]. by apply bucket_wf_at.
Qed.

Lemma Remove_wf rt id rt' :
  rt_wf rt -> Remove rt id = Ret rt' -> rt_wf rt' /\ self rt' = self rt.
Proof.
  intros Hw. unfold Remove. destruct (buckets rt !! _) as [b|] eqn:Eb; [|done].
  intros [= <-]. destruct (find_id id b) as [[i c]|] eqn:Hf; [|done].
  apply find_id_Some in Hf as [Hi _]. split; [|done].
  apply with_bucket_wf; [done|]. eapply bucket_wf_remove; [done|]. by apply Hw.
Qed.

Lemma evict_finish_wf rt t alive now :
  rt_wf rt ->
  et_idx t = CommonPrefixLen (self rt) (ID (et_candidate t)) ->
  rt_wf (evict_finish rt t alive now) /\ self (evict_finish rt t alive now) = self rt.
Proof.
  intros Hw Ht. pose proof (bucket_wf_at rt (et_idx t) Hw) as Hb. unfold evict_finish.
  destruct alive.
  - destruct (bucket_at rt (et_idx t)) as [|h b']; [done|].
    destruct (Equal _ _); [|done]. split; [|done]. apply with_bucket_wf; [done|].
    eapply bucket_wf_ids; [|done]. rewrite fmap_app. simpl. by rewrite Permutation_app_comm.
  - assert (bucket_wf (self rt) (et_idx t)
      match find_id (ID (et_head t)) (bucket_at rt (et_idx t)) with
      | Some (i, _) => remove_at i (bucket_at rt (et_idx t))
      | None => bucket_at rt (et_idx t)
      end) as Hb1.
    { destruct (find_id _ _) as [[i c]|] eqn:Hf; [|done].
      apply find_id_Some in Hf as [Hi _]. by eapply bucket_wf_remove. }
    match goal with |- context [if ?x then _ else _] => destruct x eqn:Hl end; zbool;
      (split; [|done]); apply with_bucket_wf; try done. by apply bucket_wf_snoc.
Qed.

(** ** The table under interleaving *)

(** The table with the eviction goroutines that have started but not yet read
    [evictionPing] ([spawned]) and those waiting for their ping ([pinging]). *)
Record rt_sys := MkSys {
  sys_rt : RoutingTable;
  spawned : list EvictTask;
  pinging : list EvictTask
}.

Inductive rt_step : rt_sys -> rt_sys -> Prop :=
| step_update rt sp pi c now rt' ot :
    Update rt c now = (rt', ot) ->
    rt_step (MkSys rt sp pi) (MkSys rt' (sp ++ option_list ot) pi)
| step_hint rt sp pi c :
    rt_step (MkSys rt sp pi) (MkSys (Hint rt c) sp pi)
| step_remove rt sp pi id rt' :
    Remove rt id = Ret rt' ->
    rt_step (MkSys rt sp pi) (MkSys rt' sp pi)
| step_set_ping rt sp pi fn :
    rt_step (MkSys rt sp pi) (MkSys (SetEvictionPing rt fn) sp pi)
| step_evict_begin rt sp1 t sp2 pi :
    rt_step (MkSys rt (sp1 ++ t :: sp2) pi)
            (MkSys rt (sp1 ++ sp2) (if evict_begin rt then t :: pi else pi))
| step_evict_finish rt sp pi1 t pi2 alive now :
    rt_step (MkSys rt sp (pi1 ++ t :: pi2))
            (MkSys (evict_finish rt t alive now) sp (pi1 ++ pi2)).

Definition rt_init (id : NodeID) : rt_sys := MkSys (NewRoutingTable id) [] [].

Definition task_ok (id : NodeID) (t : EvictTask) : Prop :=
  et_idx t = CommonPrefixLen id (ID (et_candidate t)).

Definition sys_inv (id : NodeID) (s : rt_sys) : Prop :=
  self (sys_rt s) = id /\ rt_wf (sys_rt s)
  /\ Forall (task_ok id) (spawned s) /\ Forall (task_ok id) (pinging s).

Lemma rt_step_inv id s s' : rt_step s s' -> sys_inv id s -> sys_inv id s'.
Proof.
  intros Hs (Hid & Hw & Hsp & Hpi). destruct Hs; unfold sys_inv; simpl in *.
  - pose proof (Update_wf rt c now Hw) as HU. rewrite H in HU.
    destruct HU as (Hw' & Hs & Ht). split_and!; [congruence|done| |done].
    apply Forall_app. split; [done|]. destruct ot as [t|]; simpl; [|constructor].
    constructor; [|constructor]. unfold task_ok. rewrite <- Hid. by apply Ht.
  - destruct (Hint_wf rt c Hw) as [? ?]. split_and!; [congruence|done..].
  - destruct (Remove_wf rt id0 rt' Hw H) as [? ?]. split_and!; [congruence|done..].
  - by split_and!.
  - apply Forall_app in Hsp as [? [? ?]%Forall_cons]. split_and!; [done|done| |].
    + by apply Forall_app.
    + destruct (evict_begin rt); [by constructor|done].
  - apply Forall_app in Hpi as [? [Ht ?]%Forall_cons].
    destruct (evict_finish_wf rt t alive now Hw) as [? ?].
    { unfold task_ok in Ht. congruence. }
    split_and!; [congruence|done|done|]. by apply Forall_app.
Qed.

Lemma reachable_inv id s : rtc rt_step (rt_init id) s -> sys_inv id s.
Proof.
  intros H. remember (rt_init id) as s0 eqn:E.
  assert (sys_inv id s0) as H0.
  { subst. split_and!; [done|apply NewRoutingTable_wf|constructor|constructor]. }
  clear E. induction H; eauto using rt_step_inv.
Qed.

Lemma rt_wf_All rt c :
  rt_wf rt -> c ∈ All rt -> exists i b, buckets rt !! i = Some b /\ c ∈ b /\ (i < 256)%nat
    /\ CommonPrefixLen (self rt) (ID c) = i.
Proof.
  intros [Hl Hb] Hc. unfold All in Hc. apply list_elem_of_In, in_concat in Hc as (b & Hb' & Hc).
  apply list_elem_of_In in Hb', Hc. apply list_elem_of_lookup in Hb' as [i Hi].
  exists i, b. split_and!; [done|done|apply lookup_lt_Some in Hi; lia|].
  destruct (Hb i b Hi) as [_ Hf]. rewrite Forall_forall in Hf. auto.
Qed.

Lemma rt_wf_no_self rt c : rt_wf rt -> c ∈ All rt -> ID c <> self rt.
Proof.
  intros Hw Hc E. destruct (rt_wf_All rt c Hw Hc) as (i & b & _ & _ & Hi & Hcpl).
  rewrite E in Hcpl. assert (CommonPrefixLen (self rt) (self rt) = 256%nat)
    by by apply CommonPrefixLen_256. lia.
Qed.

(** ** [mergeAddresses] keeps every address once *)

(** The state of the [add] closure after it was called on the list [l]. *)
Definition merge_inv (seen0 : gset bytes) (l : list bytes) (st : gset bytes * list bytes) : Prop :=
  NoDup (snd st)
  /\ (forall a, a ∈ fst st <-> a ∈ seen0 \/ a ∈ snd st)
  /\ (forall a, a ∈ snd st <-> a ∈ l /\ a <> [] /\ a ∉ seen0).

Lemma merge_add_inv seen0 l st s :
  merge_inv seen0 l st -> merge_inv seen0 (l ++ [s]) (merge_add st s).
Proof.
  destruct st as [seen out]. unfold merge_inv, merge_add. simpl. intros (Hn & Hs & Ho).
  case_bool_decide as E1; simpl.
  { split_and!; [done|done|]. intros a. rewrite Ho. set_solver. }
  case_bool_decide as E2; simpl.
  { split_and!; [done|done|]. intros a. rewrite Ho. apply Hs in E2. set_solver. }
  assert ((s ∉ seen0) /\ (s ∉ out)) as [? ?] by (rewrite Hs in E2; tauto).
  split_and!.
  - apply NoDup_app. split_and!; [done|set_solver|apply NoDup_singleton].
  - intros a. rewrite elem_of_union, elem_of_singleton, Hs. set_solver.
  - intros a. rewrite elem_of_app, Ho. set_solver.
Qed.

Lemma merge_foldl_inv seen0 l st l' :
  merge_inv seen0 l st -> merge_inv seen0 (l ++ l') (foldl merge_add st l').
Proof.
  revert l st. induction l' as [|s l' IH]; intros l st H; simpl; [by rewrite app_nil_r|].
  replace (l ++ s :: l') with ((l ++ [s]) ++ l') by by rewrite <- app_assoc.
  by apply IH, merge_add_inv.
Qed.

Lemma mergeAddresses_alts f p a :
  let m := mergeAddresses f p in
  NoDup (AltAddresses m)
  /\ (a ∈ AltAddresses m <->
      a <> [] /\ a <> Address f
      /\ (a ∈ AltAddresses f \/ a = Address p \/ a ∈ AltAddresses p)).
Proof.
  unfold mergeAddresses. simpl.
  set (seen0 := if bool_decide (Address f = []) then ∅ else {[Address f]} : gset bytes).
  assert (merge_inv seen0 [] (seen0, [])) as H0.
  { split_and!; [constructor|set_solver|set_solver]. }
  apply (merge_foldl_inv _ _ _ (AltAddresses f)) in H0. simpl in H0.
  assert (forall s, s <> [] -> (s ∉ seen0 <-> s <> Address f)) as Hseen.
  { intros s Hs. unfold seen0. case_bool_decide; set_solver. }
  case_bool_decide as Ep.
  - apply (merge_foldl_inv _ _ _ (AltAddresses p)) in H0 as (Hn & _ & Ho).
    split; [done|]. rewrite Ho, elem_of_app, Ep. naive_solver.
  - apply (merge_add_inv _ _ _ (Address p)) in H0.
    apply (merge_foldl_inv _ _ _ (AltAddresses p)) in H0 as (Hn & _ & Ho).
    split; [done|]. rewrite Ho, !elem_of_app, list_elem_of_singleton. naive_solver.
Qed.

Lemma elem_of_AllAddresses a c :
  a <> [] -> (a ∈ AllAddresses c <-> a = Address c \/ a ∈ AltAddresses c).
Proof.
  intros Ha. unfold AllAddresses. rewrite elem_of_app.
  case_bool_decide as E; [|set_solver]. rewrite E. set_solver.
Qed.

(** (routing.go, [mergeAddresses]): merging keeps the fresh primary address,
    knows every non-empty address either contact knew, and lists none twice. *)
Theorem mergeAddresses_spec (fresh prior : Contact) :
  let m := mergeAddresses fresh prior in
  ID m = ID fresh /\ Address m = Address fresh /\ LastSeen m = LastSeen fresh
  /\ NoDup (AllAddresses m)
  /\ (forall a, a <> [] ->
        (a ∈ AllAddresses m <-> a ∈ AllAddresses fresh \/ a ∈ AllAddresses prior))
  /\ [] ∉ AllAddresses m.
Proof.
  intros m. pose proof (mergeAddresses_alts fresh prior) as H. fold m in H.
  assert (Address m = Address fresh) as Ea by done. split_and!; try done.
  - unfold AllAddresses. rewrite Ea. destruct (H []) as [Hn _].
    case_bool_decide; [done|]. apply NoDup_cons. split; [|done].
    destruct (H (Address fresh)) as [_ ->]. tauto.
  - intros a Ha. rewrite !elem_of_AllAddresses by done. rewrite Ea.
    destruct (H a) as [_ ->]. destruct (decide (a = Address fresh)); tauto.
  - unfold AllAddresses. rewrite Ea. destruct (H []) as [_ Hi].
    rewrite elem_of_app, Hi. case_bool_decide; set_solver.
Qed.

(** ** Uniqueness of IDs *)

Lemma Update_nodup rt c now : rt_nodup rt -> rt_nodup (fst (Update rt c now)).
Proof.
  intros Hn. unfold Update. destruct (Equal _ _); [done|]. simpl.
  pose proof (bucket_nodup_at rt (CommonPrefixLen (self rt) (ID c)) Hn) as Hb.
  destruct (find_id _ _) as [[i e]|] eqn:Hf; simpl.
  - apply find_id_Some in Hf as [Hi Hid]. apply with_bucket_nodup; [done|].
    by rewrite (move_to_tail_perm _ _ _ _ Hi).
  - apply find_id_None in Hf. destruct (_ <? _)%nat; simpl.
    + apply with_bucket_nodup; [done|]. rewrite fmap_app, Permutation_app_comm. simpl.
      by apply NoDup_cons.
    + destruct (negb _); [done|]. by destruct (bucket_at rt _).
Qed.

Lemma Hint_nodup rt c : rt_nodup rt -> rt_nodup (Hint rt c).
Proof.
  intros Hn. unfold Hint. destruct (Equal _ _); [done|]. simpl.
  destruct (find_id _ _) as [|] eqn:Hf; [done|]. apply find_id_None in Hf.
  destruct (_ <? _)%nat; [|done]. apply with_bucket_nodup; [done|].
  apply NoDup_cons. split; [done|]. by apply bucket_nodup_at.
Qed.

Lemma Remove_nodup rt id rt' : rt_nodup rt -> Remove rt id = Ret rt' -> rt_nodup rt'.
Proof.
  intros Hn. unfold Remove. destruct (buckets rt !! _) as [b|] eqn:Eb; [|done].
  intros [= <-]. destruct (find_id id b) as [[i c]|] eqn:Hf; [|done].
  apply find_id_Some in Hf as [Hi _]. apply with_bucket_nodup; [done|].
  eapply bucket_nodup_remove; eauto.
Qed.

Lemma evict_finish_nodup rt t alive now :
  rt_nodup rt ->
  alive = true \/ ID (et_candidate t) ∉ (ID <$> bucket_at rt (et_idx t)) ->
  rt_nodup (evict_finish rt t alive now).
Proof.
  intros Hn Hc. pose proof (bucket_nodup_at rt (et_idx t) Hn) as Hb. unfold evict_finish.
  destruct alive.
  - destruct (bucket_at rt _) as [|h b']; [done|]. destruct (Equal _ _); [|done].
    apply with_bucket_nodup; [done|]. rewrite fmap_app, Permutation_app_comm. done.
  - destruct Hc as [?|Hc]; [done|].
    destruct (find_id _ _) as [[i e]|] eqn:Hf.
    + apply find_id_Some in Hf as [Hi _].
      destruct (bucket_nodup_remove _ _ _ Hi Hb) as [Hr _].
      destruct (_ <? _)%nat; apply with_bucket_nodup; try done.
      rewrite fmap_app, Permutation_app_comm. simpl. apply NoDup_cons. split; [|done].
      rewrite (remove_at_perm _ _ _ Hi), fmap_cons in Hc. set_solver.
    + destruct (_ <? _)%nat; apply with_bucket_nodup; try done.
      rewrite fmap_app, Permutation_app_comm. simpl. by apply NoDup_cons.
Qed.

(** ** An executable form of the step relation *)

Inductive rt_op :=
| OpUpdate (c : Contact) (now : Time)
| OpHint (c : Contact)
| OpRemove (id : NodeID)
| OpSetPing (fn : bool)
| OpBegin (i : nat)
| OpFinish (i : nat) (alive : bool) (now : Time).

Definition rt_exec (s : rt_sys) (o : rt_op) : option rt_sys :=
  let '(MkSys rt sp pi) := s in
  match o with
  | OpUpdate c now =>
      let '(rt', ot) := Update rt c now in Some (MkSys rt' (sp ++ option_list ot) pi)
  | OpHint c => Some (MkSys (Hint rt c) sp pi)
  | OpRemove id =>
      match Remove rt id with Ret rt' => Some (MkSys rt' sp pi) | Panic => None end
  | OpSetPing fn => Some (MkSys (SetEvictionPing rt fn) sp pi)
  | OpBegin i =>
      t ← sp !! i;
      Some (MkSys rt (remove_at i sp) (if evict_begin rt then t :: pi else pi))
  | OpFinish i alive now =>
      t ← pi !! i;
      Some (MkSys (evict_finish rt t alive now) sp (remove_at i pi))
  end.

Fixpoint rt_run (s : rt_sys) (os : list rt_op) : option rt_sys :=
  match os with
  | [] => Some s
  | o :: os' => s' ← rt_exec s o; rt_run s' os'
  end.

Lemma rt_exec_sound s o s' : rt_exec s o = Some s' -> rt_step s s'.
Proof.
  destruct s as [rt sp pi], o; simpl; intros H.
  - destruct (Update rt c now) as [rt' ot] eqn:E. simplify_eq. by apply step_update with c now.
  - simplify_eq. apply step_hint.
  - destruct (Remove rt id) eqn:E; simplify_eq. by apply step_remove with id.
  - simplify_eq. apply step_set_ping.
  - destruct (sp !! i) as [t|] eqn:E; simplify_eq/=.
    rewrite <- (take_drop_middle sp i t E) at 1. apply step_evict_begin.
  - destruct (pi !! i) as [t|] eqn:E; simplify_eq/=.
    rewrite <- (take_drop_middle pi i t E) at 1. apply step_evict_finish.
Qed.

Lemma rt_run_sound s os s' : rt_run s os = Some s' -> rtc rt_step s s'.
Proof.
  revert s. induction os as [|o os IH]; intros s H; simpl in H.
  - simplify_eq. constructor.
  - destruct (rt_exec s o) as [s1|] eqn:E; simplify_eq/=.
    eapply rtc_l; [by eapply rt_exec_sound|by apply IH].
Qed.

(** ** The properties of the table *)

(** C28 (routing.go): in every state the table can reach, under any interleaving
    of [Update], [Hint], [Remove] and the two halves of the eviction
    goroutines, the local ID is never stored, every bucket holds at most [K]
    contacts, and every contact sits in the bucket of its common prefix
    length. *)
Theorem routing_table_invariant (id : NodeID) (s : rt_sys) :
  rtc rt_step (rt_init id) s ->
  let rt := sys_rt s in
  length (buckets rt) = 256%nat
  /\ (forall i b, buckets rt !! i = Some b -> (length b <= K)%nat)
  /\ (forall c, c ∈ All rt ->
        ID c <> id /\ c ∈ bucket_at rt (CommonPrefixLen id (ID c))).
Proof.
  intros H%reachable_inv rt. destruct H as (Hid & Hw & _ & _). fold rt in Hid, Hw.
  split_and!; [apply Hw|intros i b Hi; by apply Hw in Hi as [? _]|].
  intros c Hc. split; [rewrite <- Hid; by apply rt_wf_no_self|].
  destruct (rt_wf_All rt c Hw Hc) as (i & b & Hi & Hb & _ & E).
  rewrite Hid in E. rewrite E. unfold bucket_at. by rewrite Hi.
Qed.

(** Concrete IDs: a first byte, then zeros, then a last byte. *)
Definition test_id (first last : Z) : NodeID :=
  id_copy (of_u8 first :: replicate 30 Byte.x00 ++ [of_u8 last]).

Definition test_contact (last : nat) : Contact :=
  MkContact (test_id 128 (Z.of_nat last)) (bs "10.0.0.1:9000") [] 0.

(** Twenty contacts that fill bucket 0 of the node with the all-zero ID. *)
Definition fill_ops : list rt_op := (fun i => OpUpdate (test_contact i) 1) <$> seq 0 20.

Definition filled : rt_sys :=
  default (rt_init (test_id 0 0)) (rt_run (rt_init (test_id 0 0)) (OpSetPing true :: fill_ops)).

Lemma filled_reachable : rtc rt_step (rt_init (test_id 0 0)) filled.
Proof. by apply (rt_run_sound _ (OpSetPing true :: fill_ops)); vm_compute. Qed.

Lemma routing_table_invariant_witness :
  length (bucket_at (sys_rt filled) 0) = 20%nat
  /\ forall i b, buckets (sys_rt filled) !! i = Some b -> (length b <= K)%nat.
Proof.
  split; [by vm_compute|].
  apply (routing_table_invariant (test_id 0 0) filled filled_reachable).
Defined.

(** (routing.go): [Update], [Hint] and [Remove] keep the IDs of a bucket
    distinct, and so does the end of an eviction when the head answered, or when
    the candidate is not in the bucket by then. *)
Theorem unique_ids_preserved (rt : RoutingTable) :
  rt_nodup rt ->
  (forall c now, rt_nodup (fst (Update rt c now)))
  /\ (forall c, rt_nodup (Hint rt c))
  /\ (forall id rt', Remove rt id = Ret rt' -> rt_nodup rt')
  /\ (forall t alive now,
        alive = true \/ ID (et_candidate t) ∉ (ID <$> bucket_at rt (et_idx t)) ->
        rt_nodup (evict_finish rt t alive now)).
Proof.
  intros Hn. split_and!; eauto using Update_nodup, Hint_nodup, Remove_nodup, evict_finish_nodup.
Qed.

Lemma unique_ids_preserved_witness :
  rt_nodup (fst (Update (NewRoutingTable (test_id 0 0)) (test_contact 3) 7)).
Proof.
  apply (unique_ids_preserved (NewRoutingTable (test_id 0 0))).
  apply NewRoutingTable_wf.
Defined.

(** The candidate learned while the bucket is full; contact 1 then leaves, the
    candidate is heard from again and stored, and only then does the ping of the
    old head fail. *)
Definition dup_ops : list rt_op :=
  [OpUpdate (test_contact 20) 2; OpBegin 0; OpRemove (test_id 128 1);
   OpUpdate (test_contact 20) 3; OpFinish 0 false 4].

(** (routing.go, [maybeEvictHead]): the condition of [unique_ids_preserved]
    is needed.  [maybeEvictHead] appends its candidate without looking whether
    the bucket already has it, so there is a reachable table with the same ID
    twice in one bucket. *)
Theorem evict_can_duplicate_id :
  exists s, rtc rt_step (rt_init (test_id 0 0)) s /\ ~ rt_nodup (sys_rt s).
Proof.
  exists (default filled (rt_run filled dup_ops)). split.
  - etrans; [apply filled_reachable|]. apply (rt_run_sound _ dup_ops). by vm_compute.
  - intros H%(bucket_nodup_at _ 0). apply (bool_decide_eq_true_2 _) in H. by vm_compute in H.
Qed.

(** ** Membership in the table *)

Lemma elem_of_All rt c : c ∈ All rt <-> exists i b, buckets rt !! i = Some b /\ c ∈ b.
Proof.
  unfold All. rewrite list_elem_of_In, in_concat. split.
  - intros (b & Hb & Hc). apply list_elem_of_In in Hb, Hc.
    apply list_elem_of_lookup in Hb as [i Hi]. eauto.
  - intros (i & b & Hi & Hc). exists b. rewrite <- !list_elem_of_In. split; [|done].
    apply list_elem_of_lookup. eauto.
Qed.

(** In a well-formed table a contact can only be in the bucket of its prefix. *)
Lemma elem_of_All_wf rt c :
  rt_wf rt -> (c ∈ All rt <-> c ∈ bucket_at rt (CommonPrefixLen (self rt) (ID c))).
Proof.
  intros Hw. split.
  - intros Hc. destruct (rt_wf_All rt c Hw Hc) as (i & b & Hi & Hb & _ & ->).
    unfold bucket_at. by rewrite Hi.
  - unfold bucket_at. destruct (buckets rt !! _) eqn:E; simpl; [|set_solver].
    intros Hc. apply elem_of_All. eauto.
Qed.

Lemma bucket_at_with_bucket rt i b j :
  rt_wf rt -> (i < 256)%nat ->
  bucket_at (with_bucket rt i b) j = if decide (i = j) then b else bucket_at rt j.
Proof.
  intros [Hl _] Hi. unfold bucket_at. simpl. case_decide as E.
  - subst. rewrite list_lookup_insert_eq by lia. done.
  - by rewrite list_lookup_insert_ne.
Qed.

Lemma Remove_elem (rt : RoutingTable) (id : NodeID) :
  rt_wf rt -> rt_nodup rt ->
  match Remove rt id with
  | Panic => id = self rt
  | Ret rt' => id <> self rt /\ forall c, c ∈ All rt' <-> c ∈ All rt /\ ID c <> id
  end.
Proof.
  intros Hw Hn. destruct (Remove rt id) as [rt'|] eqn:E; unfold Remove in E.
  - destruct (Remove_wf rt id rt') as [Hw' Hs]; [done|by unfold Remove|].
    destruct (buckets rt !! _) as [b|] eqn:Eb; [|done]. injection E as E.
    assert (id <> self rt) as Hid.
    { intros ->. apply lookup_lt_Some in Eb. destruct Hw as [Hl _].
      rewrite (proj2 (CommonPrefixLen_256 _ _)) in Eb by done. lia. }
    split; [done|]. intros c. rewrite (elem_of_All_wf rt' c Hw'), (elem_of_All_wf rt c Hw), Hs.
    assert (bucket_at rt (CommonPrefixLen (self rt) id) = b) as Hb
      by (unfold bucket_at; by rewrite Eb).
    pose proof (Hn _ _ Eb) as Hnb.
    destruct (find_id id b) as [[i e]|] eqn:Hf.
    + apply find_id_Some in Hf as [Hi <-]. subst rt'.
      rewrite bucket_at_with_bucket by (done || by apply CommonPrefixLen_lt).
      destruct (bucket_nodup_remove _ _ _ Hi Hnb) as [_ Hnot].
      case_decide as Ec; [|naive_solver congruence].
      rewrite <- Ec, Hb. rewrite (remove_at_perm _ _ _ Hi) at 2. rewrite elem_of_cons.
      rewrite list_elem_of_fmap in Hnot. naive_solver.
    + apply find_id_None in Hf. subst rt'. rewrite list_elem_of_fmap in Hf.
      split; [|tauto]. intros Hc. split; [done|]. intros Hc2. rewrite Hc2, Hb in Hc. naive_solver.
  - destruct (buckets rt !! _) as [b|] eqn:Eb; [done|].
    apply lookup_ge_None in Eb. destruct Hw as [Hl _]. symmetry. apply CommonPrefixLen_256.
    pose proof (CommonPrefixLen_le (self rt) id). lia.
Qed.

(** (routing.go, [Remove]): removing an ID panics (bucket 256 does not exist)
    exactly when it is the local ID; otherwise that ID is gone from the table and
    every other contact stays. *)
Theorem Remove_spec (rt : RoutingTable) (id : NodeID) :
  rt_wf rt -> rt_nodup rt ->
  match Remove rt id with
  | Panic => id = self rt
  | Ret rt' => id <> self rt /\ forall c, c ∈ All rt' <-> c ∈ All rt /\ ID c <> id
  end.
Proof. apply Remove_elem. Qed.

Lemma filled_wf : rt_wf (sys_rt filled).
Proof. apply (reachable_inv _ _ filled_reachable). Qed.

Lemma rt_nodup_decide rt :
  forallb (fun b => bool_decide (NoDup (ID <$> b))) (buckets rt) = true -> rt_nodup rt.
Proof.
  rewrite forallb_forall. intros H i b Hi. apply (bool_decide_eq_true_1 _), H.
  apply list_elem_of_In, list_elem_of_lookup. eauto.
Qed.

Lemma Remove_spec_witness :
  Remove (sys_rt filled) (test_id 0 0) = Panic
  /\ match Remove (sys_rt filled) (test_id 128 5) with
     | Panic => test_id 128 5 = self (sys_rt filled)
     | Ret rt' =>
         test_id 128 5 <> self (sys_rt filled)
         /\ forall c, c ∈ All rt' <-> c ∈ All (sys_rt filled) /\ ID c <> test_id 128 5
     end.
Proof.
  split; [by vm_compute|].
  apply Remove_spec; [apply filled_wf|apply rt_nodup_decide; by vm_compute].
Defined.

(** ** What [Update] and [Hint] do to the membership *)

(** The contact [Update] stores for a verified [c]. *)
Definition refreshed (rt : RoutingTable) (c : Contact) (now : Time) : Contact :=
  let b := bucket_at rt (CommonPrefixLen (self rt) (ID c)) in
  match find_id (ID c) b with
  | Some (_, existing) => mergeAddresses (set_LastSeen c now) existing
  | None => set_LastSeen c now
  end.

(** (routing.go, [Update]): a verified contact other than the local node
    whose ID is known or whose bucket has room ends up at the tail of its bucket
    with the current time and the addresses of both records, behind the bucket's
    other contacts in their old order; when the bucket is full of other IDs the table does not
    change, and exactly when a ping callback is installed an eviction of the
    bucket's least recently seen contact is started.  Every other bucket is left
    alone in all cases. *)
Theorem Update_spec (rt : RoutingTable) (c : Contact) (now : Time) :
  rt_wf rt -> ID c <> self rt ->
  let idx := CommonPrefixLen (self rt) (ID c) in
  let b := bucket_at rt idx in
  let '(rt', task) := Update rt c now in
  (forall j, j <> idx -> bucket_at rt' j = bucket_at rt j)
  /\ if bool_decide (ID c ∈ (ID <$> b)) || bool_decide (length b < K)%nat
     then task = None
          /\ exists others, bucket_at rt' idx = others ++ [refreshed rt c now]
               /\ others `sublist_of` b
               /\ (ID <$> others ++ [refreshed rt c now])
                  ≡ₚ if bool_decide (ID c ∈ (ID <$> b)) then ID <$> b else ID c :: (ID <$> b)
     else rt' = rt
          /\ task = if evictionPing rt
                    then (fun h => MkTask idx h (set_LastSeen c now)) <$> head b
                    else None.
Proof.
  intros Hw Hne idx b. unfold Update, refreshed. fold idx b.
  assert (Equal (ID c) (self rt) = false) as He
    by (rewrite Equal_spec; by apply bool_decide_eq_false).
  rewrite He. simpl. fold idx b. apply CommonPrefixLen_Equal_lt in He. fold idx in He.
  assert (forall b' j, j <> idx -> bucket_at (with_bucket rt idx b') j = bucket_at rt j) as Ho.
  { intros b' j Hj. rewrite bucket_at_with_bucket by done. by rewrite decide_False. }
  assert (forall b', bucket_at (with_bucket rt idx b') idx = b') as Hat.
  { intros b'. rewrite bucket_at_with_bucket by done. by rewrite decide_True. }
  destruct (find_id (ID c) b) as [[i e]|] eqn:Hf.
  - apply find_id_Some in Hf as [Hi Hid].
    assert (ID c ∈ (ID <$> b)) as Hin
      by (rewrite <- Hid; apply list_elem_of_fmap_2, list_elem_of_lookup; eauto).
    rewrite (bool_decide_eq_true_2 _ Hin). simpl. split; [apply Ho|]. split; [done|].
    exists (remove_at i b). rewrite Hat. split_and!; [done| |].
    + unfold remove_at. rewrite <- (take_drop_middle b i e Hi) at 3.
      apply sublist_app; [done|]. by apply sublist_cons.
    + by eapply move_to_tail_perm.
  - apply find_id_None in Hf. rewrite (bool_decide_eq_false_2 _ Hf). simpl.
    destruct (Nat.ltb_spec (length b) K) as [Hl|Hl].
    + rewrite bool_decide_eq_true_2 by done. split; [apply Ho|]. split; [done|].
      exists b. rewrite Hat. split_and!; [done|done|].
      rewrite fmap_app. simpl. by rewrite Permutation_app_comm.
    + rewrite bool_decide_eq_false_2 by lia.
      destruct (evictionPing rt), b; done.
Qed.

Lemma Update_spec_witness :
  length (bucket_at (sys_rt filled) 0) = 20%nat
  /\ forall j, j <> 0%nat ->
       bucket_at (fst (Update (sys_rt filled) (test_contact 20) 7)) j = bucket_at (sys_rt filled) j.
Proof.
  split; [by vm_compute|]. pose proof (Update_spec (sys_rt filled) (test_contact 20) 7 filled_wf) as H.
  assert (CommonPrefixLen (self (sys_rt filled)) (ID (test_contact 20)) = 0%nat) as E0
    by (by vm_compute).
  rewrite E0 in H. cbv zeta in H.
  assert (ID (test_contact 20) <> self (sys_rt filled)) as Hne
    by (apply (bool_decide_eq_true_1 _); by vm_compute).
  specialize (H Hne).
  destruct (Update (sys_rt filled) (test_contact 20) 7) as [rt' task].
  exact (proj1 H).
Defined.

(** (routing.go, [Hint]): an unverified contact never displaces or refreshes
    anything.  [Hint] changes the table only by putting a contact with an ID that
    is new to the table in front of a bucket with room, marked as never seen; a
    table that knows the ID, or whose bucket is full, is left exactly as it was. *)
Theorem Hint_spec (rt : RoutingTable) (c : Contact) :
  rt_wf rt ->
  let b := bucket_at rt (CommonPrefixLen (self rt) (ID c)) in
  if bool_decide (ID c <> self rt) && bool_decide (ID c ∉ (ID <$> All rt))
     && bool_decide (length b < K)%nat
  then forall j, bucket_at (Hint rt c) j
       = if decide (j = CommonPrefixLen (self rt) (ID c))
         then set_LastSeen c 0 :: bucket_at rt j else bucket_at rt j
  else Hint rt c = rt.
Proof.
  intros Hw b. unfold Hint. rewrite Equal_spec.
  destruct (decide (ID c = self rt)) as [E|E].
  { rewrite (bool_decide_eq_true_2 _ E), bool_decide_eq_false_2 by tauto. done. }
  rewrite (bool_decide_eq_false_2 _ E), bool_decide_eq_true_2 by done. simpl. fold b.
  assert (ID c ∈ (ID <$> All rt) <-> ID c ∈ (ID <$> b)) as Hiff.
  { rewrite !list_elem_of_fmap. split; intros (d & Hd & Hin); exists d; split; try done.
    - apply (elem_of_All_wf rt d Hw) in Hin. by rewrite <- Hd in Hin.
    - apply (elem_of_All_wf rt d Hw). by rewrite <- Hd. }
  destruct (find_id (ID c) b) as [[i e]|] eqn:Hf.
  - apply find_id_Some in Hf as [Hi Hid]. rewrite bool_decide_eq_false_2; [done|].
    intros H. apply H, Hiff. rewrite <- Hid. apply list_elem_of_fmap_2, list_elem_of_lookup. eauto.
  - apply find_id_None in Hf. rewrite bool_decide_eq_true_2 by (by rewrite Hiff). simpl.
    destruct (Nat.ltb_spec (length b) K) as [Hl|Hl];
      [rewrite bool_decide_eq_true_2 by done|by rewrite bool_decide_eq_false_2 by lia].
    intros j. rewrite bucket_at_with_bucket by (done || by apply CommonPrefixLen_lt).
    repeat case_decide; subst; done.
Qed.

Lemma Hint_spec_witness :
  Hint (sys_rt filled) (test_contact 20) = sys_rt filled.
Proof.
  pose proof (Hint_spec (sys_rt filled) (test_contact 20) filled_wf) as H. cbv zeta in H.
  rewrite (bool_decide_eq_false_2 (length _ < K)%nat), andb_false_r in H; [exact H|].
  apply (bool_decide_eq_true_1 _). by vm_compute.
Defined.
