(* ===== verification/DhtWire.v ===== *)
(** * The payloads of the DHT protocol (core/dht/dht.go)

    The JSON bodies of the [dht_*] messages, each with the values that survive
    the wire, and the conversions between table contacts and wire contacts. *)

From S2P Require Import Prelude GoStrings Encoding Json NodeId Routing.

Record findNodePayload := MkFindNode { fn_Target : bytes }.

Record wireContact := MkWire { wc_ID : bytes; wc_Address : bytes; wc_Alt : list bytes }.

Record nodesPayload := MkNodes { np_Contacts : list wireContact }.

Record storePayload := MkStoreP { sp_Key : bytes; sp_Value : bytes }.

Record findValuePayload := MkFindValue { fv_Key : bytes }.

Record valuePayload := MkValue { vp_Value : bytes }.

#[global] Instance findNode_codec : Codec findNodePayload := {|
  to_json p := JObj [(bs "target", JStr (fn_Target p))];
  zero_value := MkFindNode [];
  set_field k j p :=
    if key_is k "target" then MkFindNode <$> dec_string j (fn_Target p) else Some p
|}.

#[global] Instance wireContact_codec : Codec wireContact := {|
  to_json c := JObj (
    [(bs "id", JStr (wc_ID c)); (bs "address", JStr (wc_Address c))] ++
    omitempty (bool_decide (wc_Alt c = [])) (bs "alt", JStrs (wc_Alt c)));
  zero_value := MkWire [] [] [];
  set_field k j c :=
    let '(MkWire i a l) := c in
    if key_is k "id" then (fun i => MkWire i a l) <$> dec_string j i
    else if key_is k "address" then (fun a => MkWire i a l) <$> dec_string j a
    else if key_is k "alt" then (fun l => MkWire i a l) <$> dec_slice dec_string [] j l
    else Some c
|}.

#[global] Instance nodes_codec : Codec nodesPayload := {|
  to_json p := JObj [(bs "contacts", JArr (to_json <$> np_Contacts p))];
  zero_value := MkNodes [];
  set_field k j p :=
    if key_is k "contacts"
    then MkNodes <$> dec_slice (dec_struct set_field) zero_value j (np_Contacts p)
    else Some p
|}.

#[global] Instance store_codec : Codec storePayload := {|
  to_json p := JObj [(bs "key", JStr (sp_Key p)); (bs "value", JStr (sp_Value p))];
  zero_value := MkStoreP [] [];
  set_field k j p :=
    let '(MkStoreP key v) := p in
    if key_is k "key" then (fun key => MkStoreP key v) <$> dec_string j key
    else if key_is k "value" then (fun v => MkStoreP key v) <$> dec_string j v
    else Some p
|}.

#[global] Instance findValue_codec : Codec findValuePayload := {|
  to_json p := JObj [(bs "key", JStr (fv_Key p))];
  zero_value := MkFindValue [];
  set_field k j p :=
    if key_is k "key" then MkFindValue <$> dec_string j (fv_Key p) else Some p
|}.

#[global] Instance value_codec : Codec valuePayload := {|
  to_json p := JObj [(bs "value", JStr (vp_Value p))];
  zero_value := MkValue [];
  set_field k j p :=
    if key_is k "value" then MkValue <$> dec_string j (vp_Value p) else Some p
|}.

(** [wireContact{ID: c.ID.Hex(), Address: c.Address, Alt: c.AltAddresses}] *)
Definition to_wire (c : Contact) : wireContact := MkWire (Hex (ID c)) (Address c) (AltAddresses c).

(** The same without alternates, as [handleFindValue] builds it. *)
Definition to_wire_primary (c : Contact) : wireContact := MkWire (Hex (ID c)) (Address c) [].

(** The loop over [np.Contacts] in [FindNode] and [sendFindValue]: contacts
    whose ID does not parse are dropped. *)
Fixpoint from_wire (l : list wireContact) : list Contact :=
  match l with
  | [] => []
  | wc :: l' =>
      match IDFromHex (wc_ID wc) with
      | Ok id => MkContact id (wc_Address wc) (wc_Alt wc) 0 :: from_wire l'
      | Err _ => from_wire l'
      end
  end.

(** * Facts *)

Definition wire_fine (c : wireContact) : Prop :=
  utf8_valid (wc_ID c) = true /\ utf8_valid (wc_Address c) = true
  /\ Forall (fun a => utf8_valid a = true) (wc_Alt c).

#[global, program] Instance findNode_laws :
  CodecLaws findNodePayload (fun p => utf8_valid (fn_Target p) = true) := {| codec_depth := 1 |}.
Next Obligation. done. Qed.
Next Obligation. intros [t] H. repeat constructor; simpl; done. Qed.
Next Obligation. by intros [t] _. Qed.

#[global, program] Instance store_laws :
  CodecLaws storePayload (fun p => utf8_valid (sp_Key p) = true /\ utf8_valid (sp_Value p) = true)
  := {| codec_depth := 1 |}.
Next Obligation. done. Qed.
Next Obligation. intros [k v] [H1 H2]. repeat constructor; simpl; done. Qed.
Next Obligation. by intros [k v] _. Qed.

#[global, program] Instance findValue_laws :
  CodecLaws findValuePayload (fun p => utf8_valid (fv_Key p) = true) := {| codec_depth := 1 |}.
Next Obligation. done. Qed.
Next Obligation. intros [k] H. repeat constructor; simpl; done. Qed.
Next Obligation. by intros [k] _. Qed.

#[global, program] Instance value_laws :
  CodecLaws valuePayload (fun p => utf8_valid (vp_Value p) = true) := {| codec_depth := 1 |}.
Next Obligation. done. Qed.
Next Obligation. intros [v] H. repeat constructor; simpl; done. Qed.
Next Obligation. by intros [v] _. Qed.

Lemma wireContact_ok c : wire_fine c -> json_ok 2 (to_json c).
Proof.
  destruct c as [i a l]. intros (H1 & H2 & H3). simpl in *.
  constructor; [done|]. constructor; [done|]. unfold omitempty. case_match; [constructor|].
  constructor; [|constructor]. split; [done|]. by apply (JStrs_ok 0).
Qed.

Lemma wireContact_fields (c : wireContact) : dec_struct set_field (to_json c) zero_value = Some c.
Proof.
  destruct c as [i a l]. unfold to_json, wireContact_codec. cbn [wc_ID wc_Address wc_Alt].
  unfold omitempty. case_bool_decide as E; [by subst|].
  lazy -[dec_slice JStrs].
  match goal with |- context [dec_slice ?d ?z ?j ?o] =>
    change (dec_slice d z j o) with (dec_slice dec_string [] (JStrs l) []) end.
  by rewrite dec_slice_strings.
Qed.

#[global, program] Instance nodes_laws :
  CodecLaws nodesPayload (fun p => Forall wire_fine (np_Contacts p)) := {| codec_depth := 4 |}.
Next Obligation. done. Qed.
Next Obligation.
  intros [l] H. cbn [np_Contacts] in H. apply Forall_cons. split; [|constructor]. split; [done|].
  change (Forall (json_ok 2) (to_json <$> l)). rewrite Forall_fmap. eapply Forall_impl; [done|]. intros c Hc. by apply wireContact_ok.
Qed.
Next Obligation.
  intros [l] _. pose proof (dec_slice_map (dec_struct set_field) zero_value to_json l []) as Hs.
  cbn [dec_struct to_json nodes_codec dec_members np_Contacts set_field zero_value].
  change (key_is (bs "contacts") "contacts") with true. cbv iota. rewrite Hs; [done|].
  apply Forall_forall. intros c _. apply wireContact_fields.
Qed.

(** Contacts whose addresses survive the wire. *)
Definition contact_text (c : Contact) : Prop :=
  utf8_valid (Address c) = true /\ Forall (fun a => utf8_valid a = true) (AltAddresses c).

Lemma Hex_text n : utf8_valid (Hex n) = true.
Proof.
  apply utf8_valid_ascii. eapply forallb_impl; [|apply Hex_lower_plain]. intros b Hb. by destruct b.
Qed.

Lemma to_wire_fine c : contact_text c -> wire_fine (to_wire c) /\ wire_fine (to_wire_primary c).
Proof. intros [H1 H2]. split; split_and!; simpl; auto using Hex_text. Qed.

(** A contact list that is sent arrives with the same IDs and addresses. *)
Lemma from_to_wire l : from_wire (to_wire <$> l) = (fun c => set_LastSeen c 0) <$> l.
Proof.
  induction l as [|c l IH]; [done|]. rewrite !fmap_cons.
  cbn [from_wire to_wire to_wire_primary wc_ID]. by rewrite IDFromHex_Hex, IH.
Qed.

Lemma from_to_wire_primary l :
  from_wire (to_wire_primary <$> l) = (fun c => MkContact (ID c) (Address c) [] 0) <$> l.
Proof.
  induction l as [|c l IH]; [done|]. rewrite !fmap_cons.
  cbn [from_wire to_wire to_wire_primary wc_ID]. by rewrite IDFromHex_Hex, IH.
Qed.

#[export] Hint Resolve Hex_text : altnet.
