(* ===== verification/Dht.v ===== *)
(** * The DHT node: message handlers (core/dht/dht.go, core/dht/revoke.go)

    [HandleMessage] and everything it dispatches to, as functions from the node's
    state to its next state and the messages it sends.  A handler that indexes
    the routing table with the node's own ID panics, so handlers return an
    [outcome].  Time, the eviction order and the disk come from a [put_env].
    The client side, the lookups, is in Lookup.v. *)

From S2P Require Import Prelude GoStrings Encoding Json Sha256 Crypto Peer Revoke NodeId.
From S2P Require Import Blocklist Store Routing DhtWire.

Definition Alpha : nat := 3.
Definition DefaultRequestTimeout : Z := 5 * Second.

(** [trustedRevokers] is [None] when nil.  [evictions] collects the eviction
    goroutines the routing table has started (their steps are in Routing.v). *)
Record DHT := MkDHT {
  d_self : NodeID;
  d_rt : RoutingTable;
  d_store : localStore;
  d_blocklist : Blocklist;
  d_trusted : option (gset bytes);
  d_revokeSeen : gmap bytes Time;
  d_evictions : list EvictTask
}.

Definition with_rt (d : DHT) (rt : RoutingTable) (tasks : list EvictTask) : DHT :=
  MkDHT (d_self d) rt (d_store d) (d_blocklist d) (d_trusted d) (d_revokeSeen d)
    (d_evictions d ++ tasks).

Definition with_store (d : DHT) (s : localStore) : DHT :=
  MkDHT (d_self d) (d_rt d) s (d_blocklist d) (d_trusted d) (d_revokeSeen d) (d_evictions d).

Definition with_blocklist (d : DHT) (bl : Blocklist) : DHT :=
  MkDHT (d_self d) (d_rt d) (d_store d) bl (d_trusted d) (d_revokeSeen d) (d_evictions d).

Definition with_revokeSeen (d : DHT) (m : gmap bytes Time) : DHT :=
  MkDHT (d_self d) (d_rt d) (d_store d) (d_blocklist d) (d_trusted d) m (d_evictions d).

(** What a handler asks the peer layer to do: [p.Reply(addr, request, reply)],
    [p.Broadcast(msg)], [p.AddPeerAddress(peerID, addr)]. *)
Inductive effect :=
| Reply (addr : bytes) (request reply : Message)
| Broadcast (msg : Message)
| AddPeerAddress (peerID addr : bytes).

(** The message [Reply] puts on the connection. *)
Definition reply_message (request reply : Message) : Message := with_ReqID reply (m_ReqID request).

(** ** Construction *)

(** [None] is an error of parsing the peer's ID or of opening the store. *)
Definition NewWithFullLimit `{Ed25519} (id : Identity) (store : option localStore) (perPeerMax : Z)
  : option DHT :=
  match IDFromHex (Identity_ID id), store with
  | Ok selfID, Some s =>
      Some (MkDHT selfID (SetEvictionPing (NewRoutingTable selfID) true) (SetPerPeerMax s perPeerMax)
              None None ∅ [])
  | _, _ => None
  end.

Definition NewWithLimit `{Ed25519} (id : Identity) (store : option localStore) : option DHT :=
  NewWithFullLimit id store DefaultPerPeerBudgetBytes.

Definition SetBlocklist (d : DHT) (bl : Blocklist) : DHT := with_blocklist d bl.

Definition SetTrustedRevokers (d : DHT) (t : option (gset bytes)) : DHT :=
  MkDHT (d_self d) (d_rt d) (d_store d) (d_blocklist d) t (d_revokeSeen d) (d_evictions d).

Definition IsBlocked (d : DHT) (key : NodeID) : bool := Blocklist_Contains (d_blocklist d) key.

(** [d.rt.Update(c)] *)
Definition rt_update (d : DHT) (c : Contact) (now : Time) : DHT :=
  let '(rt, task) := Update (d_rt d) c now in with_rt d rt (option_list task).

Section Handlers.
Context `{GoUnicode} `{Ed25519}.

(** ** Hello and goodbye *)

Definition decodeAddressesPayload (payload : bytes) : list bytes :=
  if is_nil payload then [] else
  List.filter (fun p => negb (is_nil p)) (TrimSpace <$> SplitByte payload Byte.x2c).

Definition observeGoodbye (d : DHT) (msg : Message) : outcome DHT :=
  match PublicKeyFromHex (m_PublicKey msg) with
  | Err _ => Ret d
  | Ok pub =>
      match IDFromHex (PublicKeyToID pub) with
      | Err _ => Ret d
      | Ok id =>
          match Remove (d_rt d) id with
          | Panic => Panic
          | Ret rt => Ret (with_rt d rt [])
          end
      end
  end.

Definition observeHello (now : Time) (d : DHT) (addr : bytes) (msg : Message) : DHT * list effect :=
  match PublicKeyFromHex (m_PublicKey msg) with
  | Err _ => (d, [])
  | Ok pub =>
      match IDFromHex (PublicKeyToID pub) with
      | Err _ => (d, [])
      | Ok id =>
          let addrs := match decodeAddressesPayload (m_Payload msg) with
                       | [] => [addr]
                       | l => l
                       end in
          match addrs with
          | [] => (d, [])
          | a :: alts =>
              let c := MkContact id a alts 0 in
              (rt_update d c now, AddPeerAddress (PublicKeyToID pub) <$> addrs)
          end
      end
  end.

(** ** Requests *)

Definition handlePing (addr : bytes) (msg : Message) : list effect :=
  [Reply addr msg (mk_message (bs "dht_pong") [])].

Definition handleFindNode (d : DHT) (addr : bytes) (msg : Message) : list effect :=
  match Unmarshal (m_Payload msg) with
  | None => []
  | Some fnp =>
      match IDFromHex (fn_Target fnp) with
      | Err _ => []
      | Ok target =>
          let closest := Closest (d_rt d) target K in
          let body := Marshal (MkNodes (to_wire <$> closest)) in
          [Reply addr msg (mk_message (bs "dht_nodes") body)]
      end
  end.

Definition handleStore (e : put_env) (d : DHT) (addr : bytes) (msg : Message)
  : DHT * list effect :=
  match Unmarshal (m_Payload msg) with
  | None => (d, [])
  | Some sp =>
      match IDFromHex (sp_Key sp) with
      | Err _ => (d, [])
      | Ok key =>
          match b64_decode true (sp_Value sp) with
          | None => (d, [])
          | Some value =>
              if MaxValueSize <? len value then (d, []) else
              if IsBlocked d key
              then (d, [Reply addr msg (mk_message (bs "dht_stored") [])]) else
              let '(s, accepted) := PutAttributed e (d_store d) key value (m_From msg) in
              if negb accepted then (with_store d s, []) else
              (with_store d s, [Reply addr msg (mk_message (bs "dht_stored") [])])
          end
      end
  end.

(** The find-node answer of [handleFindValue]: no alternates. *)
Definition closest_reply (d : DHT) (addr : bytes) (msg : Message) (key : NodeID) : effect :=
  let closest := Closest (d_rt d) key K in
  Reply addr msg (mk_message (bs "dht_nodes") (Marshal (MkNodes (to_wire_primary <$> closest)))).

Definition handleFindValue (now : Time) (d : DHT) (addr : bytes) (msg : Message)
  : DHT * list effect :=
  match Unmarshal (m_Payload msg) with
  | None => (d, [])
  | Some fvp =>
      match IDFromHex (fv_Key fvp) with
      | Err _ => (d, [])
      | Ok key =>
          if IsBlocked d key then (d, [closest_reply d addr msg key]) else
          match Store.Get (d_store d) now key with
          | (s, Some value) =>
              let body := Marshal (MkValue (b64_encode true value)) in
              (with_store d s, [Reply addr msg (mk_message (bs "dht_value") body)])
          | (s, None) => (with_store d s, [closest_reply d addr msg key])
          end
      end
  end.

(** ** Revocation *)

(** The loop body of [applyRevoke]. *)
Definition revoke_chunk (d : DHT) (hexHash : bytes) : DHT :=
  match IDFromHex hexHash with
  | Err _ => d
  | Ok id =>
      let d := with_blocklist d (fst (Blocklist_Add (d_blocklist d) id)) in
      with_store d (Delete (d_store d) id)
  end.

Definition applyRevoke (d : DHT) (p : RevokePayload) : DHT :=
  let d := match d_blocklist d with None => with_blocklist d NewBlocklist | Some _ => d end in
  foldl revoke_chunk d (rp_Chunks p).

(** The lazy clean-up of [revokeSeen]. *)
Definition prune_seen (now : Time) (m : gmap bytes Time) : gmap bytes Time :=
  if (1024 <? size m)%nat
  then filter (fun kv => ~ snd kv < now - 2 * (24 * Hour)) m else m.

(** [unix] is [now] in whole seconds since 1970. *)
Definition handleRevoke (now unix : Time) (d : DHT) (addr : bytes) (msg : Message)
  : DHT * list effect :=
  if match d_trusted d with None => true | Some _ => (Trusted_Size (d_trusted d) =? 0)%nat end
  then (d, []) else
  match Unmarshal (m_Payload msg) with
  | None => (d, [])
  | Some rp =>
      if negb (Trusted_Contains (d_trusted d) (rp_PublicKey rp)) then (d, []) else
      if rp_Timestamp rp <? unix - MaxRevokeAge then (d, []) else
      if unix + MaxRevokeFutureSkew <? rp_Timestamp rp then (d, []) else
      match PublicKeyFromHex (rp_PublicKey rp) with
      | Err _ => (d, [])
      | Ok pub =>
          match Verify pub (canonical_of rp) (rp_Signature rp) with
          | Err _ => (d, [])
          | Ok _ =>
              let rid := revokeID rp in
              if bool_decide (is_Some (d_revokeSeen d !! rid)) then (d, []) else
              let d := with_revokeSeen d (prune_seen now (<[rid := now]> (d_revokeSeen d))) in
              (applyRevoke d rp, [Broadcast msg])
          end
      end
  end.

Definition BroadcastRevoke (d : DHT) (p : RevokePayload) : DHT * list effect :=
  (applyRevoke d p, [Broadcast (mk_message (bs "dht_revoke") (Marshal p))]).

(** ** Dispatch *)

Definition HandleMessage (e : put_env) (unix : Time) (d : DHT) (addr : bytes) (msg : Message)
  : outcome (DHT * list effect) :=
  let t := m_Type msg in
  if bool_decide (t = bs "hello") then Ret (observeHello (pe_now e) d addr msg)
  else if bool_decide (t = bs "goodbye") then
    match observeGoodbye d msg with Ret d' => Ret (d', []) | Panic => Panic end
  else if bool_decide (t = bs "dht_ping") then Ret (d, handlePing addr msg)
  else if bool_decide (t = bs "dht_find_node") then Ret (d, handleFindNode d addr msg)
  else if bool_decide (t = bs "dht_store") then Ret (handleStore e d addr msg)
  else if bool_decide (t = bs "dht_find_value") then Ret (handleFindValue (pe_now e) d addr msg)
  else if bool_decide (t = bs "dht_revoke") then Ret (handleRevoke (pe_now e) unix d addr msg)
  else Ret (d, []).

(** * Facts *)

(** ** No handler panics, but for one message *)

(** The routing table is well formed and belongs to the node. *)
Definition dht_ok (d : DHT) : Prop := self (d_rt d) = d_self d /\ rt_wf (d_rt d).

Lemma rt_update_ok d c now : dht_ok d -> dht_ok (rt_update d c now) /\ d_self (rt_update d c now) = d_self d.
Proof.
  intros [Hs Hw]. unfold rt_update. pose proof (Update_wf (d_rt d) c now Hw) as HU.
  destruct (Update (d_rt d) c now) as [rt t]. destruct HU as (Hw' & Hs' & _).
  split; [|done]. split; [simpl; congruence|done].
Qed.

Lemma revoke_chunk_frame d h :
  d_rt (revoke_chunk d h) = d_rt d /\ d_self (revoke_chunk d h) = d_self d.
Proof. unfold revoke_chunk. by destruct (IDFromHex h). Qed.

Lemma revoke_chunks_frame d l :
  d_rt (foldl revoke_chunk d l) = d_rt d /\ d_self (foldl revoke_chunk d l) = d_self d.
Proof.
  revert d. induction l as [|h l IH]; intros d; simpl; [done|].
  destruct (IH (revoke_chunk d h)) as [-> ->]. apply revoke_chunk_frame.
Qed.

Lemma applyRevoke_frame d p : d_rt (applyRevoke d p) = d_rt d /\ d_self (applyRevoke d p) = d_self d.
Proof.
  unfold applyRevoke. destruct (d_blocklist d); [apply revoke_chunks_frame|].
  destruct (revoke_chunks_frame (with_blocklist d NewBlocklist) (rp_Chunks p)) as [-> ->]. done.
Qed.

Lemma handleRevoke_frame now unix d addr msg d' effs :
  handleRevoke now unix d addr msg = (d', effs) -> d_rt d' = d_rt d /\ d_self d' = d_self d.
Proof.
  unfold handleRevoke. intros Hh.
  repeat (case_match; try (by simplify_eq)). simplify_eq.
  destruct (applyRevoke_frame
    (with_revokeSeen d (prune_seen now (<[revokeID r:=now]> (d_revokeSeen d)))) r) as [-> ->]. done.
Qed.

Lemma handleStore_frame e d addr msg d' effs :
  handleStore e d addr msg = (d', effs) -> d_rt d' = d_rt d /\ d_self d' = d_self d.
Proof. unfold handleStore. intros Hh. repeat case_match; by simplify_eq. Qed.

Lemma handleFindValue_frame now d addr msg d' effs :
  handleFindValue now d addr msg = (d', effs) -> d_rt d' = d_rt d /\ d_self d' = d_self d.
Proof. unfold handleFindValue. intros Hh. repeat case_match; by simplify_eq. Qed.

(** A goodbye whose key hashes to the node's own ID. *)
Definition goodbye_from_self (d : DHT) (msg : Message) : Prop :=
  m_Type msg = bs "goodbye"
  /\ exists pub, PublicKeyFromHex (m_PublicKey msg) = Ok pub /\ PublicKeyToID pub = Hex (d_self d).

Lemma observeGoodbye_spec d msg :
  dht_ok d ->
  match observeGoodbye d msg with
  | Panic => exists pub, PublicKeyFromHex (m_PublicKey msg) = Ok pub /\ PublicKeyToID pub = Hex (d_self d)
  | Ret d' => dht_ok d' /\ d_self d' = d_self d
      /\ ~ exists pub, PublicKeyFromHex (m_PublicKey msg) = Ok pub /\ PublicKeyToID pub = Hex (d_self d)
  end.
Proof.
  intros [Hs Hw]. unfold observeGoodbye.
  destruct (PublicKeyFromHex (m_PublicKey msg)) as [pub|] eqn:Ep;
    [|split; [by split|]; split; [done|by intros (? & ? & _)]].
  assert (IDFromHex (PublicKeyToID pub) = Ok (id_copy (sha256 pub))) as Hid.
  { apply IDFromHex_Ok. unfold PublicKeyToID. rewrite hex_decode_encode, id_copy_full; [done|].
    apply sha256_length. }
  rewrite Hid. assert (Hex (id_copy (sha256 pub)) = PublicKeyToID pub) as Hhex.
  { unfold Hex, PublicKeyToID. rewrite id_copy_full; [done|apply sha256_length]. }
  assert (Remove (d_rt d) (id_copy (sha256 pub)) = Panic <-> id_copy (sha256 pub) = d_self d) as Hpan.
  { unfold Remove. rewrite <- Hs. destruct Hw as [Hl _].
    pose proof (CommonPrefixLen_256 (self (d_rt d)) (id_copy (sha256 pub))) as H256.
    pose proof (CommonPrefixLen_le (self (d_rt d)) (id_copy (sha256 pub))) as Hle.
    destruct (buckets (d_rt d) !! _) as [b|] eqn:Eb.
    - apply lookup_lt_Some in Eb. split; [done|]. intros E. symmetry in E. apply H256 in E. lia.
    - apply lookup_ge_None in Eb. split; [intros _|done]. symmetry. apply H256. lia. }
  destruct (Remove (d_rt d) (id_copy (sha256 pub))) as [rt|] eqn:Er.
  - destruct (Remove_wf _ _ _ Hw Er) as [Hw' Hs']. split_and!; [split; simpl; congruence|done|].
    intros (pub' & [= <-] & E). rewrite <- Hhex in E. apply (inj Hex) in E. apply Hpan in E. done.
  - exists pub. split; [done|]. rewrite <- Hhex. f_equal. by apply Hpan.
Qed.

(** C35 (dht.go, [HandleMessage], [observeGoodbye]; routing.go, [Remove]): on any
    message, from any address, a node with a well-formed table handles it without
    panicking and keeps its table well formed and its identity, with one
    exception: a goodbye whose public key is the node's own makes it index a
    bucket that does not exist, and the node panics. *)
Theorem handlers_total (e : put_env) (unix : Time) (d : DHT) (addr : bytes) (msg : Message) :
  dht_ok d ->
  match HandleMessage e unix d addr msg with
  | Panic => goodbye_from_self d msg
  | Ret (d', _) => dht_ok d' /\ d_self d' = d_self d /\ ~ goodbye_from_self d msg
  end.
Proof.
  intros Hd. unfold HandleMessage, goodbye_from_self.
  assert (forall d', d_rt d' = d_rt d /\ d_self d' = d_self d ->
    dht_ok d' /\ d_self d' = d_self d) as Hkeep.
  { intros d' [Hr Hs]. unfold dht_ok. rewrite Hr, Hs. done. }
  destruct (bool_decide (m_Type msg = bs "hello")) eqn:E1; zbool.
  { rewrite E1. unfold observeHello.
    repeat case_match; simplify_eq; (split_and!; [| |by intros [? _]]); try done;
      apply rt_update_ok; done. }
  destruct (bool_decide (m_Type msg = bs "goodbye")) eqn:E2; zbool.
  { pose proof (observeGoodbye_spec d msg Hd) as Hg. destruct (observeGoodbye d msg); naive_solver. }
  repeat case_match; simplify_eq; (split_and!; [| |by intros [? _]]);
    try done;
    match goal with
    | Hh : handleStore _ _ _ _ = _ |- _ => apply handleStore_frame in Hh
    | Hh : handleFindValue _ _ _ _ = _ |- _ => apply handleFindValue_frame in Hh
    | Hh : handleRevoke _ _ _ _ _ = _ |- _ => apply handleRevoke_frame in Hh
    end; by apply Hkeep.
Qed.

(** ** Storing and serving values *)

(** The request messages of [sendStore] and [sendFindValue]. *)
Definition store_request (key : NodeID) (value : bytes) : Message :=
  mk_message (bs "dht_store") (Marshal (MkStoreP (Hex key) (b64_encode true value))).

Definition find_value_request (key : NodeID) : Message :=
  mk_message (bs "dht_find_value") (Marshal (MkFindValue (Hex key))).

(** The value a [dht_value] reply carries. *)
Definition value_of_reply (reply : Message) : option bytes :=
  if bool_decide (m_Type reply = bs "dht_value") then
    match Unmarshal (m_Payload reply) with
    | Some vp => b64_decode true (vp_Value vp)
    | None => None
    end
  else None.

Lemma b64_text padded l : utf8_valid (b64_encode padded l) = true.
Proof.
  apply utf8_valid_ascii. eapply forallb_impl; [|apply b64_encode_plain]. intros b Hb. by destruct b.
Qed.

(** A [dht_store] for [key] and [value], from whichever sender. *)
Definition is_store_of (msg : Message) (key : NodeID) (value : bytes) : Prop :=
  exists sp, Unmarshal (m_Payload msg) = Some sp /\ IDFromHex (sp_Key sp) = Ok key
    /\ b64_decode true (sp_Value sp) = Some value.

Definition is_find_of (msg : Message) (key : NodeID) : Prop :=
  exists fvp, Unmarshal (m_Payload msg) = Some fvp /\ IDFromHex (fv_Key fvp) = Ok key.

Lemma store_request_is key value msg :
  m_Payload msg = m_Payload (store_request key value) -> is_store_of msg key value.
Proof.
  intros E. exists (MkStoreP (Hex key) (b64_encode true value)). rewrite E. simpl.
  rewrite Unmarshal_Marshal by (split; [apply Hex_text|apply b64_text]).
  split_and!; [done|apply IDFromHex_Hex|apply b64_decode_encode].
Qed.

Lemma find_request_is key msg :
  m_Payload msg = m_Payload (find_value_request key) -> is_find_of msg key.
Proof.
  intros E. exists (MkFindValue (Hex key)). rewrite E. simpl.
  rewrite Unmarshal_Marshal by apply Hex_text. split; [done|apply IDFromHex_Hex].
Qed.

Lemma handleStore_eq e d addr msg key value :
  is_store_of msg key value ->
  handleStore e d addr msg =
  if MaxValueSize <? len value then (d, []) else
  if IsBlocked d key then (d, [Reply addr msg (mk_message (bs "dht_stored") [])]) else
  let '(s, accepted) := PutAttributed e (d_store d) key value (m_From msg) in
  (with_store d s, if accepted then [Reply addr msg (mk_message (bs "dht_stored") [])] else []).
Proof.
  intros (sp & E1 & E2 & E3). unfold handleStore. rewrite E1, E2, E3.
  repeat case_match; simplify_eq/=; done.
Qed.

Lemma handleFindValue_eq now d addr msg key :
  is_find_of msg key ->
  handleFindValue now d addr msg =
  if IsBlocked d key then (d, [closest_reply d addr msg key]) else
  let '(s, v) := Store.Get (d_store d) now key in
  (with_store d s,
   match v with
   | Some value => [Reply addr msg (mk_message (bs "dht_value") (Marshal (MkValue (b64_encode true value))))]
   | None => [closest_reply d addr msg key]
   end).
Proof.
  intros (fvp & E1 & E2). unfold handleFindValue. rewrite E1, E2.
  destruct (IsBlocked d key); [done|]. by destruct (Store.Get _ _ _) as [s [v|]].
Qed.

Lemma value_reply value :
  value_of_reply (mk_message (bs "dht_value") (Marshal (MkValue (b64_encode true value)))) = Some value.
Proof.
  unfold value_of_reply. simpl m_Type. rewrite bool_decide_eq_true_2 by done. simpl m_Payload.
  rewrite Unmarshal_Marshal by apply b64_text. apply b64_decode_encode.
Qed.

(** (dht.go, [sendStore], [handleStore], [sendFindValue], [handleFindValue]):
    a value that one node sends in a [dht_store], and that the receiver does not
    refuse for its size, its blocklist or the sender's quota, is acknowledged, and
    any later [dht_find_value] for the key, before anything else happens, is
    answered with exactly those bytes, through JSON and base64. *)
Theorem store_then_find_value (e : put_env) (d : DHT) (addr addr' : bytes) (msg msg' : Message)
    (key : NodeID) (value : bytes) (now : Time) :
  m_Payload msg = m_Payload (store_request key value) ->
  m_Payload msg' = m_Payload (find_value_request key) ->
  len value <= MaxValueSize -> IsBlocked d key = false ->
  admitted (d_store d) (Hex key) (len value) (m_From msg) = true ->
  exists d1 d2 reply,
    handleStore e d addr msg = (d1, [Reply addr msg (mk_message (bs "dht_stored") [])])
    /\ handleFindValue now d1 addr' msg' = (d2, [Reply addr' msg' reply])
    /\ value_of_reply reply = Some value.
Proof.
  intros Hm Hm' Hl Hb Ha. apply store_request_is in Hm. apply find_request_is in Hm'.
  rewrite (handleStore_eq e d addr msg key value Hm).
  destruct (Z.ltb_spec MaxValueSize (len value)); [lia|]. rewrite Hb. unfold PutAttributed.
  assert (snd (put e (d_store d) key value (m_From msg)) = true) as Hacc.
  { unfold put, put_locked. by rewrite Ha. }
  pose proof (put_get e (d_store d) key value (m_From msg) now Hacc) as Hget.
  destruct (put e (d_store d) key value (m_From msg)) as [s b]. simpl in Hacc, Hget. subst b.
  destruct (Store.Get s now key) as [s2 v] eqn:Eg. simpl in Hget. subst v.
  eexists (with_store d s), _, _. split; [done|].
  rewrite (handleFindValue_eq now (with_store d s) addr' msg' key Hm').
  change (IsBlocked (with_store d s) key) with (IsBlocked d key). rewrite Hb. simpl d_store.
  rewrite Eg. split; [reflexivity|apply value_reply].
Qed.

(** (dht.go, [IsBlocked], [handleStore], [handleFindValue]): for a key on the
    blocklist a [dht_store] changes nothing at the receiver, whatever it carries,
    and a [dht_find_value] is never answered with a value but with the closest
    contacts, exactly as if the node did not hold the key. *)
Theorem blocked_key_absent (e : put_env) (d : DHT) (addr : bytes) (msg : Message) (key : NodeID)
    (now : Time) :
  IsBlocked d key = true ->
  (forall value, is_store_of msg key value ->
     fst (handleStore e d addr msg) = d
     /\ forall eff, eff ∈ snd (handleStore e d addr msg) ->
          eff = Reply addr msg (mk_message (bs "dht_stored") []))
  /\ (is_find_of msg key ->
      handleFindValue now d addr msg = (d, [closest_reply d addr msg key])
      /\ forall d', d_rt d' = d_rt d -> IsBlocked d' key = false -> data (d_store d') !! Hex key = None ->
          snd (handleFindValue now d' addr msg) = [closest_reply d addr msg key]).
Proof.
  intros Hb. split.
  - intros value Hs. rewrite (handleStore_eq e d addr msg key value Hs), Hb.
    destruct (MaxValueSize <? len value); simpl; set_solver.
  - intros Hf. rewrite (handleFindValue_eq now d addr msg key Hf), Hb. split; [done|].
    intros d' Hr Hb' Hd. rewrite (handleFindValue_eq now d' addr msg key Hf), Hb'.
    unfold Store.Get. rewrite Hd. simpl. unfold closest_reply. by rewrite Hr.
Qed.

(** (dht.go, [handleStore]; store.go, [put]): a [dht_store] whose sender field
    is empty is never refused for quota, whatever the per-peer cap and however
    much was stored before, and is charged to nobody.  The peer layer accepts
    such messages ([dispatched_authentic]), so the per-peer cap does not bind a
    peer that leaves out its ID. *)
Theorem empty_sender_skips_quota (e : put_env) (d : DHT) (addr : bytes) (msg : Message)
    (key : NodeID) (value : bytes) :
  is_store_of msg key value -> m_From msg = [] ->
  len value <= MaxValueSize -> IsBlocked d key = false ->
  let '(d', effs) := handleStore e d addr msg in
  effs = [Reply addr msg (mk_message (bs "dht_stored") [])]
  /\ data (d_store d') !! Hex key = Some value
  /\ attribution (d_store d') !! Hex key = None.
Proof.
  intros Hs Hf Hl Hb. rewrite (handleStore_eq e d addr msg key value Hs), Hf, Hb.
  destruct (Z.ltb_spec MaxValueSize (len value)); [lia|].
  unfold PutAttributed, put, put_locked, admitted. rewrite bool_decide_eq_false_2 by tauto. simpl.
  set (s1 := evictToFit _ _ _). split; [done|].
  destruct (dataDir s1); simpl; by rewrite lookup_insert_eq, lookup_delete_eq.
Qed.

(** ** Revocation *)

(** The chunks of a revocation that parse as keys. *)
Definition revoked_ids (p : RevokePayload) : list NodeID :=
  omap (fun h => to_option (IDFromHex h)) (rp_Chunks p).

Definition purge (d : DHT) (id : NodeID) : DHT :=
  with_store (with_blocklist d (fst (Blocklist_Add (d_blocklist d) id))) (Delete (d_store d) id).

Lemma revoke_chunks_purge d l :
  foldl revoke_chunk d l = foldl purge d (omap (fun h => to_option (IDFromHex h)) l).
Proof.
  revert d. induction l as [|h l IH]; intros d; [done|]. cbn [foldl omap list_omap].
  unfold revoke_chunk at 2. destruct (IDFromHex h); simpl; apply IH.
Qed.

Lemma purge_spec d l bl0 :
  d_blocklist d = Some bl0 ->
  (exists bl, d_blocklist (foldl purge d l) = Some bl)
  /\ (forall id, IsBlocked (foldl purge d l) id = bool_decide (id ∈ l) || IsBlocked d id)
  /\ (forall k, data (d_store (foldl purge d l)) !! k
        = if bool_decide (k ∈ Hex <$> l) then None else data (d_store d) !! k)
  /\ (store_ok (d_store d) -> store_ok (d_store (foldl purge d l)))
  /\ d_revokeSeen (foldl purge d l) = d_revokeSeen d
  /\ d_trusted (foldl purge d l) = d_trusted d.
Proof.
  revert d bl0. induction l as [|x l IH]; intros d bl0 Hb; cbn [foldl].
  { split_and!; eauto. }
  assert (exists bl1, d_blocklist (purge d x) = Some bl1) as [bl1 Hb1].
  { simpl. rewrite Hb. simpl. case_bool_decide; eauto. }
  destruct (IH (purge d x) bl1 Hb1) as (H1 & H2 & H3 & H4 & H5 & H6). split_and!; [done| | | |done|done].
  - intros id. rewrite H2. unfold IsBlocked. simpl. rewrite Add_Contains, Hb.
    apply eq_bool_prop_intro. rewrite !orb_True, !bool_decide_spec, elem_of_cons. tauto.
  - intros k. rewrite H3. simpl. unfold Delete. rewrite drop_entry_data.
    destruct (decide (k = Hex x)) as [->|Hne].
    + rewrite lookup_delete_eq, (bool_decide_eq_true_2 (Hex x ∈ Hex x :: _)) by set_solver.
      by case_bool_decide.
    + rewrite lookup_delete_ne by done. apply reflexive_eq. repeat case_bool_decide; set_solver.
  - intros Hok. apply H4. simpl. by apply drop_entry_ok.
Qed.

Lemma applyRevoke_spec d p :
  (forall id, IsBlocked (applyRevoke d p) id = bool_decide (id ∈ revoked_ids p) || IsBlocked d id)
  /\ (forall k, data (d_store (applyRevoke d p)) !! k
        = if bool_decide (k ∈ Hex <$> revoked_ids p) then None else data (d_store d) !! k)
  /\ (store_ok (d_store d) -> store_ok (d_store (applyRevoke d p)))
  /\ d_revokeSeen (applyRevoke d p) = d_revokeSeen d
  /\ d_trusted (applyRevoke d p) = d_trusted d.
Proof.
  unfold applyRevoke. rewrite revoke_chunks_purge. fold (revoked_ids p).
  destruct (d_blocklist d) as [bl|] eqn:E.
  - by destruct (purge_spec d (revoked_ids p) bl E) as (_ & ?).
  - destruct (purge_spec (with_blocklist d NewBlocklist) (revoked_ids p) ∅ eq_refl)
      as (_ & H1 & H2 & H3 & H4 & H5). split_and!; [|done..].
    intros id. rewrite H1. unfold IsBlocked. simpl. rewrite E. simpl.
    rewrite (bool_decide_eq_false_2 (Hex id ∈ (∅ : gset bytes))); [done|apply not_elem_of_empty].
Qed.

(** The checks a received revocation has to pass, but for deduplication. *)
Definition acceptable (d : DHT) (unix : Time) (rp : RevokePayload) : bool :=
  Trusted_Contains (d_trusted d) (rp_PublicKey rp)
  && (unix - MaxRevokeAge <=? rp_Timestamp rp) && (rp_Timestamp rp <=? unix + MaxRevokeFutureSkew)
  && match PublicKeyFromHex (rp_PublicKey rp) with
     | Ok pub => is_ok (Verify pub (canonical_of rp) (rp_Signature rp))
     | Err _ => false
     end.

Lemma handleRevoke_eq now unix d addr msg :
  handleRevoke now unix d addr msg =
  match Unmarshal (m_Payload msg) with
  | None => (d, [])
  | Some rp =>
      if acceptable d unix rp && negb (bool_decide (is_Some (d_revokeSeen d !! revokeID rp)))
      then (applyRevoke
              (with_revokeSeen d (prune_seen now (<[revokeID rp := now]> (d_revokeSeen d)))) rp,
            [Broadcast msg])
      else (d, [])
  end.
Proof.
  unfold handleRevoke, acceptable.
  destruct (d_trusted d) as [keys|] eqn:Et; simpl; [|by destruct (Unmarshal (m_Payload msg))].
  destruct (Nat.eqb_spec (size keys) 0) as [Hz|Hz].
  { destruct (Unmarshal (m_Payload msg)) as [rp|]; [|done]. apply size_empty_inv in Hz.
    rewrite bool_decide_eq_false_2; [done|]. intros Hin.
    rewrite Hz in Hin. by apply not_elem_of_empty in Hin. }
  destruct (Unmarshal (m_Payload msg)) as [rp|]; [|done].
  destruct (bool_decide _); simpl; [|done].
  rewrite (Z.ltb_antisym (unix - MaxRevokeAge)), (Z.ltb_antisym (rp_Timestamp rp)).
  destruct (unix - MaxRevokeAge <=? rp_Timestamp rp); simpl; [|done].
  destruct (rp_Timestamp rp <=? unix + MaxRevokeFutureSkew); simpl; [|done].
  destruct (PublicKeyFromHex _) as [pub|]; [|done].
  destruct (Verify _ _ _); simpl; [|done]. by destruct (bool_decide _).
Qed.

(** (revoke.go, [handleRevoke], [applyRevoke]): a received revocation that was
    not seen before is applied exactly when its key is trusted, its timestamp is
    in the window and its signature verifies.  Then every listed hash that parses
    is blocked and gone from the store, all other keys are untouched, the store's
    counters stay right, and the message is passed on.  In every other case the
    node does not change and sends nothing. *)
Theorem revoke_applied (now unix : Time) (d : DHT) (addr : bytes) (msg : Message)
    (rp : RevokePayload) :
  Unmarshal (m_Payload msg) = Some rp -> store_ok (d_store d) ->
  let '(d', effs) := handleRevoke now unix d addr msg in
  if acceptable d unix rp && negb (bool_decide (is_Some (d_revokeSeen d !! revokeID rp)))
  then effs = [Broadcast msg] /\ store_ok (d_store d')
       /\ (forall id, id ∈ revoked_ids rp ->
             IsBlocked d' id = true /\ data (d_store d') !! Hex id = None)
       /\ (forall id, id ∉ revoked_ids rp ->
             IsBlocked d' id = IsBlocked d id
             /\ data (d_store d') !! Hex id = data (d_store d) !! Hex id)
  else d' = d /\ effs = [].
Proof.
  intros Hu Hok. rewrite handleRevoke_eq, Hu. destruct (acceptable d unix rp && _); [|done].
  destruct (applyRevoke_spec
    (with_revokeSeen d (prune_seen now (<[revokeID rp:=now]> (d_revokeSeen d)))) rp)
    as (H1 & H2 & H3 & _). split_and!; [done|by apply H3| |].
  - intros id Hid. rewrite H1, H2, !bool_decide_eq_true_2; [done|by apply list_elem_of_fmap_2|done].
  - intros id Hid. rewrite H1, H2, !bool_decide_eq_false_2; [done| |done].
    intros (x & Hx & Hin)%list_elem_of_fmap. apply (inj Hex) in Hx. by subst.
Qed.

(** *** Replays *)

(** [time.Now().Unix()]: Go's zero time is 62135596800 seconds before 1970. *)
Definition unix_of (now : Time) : Z := now / Second - 62135596800.

(** A message arriving: the environment (with its clock), the address it came
    from, and the message. *)
Record event := MkEvent { ev_env : put_env; ev_addr : bytes; ev_msg : Message }.

Definition ev_now (ev : event) : Time := pe_now (ev_env ev).

Fixpoint run (d : DHT) (evs : list event) : outcome DHT :=
  match evs with
  | [] => Ret d
  | ev :: evs' =>
      match HandleMessage (ev_env ev) (unix_of (ev_now ev)) d (ev_addr ev) (ev_msg ev) with
      | Ret (d', _) => run d' evs'
      | Panic => Panic
      end
  end.

(** The clock does not go back. *)
Fixpoint clock_from (t : Time) (evs : list event) : Prop :=
  match evs with [] => True | ev :: evs' => t <= ev_now ev /\ clock_from (ev_now ev) evs' end.

(** A revocation with timestamp [ts] cannot be applied (again) at [now] or later:
    it is recorded, or too old. *)
Definition spent (rid : bytes) (ts : Z) (now : Time) (d : DHT) : Prop :=
  (exists t, d_revokeSeen d !! rid = Some t /\ ts <= unix_of t + MaxRevokeFutureSkew)
  \/ ts < unix_of now - MaxRevokeAge.

Lemma unix_of_mono a b : a <= b -> unix_of a <= unix_of b.
Proof. intros Hab. unfold unix_of. pose proof (Z.div_le_mono a b Second ltac:(done) Hab). lia. Qed.

Lemma unix_of_gap a b : a + 2 * (24 * Hour) < b -> unix_of a + 172800 <= unix_of b.
Proof.
  intros Hab. unfold unix_of. pose proof (Z.div_le_mono (a + 172800 * Second) b Second ltac:(done)) as Hd.
  rewrite Z.div_add in Hd by done. unfold Hour, Minute in Hab. lia.
Qed.

Lemma prune_spent m rid t now ts :
  m !! rid = Some t -> ts <= unix_of t + MaxRevokeFutureSkew ->
  prune_seen now m !! rid = Some t \/ ts < unix_of now - MaxRevokeAge.
Proof.
  intros Hm Ht. unfold prune_seen. destruct (1024 <? size m)%nat; [|by left].
  destruct (decide (t < now - 2 * (24 * Hour))) as [Hl|Hl].
  - right. pose proof (unix_of_gap t now ltac:(lia)). unfold MaxRevokeAge, MaxRevokeFutureSkew in *. lia.
  - left. by apply map_lookup_filter_Some.
Qed.

Lemma HandleMessage_seen e unix d addr msg d' effs :
  HandleMessage e unix d addr msg = Ret (d', effs) ->
  d_revokeSeen d' = d_revokeSeen d \/ handleRevoke (pe_now e) unix d addr msg = (d', effs).
Proof.
  unfold HandleMessage. destruct (bool_decide (m_Type msg = bs "hello")).
  { intros [= Hh]. left. unfold observeHello, rt_update in Hh.
    repeat (case_match; try by simplify_eq). }
  destruct (bool_decide (m_Type msg = bs "goodbye")).
  { unfold observeGoodbye. intros Hh. left. repeat (case_match; try by simplify_eq). }
  destruct (bool_decide (m_Type msg = bs "dht_ping")); [intros [= <- _]; by left|].
  destruct (bool_decide (m_Type msg = bs "dht_find_node")); [intros [= <- _]; by left|].
  destruct (bool_decide (m_Type msg = bs "dht_store")).
  { intros [= Hh]. left. unfold handleStore in Hh. repeat (case_match; try by simplify_eq). }
  destruct (bool_decide (m_Type msg = bs "dht_find_value")).
  { intros [= Hh]. left. unfold handleFindValue in Hh. repeat (case_match; try by simplify_eq). }
  destruct (bool_decide (m_Type msg = bs "dht_revoke")); [intros [= Hh]; by right|].
  intros [= <- _]. by left.
Qed.

Lemma spent_step rid ts now d ev d' effs :
  spent rid ts now d -> now <= ev_now ev ->
  HandleMessage (ev_env ev) (unix_of (ev_now ev)) d (ev_addr ev) (ev_msg ev) = Ret (d', effs) ->
  spent rid ts (ev_now ev) d'.
Proof.
  intros [(t & Hs & Ht)|Hold] Hn Hh.
  2: { right. pose proof (unix_of_mono _ _ Hn). lia. }
  apply HandleMessage_seen in Hh as [Hseen|Hh]; [left; exists t; by rewrite Hseen|].
  rewrite handleRevoke_eq in Hh. destruct (Unmarshal _) as [rp|]; [|simplify_eq; left; eauto].
  destruct (acceptable _ _ _ && _) eqn:Ea; [|simplify_eq; left; eauto].
  injection Hh as <- _. apply andb_true_iff in Ea as [_ Hnew]. zbool.
  unfold spent. destruct (applyRevoke_spec (with_revokeSeen d (prune_seen (pe_now (ev_env ev))
    (<[revokeID rp:=pe_now (ev_env ev)]> (d_revokeSeen d)))) rp) as (_ & _ & _ & -> & _). simpl.
  destruct (prune_spent (<[revokeID rp:=ev_now ev]> (d_revokeSeen d)) rid t (ev_now ev) ts) as [Hp|Hp];
    [|done|left; eauto|by right].
  rewrite lookup_insert_ne; [done|]. intros E. apply Hnew. rewrite E. eauto.
Qed.

Lemma spent_run rid ts now d evs d' :
  spent rid ts now d -> clock_from now evs -> run d evs = Ret d' ->
  exists now', spent rid ts now' d' /\ forall e, clock_from now (evs ++ [e]) -> now' <= ev_now e.
Proof.
  revert now d. induction evs as [|ev evs IH]; intros now d Hsp Hc Hr; simpl in *.
  { simplify_eq. exists now. split; [done|]. by intros e [? _]. }
  destruct (HandleMessage _ _ d _ _) as [[d1 effs]|] eqn:Hh; [|done]. destruct Hc as [Hn Hc].
  destruct (IH (ev_now ev) d1) as (now' & Hs' & He); [by eapply spent_step|done|done|].
  exists now'. split; [done|]. intros e [_ ?]. by apply He.
Qed.

Lemma spent_rejects rp now d ev :
  spent (revokeID rp) (rp_Timestamp rp) now d -> now <= ev_now ev ->
  Unmarshal (m_Payload (ev_msg ev)) = Some rp ->
  handleRevoke (ev_now ev) (unix_of (ev_now ev)) d (ev_addr ev) (ev_msg ev) = (d, []).
Proof.
  intros Hsp Hn Hu. rewrite handleRevoke_eq, Hu. destruct Hsp as [(t & Ht & _)|Hold].
  - rewrite (bool_decide_eq_true_2 (is_Some _)) by eauto. by rewrite andb_false_r.
  - pose proof (unix_of_mono _ _ Hn). unfold acceptable.
    destruct (Z.leb_spec (unix_of (ev_now ev) - MaxRevokeAge) (rp_Timestamp rp)); [lia|].
    by rewrite andb_false_r.
Qed.

(** (revoke.go, [handleRevoke]): a revocation is applied and passed on at most
    once.  After a node has accepted it, and after any messages that arrive
    meanwhile, the pruning of old entries included, receiving the same payload
    again at any later time changes nothing and sends nothing: the entry is still
    recorded, or, once it may have been pruned, the timestamp is too old.  So the
    flooding of a revocation ends. *)
Theorem revoke_never_replayed (d d1 d2 : DHT) (ev1 ev2 : event) (evs : list event)
    (rp : RevokePayload) :
  Unmarshal (m_Payload (ev_msg ev1)) = Some rp -> Unmarshal (m_Payload (ev_msg ev2)) = Some rp ->
  handleRevoke (ev_now ev1) (unix_of (ev_now ev1)) d (ev_addr ev1) (ev_msg ev1)
  = (d1, [Broadcast (ev_msg ev1)]) ->
  run d1 evs = Ret d2 -> clock_from (ev_now ev1) (evs ++ [ev2]) ->
  handleRevoke (ev_now ev2) (unix_of (ev_now ev2)) d2 (ev_addr ev2) (ev_msg ev2) = (d2, []).
Proof.
  intros Hu1 Hu2 Hh Hr Hc.
  assert (clock_from (ev_now ev1) evs) as Hc1.
  { clear -Hc. revert Hc. generalize (ev_now ev1).
    induction evs as [|ev evs IH]; intros t; simpl; [done|]. intros [? ?]. split; [done|by apply IH]. }
  assert (spent (revokeID rp) (rp_Timestamp rp) (ev_now ev1) d1) as Hsp.
  { rewrite handleRevoke_eq, Hu1 in Hh. destruct (acceptable _ _ _ && _) eqn:Ea; [|done].
    injection Hh as <-. apply andb_true_iff in Ea as [Ea _]. unfold acceptable in Ea. zbool.
    unfold spent. destruct (applyRevoke_spec (with_revokeSeen d (prune_seen (ev_now ev1)
      (<[revokeID rp:=ev_now ev1]> (d_revokeSeen d)))) rp) as (_ & _ & _ & -> & _). simpl.
    destruct (prune_spent (<[revokeID rp:=ev_now ev1]> (d_revokeSeen d)) (revokeID rp) (ev_now ev1)
      (ev_now ev1) (rp_Timestamp rp)) as [Hp|Hp]; [apply lookup_insert_eq|done|left; eauto|by right]. }
  destruct (spent_run _ _ _ _ _ _ Hsp Hc1 Hr) as (now' & Hsp' & Hle).
  apply (spent_rejects rp now'); [done|by apply Hle|done].
Qed.

(** A revocation of plain text: its fields, and that it can be sent as JSON. *)
Lemma SignRevoke_plain id name chunks nonce ts rp :
  SignRevoke id name chunks (Some nonce) ts = Ok rp ->
  Forall (fun s => forallb lower_plain s = true) (name :: chunks) -> in_int64 ts ->
  rp = MkRevoke name (sort_Strings chunks) ts (hex_encode nonce) (PublicKeyToHex (PublicKey id)) (rp_Signature rp)
  /\ revoke_fine rp.
Proof.
  intros Hsign Hplain Hts.
  assert (forall s, s ∈ name :: chunks -> normalise s = s) as Hnorm.
  { intros s Hs. apply normalise_plain. by apply (proj1 (Forall_forall _ _) Hplain). }
  assert (rp = MkRevoke name (sort_Strings chunks) ts (hex_encode nonce) (PublicKeyToHex (PublicKey id))
    (rp_Signature rp) /\ utf8_valid (rp_Signature rp) = true) as [Erp Hsig].
  { unfold SignRevoke in Hsign. case_bool_decide; [done|]. injection Hsign as <-. simpl.
    rewrite (Hnorm name) by set_solver. split; [|apply Wire.hex_text]. f_equal. f_equal.
    rewrite <- (list_fmap_id chunks) at 2. apply list_fmap_ext. intros i x Hx. apply Hnorm.
    rewrite elem_of_cons. right. apply list_elem_of_lookup. eauto. }
  split; [done|]. rewrite Erp.
  assert (forall s, s ∈ name :: chunks -> utf8_valid s = true) as Htext.
  { intros s Hs. apply utf8_valid_ascii. eapply forallb_impl;
      [|apply (proj1 (Forall_forall _ _) Hplain s Hs)]. intros b Hb. by destruct b. }
  split_and!; simpl; [apply Htext; set_solver| |done|apply Wire.hex_text|apply Wire.hex_text|done].
  rewrite sort_Strings_perm. apply Forall_forall. intros c Hc. apply Htext. set_solver.
Qed.

(** (revoke.go, [SignRevoke], [BroadcastRevoke], [handleRevoke]): a revocation
    that a trusted identity signs and broadcasts is accepted by every node that
    trusts its key, has not seen it, and whose clock is within the window of the
    signing time: after its message is handled, every listed chunk hash is blocked
    and gone there. *)
Theorem signed_revoke_accepted (id : Identity) (name : bytes) (chunks : list bytes) (nonce : bytes)
    (ts : Z) (rp : RevokePayload) (now unix : Time) (d : DHT) (addr : bytes) (msg : Message) :
  id_wf id -> SignRevoke id name chunks (Some nonce) ts = Ok rp ->
  Forall (fun s => forallb lower_plain s = true) (name :: chunks) -> in_int64 ts ->
  m_Payload msg = Marshal rp ->
  Trusted_Contains (d_trusted d) (PublicKeyToHex (PublicKey id)) = true ->
  unix - MaxRevokeAge <= ts <= unix + MaxRevokeFutureSkew -> d_revokeSeen d !! revokeID rp = None ->
  let '(d', effs) := handleRevoke now unix d addr msg in
  effs = [Broadcast msg]
  /\ forall h k, h ∈ chunks -> IDFromHex h = Ok k ->
       IsBlocked d' k = true /\ data (d_store d') !! Hex k = None.
Proof.
  intros Hid Hsign Hplain Hts Hm Htr Hwin Hseen.
  assert (forall s, s ∈ name :: chunks -> normalise s = s) as Hnorm.
  { intros s Hs. apply normalise_plain. by apply (proj1 (Forall_forall _ _) Hplain). }
  destruct (SignRevoke_verifies id name chunks (Some nonce) ts rp Hid Hsign) as [Hpk Hver].
  { intros s Hs. by rewrite !(Hnorm s Hs). }
  destruct (SignRevoke_plain id name chunks nonce ts rp Hsign Hplain Hts) as [Erp Hfine].
  assert (Unmarshal (m_Payload msg) = Some rp) as Hu by (rewrite Hm; by apply Unmarshal_Marshal).
  assert (rp_Timestamp rp = ts /\ rp_PublicKey rp = PublicKeyToHex (PublicKey id)) as [Et Ek]
    by (by rewrite Erp).
  rewrite handleRevoke_eq, Hu. unfold acceptable. rewrite Hpk, Hver, Et, Ek, Htr.
  rewrite Hseen. rewrite (bool_decide_eq_false_2 (is_Some None)) by apply is_Some_None.
  destruct (Z.leb_spec (unix - MaxRevokeAge) ts), (Z.leb_spec ts (unix + MaxRevokeFutureSkew)); [|lia..].
  simpl. split; [done|]. intros h k Hh Hk.
  destruct (applyRevoke_spec
    (with_revokeSeen d (prune_seen now (<[revokeID rp:=now]> (d_revokeSeen d)))) rp) as (Hbl & Hda & _).
  assert (k ∈ revoked_ids rp) as Hin.
  { unfold revoked_ids. apply list_elem_of_omap. exists h. rewrite Hk. split; [|done].
    rewrite Erp. simpl. by rewrite sort_Strings_perm. }
  rewrite Hbl, Hda, !bool_decide_eq_true_2; [done|by apply list_elem_of_fmap_2|done].
Qed.

End Handlers.

(** ** Concrete runs *)

(** A node with an empty table and a store of 100 bytes per peer, that trusts
    [alice]'s key for revocations. *)
Definition bob_id : NodeID := key_of 77.

Definition bob : DHT :=
  MkDHT bob_id (NewRoutingTable bob_id) (SetPerPeerMax (bounded_store 0) 100) None
    (Some {[PublicKeyToHex (PublicKey alice)]}) ∅ [].

Lemma bob_ok : dht_ok bob.
Proof. split; [done|]. apply NewRoutingTable_wf. Qed.

Lemma bob_store_ok : store_ok (d_store bob).
Proof. apply bounded_store_ok. Qed.

Lemma handlers_total_witness :
  match HandleMessage (at_time 1) 0 bob (bs "10.0.0.9:1") (mk_message (bs "dht_ping") []) with
  | Panic => goodbye_from_self bob (mk_message (bs "dht_ping") [])
  | Ret (d', _) => dht_ok d' /\ d_self d' = d_self bob
      /\ ~ goodbye_from_self bob (mk_message (bs "dht_ping") [])
  end.
Proof. apply (handlers_total (at_time 1) 0 bob), bob_ok. Defined.

Lemma store_then_find_value_witness :
  let msg := store_request (key_of 5) (bs "hello") in
  let msg' := find_value_request (key_of 5) in
  exists d1 d2 reply,
    handleStore (at_time 1) bob (bs "a") msg = (d1, [Reply (bs "a") msg (mk_message (bs "dht_stored") [])])
    /\ handleFindValue 2 d1 (bs "b") msg' = (d2, [Reply (bs "b") msg' reply])
    /\ value_of_reply reply = Some (bs "hello").
Proof.
  intros msg msg'. apply (store_then_find_value (at_time 1) bob (bs "a") (bs "b") msg msg' (key_of 5)
    (bs "hello") 2 eq_refl eq_refl); by vm_compute.
Defined.

Definition bob_blocking : DHT := SetBlocklist bob (Some {[Hex (key_of 5)]}).

Lemma blocked_key_absent_witness :
  fst (handleStore (at_time 1) bob_blocking (bs "a") (store_request (key_of 5) (bs "hello"))) = bob_blocking.
Proof.
  assert (IsBlocked bob_blocking (key_of 5) = true) as Hb by (by vm_compute).
  apply (proj1 (blocked_key_absent (at_time 1) bob_blocking (bs "a")
    (store_request (key_of 5) (bs "hello")) (key_of 5) 1 Hb) (bs "hello")).
  by apply store_request_is.
Defined.

(** A 200-byte value from a sender without a name, at a cap of 100 bytes. *)
Lemma empty_sender_skips_quota_witness :
  perPeerMax (d_store bob) = 100
  /\ data (d_store (fst (handleStore (at_time 1) bob (bs "a") (store_request (key_of 5) (zeros 200)))))
     !! Hex (key_of 5) = Some (zeros 200).
Proof.
  split; [done|].
  pose proof (empty_sender_skips_quota (at_time 1) bob (bs "a") (store_request (key_of 5) (zeros 200))
    (key_of 5) (zeros 200)) as Hq.
  specialize (Hq (store_request_is _ _ _ eq_refl) eq_refl).
  specialize (Hq ltac:(by vm_compute) ltac:(by vm_compute)).
  destruct (handleStore _ _ _ _) as [d' effs]. apply Hq.
Defined.

(** A revocation by [alice] of two hashes, received by [bob]. *)
Definition alice_revoke : RevokePayload :=
  match SignRevoke alice (bs "site.alt") [hash_of Byte.x01; hash_of Byte.x02] (Some (zeros 16)) 1000 with
  | Ok p => p
  | Err _ => sample_revoke []
  end.

Definition revoke_message : Message := mk_message (bs "dht_revoke") (Marshal alice_revoke).

Lemma revoke_message_parses : Unmarshal (m_Payload revoke_message) = Some alice_revoke.
Proof. by vm_compute. Qed.

Lemma bob_accepts : acceptable bob 1000 alice_revoke = true.
Proof. by vm_compute. Qed.

Lemma revoke_applied_witness :
  IsBlocked (fst (handleRevoke 5 1000 bob (bs "a") revoke_message)) (id_copy (replicate 32 Byte.x01)) = true.
Proof.
  pose proof (revoke_applied 5 1000 bob (bs "a") revoke_message alice_revoke
    revoke_message_parses bob_store_ok) as Hr.
  destruct (handleRevoke 5 1000 bob (bs "a") revoke_message) as [d' effs]. rewrite bob_accepts in Hr.
  rewrite (bool_decide_eq_false_2 (is_Some _)) in Hr by (by intros [? ?]).
  cbn [andb negb fst] in *. destruct Hr as (_ & _ & Hr & _). apply Hr.
  apply (bool_decide_eq_true_1 _). by vm_compute.
Defined.

(** The revocation at the start of 1970, and again a day later. *)
Definition ev_at (unix : Z) : event :=
  MkEvent (at_time ((62135596800 + unix) * Second)) (bs "a") revoke_message.

Lemma revoke_never_replayed_witness :
  exists d1, handleRevoke (ev_now (ev_at 1000)) (unix_of (ev_now (ev_at 1000))) bob (bs "a") revoke_message
             = (d1, [Broadcast revoke_message])
  /\ handleRevoke (ev_now (ev_at 80000)) (unix_of (ev_now (ev_at 80000))) d1 (bs "a") revoke_message = (d1, []).
Proof.
  set (d1 := fst (handleRevoke (ev_now (ev_at 1000)) (unix_of (ev_now (ev_at 1000))) bob (bs "a") revoke_message)).
  assert (handleRevoke (ev_now (ev_at 1000)) (unix_of (ev_now (ev_at 1000))) bob (bs "a") revoke_message
    = (d1, [Broadcast revoke_message])) as Hh.
  { unfold d1. rewrite handleRevoke_eq, revoke_message_parses.
    assert (unix_of (ev_now (ev_at 1000)) = 1000) as -> by (by vm_compute). rewrite bob_accepts.
    rewrite (bool_decide_eq_false_2 (is_Some _)) by (by intros [? ?]). done. }
  exists d1. split; [exact Hh|].
  apply (revoke_never_replayed bob d1 d1 (ev_at 1000) (ev_at 80000) [] alice_revoke
    revoke_message_parses revoke_message_parses Hh eq_refl).
  split; [by vm_compute|done].
Defined.

Lemma alice_revoke_signed :
  SignRevoke alice (bs "site.alt") [hash_of Byte.x01; hash_of Byte.x02] (Some (zeros 16)) 1000
  = Ok alice_revoke.
Proof. by vm_compute. Qed.

Lemma bob_trusts_alice : Trusted_Contains (d_trusted bob) (PublicKeyToHex (PublicKey alice)) = true.
Proof. by vm_compute. Qed.

Lemma alice_revoke_plain :
  Forall (fun s => forallb lower_plain s = true) [bs "site.alt"; hash_of Byte.x01; hash_of Byte.x02].
Proof. repeat constructor. Qed.

Lemma int64_1000 : in_int64 1000.
Proof. by vm_compute. Qed.

Lemma revoke_message_payload : m_Payload revoke_message = Marshal alice_revoke.
Proof. unfold revoke_message. cbn [mk_message m_Payload]. reflexivity. Qed.

Lemma bob_in_window : 1000 - MaxRevokeAge <= 1000 <= 1000 + MaxRevokeFutureSkew.
Proof. by vm_compute. Qed.

Lemma signed_revoke_accepted_witness :
  snd (handleRevoke 5 1000 bob (bs "a") revoke_message) = [Broadcast revoke_message].
Proof.
  pose proof (signed_revoke_accepted alice (bs "site.alt") [hash_of Byte.x01; hash_of Byte.x02] (zeros 16)
    1000 alice_revoke 5 1000 bob (bs "a") revoke_message alice_wf alice_revoke_signed
    alice_revoke_plain int64_1000 revoke_message_payload bob_trusts_alice bob_in_window (lookup_empty _)) as Hr.
  destruct (handleRevoke 5 1000 bob (bs "a") revoke_message) as [d' effs]. apply Hr.
Defined.
