(* ===== verification/Lookup.v ===== *)
(** * The DHT node: requests and iterative lookups (core/dht/dht.go)

    The client side of the DHT.  What the network answers, the order in which
    the goroutines of a round finish, and the clock are a [net]; the theorems
    hold for every network and every order.  A walk is considered on its own:
    nothing else changes the routing table while it runs.  Under that condition
    every walk ends after at most [max_rounds] rounds.  Walking.v has the calls among
    the other goroutines of the node. *)

From S2P Require Import Prelude GoStrings Encoding Json Sha256 Crypto Peer Revoke NodeId.
From S2P Require Import Blocklist Store Routing DhtWire Dht.

(** [request n c addr msg]: what [p.Request(addr, msg, timeout)] gives when it is
    called for contact [c] in round [n]; [None] is an error or a timeout.
    [upd_order] is the order in which the goroutines of a round call
    [rt.Update], [app_order] the order in which they take the mutex. *)
Record net := MkNet {
  request : nat -> Contact -> bytes -> Message -> option Message;
  upd_order : list Contact -> list Contact;
  app_order : list Contact -> list Contact;
  clock : nat -> Time
}.

Definition net_ok (n : net) : Prop := forall l, upd_order n l ≡ₚ l /\ app_order n l ≡ₚ l.

(** ** Single requests *)

Fixpoint try_addresses (req : bytes -> option Message) (addrs : list bytes) : option Message :=
  match addrs with
  | [] => None
  | a :: addrs' => match req a with Some r => Some r | None => try_addresses req addrs' end
  end.

Definition requestContact (n : net) (round : nat) (c : Contact) (msg : Message) : option Message :=
  try_addresses (fun a => request n round c a msg) (AllAddresses c).

Definition Ping (n : net) (round : nat) (d : DHT) (c : Contact) : DHT * bool :=
  match requestContact n round c (mk_message (bs "dht_ping") []) with
  | None => (d, false)
  | Some reply =>
      if negb (bool_decide (m_Type reply = bs "dht_pong")) then (d, false)
      else (rt_update d c (clock n round), true)
  end.

Definition find_node_request (target : NodeID) : Message :=
  mk_message (bs "dht_find_node") (Marshal (MkFindNode (Hex target))).

(** The contacts of a [dht_nodes] reply. *)
Definition nodes_of_reply (reply : Message) : option (list Contact) :=
  match Unmarshal (m_Payload reply) with
  | Some np => Some (from_wire (np_Contacts np))
  | None => None
  end.

(** What one RPC of a walk comes to: whether the contact is refreshed in the
    table, the value it returned, the contacts it returned. *)
Record rpc_result := MkRpc { updates : bool; value : option bytes; nodes : list Contact }.

Definition rpc_failed : rpc_result := MkRpc false None [].

(** [FindNode], but for the [rt.Update] at its end. *)
Definition FindNode (n : net) (round : nat) (target : NodeID) (c : Contact) : rpc_result :=
  match requestContact n round c (find_node_request target) with
  | None => rpc_failed
  | Some reply =>
      if negb (bool_decide (m_Type reply = bs "dht_nodes")) then rpc_failed else
      match nodes_of_reply reply with
      | None => rpc_failed
      | Some out => MkRpc true None out
      end
  end.

(** [sendFindValue]; the contact is refreshed before the reply is looked at. *)
Definition sendFindValue (n : net) (round : nat) (key : NodeID) (c : Contact) : rpc_result :=
  match requestContact n round c (find_value_request key) with
  | None => rpc_failed
  | Some reply =>
      if bool_decide (m_Type reply = bs "dht_value") then MkRpc true (value_of_reply reply) []
      else if bool_decide (m_Type reply = bs "dht_nodes")
      then MkRpc true None (default [] (nodes_of_reply reply))
      else MkRpc true None []
  end.

Definition sendStore (n : net) (round : nat) (d : DHT) (c : Contact) (key : NodeID) (value : bytes)
  : DHT * bool :=
  match requestContact n round c (store_request key value) with
  | None => (d, false)
  | Some reply =>
      if negb (bool_decide (m_Type reply = bs "dht_stored")) then (d, false)
      else (rt_update d c (clock n round), true)
  end.

(** ** Walks *)

Fixpoint closest_from (target : NodeID) (best : Contact) (l : list Contact) : Contact :=
  match l with
  | [] => best
  | c :: l' => closest_from target (if DistanceLess target (ID c) (ID best) then c else best) l'
  end.

Definition closestHex (target : NodeID) (contacts : list Contact) : bytes :=
  match contacts with
  | [] => []
  | c :: l => Hex (ID (closest_from target c l))
  end.

(** The contacts a round queries: the first [Alpha] not queried before. *)
Definition pick_batch (queried : gset bytes) (shortlist : list Contact) : list Contact :=
  take Alpha (List.filter (fun c => negb (bool_decide (Hex (ID c) ∈ queried))) shortlist).

(** The secondhand contacts of a round go into the table as hints. *)
Definition hint_all (d : DHT) (learned : list Contact) : DHT :=
  foldl (fun d c => if Equal (ID c) (d_self d) then d else with_rt d (Hint (d_rt d) c) []) d learned.

(** The [rt.Update] calls of a round. *)
Definition update_all (now : Time) (d : DHT) (l : list Contact) : DHT :=
  foldl (fun d c => rt_update d c now) d l.

Record walk_end := MkEnd {
  w_dht : DHT;
  w_found : option bytes;        (* the first value that stops the walk *)
  w_seen : list bytes;           (* every value returned, in order *)
  w_shortlist : list Contact
}.

(** The loop of [Lookup], [getInner] and [GetAllUnverified].  They differ in the
    RPC they send and in which values end the walk ([stop]). *)
Fixpoint walk (fuel : nat) (n : net) (rpc : nat -> Contact -> rpc_result) (stop : bytes -> bool)
    (target : NodeID) (round : nat) (queried : gset bytes) (shortlist : list Contact)
    (seen : list bytes) (d : DHT) : option walk_end :=
  match fuel with
  | O => None
  | S fuel' =>
      let batch := pick_batch queried shortlist in
      if bool_decide (batch = []) then Some (MkEnd d None seen shortlist) else
      let queried := list_to_set ((fun c => Hex (ID c)) <$> batch) ∪ queried in
      let d := update_all (clock n round) d
                 (upd_order n (List.filter (fun c => updates (rpc round c)) batch)) in
      let replies := rpc round <$> app_order n batch in
      let values := omap value replies in
      let seen := seen ++ values in
      match list_find (fun v => stop v = true) values with
      | Some (_, v) => Some (MkEnd d (Some v) seen shortlist)
      | None =>
          let learned := concat (nodes <$> replies) in
          let before := closestHex target shortlist in
          let d := hint_all d learned in
          let shortlist := Closest (d_rt d) target K in
          let after := closestHex target shortlist in
          if bool_decide (before = after) then Some (MkEnd d None seen shortlist)
          else walk fuel' n rpc stop target (S round) queried shortlist seen d
      end
  end.

(** A table holds at most 256 buckets of [K] contacts, and every round of a walk
    but the last queries a contact it has not queried before. *)
Definition max_rounds : nat := Z.to_nat (256 * 20 + 1).

Definition start_walk (n : net) (rpc : nat -> Contact -> rpc_result) (stop : bytes -> bool)
    (target : NodeID) (seen : list bytes) (d : DHT) : option walk_end :=
  walk max_rounds n rpc stop target 0 ∅ (Closest (d_rt d) target K) seen d.

(** [sort.SliceStable] by distance: insertion behind the elements that are not
    farther. *)
Fixpoint insert_by (target : NodeID) (c : Contact) (l : list Contact) : list Contact :=
  match l with
  | [] => [c]
  | x :: l' => if DistanceLess target (ID c) (ID x) then c :: x :: l' else x :: insert_by target c l'
  end.

Definition SliceStable (target : NodeID) (l : list Contact) : list Contact :=
  foldl (fun acc c => insert_by target c acc) [] l.

(** The shortlist [Lookup] returns, and the node after it. *)
Definition Lookup (n : net) (target : NodeID) (d : DHT) : option (list Contact * DHT) :=
  match start_walk n (fun r c => FindNode n r target c) (fun _ => false) target [] d with
  | None => None
  | Some w =>
      let shortlist := SliceStable target (w_shortlist w) in
      Some (if (K <? length shortlist)%nat then take K shortlist else shortlist, w_dht w)
  end.

(** ** Storing *)

Inductive dht_error := ErrNotFound | ErrTableEmpty | ErrValueTooLarge.

Definition StoreLocal (e : put_env) (d : DHT) (key : NodeID) (value : bytes)
  : result dht_error DHT :=
  if MaxValueSize <? len value then Err ErrValueTooLarge
  else if IsBlocked d key then Ok d
  else Ok (with_store d (Put e (d_store d) key value)).

(** The RPCs of [Replicate] as they finish: the number that were acknowledged. *)
Fixpoint store_all (n : net) (round : nat) (d : DHT) (targets : list Contact) (key : NodeID)
    (value : bytes) : DHT * nat :=
  match targets with
  | [] => (d, 0%nat)
  | c :: targets' =>
      let '(d, ok) := sendStore n round d c key value in
      let '(d, k) := store_all n round d targets' key value in
      (d, if ok then S k else k)
  end.

Definition Replicate (n : net) (d : DHT) (key : NodeID) (value : bytes) : option (DHT * nat) :=
  if IsBlocked d key then Some (d, 0%nat) else
  match Lookup n key d with
  | None => None
  | Some (targets, d) =>
      Some (store_all n max_rounds d
              (upd_order n (List.filter (fun c => negb (Equal (ID c) (d_self d))) targets)) key value)
  end.

(** [Store]; the inner option is running out of rounds, which does not happen. *)
Definition Store (e : put_env) (n : net) (d : DHT) (key : NodeID) (value : bytes)
  : result dht_error (option (DHT * nat)) :=
  match StoreLocal e d key value with
  | Err err => Err err
  | Ok d => if IsBlocked d key then Ok (Some (d, 0%nat)) else Ok (Replicate n d key value)
  end.

(** ** Retrieval *)

(** The network part of [getInner], after the local check.  [None] is running
    out of rounds; [e] gives the environment of the caching put. *)
Definition search_value (e : put_env) (n : net) (d : DHT) (key : NodeID) (verify : bool)
  : option (result dht_error bytes * DHT) :=
  if (length (Closest (d_rt d) key K) =? 0)%nat then Some (Err ErrTableEmpty, d) else
  match start_walk n (fun r c => sendFindValue n r key c)
          (fun v => negb verify || Equal (ContentAddress v) key) key [] d with
  | None => None
  | Some w =>
      match w_found w with
      | Some v =>
          Some (Ok v, if verify then with_store (w_dht w) (Put e (d_store (w_dht w)) key v)
                      else w_dht w)
      | None => Some (Err ErrNotFound, w_dht w)
      end
  end.

(** The result and the node afterwards. *)
Definition getInner (e : put_env) (n : net) (d : DHT) (key : NodeID) (verify : bool)
  : option (result dht_error bytes * DHT) :=
  if IsBlocked d key then Some (Err ErrNotFound, d) else
  let '(s, local) := Store.Get (d_store d) (pe_now e) key in
  let d := with_store d s in
  match local with
  | Some v =>
      if negb verify || Equal (ContentAddress v) key then Some (Ok v, d)
      else search_value e n d key verify
  | None => search_value e n d key verify
  end.

Definition Get (e : put_env) (n : net) (d : DHT) (key : NodeID) := getInner e n d key true.

Definition GetUnverified (e : put_env) (n : net) (d : DHT) (key : NodeID) := getInner e n d key false.

(** The distinct values seen; Go returns them in map order, so as a set. *)
Definition GetAllUnverified (e : put_env) (n : net) (d : DHT) (key : NodeID)
  : option (result dht_error (gset bytes) * DHT) :=
  let '(s, local) := Store.Get (d_store d) (pe_now e) key in
  let d := with_store d s in
  let results := option_list local in
  if (length (Closest (d_rt d) key K) =? 0)%nat && bool_decide (results = [])
  then Some (Err ErrTableEmpty, d) else
  match start_walk n (fun r c => sendFindValue n r key c) (fun _ => false) key results d with
  | None => None
  | Some w =>
      Some (if bool_decide (w_seen w = []) then Err ErrNotFound else Ok (list_to_set (w_seen w)),
            w_dht w)
  end.

(** [Bootstrap]: [connected] is the outcome of [EnsureConnected], [d] the node
    after the wait for a hello. *)
Definition Bootstrap (n : net) (connected : bool) (d : DHT) : result unit (option DHT) :=
  if negb connected then Err tt
  else if (Size (d_rt d) =? 0)%nat then Err tt
  else Ok (snd <$> Lookup n (d_self d) d).

(** * Facts *)

(** ** What a walk does to the table *)

(** The IDs in a table. *)
Definition ids (rt : RoutingTable) : gset bytes := list_to_set ((fun c => Hex (ID c)) <$> All rt).

Lemma elem_of_ids rt x : x ∈ ids rt <-> exists c, c ∈ All rt /\ Hex (ID c) = x.
Proof. unfold ids. rewrite elem_of_list_to_set, list_elem_of_fmap. naive_solver. Qed.

Lemma ids_bucket rt x :
  rt_wf rt -> x ∈ ids rt <-> exists i c, c ∈ bucket_at rt i /\ Hex (ID c) = x.
Proof.
  intros Hw. rewrite elem_of_ids. split.
  - intros (c & Hc & Hx). apply (elem_of_All_wf rt c Hw) in Hc. eauto.
  - intros (i & c & Hc & Hx). exists c. split; [|done]. apply elem_of_All.
    unfold bucket_at in Hc. destruct (buckets rt !! i) as [b|] eqn:E; simpl in Hc; [eauto|set_solver].
Qed.

Lemma with_bucket_ids rt i b :
  rt_wf rt -> (i < 256)%nat -> (ID <$> bucket_at rt i) ⊆ (ID <$> b) ->
  rt_wf (with_bucket rt i b) -> ids rt ⊆ ids (with_bucket rt i b).
Proof.
  intros Hw Hi Hsub Hw' x Hx. apply (ids_bucket rt x Hw) in Hx as (j & a & Ha & <-).
  apply (ids_bucket _ _ Hw'). destruct (decide (i = j)) as [<-|Hne].
  - apply (list_elem_of_fmap_2 ID), Hsub, list_elem_of_fmap in Ha as (a' & E' & Ha').
    exists i, a'. rewrite bucket_at_with_bucket, decide_True by done. by rewrite E'.
  - exists j, a. by rewrite bucket_at_with_bucket, decide_False by done.
Qed.

Lemma Update_ids rt c now : rt_wf rt -> ids rt ⊆ ids (fst (Update rt c now)).
Proof.
  intros Hw. pose proof (Update_wf rt c now Hw) as HW. revert HW. unfold Update.
  destruct (Equal (ID c) (self rt)) eqn:He; [done|]. apply CommonPrefixLen_Equal_lt in He. simpl.
  set (b := bucket_at rt _). destruct (find_id (ID c) b) as [[i e]|] eqn:Hf.
  - intros (Hw' & _). apply with_bucket_ids; [done|done| |done]. apply find_id_Some in Hf as [Hi Hid].
    intros x Hx. by rewrite (move_to_tail_perm b i e).
  - destruct (length b <? K)%nat.
    + intros (Hw' & _). apply with_bucket_ids; [done|done| |done]. rewrite fmap_app. set_solver.
    + intros _. destruct (negb _); [done|]. by destruct b.
Qed.

Lemma Hint_ids rt c : rt_wf rt -> ids rt ⊆ ids (Hint rt c).
Proof.
  intros Hw. destruct (Hint_wf rt c Hw) as [Hw' _]. revert Hw'. unfold Hint.
  destruct (Equal (ID c) (self rt)) eqn:He; [done|]. apply CommonPrefixLen_Equal_lt in He.
  destruct (find_id _ _); [done|]. destruct (_ <? _)%nat; [|done].
  intros Hw'. apply with_bucket_ids; [done|done| |done]. set_solver.
Qed.

Lemma rt_update_ids d c now :
  dht_ok d -> ids (d_rt d) ⊆ ids (d_rt (rt_update d c now)).
Proof.
  intros [_ Hw]. pose proof (Update_ids (d_rt d) c now Hw) as Hi. unfold rt_update.
  by destruct (Update (d_rt d) c now).
Qed.

Lemma update_all_ok now l d :
  dht_ok d -> dht_ok (update_all now d l) /\ ids (d_rt d) ⊆ ids (d_rt (update_all now d l))
              /\ d_self (update_all now d l) = d_self d.
Proof.
  unfold update_all. revert d. induction l as [|c l IH]; intros d Hd; simpl; [done|].
  destruct (rt_update_ok d c now Hd) as [Hd' Hs].
  destruct (IH (rt_update d c now) Hd') as (H1 & H2 & H3). split_and!; [done| |congruence].
  etrans; [by apply rt_update_ids|done].
Qed.

Lemma hint_all_ok l d :
  dht_ok d -> dht_ok (hint_all d l) /\ ids (d_rt d) ⊆ ids (d_rt (hint_all d l))
              /\ d_self (hint_all d l) = d_self d.
Proof.
  unfold hint_all. revert d. induction l as [|c l IH]; intros d Hd; simpl; [done|].
  destruct (Equal (ID c) (d_self d)); [by apply IH|]. destruct Hd as [Hs Hw].
  destruct (Hint_wf (d_rt d) c Hw) as [Hw' Hs'].
  destruct (IH (with_rt d (Hint (d_rt d) c) [])) as (H1 & H2 & H3); [split; simpl; congruence|].
  split_and!; [done| |done]. etrans; [|exact H2]. by apply Hint_ids.
Qed.

Lemma concat_length_le {A} (l : list (list A)) k :
  Forall (fun b => (length b <= k)%nat) l -> (length (concat l) <= length l * k)%nat.
Proof.
  induction 1 as [|b l Hb _ IH]; simpl; [done|]. rewrite length_app. lia.
Qed.

Lemma ids_size rt : rt_wf rt -> (size (ids rt) <= 256 * 20)%nat.
Proof.
  intros [Hl Hb]. unfold ids.
  assert (length (All rt) <= 256 * 20)%nat as Hlen.
  { unfold All. rewrite <- Hl. apply (concat_length_le _ 20). apply Forall_forall. intros b Hin.
    apply list_elem_of_lookup in Hin as [i Hi]. by destruct (Hb i b Hi). }
  etrans; [|exact Hlen]. rewrite <- (length_fmap (fun c => Hex (ID c)) (All rt)).
  generalize ((fun c => Hex (ID c)) <$> All rt). intros l. induction l as [|x l IH]; cbn [length].
  - done.
  - rewrite list_to_set_cons, size_union_alt, size_singleton.
    assert (size (list_to_set l ∖ {[x]} : gset bytes) <= size (list_to_set l : gset bytes))%nat
      by (apply subseteq_size; set_solver). lia.
Qed.

(** ** Every walk ends *)

Lemma pick_batch_elem queried shortlist c :
  c ∈ pick_batch queried shortlist -> c ∈ shortlist /\ Hex (ID c) ∉ queried.
Proof.
  unfold pick_batch. intros (i & Hi & _)%elem_of_take.
  assert (c ∈ List.filter (fun c => negb (bool_decide (Hex (ID c) ∈ queried))) shortlist) as Hin
    by (apply list_elem_of_lookup; eauto).
  apply list_elem_of_In, filter_In in Hin as [Hin Hq]. apply list_elem_of_In in Hin.
  split; [done|]. by zbool.
Qed.

(** The queried set after a round. *)
Definition now_queried (batch : list Contact) (queried : gset bytes) : gset bytes :=
  list_to_set ((fun c => Hex (ID c)) <$> batch) ∪ queried.

Lemma now_queried_elem batch queried x :
  x ∈ now_queried batch queried <-> (exists c, c ∈ batch /\ Hex (ID c) = x) \/ x ∈ queried.
Proof.
  unfold now_queried. rewrite elem_of_union, elem_of_list_to_set, list_elem_of_fmap. naive_solver.
Qed.

Lemma now_queried_size queried shortlist :
  pick_batch queried shortlist <> [] ->
  (S (size queried) <= size (now_queried (pick_batch queried shortlist) queried))%nat.
Proof.
  intros Hne. destruct (pick_batch queried shortlist) as [|c batch] eqn:E; [done|].
  assert (Hex (ID c) ∉ queried) as Hc by (apply (pick_batch_elem queried shortlist); rewrite E; by left).
  assert (size ({[Hex (ID c)]} ∪ queried) = S (size queried)) as <-.
  { rewrite size_union, size_singleton; [lia|]. apply disjoint_singleton_l. exact Hc. }
  apply subseteq_size. intros x. rewrite elem_of_union, elem_of_singleton, now_queried_elem.
  intros [->|?]; [left|by right]. exists c. split; [by left|done].
Qed.

(** The values a round brings in, in the order the goroutines take the mutex. *)
Definition round_values (n : net) (rpc : nat -> Contact -> rpc_result) (round : nat)
    (batch : list Contact) : list bytes := omap value (rpc round <$> app_order n batch).

(** What a walk from the current closest contacts comes to. *)
Definition walk_post (stop : bytes -> bool) (target : NodeID) (seen : list bytes) (d : DHT)
    (w : walk_end) : Prop :=
  dht_ok (w_dht w) /\ d_self (w_dht w) = d_self d
  /\ d_store (w_dht w) = d_store d /\ d_blocklist (w_dht w) = d_blocklist d
  /\ ids (d_rt d) ⊆ ids (d_rt (w_dht w))
  /\ (w_found w = None -> w_shortlist w = Closest (d_rt (w_dht w)) target K)
  /\ (forall v, w_found w = Some v -> stop v = true)
  /\ seen `prefix_of` w_seen w.

Lemma update_all_frame now l d :
  d_store (update_all now d l) = d_store d /\ d_blocklist (update_all now d l) = d_blocklist d.
Proof.
  unfold update_all. revert d. induction l as [|c l IH]; intros d; simpl; [done|].
  destruct (IH (rt_update d c now)) as [-> ->]. unfold rt_update. by destruct (Update (d_rt d) c now).
Qed.

Lemma hint_all_frame l d :
  d_store (hint_all d l) = d_store d /\ d_blocklist (hint_all d l) = d_blocklist d.
Proof.
  unfold hint_all. revert d. induction l as [|c l IH]; intros d; simpl; [done|].
  destruct (Equal (ID c) (d_self d)); [apply IH|].
  by destruct (IH (with_rt d (Hint (d_rt d) c) [])) as [-> ->].
Qed.

Lemma walk_ends fuel n rpc stop target round queried seen d :
  dht_ok d -> queried ⊆ ids (d_rt d) -> (256 * 20 < fuel + size queried)%nat ->
  exists w, walk fuel n rpc stop target round queried (Closest (d_rt d) target K) seen d = Some w
    /\ walk_post stop target seen d w
    /\ let batch := pick_batch queried (Closest (d_rt d) target K) in
       batch <> [] ->
       (seen ++ round_values n rpc round batch) `prefix_of` w_seen w
       /\ forall v, v ∈ round_values n rpc round batch -> stop v = true -> is_Some (w_found w).
Proof.
  revert round queried seen d. induction fuel as [|fuel IH]; intros round queried seen d Hd Hq Hf.
  { pose proof (subseteq_size _ _ Hq). pose proof (ids_size (d_rt d) (proj2 Hd)). lia. }
  cbn [walk]. set (shortlist := Closest (d_rt d) target K).
  case_bool_decide as Hb.
  { eexists. split; [done|]. split; [|done]. unfold walk_post. simpl. by split_and!. }
  set (batch := pick_batch queried shortlist) in *.
  set (d1 := update_all _ d _). fold (round_values n rpc round batch).
  set (values := round_values n rpc round batch).
  destruct (update_all_ok (clock n round)
    (upd_order n (List.filter (fun c => updates (rpc round c)) batch)) d Hd) as (Hd1 & Hi1 & Hs1).
  destruct (update_all_frame (clock n round)
    (upd_order n (List.filter (fun c => updates (rpc round c)) batch)) d) as [Hst1 Hbl1].
  fold d1 in Hd1, Hi1, Hs1, Hst1, Hbl1.
  destruct (list_find (fun v => stop v = true) values) as [[i v]|] eqn:Ev.
  { eexists. split; [done|]. apply list_find_Some in Ev as (_ & Hv & _). split; [|by eauto].
    unfold walk_post. simpl.
    split_and!; try done; [by intros v' [= <-]|by apply prefix_app_r]. }
  apply list_find_None in Ev. rewrite Forall_forall in Ev.
  set (learned := concat _). set (d2 := hint_all d1 learned).
  destruct (hint_all_ok learned d1 Hd1) as (Hd2 & Hi2 & Hs2).
  destruct (hint_all_frame learned d1) as [Hst2 Hbl2]. fold d2 in Hd2, Hi2, Hs2, Hst2, Hbl2.
  assert (ids (d_rt d) ⊆ ids (d_rt d2)) as Hi by (by etrans).
  case_bool_decide as Hconv.
  { eexists. split; [done|]. split.
    - unfold walk_post. simpl. split_and!; try done; try congruence. by apply prefix_app_r.
    - intros _. split; [done|]. intros v Hv Hstop. by destruct (Ev v Hv). }
  fold (now_queried batch queried).
  destruct (IH (S round) (now_queried batch queried) (seen ++ values) d2 Hd2) as (w & Hw & Hpost & _).
  - intros x. rewrite now_queried_elem. intros [(c & Hc & <-)|Hx]; apply Hi; [|by apply Hq].
    apply pick_batch_elem in Hc as [Hc _]. apply Closest_elem in Hc. apply elem_of_ids. eauto.
  - pose proof (now_queried_size queried shortlist Hb). fold batch in H. lia.
  - exists w. split; [done|]. destruct Hpost as (P1 & P2 & P3 & P4 & P5 & P6 & P7 & P8).
    split; [|intros _; split; [done|intros v Hv Hstop; by destruct (Ev v Hv)]].
    unfold walk_post. split_and!; try done; try congruence; [by etrans|].
    etrans; [|exact P8]. by apply prefix_app_r.
Qed.

Lemma start_walk_ends n rpc stop target seen d :
  dht_ok d ->
  exists w, start_walk n rpc stop target seen d = Some w /\ walk_post stop target seen d w
    /\ let batch := pick_batch ∅ (Closest (d_rt d) target K) in
       batch <> [] ->
       (seen ++ round_values n rpc 0 batch) `prefix_of` w_seen w
       /\ forall v, v ∈ round_values n rpc 0 batch -> stop v = true -> is_Some (w_found w).
Proof.
  intros Hd. apply walk_ends; [done|set_solver|]. rewrite size_empty. unfold max_rounds. lia.
Qed.

Lemma round_values_elem n rpc round batch c v :
  net_ok n -> c ∈ batch -> value (rpc round c) = Some v -> v ∈ round_values n rpc round batch.
Proof.
  intros Hn Hc Hv. apply list_elem_of_omap. exists (rpc round c). split; [|done].
  apply list_elem_of_fmap_2. destruct (Hn batch) as [_ ->]. done.
Qed.

(** ** Lookup *)

Lemma insert_by_last target c l :
  Forall (fun x => closer target x c) l -> insert_by target c l = l ++ [c].
Proof.
  induction 1 as [|x l Hx _ IH]; simpl; [done|].
  destruct (DistanceLess target (ID c) (ID x)) eqn:E; [|by rewrite IH].
  apply DistanceLess_true in E. unfold closer in Hx. lia.
Qed.

(** Sorting what is sorted changes nothing. *)
Lemma SliceStable_sorted target l : StronglySorted (closer target) l -> SliceStable target l = l.
Proof.
  unfold SliceStable. intros Hs.
  enough (forall acc, StronglySorted (closer target) (acc ++ l) ->
    foldl (fun acc c => insert_by target c acc) acc l = acc ++ l) as H by (by apply (H [])).
  clear Hs. induction l as [|c l IH]; intros acc Hs; simpl; [by rewrite app_nil_r|].
  rewrite insert_by_last.
  - rewrite IH; [by rewrite <- app_assoc|]. by rewrite <- app_assoc.
  - apply Forall_forall. intros x Hx. by apply (StronglySorted_app_1_elem_of (closer target) acc (c :: l));
      [|done|left].
Qed.

Lemma Lookup_Closest n target d :
  dht_ok d ->
  exists d', Lookup n target d = Some (Closest (d_rt d') target K, d')
    /\ dht_ok d' /\ d_self d' = d_self d /\ ids (d_rt d) ⊆ ids (d_rt d')
    /\ d_store d' = d_store d /\ d_blocklist d' = d_blocklist d.
Proof.
  intros Hd. unfold Lookup.
  destruct (start_walk_ends n (fun r c => FindNode n r target c) (fun _ => false) target [] d Hd)
    as (w & -> & (P1 & P2 & P3 & P4 & P5 & P6 & P7 & _) & _).
  assert (w_found w = None) as Hnone by (destruct (w_found w); [by specialize (P7 _ eq_refl)|done]).
  specialize (P6 Hnone). exists (w_dht w). rewrite P6. split_and!; try done. f_equal. f_equal.
  destruct (Closest_sorted (d_rt (w_dht w)) target K) as (Hl & Hs & _).
  rewrite SliceStable_sorted by done.
  destruct (Nat.ltb_spec K (length (Closest (d_rt (w_dht w)) target K))); [lia|done].
Qed.

(** C14 (dht.go, [Lookup]; the loop it shares with [getInner] and
    [GetAllUnverified]): whatever the contacts answer and in whatever order, a
    lookup ends within [max_rounds] rounds, keeps every contact the table had and
    the table well formed, and returns at most [K] contacts in order of distance,
    none farther from the target than any contact left out of the table's. *)
Theorem lookup_converges (n : net) (target : NodeID) (d : DHT) :
  dht_ok d ->
  exists l d', Lookup n target d = Some (l, d')
    /\ dht_ok d' /\ ids (d_rt d) ⊆ ids (d_rt d')
    /\ length l = Nat.min K (Size (d_rt d')) /\ StronglySorted (closer target) l
    /\ (forall x, x ∈ All (d_rt d') -> x ∉ l -> Forall (fun c => closer target c x) l).
Proof.
  intros Hd. destruct (Lookup_Closest n target d Hd) as (d' & -> & Hd' & _ & Hi & _).
  exists (Closest (d_rt d') target K), d'.
  destruct (Closest_sorted (d_rt d') target K) as (Hl & Hs & rest & Hp & Hle).
  split_and!; try done. intros x Hx Hn. apply Forall_forall. intros c Hc. apply Hle; [done|].
  rewrite Hp, elem_of_app in Hx. tauto.
Qed.

(** ** Retrieval *)

Lemma Get_local_frame s now key s' v :
  Store.Get s now key = (s', v) -> v = data s !! Hex key /\ data s' = data s.
Proof. unfold Store.Get. destruct (data s !! Hex key); intros [= <- <-]; done. Qed.

Lemma Put_data e s key v : data (Put e s key v) !! Hex key = Some v.
Proof.
  unfold Put, put, put_locked, admitted. rewrite bool_decide_eq_false_2 by tauto. simpl.
  destruct (dataDir _); simpl; by rewrite lookup_insert_eq.
Qed.

Lemma ContentAddress_Equal v key : Equal (ContentAddress v) key = true <-> ContentAddress v = key.
Proof. by rewrite Equal_spec, bool_decide_eq_true. Qed.

Lemma search_value_spec e n d key :
  dht_ok d ->
  exists r d', search_value e n d key true = Some (r, d') /\ dht_ok d'
    /\ match r with
       | Ok v => ContentAddress v = key /\ data (d_store d') !! Hex key = Some v
       | Err _ => True
       end.
Proof.
  intros Hd. unfold search_value. destruct (_ =? 0)%nat; [by eexists _, _|].
  destruct (start_walk_ends n (fun r c => sendFindValue n r key c)
    (fun v => negb true || Equal (ContentAddress v) key) key [] d Hd)
    as (w & -> & (P1 & _ & _ & _ & _ & _ & P7 & _) & _).
  destruct (w_found w) as [v|]; [|by eexists _, _]. eexists _, _. split; [done|].
  split; [exact P1|]. split; [|apply Put_data]. apply ContentAddress_Equal, (P7 v eq_refl).
Qed.

(** (dht.go, [Get], [getInner], [IsBlocked]): retrieval by content address
    always ends, and is self-verifying: whatever the network answers and whatever
    is in the local store, a value it returns hashes to the key, the key is not
    blocked, and the node now holds the value itself; a blocked key is never
    found, and leaves the node as it was. *)
Theorem get_verified (e : put_env) (n : net) (d : DHT) (key : NodeID) :
  dht_ok d ->
  exists r d', Get e n d key = Some (r, d') /\ dht_ok d'
    /\ match r with
       | Ok v => ContentAddress v = key /\ data (d_store d') !! Hex key = Some v
                 /\ IsBlocked d key = false
       | Err _ => True
       end
    /\ (IsBlocked d key = true -> r = Err ErrNotFound /\ d' = d).
Proof.
  intros Hd. unfold Get, getInner. destruct (IsBlocked d key); [by eexists _, _|].
  destruct (Store.Get (d_store d) (pe_now e) key) as [s local] eqn:Eg.
  apply Get_local_frame in Eg as [-> Hs].
  destruct (search_value_spec e n (with_store d s) key Hd) as (r & d' & Hr & Hd' & Hpost).
  destruct (data (d_store d) !! Hex key) as [v|] eqn:Ev; simpl negb; cbn [orb].
  - destruct (Equal (ContentAddress v) key) eqn:Eq.
    + apply ContentAddress_Equal in Eq. eexists _, _. split; [done|]. split; [done|].
      split_and!; [done|simpl; by rewrite Hs|done|done].
    + exists r, d'. split_and!; [done|done|destruct r; naive_solver|done].
  - exists r, d'. split_and!; [done|done|destruct r; naive_solver|done].
Qed.

(** (dht.go, [Get], [sendFindValue]): one honest replica is enough.  If the key
    is not blocked and one of the first [Alpha] contacts the walk asks returns the
    value with that content address, [Get] returns a value with that content
    address, whatever the other contacts answer. *)
Theorem get_finds (e : put_env) (n : net) (d : DHT) (key : NodeID) (c : Contact) (v : bytes) :
  dht_ok d -> net_ok n -> IsBlocked d key = false ->
  c ∈ pick_batch ∅ (Closest (d_rt d) key K) ->
  value (sendFindValue n 0 key c) = Some v -> ContentAddress v = key ->
  exists v' d', Get e n d key = Some (Ok v', d') /\ ContentAddress v' = key.
Proof.
  intros Hd Hn Hb Hc Hv Hkey. unfold Get, getInner. rewrite Hb.
  destruct (Store.Get (d_store d) (pe_now e) key) as [s local] eqn:Eg.
  assert (exists v' d', search_value e n (with_store d s) key true = Some (Ok v', d')
    /\ ContentAddress v' = key) as Hsearch.
  { unfold search_value.
    destruct (Nat.eqb_spec (length (Closest (d_rt (with_store d s)) key K)) 0) as [El|_].
    { apply nil_length_inv in El. simpl in El. rewrite El in Hc. set_solver. }
    destruct (start_walk_ends n (fun r c => sendFindValue n r key c)
      (fun v => negb true || Equal (ContentAddress v) key) key [] (with_store d s) Hd)
      as (w & -> & (_ & _ & _ & _ & _ & _ & P7 & _) & Hfirst).
    destruct Hfirst as [_ Hfound]; [intros E; simpl in E; rewrite E in Hc; set_solver|].
    destruct (Hfound v) as [v' Hv']; [by eapply round_values_elem|by apply ContentAddress_Equal|].
    rewrite Hv'. eexists v', _. split; [done|]. apply ContentAddress_Equal, (P7 v' Hv'). }
  destruct local as [v0|]; [|done]. simpl negb. cbn [orb].
  destruct (Equal (ContentAddress v0) key) eqn:Eq; [|done].
  apply ContentAddress_Equal in Eq. eauto.
Qed.

Lemma GetAllUnverified_spec (e : put_env) (n : net) (d : DHT) (key : NodeID) :
  dht_ok d -> net_ok n ->
  exists r d', GetAllUnverified e n d key = Some (r, d') /\ dht_ok d'
    /\ match r with
       | Ok values =>
           (forall v, data (d_store d) !! Hex key = Some v -> v ∈ values)
           /\ (forall c v, c ∈ pick_batch ∅ (Closest (d_rt d) key K) ->
                 value (sendFindValue n 0 key c) = Some v -> v ∈ values)
       | Err _ =>
           data (d_store d) !! Hex key = None
           /\ (forall c, c ∈ pick_batch ∅ (Closest (d_rt d) key K) ->
                 value (sendFindValue n 0 key c) = None)
       end.
Proof.
  intros Hd Hn. unfold GetAllUnverified.
  destruct (Store.Get (d_store d) (pe_now e) key) as [s local] eqn:Eg.
  apply Get_local_frame in Eg as [-> Hs]. simpl d_rt.
  set (local := data (d_store d) !! Hex key).
  destruct ((length (Closest (d_rt d) key K) =? 0)%nat && bool_decide (option_list local = [])) eqn:Ee.
  { eexists _, _. split; [done|]. split; [done|]. apply andb_true_iff in Ee as [El Ee]. zbool.
    apply nil_length_inv in El. rewrite El. split; [by destruct local|]. set_solver. }
  destruct (start_walk_ends n (fun r c => sendFindValue n r key c) (fun _ => false) key
    (option_list local) (with_store d s) Hd) as (w & -> & (P1 & _ & _ & _ & _ & _ & _ & P8) & Hfirst).
  cbv zeta in Hfirst. simpl d_rt in Hfirst.
  assert (forall v, local = Some v -> v ∈ w_seen w) as Hloc.
  { intros v E. destruct P8 as [k ->]. rewrite E. simpl. by left. }
  assert (forall c v, c ∈ pick_batch ∅ (Closest (d_rt d) key K) ->
    value (sendFindValue n 0 key c) = Some v -> v ∈ w_seen w) as Hrem.
  { intros c v Hc Hv. destruct Hfirst as [[k Hk] _]; [intros E; rewrite E in Hc; set_solver|].
    rewrite Hk, !elem_of_app. left. right.
    by apply (round_values_elem n (fun r c => sendFindValue n r key c) 0 _ c). }
  eexists _, _. split; [done|]. split; [done|].
  destruct (bool_decide (w_seen w = [])) eqn:E; zbool.
  - rewrite E in Hloc, Hrem. split.
    + destruct local as [v|] eqn:El; [|done]. specialize (Hloc v eq_refl). set_solver.
    + intros c Hc. destruct (value (sendFindValue n 0 key c)) as [v|] eqn:Ev; [|done].
      specialize (Hrem c v Hc Ev). set_solver.
  - split; [intros v Hv|intros c v Hc Hv]; apply elem_of_list_to_set; eauto.
Qed.

(** (dht.go, [GetAllUnverified]): collecting the copies of a mutable record
    always ends; the result has the local copy, if there is one, and every copy
    the first [Alpha] contacts return, so none of them wins by answering first.
    The blocklist is not consulted. *)
Theorem get_all_collects (e : put_env) (n : net) (d : DHT) (key : NodeID) :
  dht_ok d -> net_ok n ->
  exists r d', GetAllUnverified e n d key = Some (r, d') /\ dht_ok d'
    /\ match r with
       | Ok values =>
           (forall v, data (d_store d) !! Hex key = Some v -> v ∈ values)
           /\ (forall c v, c ∈ pick_batch ∅ (Closest (d_rt d) key K) ->
                 value (sendFindValue n 0 key c) = Some v -> v ∈ values)
       | Err _ =>
           data (d_store d) !! Hex key = None
           /\ (forall c, c ∈ pick_batch ∅ (Closest (d_rt d) key K) ->
                 value (sendFindValue n 0 key c) = None)
       end.
Proof. apply GetAllUnverified_spec. Qed.

(** Every value a walk collects was there before or is some contact's answer. *)
Lemma walk_seen fuel n rpc stop target round queried shortlist seen d w v :
  walk fuel n rpc stop target round queried shortlist seen d = Some w -> v ∈ w_seen w ->
  v ∈ seen \/ exists r c, value (rpc r c) = Some v.
Proof.
  revert round queried shortlist seen d. induction fuel as [|fuel IH]; intros round queried shortlist seen d; [done|].
  cbn [walk]. case_bool_decide; [intros [= <-] Hv; by left|].
  set (batch := pick_batch queried shortlist). set (values := omap value (rpc round <$> app_order n batch)).
  assert (v ∈ seen ++ values -> v ∈ seen \/ exists r c, value (rpc r c) = Some v) as Hvs.
  { intros [?|Hv]%elem_of_app; [by left|right]. apply list_elem_of_omap in Hv as (x & Hx & Hval).
    apply list_elem_of_fmap in Hx as (c & -> & _). eauto. }
  destruct (list_find _ values) as [[i u]|]; [intros [= <-]; exact Hvs|].
  case_bool_decide; [intros [= <-]; exact Hvs|]. intros Hw Hv. by destruct (IH _ _ _ _ _ Hw Hv) as [?|?]; [apply Hvs|right].
Qed.

(** The value a walk ends with is one it has collected. *)
Lemma walk_found fuel n rpc stop target round queried shortlist seen d w :
  walk fuel n rpc stop target round queried shortlist seen d = Some w ->
  forall v, w_found w = Some v -> v ∈ w_seen w.
Proof.
  revert round queried shortlist seen d. induction fuel as [|fuel IH]; intros round queried shortlist seen d; [done|].
  cbn [walk]. case_bool_decide; [by intros [= <-]|].
  destruct (list_find _ _) as [[i u]|] eqn:Ef.
  - intros [= <-] v [= <-]. apply list_find_Some in Ef as (Hu & _ & _). apply list_elem_of_lookup_2 in Hu.
    cbn [w_seen]. apply elem_of_app. by right.
  - case_bool_decide; [by intros [= <-]|]. by apply IH.
Qed.

Lemma GetAllUnverified_elem e n d key vs d' v :
  GetAllUnverified e n d key = Some (Ok vs, d') -> v ∈ vs ->
  data (d_store d) !! Hex key = Some v \/ exists r c, value (sendFindValue n r key c) = Some v.
Proof.
  unfold GetAllUnverified. destruct (Store.Get (d_store d) (pe_now e) key) as [s local] eqn:Eg.
  apply Get_local_frame in Eg as [-> _]. destruct (_ && _); [discriminate|].
  destruct (start_walk _ _ _ _ _ _) as [w|] eqn:Ew; [|discriminate].
  case_bool_decide; [discriminate|]. intros E. injection E as <- _. rewrite elem_of_list_to_set. intros Hv.
  destruct (walk_seen _ _ _ _ _ _ _ _ _ _ _ _ Ew Hv) as [Hl|?]; [left|by right].
  destruct (data (d_store d) !! Hex key) as [u|]; [|by apply not_elem_of_nil in Hl].
  by apply list_elem_of_singleton in Hl as ->.
Qed.

(** Where a value [Get] returns comes from, and where it is afterwards. *)
Lemma Get_elem e n d key v d' :
  Get e n d key = Some (Ok v, d') ->
  data (d_store d') !! Hex key = Some v
  /\ (data (d_store d) !! Hex key = Some v \/ exists r c, value (sendFindValue n r key c) = Some v).
Proof.
  unfold Get, getInner. destruct (IsBlocked d key); [discriminate|].
  destruct (Store.Get (d_store d) (pe_now e) key) as [s local] eqn:Eg. apply Get_local_frame in Eg as [-> Hs].
  assert (search_value e n (with_store d s) key true = Some (Ok v, d') ->
    data (d_store d') !! Hex key = Some v
    /\ (data (d_store d) !! Hex key = Some v \/ exists r c, value (sendFindValue n r key c) = Some v)) as Hsearch.
  { unfold search_value. destruct (_ =? 0)%nat; [discriminate|].
    destruct (start_walk _ _ _ _ _ _) as [w|] eqn:Ew; [|discriminate].
    destruct (w_found w) as [u|] eqn:Eu; [|discriminate]. intros E. injection E as -> <-. split; [apply Put_data|right].
    destruct (walk_seen _ _ _ _ _ _ _ _ _ _ _ _ Ew (walk_found _ _ _ _ _ _ _ _ _ _ _ Ew _ Eu)) as [Hn|?]; [|done].
    by apply not_elem_of_nil in Hn. }
  destruct (data (d_store d) !! Hex key) as [u|] eqn:Ed; [|exact Hsearch].
  destruct (_ || _); [|exact Hsearch]. intros E. injection E as -> <-. cbn [with_store d_store]. rewrite Hs. auto.
Qed.

(** (dht.go, [getInner]; store.go, [MaxValueSize]): the size of a value is not capped
    where it is fetched.  A value above [MaxValueSize] that a peer serves is returned
    and kept, although [handleStore] and [StoreLocal] refuse it: what is cached this
    way can be neither stored again nor loaded after a restart. *)
Theorem oversized_value_cached (e : put_env) (n : net) (d : DHT) (c : Contact) (v : bytes) :
  let key := ContentAddress v in
  dht_ok d -> net_ok n -> IsBlocked d key = false -> data (d_store d) !! Hex key = None ->
  c ∈ pick_batch ∅ (Closest (d_rt d) key K) -> value (sendFindValue n 0 key c) = Some v ->
  (forall r c' w, value (sendFindValue n r key c') = Some w -> w = v) -> MaxValueSize < len v ->
  exists d', Get e n d key = Some (Ok v, d') /\ data (d_store d') !! Hex key = Some v
    /\ forall e', StoreLocal e' d' key v = Err ErrValueTooLarge.
Proof.
  intros key Hd Hn Hb Hnone Hc Hv Hone Hlen.
  destruct (get_finds e n d key c v Hd Hn Hb Hc Hv eq_refl) as (v' & d' & E & _).
  destruct (Get_elem e n d key v' d' E) as [Hdata [Hl|(r & c' & Hs)]]; [congruence|].
  rewrite (Hone r c' v' Hs) in *. exists d'. split_and!; [done..|]. intros e'. unfold StoreLocal.
  by rewrite (proj2 (Z.ltb_lt _ _) Hlen).
Qed.

(** ** Storing *)

Lemma store_all_count n round l key v d :
  (snd (store_all n round d l key v) <= length l)%nat.
Proof.
  revert d. induction l as [|c l IH]; intros d; simpl; [done|].
  destruct (sendStore n round d c key v) as [d1 ok]. specialize (IH d1).
  destruct (store_all n round d1 l key v) as [d2 k]. simpl in *. destruct ok; lia.
Qed.

Lemma sendStore_store n round d c key v : d_store (fst (sendStore n round d c key v)) = d_store d.
Proof.
  unfold sendStore, rt_update. repeat case_match; done.
Qed.

Lemma store_all_store n round l key v d : d_store (fst (store_all n round d l key v)) = d_store d.
Proof.
  revert d. induction l as [|c l IH]; intros d; simpl; [done|].
  pose proof (sendStore_store n round d c key v) as Hs.
  destruct (sendStore n round d c key v) as [d1 ok]. specialize (IH d1).
  destruct (store_all n round d1 l key v) as [d2 k]. simpl in *. congruence.
Qed.

Lemma sendStore_ok n round d c key v : dht_ok d -> dht_ok (fst (sendStore n round d c key v)).
Proof.
  intros Hd. unfold sendStore. destruct (requestContact _ _ _ _); [|done].
  destruct (negb _); [done|]. by apply rt_update_ok.
Qed.

Lemma store_all_ok n round l key v d :
  dht_ok d -> dht_ok (fst (store_all n round d l key v)).
Proof.
  revert d. induction l as [|c l IH]; intros d Hd; simpl; [done|].
  pose proof (sendStore_ok n round d c key v Hd) as Hs.
  destruct (sendStore n round d c key v) as [d1 ok]. specialize (IH d1 Hs).
  by destruct (store_all n round d1 l key v) as [d2 k].
Qed.

Lemma store_all_blocklist n round l key v d :
  d_blocklist (fst (store_all n round d l key v)) = d_blocklist d.
Proof.
  revert d. induction l as [|c l IH]; intros d; simpl; [done|].
  assert (d_blocklist (fst (sendStore n round d c key v)) = d_blocklist d) as Hs
    by (unfold sendStore, rt_update; by repeat case_match).
  destruct (sendStore n round d c key v) as [d1 ok]. specialize (IH d1).
  destruct (store_all n round d1 l key v) as [d2 k]. simpl in *. congruence.
Qed.

Lemma Store_spec (e : put_env) (n : net) (d : DHT) (key : NodeID) (v : bytes) :
  dht_ok d -> net_ok n ->
  match Store e n d key v with
  | Err err => err = ErrValueTooLarge /\ MaxValueSize < len v
  | Ok None => False
  | Ok (Some (d', replicas)) =>
      dht_ok d' /\ len v <= MaxValueSize /\ (replicas <= K)%nat
      /\ if IsBlocked d key then d' = d /\ replicas = 0%nat
         else data (d_store d') !! Hex key = Some v
  end.
Proof.
  intros Hd Hn. unfold Store, StoreLocal. destruct (Z.ltb_spec MaxValueSize (len v)); [done|].
  destruct (IsBlocked d key) eqn:Hb; [rewrite Hb; split_and!; done || unfold K; lia|].
  set (d1 := with_store d _). assert (IsBlocked d1 key = false) as Hb1 by done. rewrite Hb1.
  unfold Replicate. rewrite Hb1.
  destruct (Lookup_Closest n key d1 Hd) as (d2 & -> & Hd2 & _ & _ & Hst & _).
  set (targets := upd_order n _).
  pose proof (store_all_count n max_rounds targets key v d2) as Hc.
  pose proof (store_all_store n max_rounds targets key v d2) as Hs.
  pose proof (store_all_ok n max_rounds targets key v d2 Hd2) as Hok.
  destruct (store_all n max_rounds d2 targets key v) as [d3 k]. simpl in Hc, Hs, Hok. split_and!; [done|done| |].
  - etrans; [exact Hc|]. unfold targets. destruct (Hn (List.filter
      (fun c => negb (Equal (ID c) (d_self d2))) (Closest (d_rt d2) key K))) as [-> _].
    etrans; [apply filter_length_le|]. destruct (Closest_sorted (d_rt d2) key K) as (-> & _). lia.
  - rewrite Hs, Hst. apply Put_data.
Qed.

(** (dht.go, [Store], [StoreLocal], [Replicate]): [Store] fails exactly for
    values over the size limit; for a blocked key it reports no replicas and
    changes nothing; otherwise it always returns, the value is in the local
    store afterwards, the node is well formed, and at most [K] replicas are
    reported. *)
Theorem store_publishes (e : put_env) (n : net) (d : DHT) (key : NodeID) (v : bytes) :
  dht_ok d -> net_ok n ->
  match Store e n d key v with
  | Err err => err = ErrValueTooLarge /\ MaxValueSize < len v
  | Ok None => False
  | Ok (Some (d', replicas)) =>
      dht_ok d' /\ len v <= MaxValueSize /\ (replicas <= K)%nat
      /\ if IsBlocked d key then d' = d /\ replicas = 0%nat
         else data (d_store d') !! Hex key = Some v
  end.
Proof. apply Store_spec. Qed.

(** ** Concrete runs *)

Definition content : bytes := bs "data".

Definition replica : Contact := MkContact (key_of 9) (bs "10.0.0.9:7000") [] 0.

(** A node that knows one contact, and a network in which it serves [content]. *)
Definition carol : DHT :=
  MkDHT bob_id (fst (Update (NewRoutingTable bob_id) replica 1)) (bounded_store 0) None None ∅ [].

Definition serving : net :=
  MkNet (fun _ _ _ _ => Some (mk_message (bs "dht_value") (Marshal (MkValue (b64_encode true content)))))
    (fun l => l) (fun l => l) (fun _ => 5).

Lemma carol_ok : dht_ok carol.
Proof.
  pose proof (Update_wf (NewRoutingTable bob_id) replica 1) as HU.
  unfold carol, dht_ok. cbn [d_rt d_self].
  destruct (Update (NewRoutingTable bob_id) replica 1) as [rt t]. simpl.
  by destruct HU as (? & ? & _); [apply NewRoutingTable_wf|].
Qed.

Lemma serving_ok : net_ok serving.
Proof. done. Qed.

Lemma replica_served : value (sendFindValue serving 0 (ContentAddress content) replica) = Some content.
Proof. by vm_compute. Qed.

Lemma replica_asked_b :
  bool_decide ((fun c => (Hex (ID c), Address c)) <$>
    pick_batch ∅ (Closest (d_rt carol) (ContentAddress content) K)
    = [(Hex (key_of 9), bs "10.0.0.9:7000")]) = true.
Proof. by vm_compute. Qed.

Lemma replica_asked :
  exists c, c ∈ pick_batch ∅ (Closest (d_rt carol) (ContentAddress content) K)
    /\ Hex (ID c) = Hex (key_of 9) /\ Address c = bs "10.0.0.9:7000".
Proof.
  pose proof (bool_decide_eq_true_1 _ replica_asked_b) as E.
  destruct (pick_batch ∅ (Closest (d_rt carol) (ContentAddress content) K)) as [|c l]; [done|].
  exists c. split; [by left|]. cbn [fmap list_fmap] in E.
  split; [exact (f_equal (fun x => fst (default ([], []) (head x))) E)|].
  exact (f_equal (fun x => snd (default ([], []) (head x))) E).
Qed.

Lemma asked_served c :
  Address c = bs "10.0.0.9:7000" ->
  value (sendFindValue serving 0 (ContentAddress content) c) = Some content.
Proof.
  intros Ha. unfold sendFindValue, requestContact, AllAddresses. rewrite Ha.
  rewrite (bool_decide_eq_false_2 (bs "10.0.0.9:7000" = [])) by done. cbn [app try_addresses].
  exact replica_served.
Qed.

Lemma lookup_converges_witness :
  exists l d', Lookup serving (key_of 3) carol = Some (l, d') /\ dht_ok d'.
Proof.
  destruct (lookup_converges serving (key_of 3) carol carol_ok) as (l & d' & H1 & H2 & _).
  exists l, d'. exact (conj H1 H2).
Defined.

Lemma get_verified_witness :
  exists r d', Get (at_time 6) serving carol (ContentAddress content) = Some (r, d') /\ dht_ok d'.
Proof.
  destruct (get_verified (at_time 6) serving carol (ContentAddress content) carol_ok)
    as (r & d' & H1 & H2 & _). exists r, d'. exact (conj H1 H2).
Defined.

Lemma get_finds_witness :
  exists v d', Get (at_time 6) serving carol (ContentAddress content) = Some (Ok v, d')
    /\ ContentAddress v = ContentAddress content.
Proof.
  destruct replica_asked as (c & Hc & _ & Ha).
  exact (get_finds (at_time 6) serving carol (ContentAddress content) c content carol_ok serving_ok
    eq_refl Hc (asked_served c Ha) eq_refl).
Defined.

Lemma get_all_collects_witness :
  exists r d', GetAllUnverified (at_time 6) serving carol (ContentAddress content) = Some (r, d')
    /\ dht_ok d'.
Proof.
  destruct (get_all_collects (at_time 6) serving carol (ContentAddress content) carol_ok serving_ok)
    as (r & d' & H1 & H2 & _). exists r, d'. exact (conj H1 H2).
Defined.

Lemma store_publishes_witness :
  match Store (at_time 6) serving carol (key_of 4) content with
  | Err err => err = ErrValueTooLarge /\ MaxValueSize < len content
  | Ok None => False
  | Ok (Some (d', replicas)) =>
      dht_ok d' /\ len content <= MaxValueSize /\ (replicas <= K)%nat
      /\ if IsBlocked carol (key_of 4) then d' = carol /\ replicas = 0%nat
         else data (d_store d') !! Hex (key_of 4) = Some content
  end.
Proof. exact (store_publishes (at_time 6) serving carol (key_of 4) content carol_ok serving_ok). Defined.
