(* ===== verification/Walking.v ===== *)
(** * Walks in a node that goes on working (core/dht/dht.go)

    Lookup.v runs a walk on its own.  Here [getInner] and [Lookup] are goroutines among
    others: between any two accesses to the routing table or the store the rest of
    the program may change the node in any way that keeps it well formed, and the
    goroutines of a round, one for each contact that is asked, get their answers,
    refresh the contact and take the mutex in any order.

    Whatever happens in between, a call comes to an end, keeps the node well formed,
    and a verified value hashes to the key ([get_among_others]).  The functions of Lookup.v
    are the runs in which nothing else happens ([getInner_runs]). *)

From S2P Require Import Prelude GoStrings Encoding Json Sha256 Crypto Peer Revoke NodeId.
From S2P Require Import Blocklist Store Routing DhtWire Dht Lookup.
From Stdlib Require Import Wellfounded Relation_Operators.

(** ** Answers *)

(** What [sendFindValue] and [FindNode] make of the outcome of [requestContact]. *)
Definition find_value_result (outcome : option Message) : rpc_result :=
  match outcome with
  | None => rpc_failed
  | Some reply =>
      if bool_decide (m_Type reply = bs "dht_value") then MkRpc true (value_of_reply reply) []
      else if bool_decide (m_Type reply = bs "dht_nodes")
      then MkRpc true None (default [] (nodes_of_reply reply))
      else MkRpc true None []
  end.

Definition find_node_result (outcome : option Message) : rpc_result :=
  match outcome with
  | None => rpc_failed
  | Some reply =>
      if negb (bool_decide (m_Type reply = bs "dht_nodes")) then rpc_failed else
      match nodes_of_reply reply with
      | None => rpc_failed
      | Some out => MkRpc true None out
      end
  end.

(** ** The loop *)

Inductive walk_phase :=
| WLoop (queried : gset bytes) (shortlist : list Contact) (seen : list bytes)
| WRound (queried : gset bytes) (shortlist : list Contact) (seen : list bytes)
    (asking : list Contact)          (* goroutines that wait for an answer *)
    (answered : list rpc_result)     (* goroutines that wait for the mutex *)
    (found : option bytes) (learned : list Contact)
| WHint (queried : gset bytes) (shortlist : list Contact) (seen : list bytes) (learned : list Contact)
| WEnd (found : option bytes) (seen : list bytes) (shortlist : list Contact).

(** A goroutine that holds the mutex. *)
Definition first_found (stop : bytes -> bool) (found : option bytes) (r : rpc_result) : option bytes :=
  match found, value r with
  | Some v, _ => Some v
  | None, Some v => if stop v then Some v else None
  | None, None => None
  end.

Definition hint_one (d : DHT) (c : Contact) : DHT :=
  if Equal (ID c) (d_self d) then d else with_rt d (Hint (d_rt d) c) [].

Inductive walk_step (result : option Message -> rpc_result) (stop : bytes -> bool) (target : NodeID)
  : DHT * walk_phase -> DHT * walk_phase -> Prop :=
| ws_pick d q sl seen :
    pick_batch q sl <> [] ->
    walk_step result stop target (d, WLoop q sl seen)
      (d, WRound (now_queried (pick_batch q sl) q) sl seen (pick_batch q sl) [] None [])
| ws_exhausted d q sl seen :
    pick_batch q sl = [] -> walk_step result stop target (d, WLoop q sl seen) (d, WEnd None seen sl)
| ws_answer d q sl seen l1 c l2 answered found learned outcome now :
    let r := result outcome in
    walk_step result stop target (d, WRound q sl seen (l1 ++ c :: l2) answered found learned)
      (if updates r then rt_update d c now else d, WRound q sl seen (l1 ++ l2) (r :: answered) found learned)
| ws_merge d q sl seen asking l1 r l2 found learned :
    walk_step result stop target (d, WRound q sl seen asking (l1 ++ r :: l2) found learned)
      (d, WRound q sl (seen ++ option_list (value r)) asking (l1 ++ l2) (first_found stop found r) (learned ++ nodes r))
| ws_found d q sl seen v learned :
    walk_step result stop target (d, WRound q sl seen [] [] (Some v) learned) (d, WEnd (Some v) seen sl)
| ws_wait d q sl seen learned :
    walk_step result stop target (d, WRound q sl seen [] [] None learned) (d, WHint q sl seen learned)
| ws_hint d q sl seen c learned :
    walk_step result stop target (d, WHint q sl seen (c :: learned)) (hint_one d c, WHint q sl seen learned)
| ws_converged d q sl seen :
    closestHex target sl = closestHex target (Closest (d_rt d) target K) ->
    walk_step result stop target (d, WHint q sl seen []) (d, WEnd None seen (Closest (d_rt d) target K))
| ws_again d q sl seen :
    closestHex target sl <> closestHex target (Closest (d_rt d) target K) ->
    walk_step result stop target (d, WHint q sl seen []) (d, WLoop q (Closest (d_rt d) target K) seen).

(** ** [getInner] *)

Inductive get_phase :=
| GBegin | GLocal | GTable | GWalk (w : walk_phase) | GCache (v : bytes) | GReturned (r : result dht_error bytes).

Definition accepts (key : NodeID) (verify : bool) (v : bytes) : bool := negb verify || Equal (ContentAddress v) key.

Inductive get_step (key : NodeID) (verify : bool) : DHT * get_phase -> DHT * get_phase -> Prop :=
| gs_blocked d :
    IsBlocked d key = true -> get_step key verify (d, GBegin) (d, GReturned (Err ErrNotFound))
| gs_clear d :
    IsBlocked d key = false -> get_step key verify (d, GBegin) (d, GLocal)
| gs_hit d now s v :
    Store.Get (d_store d) now key = (s, Some v) -> accepts key verify v = true ->
    get_step key verify (d, GLocal) (with_store d s, GReturned (Ok v))
| gs_tampered d now s v :
    Store.Get (d_store d) now key = (s, Some v) -> accepts key verify v = false ->
    get_step key verify (d, GLocal) (with_store d s, GTable)
| gs_miss d now s :
    Store.Get (d_store d) now key = (s, None) -> get_step key verify (d, GLocal) (with_store d s, GTable)
| gs_empty d :
    length (Closest (d_rt d) key K) = 0%nat -> get_step key verify (d, GTable) (d, GReturned (Err ErrTableEmpty))
| gs_start d :
    length (Closest (d_rt d) key K) <> 0%nat ->
    get_step key verify (d, GTable) (d, GWalk (WLoop ∅ (Closest (d_rt d) key K) []))
| gs_walk d w d' w' :
    walk_step find_value_result (accepts key verify) key (d, w) (d', w') ->
    get_step key verify (d, GWalk w) (d', GWalk w')
| gs_found d v seen sl :
    get_step key verify (d, GWalk (WEnd (Some v) seen sl)) (d, if verify then GCache v else GReturned (Ok v))
| gs_none d seen sl :
    get_step key verify (d, GWalk (WEnd None seen sl)) (d, GReturned (Err ErrNotFound))
| gs_cache d e v :
    get_step key verify (d, GCache v) (with_store d (Put e (d_store d) key v), GReturned (Ok v)).

(** ** [Lookup] *)

Inductive lookup_phase := LBegin | LWalk (w : walk_phase) | LReturned (contacts : list Contact).

Inductive lookup_step (target : NodeID) : DHT * lookup_phase -> DHT * lookup_phase -> Prop :=
| ls_start d : lookup_step target (d, LBegin) (d, LWalk (WLoop ∅ (Closest (d_rt d) target K) []))
| ls_walk d w d' w' :
    walk_step find_node_result (fun _ => false) target (d, w) (d', w') ->
    lookup_step target (d, LWalk w) (d', LWalk w')
| ls_return d found seen sl :
    let shortlist := SliceStable target sl in
    lookup_step target (d, LWalk (WEnd found seen sl))
      (d, LReturned (if (K <? length shortlist)%nat then take K shortlist else shortlist)).

(** ** The rest of the program *)

Definition others (d d' : DHT) : Prop := (dht_ok d -> dht_ok d') /\ d_self d' = d_self d.

Section Among.
Context {P : Type} (own : relation (DHT * P)).

(** A step of the call, or of anything else. *)
Inductive among : relation (DHT * P) :=
| am_own s s' : own s s' -> among s s'
| am_other d d' p : others d d' -> among (d, p) (d', p).

(** A step of the call after any number of steps of the others. *)
Definition next (s s' : DHT * P) : Prop := exists d, others s.1 d /\ own (d, s.2) s'.

(** Steps that leave less to do, whatever the node is, come to an end. *)
Lemma next_wf {A} (less : relation A) (left : P -> A) :
  well_founded less -> (forall s s', own s s' -> less (left s'.2) (left s.2)) -> well_founded (flip next).
Proof.
  intros Hwf Hless. apply (wf_incl _ _ (fun s' s => less (left s'.2) (left s.2))).
  - intros s' s (d & _ & Hs). exact (Hless _ _ Hs).
  - apply (wf_inverse_image _ _ less (fun s => left s.2)), Hwf.
Qed.

(** A call that can go on until it is done can be completed. *)
Lemma finishes (done : P -> Prop) s :
  well_founded (flip next) -> (forall s, done s.2 \/ exists s', own s s') -> exists s', rtc own s s' /\ done s'.2.
Proof.
  intros Hwf Hgo. induction (Hwf s) as [s _ IH]. destruct (Hgo s) as [?|[s' Hs]]; [by exists s|].
  destruct (IH s') as (s2 & Hr & Hd); [exists s.1; split; [by split|by destruct s]|].
  exists s2. split; [by eapply rtc_l|done].
Qed.

(** What the call keeps and the others do not touch. *)
Lemma among_keeps (I : P -> Prop) s s' :
  (forall s s', own s s' -> others s.1 s'.1 /\ (I s.2 -> I s'.2)) ->
  rtc among s s' -> dht_ok s.1 -> I s.2 -> dht_ok s'.1 /\ I s'.2.
Proof.
  intros Hown. induction 1 as [|s1 s2 s3 Hs _ IH]; [done|]. intros Hd Hi.
  destruct Hs as [s1 s2 Hs|d d' p [Ho _]].
  - apply Hown in Hs as [[Ho _] Hp]. apply IH; auto.
  - apply IH; [by apply Ho|done].
Qed.

End Among.

(** * Facts *)

(** ** A call ends *)

(** There are finitely many identifiers. *)
Lemma ids_finite : exists X : gset bytes, forall id : NodeID, Hex id ∈ X.
Proof.
  assert (exists l : list byte, forall b, b ∈ l) as [bytes_of Hb].
  { exists (of_u8 <$> seqZ 0 256). intros b. rewrite <- (of_u8_u8 b). apply list_elem_of_fmap_2.
    apply elem_of_seqZ. pose proof (u8_range b). lia. }
  assert (forall n, exists l : list bytes, forall x, length x = n -> x ∈ l) as Hall.
  { induction n as [|n [l Hl]].
    - exists [[]]. intros x ->%nil_length_inv. by left.
    - exists (b ← bytes_of; cons b <$> l). intros [|b x] Hx; [done|]. apply list_elem_of_bind. exists b.
      split; [|done]. apply list_elem_of_fmap_2, Hl. cbn in Hx. lia. }
  destruct (Hall 64%nat) as [l Hl]. exists (list_to_set l). intros id.
  apply elem_of_list_to_set, Hl, Hex_length.
Qed.

(** What a walk still has to do, whatever the node is: the contacts it can ask, the part
    of the loop it is in, and what is left of that part. *)
Definition walk_left (X : gset bytes) (w : walk_phase) : (nat * nat) * nat :=
  let room q := S (size X - size (q ∩ X)) in
  match w with
  | WRound q _ _ asking answered _ _ => ((room q, 4), 2 * length asking + length answered)
  | WHint q _ _ learned => ((room q, 3), length learned)
  | WLoop q _ _ => ((room q, 2), 0)
  | WEnd _ _ _ => ((0, 1), 0)
  end%nat.

Definition get_left (X : gset bytes) (p : get_phase) : (nat * nat) * nat :=
  match p with
  | GBegin => ((S (size X), 7), 0)
  | GLocal => ((S (size X), 6), 0)
  | GTable => ((S (size X), 5), 0)
  | GWalk w => walk_left X w
  | GCache _ => ((0, 0), 1)
  | GReturned _ => ((0, 0), 0)
  end%nat.

Definition lookup_left (X : gset bytes) (p : lookup_phase) : (nat * nat) * nat :=
  match p with LBegin => ((S (size X), 5), 0) | LWalk w => walk_left X w | LReturned _ => ((0, 0), 0) end%nat.

Definition less_left : relation ((nat * nat) * nat) := slexprod _ _ (slexprod _ _ lt lt) lt.

Lemma less_left_wf : well_founded less_left.
Proof. apply wf_slexprod; [apply wf_slexprod|]; apply lt_wf. Qed.

(** A round asks somebody who was not asked. *)
Lemma now_queried_room (X q : gset bytes) sl :
  (forall id : NodeID, Hex id ∈ X) -> pick_batch q sl <> [] ->
  (S (size X - size (now_queried (pick_batch q sl) q ∩ X)) < S (size X - size (q ∩ X)))%nat.
Proof.
  intros HX Hne. destruct (pick_batch q sl) as [|c batch] eqn:E; [done|].
  assert (Hex (ID c) ∉ q) as Hc by (apply (pick_batch_elem q sl); rewrite E; by left).
  assert (size (q ∩ X) < size (now_queried (c :: batch) q ∩ X))%nat as Hlt.
  { apply subset_size. split; [unfold now_queried; set_solver|]. intros Hs.
    specialize (Hs (Hex (ID c))). rewrite !elem_of_intersection, now_queried_elem in Hs.
    destruct Hs as [? _]; [split; [left; exists c; split; [by left|done]|apply HX]|done]. }
  assert (size (now_queried (c :: batch) q ∩ X) <= size X)%nat by (apply subseteq_size; set_solver). lia.
Qed.

Ltac less_by tac :=
  solve [apply left_slex; apply right_slex; tac | apply right_slex; tac | apply left_slex; apply left_slex; tac].

Lemma walk_step_less X result stop target d w d' w' :
  (forall id : NodeID, Hex id ∈ X) -> walk_step result stop target (d, w) (d', w') ->
  less_left (walk_left X w') (walk_left X w).
Proof.
  intros HX Hw. unfold less_left. inversion Hw; subst; cbn [walk_left]; rewrite ?length_app; cbn [length]; try less_by lia.
  apply left_slex, left_slex, (now_queried_room X q sl HX). done.
Qed.

Lemma start_left (X : gset bytes) : S (size X - size (∅ ∩ X)) = S (size X).
Proof. rewrite (intersection_empty_l_L X), size_empty. lia. Qed.

Lemma get_step_less X key verify s s' :
  (forall id : NodeID, Hex id ∈ X) -> get_step key verify s s' -> less_left (get_left X s'.2) (get_left X s.2).
Proof.
  intros HX Hs. destruct Hs as [| | | | | | |d w d' w' Hw| | |]; cbn [snd get_left walk_left]; unfold less_left;
    try less_by lia.
  - rewrite start_left. less_by lia.
  - by eapply walk_step_less.
  - destruct verify; less_by lia.
Qed.

Lemma lookup_step_less X target s s' :
  (forall id : NodeID, Hex id ∈ X) -> lookup_step target s s' -> less_left (lookup_left X s'.2) (lookup_left X s.2).
Proof.
  intros HX Hs. destruct Hs as [|d w d' w' Hw|]; cbn [snd lookup_left walk_left]; unfold less_left; [| |less_by lia].
  - rewrite start_left. less_by lia.
  - by eapply walk_step_less.
Qed.

Lemma get_ends key verify : well_founded (flip (next (get_step key verify))).
Proof.
  destruct ids_finite as [X HX]. apply (next_wf _ less_left (get_left X) less_left_wf).
  intros s s'. by apply get_step_less.
Qed.

Lemma lookup_ends target : well_founded (flip (next (lookup_step target))).
Proof.
  destruct ids_finite as [X HX]. apply (next_wf _ less_left (lookup_left X) less_left_wf).
  intros s s'. by apply lookup_step_less.
Qed.

Lemma walk_goes_on result stop target d w :
  (exists found seen sl, w = WEnd found seen sl) \/ exists d' w', walk_step result stop target (d, w) (d', w').
Proof.
  destruct w as [q sl seen|q sl seen [|c asking] [|r answered] found learned|q sl seen [|c learned]|found seen sl];
    [right..|left; eauto].
  - destruct (decide (pick_batch q sl = [])); eexists _, _; [by apply ws_exhausted|by apply ws_pick].
  - destruct found; eexists _, _; [apply ws_found|apply ws_wait].
  - eexists _, _. apply (ws_merge _ _ _ d q sl seen [] []).
  - eexists _, _. apply (ws_answer _ _ _ d q sl seen [] c asking [] found learned None 0).
  - eexists _, _. apply (ws_answer _ _ _ d q sl seen [] c asking (r :: answered) found learned None 0).
  - destruct (decide (closestHex target sl = closestHex target (Closest (d_rt d) target K)));
      eexists _, _; [by apply ws_converged|by apply ws_again].
  - eexists _, _. apply ws_hint.
Qed.

Lemma get_goes_on key verify s : (exists r, s.2 = GReturned r) \/ exists s', get_step key verify s s'.
Proof.
  destruct s as [d [| | |w|v|r]]; cbn [snd]; [right..|left; eauto].
  - destruct (IsBlocked d key) eqn:E; eexists; [by apply gs_blocked|by apply gs_clear].
  - destruct (Store.Get (d_store d) 0 key) as [s [v|]] eqn:E; [|eexists; by eapply gs_miss].
    destruct (accepts key verify v) eqn:Ea; eexists; [by eapply gs_hit|by eapply gs_tampered].
  - destruct (decide (length (Closest (d_rt d) key K) = 0%nat)); eexists; [by apply gs_empty|by apply gs_start].
  - destruct (walk_goes_on find_value_result (accepts key verify) key d w) as [([v|] & seen & sl & ->)|(d' & w' & Hw)];
      eexists; [apply gs_found|apply gs_none|by apply gs_walk].
  - eexists. apply (gs_cache key verify d (MkPutEnv 0 lru_order Renamed [])).
Qed.

Lemma lookup_goes_on target s : (exists l, s.2 = LReturned l) \/ exists s', lookup_step target s s'.
Proof.
  destruct s as [d [|w|l]]; cbn [snd]; [right..|left; eauto].
  - eexists. apply ls_start.
  - destruct (walk_goes_on find_node_result (fun _ => false) target d w) as [(v & seen & sl & ->)|(d' & w' & Hw)];
      eexists; [apply ls_return|by apply ls_walk].
Qed.

(** ** What a call returns *)

Definition walk_good (stop : bytes -> bool) (w : walk_phase) : Prop :=
  match w with
  | WRound _ _ _ _ _ (Some v) _ | WEnd (Some v) _ _ => stop v = true
  | _ => True
  end.

Definition get_good (key : NodeID) (verify : bool) (p : get_phase) : Prop :=
  match p with
  | GWalk w => walk_good (accepts key verify) w
  | GCache v | GReturned (Ok v) => accepts key verify v = true
  | _ => True
  end.

Lemma hint_one_others d c : others d (hint_one d c).
Proof.
  split; [intros Hd; exact (proj1 (hint_all_ok [c] d Hd))|].
  unfold hint_one. by destruct (Equal (ID c) (d_self d)).
Qed.

Lemma update_others d c now : others d (rt_update d c now).
Proof.
  split; [intros Hd; by apply rt_update_ok|]. unfold rt_update. by destruct (Update (d_rt d) c now).
Qed.

Lemma walk_step_good result stop target d w d' w' :
  walk_step result stop target (d, w) (d', w') ->
  others d d' /\ d_store d' = d_store d /\ (walk_good stop w -> walk_good stop w').
Proof.
  intros Hs. inversion Hs as [| |? ? ? ? ? ? ? ? ? ? ? ? r|? ? ? ? ? ? r ? found| | | | |]; subst; try (by split_and!).
  - destruct (updates r); [|by split_and!]. split_and!; [apply update_others| |done].
    unfold rt_update. by destruct (Update _ _ _).
  - split_and!; [done..|]. unfold first_found. destruct found as [v|]; [done|]. destruct (value r) as [v|]; [|done].
    by destruct (stop v) eqn:E.
  - split_and!; [apply hint_one_others| |done]. unfold hint_one. by destruct (Equal _ _).
Qed.

Lemma get_step_good key verify s s' :
  get_step key verify s s' -> others s.1 s'.1 /\ (get_good key verify s.2 -> get_good key verify s'.2).
Proof.
  intros [| | | | | | |d w d' w' Hw| | |]; cbn [fst snd get_good]; try (by split).
  - by apply walk_step_good in Hw as (? & _ & ?).
  - by destruct verify.
Qed.

(** Who returns a verified value holds it. *)
Lemma get_step_holds key d p d' v :
  get_step key true (d, p) (d', GReturned (Ok v)) -> data (d_store d') !! Hex key = Some v.
Proof.
  intros Hs. inversion Hs as [| |? ? s ? Hg| | | | | | | |]; subst.
  - apply Get_local_frame in Hg as [-> Hd]. cbn [with_store d_store]. by rewrite Hd.
  - apply Put_data.
Qed.

Lemma get_keeps key verify d s :
  dht_ok d -> rtc (among (get_step key verify)) (d, GBegin) s ->
  dht_ok s.1 /\ forall v, s.2 = GReturned (Ok v) -> verify = true -> ContentAddress v = key.
Proof.
  intros Hd Hr.
  destruct (among_keeps _ (get_good key verify) _ _ (get_step_good key verify) Hr Hd I) as [Hok Hg].
  split; [done|]. intros v E ->. rewrite E in Hg. by apply ContentAddress_Equal.
Qed.

Lemma get_completes key verify s : exists d' r, rtc (get_step key verify) s (d', GReturned r).
Proof.
  destruct (finishes _ (fun p => exists r, p = GReturned r) s (get_ends key verify) (get_goes_on key verify))
    as ([d' p] & Hrun & r & E). cbn in E. subst p. by exists d', r.
Qed.

Lemma among_own {P} (own : relation (DHT * P)) s s' : rtc own s s' -> rtc (among own) s s'.
Proof. apply rtc_subrel. intros x y. apply am_own. Qed.

(** C2 (dht.go, [getInner], [Get], [GetUnverified]): a call of [Get] among the other
    goroutines of the node.  Whatever the rest of the program does to the node between
    its steps, whatever the contacts answer and in whatever order the goroutines of a
    round go on: the node stays well formed; a call that finds its key blocked when it
    begins returns not found; a value a verified call returns hashes to the key, and
    the node holds it at that moment; and the call ends, for it cannot go on for
    ever, however the others keep changing the table, and as long as it has not
    returned it can go on and be completed. *)
Theorem get_among_others (key : NodeID) (verify : bool) (d : DHT) (s : DHT * get_phase) :
  dht_ok d -> rtc (among (get_step key verify)) (d, GBegin) s ->
  dht_ok s.1
  /\ (IsBlocked d key = true -> forall s', get_step key verify (d, GBegin) s' -> s' = (d, GReturned (Err ErrNotFound)))
  /\ (forall v, s.2 = GReturned (Ok v) -> verify = true -> ContentAddress v = key)
  /\ (forall d' v, get_step key verify s (d', GReturned (Ok v)) -> verify = true ->
        data (d_store d') !! Hex key = Some v)
  /\ Acc (flip (next (get_step key verify))) s
  /\ exists d' r, rtc (get_step key verify) s (d', GReturned r).
Proof.
  intros Hd Hr. destruct (get_keeps key verify d s Hd Hr) as [Hok Hv]. split_and!; [done| |done| | |].
  - intros Hb s' Hs. inversion Hs; [done|congruence].
  - intros d' v Hs ->. destruct s. by eapply get_step_holds.
  - apply get_ends.
  - apply get_completes.
Qed.

(** The shortlist of a walk is what [Closest] gave. *)
Definition ordered (target : NodeID) (l : list Contact) : Prop :=
  StronglySorted (closer target) l /\ (length l <= K)%nat.

Lemma Closest_ordered rt target : ordered target (Closest rt target K).
Proof. destruct (Closest_sorted rt target K) as (Hl & Hs & _). split; [done|lia]. Qed.

Definition walk_ordered (target : NodeID) (w : walk_phase) : Prop :=
  match w with
  | WLoop _ sl _ | WRound _ sl _ _ _ _ _ | WHint _ sl _ _ | WEnd _ _ sl => ordered target sl
  end.

Definition lookup_good (target : NodeID) (p : lookup_phase) : Prop :=
  match p with LBegin => True | LWalk w => walk_ordered target w | LReturned l => ordered target l end.

Lemma lookup_step_good target s s' :
  lookup_step target s s' -> others s.1 s'.1 /\ (lookup_good target s.2 -> lookup_good target s'.2).
Proof.
  intros [|d w d' w' Hw|d found seen sl shortlist]; cbn [fst snd lookup_good].
  - split; [done|]. intros _. apply Closest_ordered.
  - split; [by apply walk_step_good in Hw as (? & _)|]. inversion Hw; subst; cbn [walk_ordered]; try done;
      intros _; apply Closest_ordered.
  - split; [done|]. intros [Hs Hl]. unfold shortlist. rewrite SliceStable_sorted by done.
    destruct (Nat.ltb_spec K (length sl)); [lia|done].
Qed.

(** (dht.go, [Lookup], [FindNode]): a lookup among the other goroutines of the node.
    Whatever the rest of the program does in between and whatever the contacts
    answer, it ends, keeps the node well formed and returns at most [K] contacts in
    the order of their distance. *)
Theorem lookup_among_others (target : NodeID) (d : DHT) (s : DHT * lookup_phase) :
  dht_ok d -> rtc (among (lookup_step target)) (d, LBegin) s ->
  dht_ok s.1
  /\ (forall l, s.2 = LReturned l -> StronglySorted (closer target) l /\ (length l <= K)%nat)
  /\ Acc (flip (next (lookup_step target))) s
  /\ exists d' l, rtc (lookup_step target) s (d', LReturned l).
Proof.
  intros Hd Hr.
  destruct (among_keeps _ (lookup_good target) _ _ (lookup_step_good target) Hr Hd I) as [Hok Hg]. split_and!.
  - done.
  - intros l E. by rewrite E in Hg.
  - apply lookup_ends.
  - destruct (finishes _ (fun p => exists l, p = LReturned l) s (lookup_ends target) (lookup_goes_on target))
      as ([d' p] & Hrun & l & E). cbn in E. subst p. by exists d', l.
Qed.

(** ** The calls of Lookup.v are runs *)

Section Sequential.
Context (n : net) (result : option Message -> rpc_result) (stop : bytes -> bool) (target : NodeID).
Context (rpc : nat -> Contact -> rpc_result) (Hn : net_ok n).
Hypothesis rpc_outcome : forall r c, exists o, rpc r c = result o.

Local Abbreviation steps := (rtc (walk_step result stop target)).

(** The goroutines of a round are answered in any order. *)
Lemma answers_run round l : forall asking d q sl seen answered found learned,
  l ≡ₚ asking ->
  exists answered', answered' ≡ₚ (rpc round <$> l) ++ answered
    /\ steps (d, WRound q sl seen asking answered found learned)
         (foldl (fun d c => if updates (rpc round c) then rt_update d c (clock n round) else d) d l,
          WRound q sl seen [] answered' found learned).
Proof.
  induction l as [|c l IH]; intros asking d q sl seen answered found learned Hl.
  { apply Permutation_nil in Hl as ->. by exists answered. }
  destruct (list_elem_of_split asking c) as (l1 & l2 & ->); [rewrite <- Hl; by left|].
  rewrite <- Permutation_middle in Hl. apply Permutation_cons_inv in Hl.
  destruct (rpc_outcome round c) as [o Ho]. cbn [foldl fmap list_fmap].
  destruct (IH (l1 ++ l2) (if updates (rpc round c) then rt_update d c (clock n round) else d) q sl seen
    (rpc round c :: answered) found learned Hl) as (answered' & Hp & Hr). exists answered'. split.
  - by rewrite Hp, <- Permutation_middle.
  - eapply rtc_l; [|exact Hr]. rewrite Ho. apply ws_answer.
Qed.

(** They take the mutex in any order. *)
Lemma merges_run rs : forall answered d q sl seen asking found learned,
  rs ≡ₚ answered ->
  steps (d, WRound q sl seen asking answered found learned)
    (d, WRound q sl (seen ++ omap value rs) asking [] (foldl (first_found stop) found rs)
          (learned ++ concat (nodes <$> rs))).
Proof.
  induction rs as [|r rs IH]; intros answered d q sl seen asking found learned Hp.
  { apply Permutation_nil in Hp as ->. cbn. by rewrite !app_nil_r. }
  destruct (list_elem_of_split answered r) as (l1 & l2 & ->); [rewrite <- Hp; by left|].
  rewrite <- Permutation_middle in Hp. apply Permutation_cons_inv in Hp.
  eapply rtc_l; [apply ws_merge|]. cbn [foldl fmap list_fmap concat].
  replace (omap value (r :: rs)) with (option_list (value r) ++ omap value rs) by (cbn; by destruct (value r)).
  rewrite !app_assoc. by apply IH.
Qed.

Lemma foldl_first_found rs :
  foldl (first_found stop) None rs = snd <$> list_find (fun v => stop v = true) (omap value rs).
Proof.
  assert (forall v l, foldl (first_found stop) (Some v) l = Some v) as Hsome
    by (intros v l; induction l as [|r l IH]; [done|exact IH]).
  induction rs as [|r rs IH]; [done|]. cbn [foldl omap list_omap]. unfold first_found at 2.
  destruct (value r) as [v|]; [|exact IH]. cbn [list_find]. destruct (stop v) eqn:E.
  - rewrite decide_True by done. by rewrite Hsome.
  - rewrite decide_False by done. rewrite IH. by destruct (list_find _ _) as [[]|].
Qed.

Lemma foldl_updates round l1 l2 d :
  (forall c, c ∈ l1 -> updates (rpc round c) = true) -> (forall c, c ∈ l2 -> updates (rpc round c) = false) ->
  foldl (fun d c => if updates (rpc round c) then rt_update d c (clock n round) else d) d (l1 ++ l2)
  = update_all (clock n round) d l1.
Proof.
  intros H1 H2. rewrite foldl_app. unfold update_all. revert d. induction l1 as [|c l1 IH]; intros d.
  - cbn. induction l2 as [|c l2 IH]; [done|]. cbn. rewrite (H2 c) by by left. apply IH. intros c' Hc. apply H2. by right.
  - cbn. rewrite (H1 c) by by left. apply IH. intros c' Hc. apply H1. by right.
Qed.

Lemma hints_run l : forall d q sl seen, steps (d, WHint q sl seen l) (hint_all d l, WHint q sl seen []).
Proof.
  induction l as [|c l IH]; intros d q sl seen; [done|]. eapply rtc_l; [apply ws_hint|]. apply IH.
Qed.

(** A round, from the choice of contacts to the last goroutine. *)
Lemma round_run round d q sl seen :
  let batch := pick_batch q sl in
  let replies := rpc round <$> app_order n batch in
  batch <> [] ->
  steps (d, WLoop q sl seen)
    (update_all (clock n round) d (upd_order n (List.filter (fun c => updates (rpc round c)) batch)),
     WRound (now_queried batch q) sl (seen ++ omap value replies) [] []
       (snd <$> list_find (fun v => stop v = true) (omap value replies)) (concat (nodes <$> replies))).
Proof.
  intros batch replies Hb. eapply rtc_l; [by apply ws_pick|]. fold batch.
  set (yes := upd_order n (List.filter (fun c => updates (rpc round c)) batch)).
  set (no := List.filter (fun c => negb (updates (rpc round c))) batch).
  assert (yes ≡ₚ List.filter (fun c => updates (rpc round c)) batch) as Hyes by apply Hn.
  assert (yes ++ no ≡ₚ batch) as Hp.
  { rewrite Hyes. unfold no. clear. induction batch as [|c l IH]; [done|]. cbn.
    destruct (updates (rpc round c)); cbn; [by rewrite IH|]. by rewrite <- Permutation_middle, IH. }
  destruct (answers_run round (yes ++ no) batch d (now_queried batch q) sl seen [] None [] Hp) as (answered & Ha & Hr).
  etrans; [exact Hr|]. rewrite foldl_updates.
  - rewrite <- foldl_first_found. apply (merges_run replies answered). unfold replies.
    rewrite Ha, app_nil_r. destruct (Hn batch) as [_ ->]. by rewrite Hp.
  - intros c. rewrite Hyes. by intros [_ ?]%list_elem_of_In%filter_In.
  - intros c [_ Hc]%list_elem_of_In%filter_In. by apply negb_true_iff.
Qed.

Lemma walk_runs fuel : forall round q sl seen d w,
  walk fuel n rpc stop target round q sl seen d = Some w ->
  steps (d, WLoop q sl seen) (w_dht w, WEnd (w_found w) (w_seen w) (w_shortlist w)).
Proof.
  induction fuel as [|fuel IH]; intros round q sl seen d w; [done|]. cbn [walk].
  case_bool_decide as Hb; [intros [= <-]; by apply rtc_once, ws_exhausted|].
  pose proof (round_run round d q sl seen Hb) as Hr. cbv zeta in Hr. fold (now_queried (pick_batch q sl) q).
  destruct (list_find _ _) as [[i v]|]; cbn [fmap option_fmap option_map snd] in Hr.
  { intros [= <-]. etrans; [exact Hr|]. apply rtc_once, ws_found. }
  intros Hw. etrans; [exact Hr|]. eapply rtc_l; [apply ws_wait|]. etrans; [apply hints_run|].
  case_bool_decide as Hc; [injection Hw as <-; by apply rtc_once, ws_converged|].
  eapply rtc_l; [by apply ws_again|]. by eapply IH.
Qed.

End Sequential.

(** A call up to the point where the value it found is cached. *)
Lemma search_runs n key verify d w :
  net_ok n -> length (Closest (d_rt d) key K) <> 0%nat ->
  start_walk n (fun r c => sendFindValue n r key c) (accepts key verify) key [] d = Some w ->
  rtc (get_step key verify) (d, GTable) (w_dht w, GWalk (WEnd (w_found w) (w_seen w) (w_shortlist w))).
Proof.
  intros Hn Hl Hw. eapply rtc_l; [by apply gs_start|].
  apply (rtc_congruence (R := walk_step find_value_result (accepts key verify) key)
    (fun s => (s.1, GWalk s.2)) (get_step key verify) (d, WLoop _ _ _) (w_dht w, WEnd _ _ _)); [intros [] [] Hs; by apply gs_walk|].
  eapply (walk_runs n find_value_result (accepts key verify) key (fun r c => sendFindValue n r key c) Hn); [|exact Hw].
  intros r c. by exists (requestContact n r c (find_value_request key)).
Qed.

(** (dht.go, [getInner]): the function of Lookup.v is a run of the call in which
    nothing else happens. *)
Theorem getInner_runs (e : put_env) (n : net) (d : DHT) (key : NodeID) (verify : bool)
    (r : result dht_error bytes) (d' : DHT) :
  net_ok n -> getInner e n d key verify = Some (r, d') ->
  rtc (get_step key verify) (d, GBegin) (d', GReturned r).
Proof.
  intros Hn. unfold getInner. destruct (IsBlocked d key) eqn:Eb.
  { intros [= <- <-]. by apply rtc_once, gs_blocked. }
  destruct (Store.Get (d_store d) (pe_now e) key) as [s local] eqn:Eg.
  assert (search_value e n (with_store d s) key verify = Some (r, d') ->
    rtc (get_step key verify) (with_store d s, GTable) (d', GReturned r)) as Hsearch.
  { unfold search_value. destruct (Nat.eqb_spec (length (Closest (d_rt (with_store d s)) key K)) 0) as [El|El].
    { intros [= <- <-]. by apply rtc_once, gs_empty. }
    destruct (start_walk _ _ _ _ _ _) as [w|] eqn:Ew; [|done]. intros E.
    etrans; [by eapply (search_runs n key verify)|]. destruct (w_found w) as [v|].
    - injection E as <- <-. eapply rtc_l; [apply gs_found|]. destruct verify; [|done]. apply rtc_once, gs_cache.
    - injection E as <- <-. apply rtc_once, gs_none. }
  intros E. eapply rtc_l; [by apply gs_clear|]. destruct local as [v|].
  - fold (accepts key verify v) in E. destruct (accepts key verify v) eqn:Ea.
    + injection E as <- <-. by eapply rtc_once, gs_hit.
    + eapply rtc_l; [by eapply gs_tampered|]. by apply Hsearch.
  - eapply rtc_l; [by eapply gs_miss|]. by apply Hsearch.
Qed.

(** (dht.go, [Lookup]): likewise. *)
Theorem Lookup_runs (n : net) (target : NodeID) (d : DHT) (l : list Contact) (d' : DHT) :
  net_ok n -> Lookup n target d = Some (l, d') -> rtc (lookup_step target) (d, LBegin) (d', LReturned l).
Proof.
  intros Hn. unfold Lookup. destruct (start_walk _ _ _ _ _ _) as [w|] eqn:Ew; [|done]. intros E. injection E as <- <-.
  eapply rtc_l; [apply ls_start|].
  assert (rtc (lookup_step target) (d, LWalk (WLoop ∅ (Closest (d_rt d) target K) []))
    (w_dht w, LWalk (WEnd (w_found w) (w_seen w) (w_shortlist w)))) as Hr.
  { apply (rtc_congruence (R := walk_step find_node_result (fun _ => false) target)
      (fun s => (s.1, LWalk s.2)) (lookup_step target) (d, WLoop _ _ _) (w_dht w, WEnd _ _ _)); [intros [] [] Hs; by apply ls_walk|].
    eapply (walk_runs n find_node_result (fun _ => false) target (fun r c => FindNode n r target c) Hn); [|exact Ew].
    intros r c. by exists (requestContact n r c (find_node_request target)). }
  etrans; [exact Hr|]. apply rtc_once, ls_return.
Qed.

(** ** A revocation that comes in between *)

(** (dht.go, [getInner]; revoke.go, [applyRevoke]): a revocation does not stop a call
    that is under way.  The key is checked against the blocklist when the call
    begins; when the value has been found and the revocation of the key is applied
    before it is cached, the call caches and returns it all the same: the node holds a
    blocked chunk, on disk too, and the blocklist does not outlive the process. *)
Theorem get_outlives_revocation (n : net) (d : DHT) (key : NodeID) (s : localStore) (now : Time) (w : walk_end)
    (v : bytes) (rp : RevokePayload) (e : put_env) :
  net_ok n -> IsBlocked d key = false -> Store.Get (d_store d) now key = (s, None) ->
  length (Closest (d_rt d) key K) <> 0%nat ->
  start_walk n (fun r c => sendFindValue n r key c) (accepts key true) key [] (with_store d s) = Some w ->
  w_found w = Some v -> key ∈ revoked_ids rp ->
  exists d1 d2,
    rtc (get_step key true) (d, GBegin) (d1, GCache v)
    /\ get_step key true (applyRevoke d1 rp, GCache v) (d2, GReturned (Ok v))
    /\ IsBlocked d2 key = true /\ data (d_store d2) !! Hex key = Some v.
Proof.
  intros Hn Hb Hg Hl Hw Hf Hk. exists (w_dht w), (with_store (applyRevoke (w_dht w) rp)
    (Put e (d_store (applyRevoke (w_dht w) rp)) key v)). split_and!.
  - eapply rtc_l; [by apply gs_clear|]. eapply rtc_l; [by eapply gs_miss|].
    etrans; [by eapply search_runs|]. rewrite Hf. apply rtc_once, gs_found.
  - apply gs_cache.
  - destruct (applyRevoke_spec (w_dht w) rp) as (H1 & _). specialize (H1 key).
    rewrite bool_decide_eq_true_2 in H1 by done. exact H1.
  - apply Put_data.
Qed.

(** ** A node that knows one contact *)

Module Meanwhile.

(** The contact is removed after the call has begun. *)
Definition emptied : DHT := with_rt carol (NewRoutingTable bob_id) [].

Lemma carol_emptied : others carol emptied.
Proof. split; [|done]. intros _. split; [done|apply NewRoutingTable_wf]. Qed.

Lemma disturbed_run :
  rtc (among (get_step (ContentAddress content) true)) (carol, GBegin)
    (with_store emptied (bounded_store 0), GReturned (Err ErrTableEmpty)).
Proof.
  apply rtc_l with (carol, GLocal); [by apply am_own, gs_clear|].
  apply rtc_l with (emptied, GLocal); [apply am_other, carol_emptied|].
  apply rtc_l with (with_store emptied (bounded_store 0), GTable); [apply am_own, (gs_miss _ _ _ 0); by vm_compute|].
  apply rtc_once, am_own, gs_empty. by vm_compute.
Qed.

(** Or nothing happens, and the contact answers. *)
Lemma quiet_run :
  exists v d, rtc (among (get_step (ContentAddress content) true)) (carol, GBegin) (d, GReturned (Ok v)).
Proof.
  destruct replica_asked as (c & Hc & _ & Ha).
  destruct (get_finds (at_time 6) serving carol (ContentAddress content) c content carol_ok serving_ok
    eq_refl Hc (asked_served c Ha) eq_refl) as (v & d & E & _).
  exists v, d. apply among_own.
  exact (getInner_runs (at_time 6) serving carol (ContentAddress content) true (Ok v) d serving_ok E).
Qed.

Lemma get_among_others_witness :
  (exists s, rtc (among (get_step (ContentAddress content) true)) (carol, GBegin) s /\ dht_ok s.1
     /\ s.2 = GReturned (Err ErrTableEmpty))
  /\ exists s v, rtc (among (get_step (ContentAddress content) true)) (carol, GBegin) s
       /\ s.2 = GReturned (Ok v) /\ ContentAddress v = ContentAddress content.
Proof.
  split.
  - eexists. split; [exact disturbed_run|]. split; [|reflexivity].
    exact (proj1 (get_among_others (ContentAddress content) true carol _ carol_ok disturbed_run)).
  - destruct quiet_run as (v & d & Hr). exists (d, GReturned (Ok v)), v. split; [exact Hr|]. split; [reflexivity|].
    destruct (get_among_others (ContentAddress content) true carol _ carol_ok Hr) as (_ & _ & Hv & _).
    exact (Hv v eq_refl eq_refl).
Defined.

End Meanwhile.
