(* ===== verification/Coalesce.v ===== *)
(** * Coalesced lookups (core/dht/dht.go, [get], [inflightGet])

    [get] as an instance of SingleFlight.v: the table is keyed by the hexadecimal
    key and the kind of lookup, the work is a call of [getInner] as Walking.v has it,
    among whatever else changes the node while it runs, and a caller that waited
    returns the result kept in the flight. *)

From S2P Require Import Prelude GoStrings Encoding Json Sha256 Crypto Peer Revoke NodeId.
From S2P Require Import Blocklist Store Routing DhtWire Dht Lookup Walking SingleFlight.

Definition cacheKey (key : NodeID) (verify : bool) : bytes :=
  Hex key ++ (if verify then bs ":v" else bs ":u").

Lemma cacheKey_inj k v k' v' : cacheKey k v = cacheKey k' v' -> k = k' /\ v = v'.
Proof.
  unfold cacheKey. intros Heq. apply app_inj_1 in Heq as [Hk Hs]; [|by rewrite !Hex_length].
  split; [by apply Hex_inj|]. by destruct v, v'.
Qed.

(** A lookup and the node it runs on; the rest of the program may change the node
    in any way that keeps it well formed. *)
#[global] Instance get : Coalesced (NodeID * bool) (result dht_error bytes) DHT := {|
  ck a := cacheKey a.1 a.2;
  pre _ _ := None;
  work d a d' r := rtc (among (get_step a.1 a.2)) (d, GBegin) (d', GReturned r);
  follow _ _ r := r;
  other d d' := dht_ok d -> dht_ok d'
|}.

Lemma evolves_ok (d d' : DHT) : dht_ok d -> evolves d d' -> dht_ok d'.
Proof.
  intros Hd He. induction He as [|d1 d2 d3 Hs _ IH]; [done|]. apply IH.
  destruct Hs as [Ho|([key verify] & r & Hg)]; [by apply Ho|]. exact (proj1 (get_keeps key verify d1 _ Hd Hg)).
Qed.

(** C32 (dht.go, [get]): however callers, the lookups they start and the rest of the
    program interleave, at most one goroutine looks up a given key in a given mode
    at a time, no done channel is closed twice, and no caller waits for ever;
    every caller, whether it ran the lookup or waited, returns the result of a
    lookup of exactly its key and its mode; so a value a verified [get] returns
    hashes to the key it was asked for, even when another goroutine fetched it. *)
Theorem gets_coalesced (d : DHT) (s : state (NodeID * bool) (result dht_error bytes) DHT) :
  dht_ok d -> rtc step (start d) s ->
  (forall g g' a p p', procs s !! g = Some (Running a p) -> procs s !! g' = Some (Running a p') -> g = g')
  /\ (forall g, procs s !! g <> Some Crashed)
  /\ (forall g a r, procs s !! g = Some (Returned a r) ->
        exists d1 d2, dht_ok d1 /\ work d1 a d2 r)
  /\ (forall g key v, procs s !! g = Some (Returned (key, true) (Ok v)) -> ContentAddress v = key)
  /\ (forall g a p, procs s !! g = Some (Waiting a p) ->
        exists s' r, rtc step s s' /\ procs s' !! g = Some (Returned a r)).
Proof.
  intros Hd Hr. pose proof (flight_inv _ _ Hr) as Hinv.
  pose proof (reachable_runs _ _ Hr) as [He Hruns].
  assert (forall g a r, procs s !! g = Some (Returned a r) ->
            exists d1 d2, dht_ok d1 /\ work d1 a d2 r) as Hret.
  { intros g a r Hg. apply (inv_procs s Hinv) in Hg as [[d0 Hpre]|[Hin|([k m] & r' & d0 & Hck & Hin & ->)]].
    - done.
    - destruct (Hruns a r Hin) as (d1 & d2 & Hev & Hw). exists d1, d2. split; [by apply (evolves_ok d)|done].
    - destruct a as [k0 m0]. apply cacheKey_inj in Hck as [Hk Hm]. simpl in Hk, Hm. subst k0 m0.
      destruct (Hruns _ _ Hin) as (d1 & d2 & Hev & Hw). exists d1, d2. split; [by apply (evolves_ok d)|done]. }
  split_and!; [| |done| |].
  - intros g g' a p p' Hg Hg'. by apply (one_runner s g g' a a p p').
  - intros g Hg. by apply (inv_procs s Hinv g Crashed).
  - intros g key v Hg. destruct (Hret g _ _ Hg) as (d1 & d2 & Hd1 & Hw).
    exact (proj2 (get_keeps key true d1 _ Hd1 Hw) v eq_refl eq_refl).
  - intros g a p Hg. apply (waiter_returns s g a p); [done| |done]. intros [key m].
    destruct (get_completes key m (env s, GBegin)) as (d' & r & Hc). exists d', r. by apply among_own.
Qed.

(** Two callers for one value: the first looks it up, the second waits. *)
Module GetRun.

Abbreviation gets := (state (NodeID * bool) (result dht_error bytes) DHT).

Definition asked : NodeID * bool := (ContentAddress content, true).

Definition s0 : gets := start carol.
Definition s1 : gets := with_procs s0 1 (Entering asked).
Definition s2 : gets := with_procs s1 2 (Entering asked).
Definition s3 : gets :=
  with_procs (with_flight (with_table s2 (<[ck asked := 0%nat]> (table s2))) 0 (MkFlight asked None false))
    1 (Running asked 0).
Definition s4 : gets := with_procs s3 2 (Waiting asked 0).

Lemma get_s4_reached : rtc step s0 s4.
Proof.
  eapply rtc_l; [exact (step_call s0 1 asked eq_refl)|].
  eapply rtc_l; [exact (step_call s1 2 asked eq_refl)|].
  eapply rtc_l; [exact (step_lead s2 1 asked 0 eq_refl (lookup_empty _) eq_refl)|].
  apply rtc_once. exact (step_join s3 2 asked 0 eq_refl (lookup_insert_eq _ _ _)).
Qed.

Lemma gets_coalesced_witness :
  exists s' r, rtc step s4 s' /\ procs s' !! 2%nat = Some (Returned asked r).
Proof. apply (gets_coalesced carol s4 carol_ok get_s4_reached) with (p := 0%nat). reflexivity. Defined.

End GetRun.
