(* ===== verification/Name.v ===== *)
(** * The naming layer (core/name/name.go)

    Signed name records, name validation, the vote among the copies found in
    the DHT, and publishing and resolving on top of the lookups of Lookup.v.
    Sums of timestamps keep their 64-bit wrap-around. *)

From S2P Require Import Prelude GoStrings Encoding Json Sha256 Crypto Peer Revoke NodeId.
From S2P Require Import Blocklist Store Routing DhtWire Dht Lookup.

Definition MaxNameLen : nat := 253.
Definition DefaultNameTTL : Z := 7 * 24 * 3600.
Definition MaxClockSkew : Z := 5 * 60.

Record NameRecord := MkRecord {
  r_Name : bytes;
  r_PublicKey : bytes;
  r_Root : bytes;
  r_Version : Z;
  r_Timestamp : Z;
  r_TTL : Z;
  r_Sig : bytes
}.

#[global] Instance NameRecord_eq_dec : EqDecision NameRecord.
Proof. solve_decision. Defined.

#[global] Instance NameRecord_codec : Codec NameRecord := {|
  to_json r := JObj (
    [(bs "name", JStr (r_Name r)); (bs "pk", JStr (r_PublicKey r)); (bs "root", JStr (r_Root r));
     (bs "version", JInt (r_Version r)); (bs "ts", JInt (r_Timestamp r))] ++
    omitempty (r_TTL r =? 0) (bs "ttl", JInt (r_TTL r)) ++
    omitempty (is_nil (r_Sig r)) (bs "sig", JStr (r_Sig r)));
  zero_value := MkRecord [] [] [] 0 0 0 [];
  set_field k j r :=
    let '(MkRecord n pk root v ts ttl sig) := r in
    if key_is k "name" then (fun n => MkRecord n pk root v ts ttl sig) <$> dec_string j n
    else if key_is k "pk" then (fun pk => MkRecord n pk root v ts ttl sig) <$> dec_string j pk
    else if key_is k "root" then (fun root => MkRecord n pk root v ts ttl sig) <$> dec_string j root
    else if key_is k "version" then (fun v => MkRecord n pk root v ts ttl sig) <$> dec_int64 j v
    else if key_is k "ts" then (fun ts => MkRecord n pk root v ts ttl sig) <$> dec_int64 j ts
    else if key_is k "ttl" then (fun ttl => MkRecord n pk root v ts ttl sig) <$> dec_int64 j ttl
    else if key_is k "sig" then (fun sig => MkRecord n pk root v ts ttl sig) <$> dec_string j sig
    else Some r
|}.

Definition record_with_Sig (r : NameRecord) (s : bytes) : NameRecord :=
  MkRecord (r_Name r) (r_PublicKey r) (r_Root r) (r_Version r) (r_Timestamp r) (r_TTL r) s.

Definition Expired (r : NameRecord) (now : Z) : bool :=
  if int64 (now + MaxClockSkew) <? r_Timestamp r then true
  else if r_TTL r <=? 0 then false
  else int64 (r_Timestamp r + r_TTL r) <? now.

(** Why the vote drops a candidate; the last reason is part of the error. *)
Inductive reject := RejectParse | RejectName | RejectSignature | RejectRegistrar | RejectExpired.

Inductive name_error :=
| ErrNameEmpty | ErrNameLong | ErrNameDot | ErrLabelEmpty | ErrLabelLong | ErrLabelHyphen
| ErrNameChar | ErrRecordTooLarge | ErrStore | ErrLookup | ErrNoRecord (last : option reject).

Definition dot : byte := Byte.x2e.
Definition hyphen : byte := Byte.x2d.

Section Name.
Context `{GoUnicode} `{Ed25519}.

Definition CanonicalName (name : bytes) : bytes :=
  let c := ToLower (TrimSpace name) in
  TrimSuffix c [dot].

Definition RecordKey (name : bytes) : NodeID := id_copy (sha256 (CanonicalName name)).

(** The characters a label may have.  A byte of a multi-byte character, valid
    or not, is refused by the source as the rune it belongs to. *)
Definition label_char (b : byte) : bool :=
  bool_decide (b = hyphen) || in_range 0x61 0x7a b || in_range 0x30 0x39 b.

Definition validLabel (label : bytes) : result name_error unit :=
  if is_nil label then Err ErrLabelEmpty
  else if (63 <? length label)%nat then Err ErrLabelLong
  else if bool_decide (head label = Some hyphen) || bool_decide (last label = Some hyphen)
  then Err ErrLabelHyphen
  else if forallb label_char label then Ok tt else Err ErrNameChar.

Fixpoint validLabels (labels : list bytes) : result name_error unit :=
  match labels with
  | [] => Ok tt
  | l :: labels' => match validLabel l with Ok _ => validLabels labels' | Err e => Err e end
  end.

Definition validName (name : bytes) : result name_error unit :=
  let c := CanonicalName name in
  if is_nil c then Err ErrNameEmpty
  else if (MaxNameLen <? length c)%nat then Err ErrNameLong
  else if bool_decide (head c = Some dot) || bool_decide (last c = Some dot) then Err ErrNameDot
  else validLabels (SplitByte c dot).

(** ** Trusted registrars: the nil map is open mode. *)

Definition SetTrustedRegistrars (keys : list bytes) : option (gset bytes) :=
  let m : gset bytes := list_to_set (List.filter (fun k => negb (is_nil k)) (normalise <$> keys)) in
  if (size m =? 0)%nat then None else Some m.

Definition TrustedRegistrarCount (trusted : option (gset bytes)) : nat :=
  match trusted with None => 0 | Some m => size m end.

Definition registrarAllowed (trusted : option (gset bytes)) (pk : bytes) : bool :=
  match trusted with
  | None => true
  | Some m => if (size m =? 0)%nat then true else bool_decide (normalise pk ∈ m)
  end.

(** ** Signing *)

Definition record_Sign (r : NameRecord) (id : Identity) : NameRecord :=
  let r := MkRecord (r_Name r) (PublicKeyToHex (PublicKey id)) (r_Root r) (r_Version r)
             (r_Timestamp r) (r_TTL r) [] in
  record_with_Sig r (Sign id (Marshal r)).

Definition record_Verify (r : NameRecord) : bool :=
  match PublicKeyFromHex (r_PublicKey r) with
  | Err _ => false
  | Ok pub => is_ok (Verify pub (Marshal (record_with_Sig r [])) (r_Sig r))
  end.

(** ** Publishing and resolving *)

(** The new record, the node afterwards and the number of replicas.  The inner
    option is running out of rounds, which does not happen ([store_publishes]). *)
Definition PublishWithTTL (e : put_env) (n : net) (d : DHT) (id : Identity) (name : bytes)
    (root : NodeID) (version ttl now : Z) : result name_error (NameRecord * option (DHT * nat)) :=
  match validName name with
  | Err err => Err err
  | Ok _ =>
      let rec := record_Sign (MkRecord (CanonicalName name) [] (Hex root) version now ttl []) id in
      let blob := Marshal rec in
      if MaxValueSize <? len blob then Err ErrRecordTooLarge else
      match Store e n d (RecordKey name) blob with
      | Err _ => Err ErrStore
      | Ok r => Ok (rec, r)
      end
  end.

Definition Publish (e : put_env) (n : net) (d : DHT) (id : Identity) (name : bytes) (root : NodeID)
    (version now : Z) := PublishWithTTL e n d id name root version DefaultNameTTL now.

(** The checks a candidate has to pass, in the source's order. *)
Definition eligible (trusted : option (gset bytes)) (now : Z) (canonical : bytes) (blob : bytes)
  : result reject NameRecord :=
  match Unmarshal blob with
  | None => Err RejectParse
  | Some rec =>
      if negb (bool_decide (r_Name rec = canonical)) then Err RejectName
      else if negb (record_Verify rec) then Err RejectSignature
      else if negb (registrarAllowed trusted (r_PublicKey rec)) then Err RejectRegistrar
      else if Expired rec now then Err RejectExpired
      else Ok rec
  end.

(** [if best == nil || rec.Version > best.Version { best = &r }] *)
Definition better (best : option NameRecord) (rec : NameRecord) : option NameRecord :=
  match best with
  | None => Some rec
  | Some b => if r_Version b <? r_Version rec then Some rec else best
  end.

(** One turn of the loop over the candidates: [best] and [lastErr]. *)
Definition vote (trusted : option (gset bytes)) (now : Z) (canonical : bytes)
    (st : option NameRecord * option reject) (blob : bytes) : option NameRecord * option reject :=
  match eligible trusted now canonical blob with
  | Err why => (fst st, Some why)
  | Ok rec => (better (fst st) rec, snd st)
  end.

Definition pickBestRecord (trusted : option (gset bytes)) (now : Z) (canonical : bytes)
    (candidates : list bytes) : option NameRecord * option reject :=
  foldl (vote trusted now canonical) (None, None) candidates.

(** [order] is the order in which Go ranges over the map of copies. *)
Definition Resolve (e : put_env) (n : net) (d : DHT) (trusted : option (gset bytes)) (name : bytes)
    (now : Z) (order : gset bytes -> list bytes) : option (result name_error NameRecord * DHT) :=
  match validName name with
  | Err err => Some (Err err, d)
  | Ok _ =>
      let canonical := CanonicalName name in
      match GetAllUnverified e n d (RecordKey canonical) with
      | None => None
      | Some (Err _, d) => Some (Err ErrLookup, d)
      | Some (Ok candidates, d) =>
          Some (match pickBestRecord trusted now canonical (order candidates) with
                | (None, lastErr) => Err (ErrNoRecord lastErr)
                | (Some best, _) => Ok best
                end, d)
      end
  end.

Definition RootKey (r : NameRecord) : result id_error NodeID := IDFromHex (r_Root r).

(** * Facts *)

Definition record_fine (r : NameRecord) : Prop :=
  utf8_valid (r_Name r) = true /\ utf8_valid (r_PublicKey r) = true /\ utf8_valid (r_Root r) = true
  /\ utf8_valid (r_Sig r) = true
  /\ in_int64 (r_Version r) /\ in_int64 (r_Timestamp r) /\ in_int64 (r_TTL r).

#[global, program] Instance NameRecord_laws : CodecLaws NameRecord record_fine := {| codec_depth := 1 |}.
Next Obligation. done. Qed.
Next Obligation.
  intros [n pk root v ts ttl sig] (H1 & H2 & H3 & H4 & _).
  cbn [r_Name r_PublicKey r_Root r_Sig] in *. unfold to_json, NameRecord_codec. apply (JObj_ok 0).
  unfold omitempty. cbn [r_Name r_PublicKey r_Root r_Version r_Timestamp r_TTL r_Sig].
  apply Forall_app; split; [|apply Forall_app; split];
    repeat case_match; repeat (apply List.Forall_cons; [split; [done|cbn [snd]; auto with altnet]|]);
    apply List.Forall_nil.
Qed.
Next Obligation.
  intros [n pk root v ts ttl sig] (_ & _ & _ & _ & H5 & H6 & H7). simpl in H5, H6, H7.
  unfold to_json, NameRecord_codec. cbn [r_Name r_PublicKey r_Root r_Version r_Timestamp r_TTL r_Sig].
  unfold omitempty, is_nil. destruct (Z.eqb_spec ttl 0) as [->|Ht];
    (case_bool_decide; subst); lazy -[dec_int64 JInt];
    by rewrite !dec_int64_JInt by done.
Qed.

(** ** Names *)

Lemma forallb_Forall_true {A} (p : A -> bool) l :
  forallb p l = true <-> Forall (fun x => p x = true) l.
Proof. rewrite forallb_forall, Forall_forall. setoid_rewrite list_elem_of_In. done. Qed.

Lemma label_char_ok b : label_char b = true -> lower_plain b = true /\ b <> dot.
Proof. destruct b; vm_compute; done. Qed.

(** What a label of a valid name is. *)
Definition label_ok (l : bytes) : Prop :=
  l <> [] /\ (length l <= 63)%nat /\ head l <> Some hyphen /\ last l <> Some hyphen
  /\ Forall (fun b => label_char b = true) l.

Lemma validLabel_spec l : is_ok (validLabel l) = true <-> label_ok l.
Proof.
  unfold validLabel, label_ok. rewrite <- forallb_Forall_true. destruct l as [|b l]; [naive_solver|].
  set (l' := b :: l). change (is_nil l') with false. cbv iota.
  destruct (63 <? length l')%nat eqn:E; zbool; [split; [done|lia]|].
  destruct (bool_decide (head l' = Some hyphen)) eqn:Eh; zbool; simpl orb; cbv iota;
    [split; [done|tauto]|].
  destruct (bool_decide (last l' = Some hyphen)) eqn:El; zbool; [split; [done|tauto]|].
  destruct (forallb label_char l'); split; [|done|done|intuition done].
  intros _. split_and!; try done.
Qed.

Lemma validLabels_spec ls : is_ok (validLabels ls) = true <-> Forall label_ok ls.
Proof.
  induction ls as [|l ls IH]; simpl; [by split; [constructor|]|].
  rewrite Forall_cons, <- IH, <- validLabel_spec. destruct (validLabel l) as [[]|]; simpl; intuition done.
Qed.

Lemma label_no_dot l : label_ok l -> dot ∉ l.
Proof.
  intros (_ & _ & _ & _ & Hf) Hd. rewrite Forall_forall in Hf. by destruct (label_char_ok dot (Hf dot Hd)).
Qed.

Lemma head_app_ne {A} (l k : list A) : l <> [] -> head (l ++ k) = head l.
Proof. by destruct l. Qed.

(** The joined labels neither start nor end with a dot. *)
Lemma Join_ends ls :
  ls <> [] -> Forall label_ok ls ->
  Join ls [dot] <> [] /\ head (Join ls [dot]) <> Some dot /\ last (Join ls [dot]) <> Some dot.
Proof.
  intros Hne Hf. induction Hf as [|l ls Hl Hf IH]; [done|]. pose proof (label_no_dot l Hl) as Hd.
  assert (head l <> Some dot) as Hh.
  { intros E. apply Hd. destruct l; [done|]. injection E as ->. by left. }
  destruct Hl as (Hn & _). destruct ls as [|l2 ls].
  - simpl. split_and!; [done|done|]. intros [l' ->]%last_Some. apply Hd. set_solver.
  - change (Join (l :: l2 :: ls) [dot]) with (l ++ [dot] ++ Join (l2 :: ls) [dot]).
    destruct IH as (I1 & I2 & I3); [done|]. split_and!; [by destruct l|by rewrite head_app_ne|].
    rewrite app_assoc, last_app. destruct (last (Join (l2 :: ls) [dot])) eqn:E; [done|].
    by apply last_None in E.
Qed.

Lemma Join_lower_plain ls :
  Forall label_ok ls -> forallb lower_plain (Join ls [dot]) = true.
Proof.
  induction 1 as [|l ls Hl Hf IH]; [done|].
  assert (forallb lower_plain l = true) as Hp.
  { destruct Hl as (_ & _ & _ & _ & Hf'). apply forallb_Forall_true.
    eapply Forall_impl; [exact Hf'|]. intros b Hb. by apply label_char_ok. }
  destruct ls as [|l2 ls]; [done|].
  change (Join (l :: l2 :: ls) [dot]) with (l ++ [dot] ++ Join (l2 :: ls) [dot]).
  by rewrite !forallb_app, Hp, IH.
Qed.

Lemma CanonicalName_Join ls :
  ls <> [] -> Forall label_ok ls -> CanonicalName (Join ls [dot]) = Join ls [dot].
Proof.
  intros Hn Hf. pose proof (Join_lower_plain ls Hf) as Hp. unfold CanonicalName.
  rewrite TrimSpace_lower_plain, ToLower_lower_plain by done. apply TrimSuffix_none.
  destruct (HasSuffix (Join ls [dot]) [dot]) eqn:E; [|done].
  apply HasSuffix_spec in E as [t E]. destruct (Join_ends ls Hn Hf) as (_ & _ & Hl).
  rewrite E, last_snoc in Hl. done.
Qed.

(** The structure of a valid name. *)
Definition name_ok (c : bytes) : Prop :=
  (length c <= 253)%nat /\ exists ls, ls <> [] /\ Forall label_ok ls /\ c = Join ls [dot].

Lemma validName_spec name : validName name = Ok tt <-> name_ok (CanonicalName name).
Proof.
  unfold validName, name_ok, MaxNameLen. set (c := CanonicalName name).
  assert (forall r : result name_error unit, r = Ok tt <-> is_ok r = true) as Hok
    by (intros [[]|]; done).
  rewrite Hok. split.
  - destruct (is_nil c); [done|]. destruct (_ <? _)%nat eqn:E; [done|]. zbool.
    destruct (_ || _); [done|]. rewrite validLabels_spec. intros Hf. split; [done|].
    exists (SplitByte c dot). split_and!; [apply SplitByte_nonempty|done|by rewrite Join_SplitByte].
  - intros (Hl & ls & Hn & Hf & E). destruct (Join_ends ls Hn Hf) as (J1 & J2 & J3).
    rewrite <- E in J1, J2, J3. assert (is_nil c = false) as -> by by destruct c.
    rewrite (proj2 (Nat.ltb_ge _ _)) by done. rewrite !bool_decide_eq_false_2 by done. simpl.
    rewrite E, SplitByte_Join; [by apply validLabels_spec|done|].
    eapply Forall_impl; [exact Hf|]. apply label_no_dot.
Qed.

Lemma valid_canonical name :
  validName name = Ok tt -> CanonicalName (CanonicalName name) = CanonicalName name.
Proof.
  intros (_ & ls & Hn & Hf & E)%validName_spec. rewrite E. by apply CanonicalName_Join.
Qed.

Lemma valid_lower_plain name :
  validName name = Ok tt -> forallb lower_plain (CanonicalName name) = true.
Proof. intros (_ & ls & _ & Hf & ->)%validName_spec. by apply Join_lower_plain. Qed.

(** (name.go, [validName], [CanonicalName], [RecordKey]): a name is accepted
    exactly when its canonical form is at most 253 bytes of labels joined by
    dots, each label 1 to 63 characters [a-z], [0-9] or [-] without a hyphen at
    its ends; for such a name canonicalising is idempotent, so the record is
    stored and looked up under one key. *)
Theorem valid_name_canonical (name : bytes) :
  (validName name = Ok tt <-> name_ok (CanonicalName name))
  /\ (validName name = Ok tt ->
        CanonicalName (CanonicalName name) = CanonicalName name
        /\ validName (CanonicalName name) = Ok tt
        /\ RecordKey (CanonicalName name) = RecordKey name).
Proof.
  split; [apply validName_spec|]. intros Hv. pose proof (valid_canonical name Hv) as Hc.
  split_and!; [done| |unfold RecordKey; by rewrite Hc].
  apply validName_spec. rewrite Hc. by apply validName_spec.
Qed.

(** ** Expiry *)

(** (name.go, [Expired]): for a clock that is not within [MaxClockSkew] of the
    end of the 64-bit range, a record is live exactly when it is not dated more
    than [MaxClockSkew] ahead and either has no TTL or its window, whose end must
    be a 64-bit number, is still open: a window that overflows is over. *)
Theorem expired_window (r : NameRecord) (now : Z) :
  in_int64 (r_Timestamp r) -> in_int64 (r_TTL r) -> 0 <= now < 2 ^ 63 - MaxClockSkew ->
  Expired r now = false <->
    r_Timestamp r <= now + MaxClockSkew
    /\ (r_TTL r <= 0 \/ now <= r_Timestamp r + r_TTL r < 2 ^ 63).
Proof.
  unfold Expired. intros Ht Hl Hn. rewrite (int64_id (now + _)) by (unfold in_int64, MaxClockSkew in *; lia).
  destruct (Z.ltb_spec (now + MaxClockSkew) (r_Timestamp r)); [split; [done|lia]|].
  destruct (Z.leb_spec (r_TTL r) 0); [split; [lia|done]|].
  rewrite Z.ltb_ge. unfold in_int64 in *. destruct (decide (r_Timestamp r + r_TTL r < 2 ^ 63)).
  - rewrite int64_id by (unfold in_int64; lia). lia.
  - assert (int64 (r_Timestamp r + r_TTL r) = r_Timestamp r + r_TTL r - 2 ^ 64); [|lia].
    unfold int64. rewrite <- (Z.mod_add _ (-1)), Z.mod_small by lia. lia.
Qed.

(** ** The vote *)

Definition max_version (best : option NameRecord) (rec : NameRecord) : Prop :=
  exists b, best = Some b /\ r_Version rec <= r_Version b.

Lemma better_spec best rec :
  exists b, better best rec = Some b /\ r_Version rec <= r_Version b
    /\ (forall x, max_version best x -> max_version (better best rec) x)
    /\ (b = rec \/ best = Some b).
Proof.
  unfold better, max_version. destruct best as [b|].
  - destruct (Z.ltb_spec (r_Version b) (r_Version rec)).
    + exists rec. split_and!; [done|done| |by left]. intros x (b' & [= <-] & Hx). exists rec. split; [done|lia].
    + exists b. split_and!; [done|done|done|by right].
  - exists rec. split_and!; [done|done| |by left]. by intros x (? & ? & _).
Qed.

Lemma vote_loop trusted now canonical cands st :
  let out := fst (foldl (vote trusted now canonical) st cands) in
  (forall b, out = Some b ->
     fst st = Some b \/ exists blob, blob ∈ cands /\ eligible trusted now canonical blob = Ok b)
  /\ (forall x, max_version (fst st) x -> max_version out x)
  /\ (forall blob rec, blob ∈ cands -> eligible trusted now canonical blob = Ok rec -> max_version out rec).
Proof.
  revert st. induction cands as [|blob cands IH]; intros st; cbn [foldl].
  { split_and!; [by left|done|set_solver]. }
  destruct (IH (vote trusted now canonical st blob)) as (I1 & I2 & I3). revert I1 I2 I3.
  set (out := fst (foldl _ _ _)). intros I1 I2 I3. unfold vote in I1, I2.
  destruct (eligible trusted now canonical blob) as [rec|why] eqn:Ee; cbn [fst] in I1, I2.
  - destruct (better_spec (fst st) rec) as (b0 & Eb & Hle & Hmono & Hor). split_and!.
    + intros b Hb. destruct (I1 b Hb) as [Hb'|(bl & Hin & Hel)]; [|right; exists bl; split; [by right|done]].
      rewrite Eb in Hb'. injection Hb' as <-.
      destruct Hor as [->|Hb']; [right; exists blob; split; [by left|done]|by left].
    + intros x Hx. by apply I2, Hmono.
    + intros bl r [->|Hin]%elem_of_cons Hel; [|by eapply I3]. rewrite Ee in Hel. injection Hel as ->.
      apply I2. by exists b0.
  - split_and!.
    + intros b Hb. destruct (I1 b Hb) as [Hb'|(bl & Hin & Hel)]; [by left|right; exists bl; split; [by right|done]].
    + done.
    + intros bl r [->|Hin]%elem_of_cons Hel; [congruence|by eapply I3].
Qed.

Lemma pickBestRecord_spec trusted now canonical cands :
  let out := fst (pickBestRecord trusted now canonical cands) in
  (forall b, out = Some b -> exists blob, blob ∈ cands /\ eligible trusted now canonical blob = Ok b)
  /\ (forall blob rec, blob ∈ cands -> eligible trusted now canonical blob = Ok rec -> max_version out rec).
Proof.
  destruct (vote_loop trusted now canonical cands (None, None)) as (H1 & _ & H3). split; [|done].
  intros b [?|?]%H1; done.
Qed.

Lemma eligible_Ok trusted now canonical blob rec :
  eligible trusted now canonical blob = Ok rec <->
  Unmarshal blob = Some rec /\ r_Name rec = canonical /\ record_Verify rec = true
  /\ registrarAllowed trusted (r_PublicKey rec) = true /\ Expired rec now = false.
Proof.
  unfold eligible. destruct (Unmarshal blob) as [r|]; [|split; [done|by intros [? _]]].
  split.
  - destruct (bool_decide (r_Name r = canonical)) eqn:E1; zbool; [|done]. cbn [negb].
    destruct (record_Verify r) eqn:E2; [|done]. cbn [negb].
    destruct (registrarAllowed _ _) eqn:E3; [|done]. cbn [negb].
    destruct (Expired r now) eqn:E4; [done|]. by intros [= <-].
  - intros ([= <-] & <- & -> & -> & ->). by rewrite bool_decide_eq_true_2.
Qed.

(** C13 (name.go, [pickBestRecord]): the vote returns a record one of the copies
    decodes to, that carries the requested name, verifies under the key it
    embeds, is signed by an allowed registrar and is not expired; no copy that
    passes those checks has a higher version, there is a result whenever one
    passes, and the winning version does not depend on the order of the copies. *)
Theorem vote_picks_freshest (trusted : option (gset bytes)) (now : Z) (canonical : bytes)
    (cands : list bytes) :
  match fst (pickBestRecord trusted now canonical cands) with
  | Some b =>
      (exists blob, blob ∈ cands /\ Unmarshal blob = Some b)
      /\ r_Name b = canonical /\ record_Verify b = true
      /\ registrarAllowed trusted (r_PublicKey b) = true /\ Expired b now = false
      /\ (forall blob rec, blob ∈ cands -> eligible trusted now canonical blob = Ok rec ->
            r_Version rec <= r_Version b)
      /\ (forall cands', cands' ≡ₚ cands ->
            r_Version <$> fst (pickBestRecord trusted now canonical cands') = Some (r_Version b))
  | None => forall blob, blob ∈ cands -> is_ok (eligible trusted now canonical blob) = false
  end.
Proof.
  pose proof (pickBestRecord_spec trusted now canonical cands) as [H1 H2].
  destruct (fst (pickBestRecord trusted now canonical cands)) as [b|] eqn:Ep.
  - destruct (H1 b eq_refl) as (blob & Hin & Hel). pose proof Hel as (E1 & E2 & E3 & E4 & E5)%eligible_Ok.
    split_and!; try done; [eauto| |].
    + intros bl rec Hb Hr. destruct (H2 bl rec Hb Hr) as (b' & [= <-] & ?). done.
    + intros cands' Hp. destruct (pickBestRecord_spec trusted now canonical cands') as [H1' H2'].
      destruct (H2' blob b) as (b' & Eb & Hle); [by rewrite Hp|done|]. rewrite Eb. simpl. f_equal.
      destruct (H1' b' Eb) as (bl' & Hin' & Hel'). rewrite Hp in Hin'.
      destruct (H2 bl' b' Hin' Hel') as (b2 & [= <-] & ?). lia.
  - intros blob Hb. destruct (eligible trusted now canonical blob) as [rec|] eqn:E; [|done].
    by destruct (H2 blob rec Hb E) as (? & ? & _).
Qed.

(** ** Publishing and resolving *)

Lemma lower_plain_utf8 s : forallb lower_plain s = true -> utf8_valid s = true.
Proof.
  intros Hs. apply utf8_valid_ascii. revert Hs. apply forallb_impl. unfold lower_plain, plain.
  intros b Hb. by zbool.
Qed.

Lemma hex_utf8 l : utf8_valid (hex_encode l) = true.
Proof. apply lower_plain_utf8, hex_encode_lower_plain. Qed.

Lemma record_Verify_Sign r id : id_wf id -> record_Verify (record_Sign r id) = true.
Proof.
  intros Hw. unfold record_Verify, record_Sign. cbn [r_PublicKey record_with_Sig].
  rewrite PublicKeyFromHex_ToHex by by apply id_wf_public.
  match goal with |- context [Verify _ ?a (r_Sig (record_with_Sig ?r (Sign _ ?b)))] =>
    change a with b; change (r_Sig (record_with_Sig r (Sign id b))) with (Sign id b) end.
  by rewrite Verify_Sign.
Qed.

(** The record [PublishWithTTL] signs. *)
Definition new_record (id : Identity) (name : bytes) (root : NodeID) (version ttl now : Z) : NameRecord :=
  record_Sign (MkRecord (CanonicalName name) [] (Hex root) version now ttl []) id.

Lemma new_record_fine id name root version ttl now :
  validName name = Ok tt -> in_int64 version -> in_int64 ttl -> in_int64 now ->
  record_fine (new_record id name root version ttl now).
Proof.
  intros Hv H1 H2 H3. unfold record_fine, new_record, record_Sign, record_with_Sig, PublicKeyToHex, Sign, Hex.
  cbn [r_Name r_PublicKey r_Root r_Version r_Timestamp r_TTL r_Sig].
  split_and!; try done; [by apply lower_plain_utf8, valid_lower_plain|apply hex_utf8..].
Qed.

(** A published copy passes every check of the vote while it is live. *)
Lemma new_record_eligible id name root version ttl now trusted now2 :
  id_wf id -> validName name = Ok tt -> in_int64 version -> in_int64 ttl -> in_int64 now ->
  registrarAllowed trusted (PublicKeyToHex (PublicKey id)) = true ->
  Expired (new_record id name root version ttl now) now2 = false ->
  eligible trusted now2 (CanonicalName name) (Marshal (new_record id name root version ttl now))
  = Ok (new_record id name root version ttl now).
Proof.
  intros Hid Hv H1 H2 H3 Ha He. apply eligible_Ok. split_and!; [|done| |done|done].
  - by apply (Unmarshal_Marshal (fine := record_fine)), new_record_fine.
  - by apply record_Verify_Sign.
Qed.

Definition complete_order (order : gset bytes -> list bytes) : Prop :=
  forall (s : gset bytes) v, v ∈ s <-> v ∈ order s.

Lemma Resolve_local e n d trusted name now order blob rec :
  dht_ok d -> net_ok n -> complete_order order -> validName name = Ok tt ->
  data (d_store d) !! Hex (RecordKey name) = Some blob ->
  eligible trusted now (CanonicalName name) blob = Ok rec ->
  exists best d', Resolve e n d trusted name now order = Some (Ok best, d')
    /\ r_Version rec <= r_Version best.
Proof.
  intros Hd Hn Ho Hv Hb He. unfold Resolve. rewrite Hv. cbv zeta.
  replace (RecordKey (CanonicalName name)) with (RecordKey name)
    by (unfold RecordKey; by rewrite valid_canonical).
  destruct (GetAllUnverified_spec e n d (RecordKey name) Hd Hn) as ([vs|] & d' & -> & _ & Hr).
  - destruct (pickBestRecord_spec trusted now (CanonicalName name) (order vs)) as [_ H2].
    destruct (H2 blob rec) as (best & Hbest & Hle); [by apply Ho, Hr|done|].
    destruct (pickBestRecord _ _ _ _) as [o why]. simpl in Hbest. rewrite Hbest. eauto.
  - destruct Hr as [Hr _]. by rewrite Hr in Hb.
Qed.

(** Nobody in the network serves another copy of the name's record that is as new. *)
Definition no_newer (n : net) (trusted : option (gset bytes)) (now : Z) (name : bytes) (rec : NameRecord) : Prop :=
  forall r c blob rec', value (sendFindValue n r (RecordKey name) c) = Some blob ->
    eligible trusted now (CanonicalName name) blob = Ok rec' -> rec' = rec \/ r_Version rec' < r_Version rec.

(** Then the copy the node has itself, or one that it asks for first, is what the
    name resolves to. *)
Lemma Resolve_freshest e n d trusted name now order blob rec :
  dht_ok d -> net_ok n -> complete_order order -> validName name = Ok tt ->
  let key := RecordKey name in
  (data (d_store d) !! Hex key = Some blob
   \/ exists c, c ∈ pick_batch ∅ (Closest (d_rt d) key K) /\ value (sendFindValue n 0 key c) = Some blob) ->
  eligible trusted now (CanonicalName name) blob = Ok rec ->
  (forall blob' rec', data (d_store d) !! Hex key = Some blob' ->
     eligible trusted now (CanonicalName name) blob' = Ok rec' -> rec' = rec \/ r_Version rec' < r_Version rec) ->
  no_newer n trusted now name rec ->
  exists d', Resolve e n d trusted name now order = Some (Ok rec, d').
Proof.
  intros Hd Hn Ho Hv key Hb He Hloc Hnew. unfold Resolve. rewrite Hv. cbv zeta.
  replace (RecordKey (CanonicalName name)) with key by (unfold key, RecordKey; by rewrite valid_canonical).
  destruct (GetAllUnverified_spec e n d key Hd Hn) as ([vs|] & d' & Eg & _ & Hr1 & Hr2); rewrite Eg.
  - destruct (pickBestRecord_spec trusted now (CanonicalName name) (order vs)) as [H1 H2].
    destruct (H2 blob rec) as (best & Hbest & Hle); [|done|].
    { apply Ho. destruct Hb as [Hb|(c & Hc & Hb)]; [by apply Hr1|by eapply Hr2]. }
    destruct (H1 best Hbest) as (bl & Hin & Hel). exists d'.
    assert (best = rec) as ->.
    { apply Ho in Hin. destruct (GetAllUnverified_elem _ _ _ _ _ _ _ Eg Hin) as [Hl|(r & c & Hval)].
      - destruct (Hloc bl best Hl Hel); [done|lia].
      - destruct (Hnew r c bl best Hval Hel); [done|lia]. }
    destruct (pickBestRecord _ _ _ _) as [o why]. cbn [fst] in Hbest. by rewrite Hbest.
  - destruct Hb as [Hb|(c & Hc & Hb)]; [by rewrite Hr1 in Hb|]. by rewrite (Hr2 c Hc) in Hb.
Qed.

Lemma Resolve_exact e n d trusted name now order blob rec :
  dht_ok d -> net_ok n -> complete_order order -> validName name = Ok tt ->
  data (d_store d) !! Hex (RecordKey name) = Some blob ->
  eligible trusted now (CanonicalName name) blob = Ok rec -> no_newer n trusted now name rec ->
  exists d', Resolve e n d trusted name now order = Some (Ok rec, d').
Proof.
  intros Hd Hn Ho Hv Hb He Hnew. apply (Resolve_freshest _ _ _ _ _ _ _ blob); try done; [by left|].
  intros blob' rec' Hb'. rewrite Hb in Hb'. injection Hb' as <-. rewrite He. intros [= <-]. by left.
Qed.

(** C12 (name.go, [PublishWithTTL], [Resolve]): publishing under a key that is
    not on the node's blocklist fails only for a name that is not valid or a
    record over the DHT's size limit.  Once it returns, the publishing node
    resolves the name as long as the record is live and the registrar allowed,
    whatever copies the network serves it, and to a record at least as new as the
    one published: stale replicas do not roll it back. *)
Theorem publish_then_resolve (e : put_env) (n : net) (d : DHT) (id : Identity) (name : bytes)
    (root : NodeID) (version ttl now : Z) :
  dht_ok d -> net_ok n -> id_wf id -> in_int64 version -> in_int64 ttl -> in_int64 now ->
  IsBlocked d (RecordKey name) = false ->
  match PublishWithTTL e n d id name root version ttl now with
  | Err err =>
      validName name = Err err
      \/ err = ErrRecordTooLarge
         /\ MaxValueSize < len (Marshal (new_record id name root version ttl now))
  | Ok (_, None) => False
  | Ok (rec, Some (d', replicas)) =>
      rec = new_record id name root version ttl now /\ record_Verify rec = true /\ (replicas <= K)%nat
      /\ forall e2 n2 trusted now2 order,
           net_ok n2 -> complete_order order ->
           registrarAllowed trusted (r_PublicKey rec) = true -> Expired rec now2 = false ->
           exists best d2, Resolve e2 n2 d' trusted name now2 order = Some (Ok best, d2)
             /\ version <= r_Version best
  end.
Proof.
  intros Hd Hn Hid H1 H2 H3 Hb. unfold PublishWithTTL.
  destruct (validName name) as [[]|err] eqn:Hv; [|by left]. cbv zeta.
  fold (new_record id name root version ttl now). set (rec := new_record _ _ _ _ _ _).
  destruct (Z.ltb_spec MaxValueSize (len (Marshal rec))); [by right|].
  pose proof (Store_spec e n d (RecordKey name) (Marshal rec) Hd Hn) as Hs.
  destruct (Store e n d (RecordKey name) (Marshal rec)) as [[[d' k]|]|err]; [|done|lia].
  destruct Hs as (Hd' & _ & Hk & Hl). rewrite Hb in Hl.
  split_and!; [done|by apply record_Verify_Sign|done|].
  intros e2 n2 trusted now2 order Hn2 Ho Ha He.
  apply (Resolve_local e2 n2 d' trusted name now2 order (Marshal rec) rec); try done.
  by apply new_record_eligible.
Qed.

End Name.

(** ** Concrete runs *)

Lemma alt_name_valid : validName (bs " Panmox.ALT. ") = Ok tt.
Proof. by vm_compute. Qed.

Lemma valid_name_canonical_witness :
  CanonicalName (bs " Panmox.ALT. ") = bs "panmox.alt"
  /\ RecordKey (bs "panmox.alt") = RecordKey (bs " Panmox.ALT. ").
Proof.
  assert (CanonicalName (bs " Panmox.ALT. ") = bs "panmox.alt") as E by by vm_compute.
  split; [exact E|]. destruct (valid_name_canonical (bs " Panmox.ALT. ")) as [_ H].
  destruct (H alt_name_valid) as (_ & _ & K). rewrite E in K. exact K.
Defined.

Definition sample_record : NameRecord :=
  MkRecord (bs "panmox.alt") [] (Hex (key_of 4)) 3 1700000000 DefaultNameTTL [].

Lemma expired_window_witness : Expired sample_record 1700000100 = false.
Proof.
  apply (expired_window sample_record 1700000100);
    unfold in_int64, MaxClockSkew, sample_record, DefaultNameTTL; simpl; lia.
Defined.

Lemma name_unblocked : IsBlocked carol (RecordKey (bs "Panmox.alt")) = false.
Proof. exact eq_refl. Qed.

Lemma publish_then_resolve_witness :
  exists rec d' k best d2,
    PublishWithTTL (at_time 6) serving carol (toy_identity Byte.x07) (bs "Panmox.alt")
      (key_of 4) 3 DefaultNameTTL 1700000000 = Ok (rec, Some (d', k))
    /\ record_Verify rec = true
    /\ Resolve (at_time 7) serving d' None (bs "Panmox.alt") 1700000100 elements = Some (Ok best, d2)
    /\ 3 <= r_Version best.
Proof.
  pose proof (publish_then_resolve (at_time 6) serving carol (toy_identity Byte.x07)
    (bs "Panmox.alt") (key_of 4) 3 DefaultNameTTL 1700000000 carol_ok serving_ok
    (toy_identity_wf _) ltac:(unfold in_int64; lia) ltac:(unfold in_int64, DefaultNameTTL; lia)
    ltac:(unfold in_int64; lia) name_unblocked) as H.
  destruct (PublishWithTTL _ _ _ _ _ _ _ _ _) as [[rec [[d' k]|]]|err].
  - destruct H as (Hrec & Hver & _ & Hres).
    destruct (Hres (at_time 7) serving None 1700000100 elements) as (best & d2 & Hr & Hb).
    + exact serving_ok.
    + intros s v. by rewrite elem_of_elements.
    + done.
    + rewrite Hrec. by vm_compute.
    + by exists rec, d', k, best, d2.
  - destruct H.
  - exfalso. destruct H as [H|[_ H]]; by vm_compute in H.
Defined.
