(* ===== verification/ContentStore.v ===== *)
(** * What the file layer needs of the DHT

    The files of apps/files call three operations of a [*dht.DHT]: [Get],
    [StoreLocal] and, in a goroutine, [Replicate].  They are the class
    [ContentStore]; [ReadLaws] and [ContentStoreLaws] are what the clients rely on.
    The instance at the end is the node of Dht.v and Lookup.v in an environment
    that answers the calls one after the other; NetworkStore.v has another, a network
    of such nodes. *)

From S2P Require Import Prelude GoStrings Encoding Json Sha256 Crypto Peer Revoke NodeId.
From S2P Require Import Blocklist Store Routing DhtWire Dht Lookup.

Class ContentStore (S : Type) := {
  cs_get : S -> NodeID -> result dht_error bytes * S;
  cs_store_local : S -> NodeID -> bytes -> result dht_error S;
  cs_replicate : S -> NodeID -> bytes -> S
}.

(** What a reader relies on.  [inv] is the invariant of the node; [keeps s k v] says
    that [s] serves [v] under its content address and will go on doing so. *)
Class ReadLaws (S : Type) `{ContentStore S} (inv : S -> Prop) (keeps : S -> NodeID -> bytes -> Prop) := {
  keeps_address s k v : keeps s k v -> ContentAddress v = k;
  get_inv s k : inv s -> inv (snd (cs_get s k));
  get_address s k v : inv s -> fst (cs_get s k) = Ok v -> ContentAddress v = k;
  get_kept s k v : inv s -> keeps s k v -> fst (cs_get s k) = Ok v;
  get_keeps s k k' v : inv s -> keeps s k' v -> keeps (snd (cs_get s k)) k' v
}.

(** What a node promises that keeps its own values; [roomy s] says that [s] keeps
    whatever is stored. *)
Class ContentStoreLaws (S : Type) `{ContentStore S} (inv roomy : S -> Prop)
    (keeps : S -> NodeID -> bytes -> Prop) := {
  #[global] laws_read :: ReadLaws S inv keeps;
  store_fails s k v : is_ok (cs_store_local s k v) = (len v <=? MaxValueSize);
  store_inv s k v s' : inv s -> cs_store_local s k v = Ok s' -> inv s';
  store_roomy s k v s' : roomy s -> cs_store_local s k v = Ok s' -> roomy s';
  store_kept s k v s' :
    roomy s -> ContentAddress v = k -> cs_store_local s k v = Ok s' -> keeps s' k v;
  store_keeps s k v s' k' v' :
    k <> k' -> keeps s k' v' -> cs_store_local s k v = Ok s' -> keeps s' k' v';
  replicate_inv s k v : inv s -> inv (cs_replicate s k v);
  replicate_roomy s k v : inv s -> roomy s -> roomy (cs_replicate s k v);
  replicate_keeps s k v k' v' : inv s -> keeps s k' v' -> keeps (cs_replicate s k v) k' v'
}.

(** ** The node as a content store *)

(** The calls are numbered; [world] says how the environment answers each. *)
Record node := MkNode { n_dht : DHT; n_tick : nat }.

Section Node.
Context (world : nat -> put_env * net).

Definition env_of (s : node) : put_env := fst (world (n_tick s)).
Definition net_of (s : node) : net := snd (world (n_tick s)).

(** A walk that runs out of rounds would leave the node as it is; it does not
    happen ([node_get_some]). *)
Definition node_get (s : node) (k : NodeID) : result dht_error bytes * node :=
  match Get (env_of s) (net_of s) (n_dht s) k with
  | Some (r, d) => (r, MkNode d (S (n_tick s)))
  | None => (Err ErrNotFound, s)
  end.

Definition node_store_local (s : node) (k : NodeID) (v : bytes) : result dht_error node :=
  match StoreLocal (env_of s) (n_dht s) k v with
  | Ok d => Ok (MkNode d (S (n_tick s)))
  | Err e => Err e
  end.

Definition node_replicate (s : node) (k : NodeID) (v : bytes) : node :=
  match Replicate (net_of s) (n_dht s) k v with
  | Some (d, _) => MkNode d (S (n_tick s))
  | None => s
  end.

#[global] Instance node_ContentStore : ContentStore node := {|
  cs_get := node_get; cs_store_local := node_store_local; cs_replicate := node_replicate
|}.

Definition node_inv (s : node) : Prop := dht_ok (n_dht s).

(** A blocklist that blocks nothing: there is none, or it is empty. *)
Definition unblocked (b : Blocklist) : Prop := b = None \/ b = Some ∅.

Lemma unblocked_key d k : unblocked (d_blocklist d) -> IsBlocked d k = false.
Proof. unfold IsBlocked. by intros [-> | ->]. Qed.

(** No byte budget, nothing blocked. *)
Definition node_roomy (s : node) : Prop :=
  maxBytes (d_store (n_dht s)) <= 0 /\ unblocked (d_blocklist (n_dht s)).

Definition node_keeps (s : node) (k : NodeID) (v : bytes) : Prop :=
  ContentAddress v = k /\ data (d_store (n_dht s)) !! Hex k = Some v /\ node_roomy s.

(** A put into a store without a budget changes one entry. *)
Lemma Put_unbounded e s k v :
  maxBytes s <= 0 -> data (Put e s k v) = <[Hex k := v]> (data s) /\ maxBytes (Put e s k v) = maxBytes s.
Proof.
  intros Hm. unfold Put, put, put_locked, admitted. rewrite bool_decide_eq_false_2 by tauto. simpl.
  assert (maxBytes (refund s (Hex k)) = maxBytes s /\ data (refund s (Hex k)) = data s) as [Em Ed]
    by (unfold refund; by repeat case_match).
  assert (evictToFit (pe_ord e) (len v) (refund s (Hex k)) = refund s (Hex k)) as ->.
  { unfold evictToFit. rewrite Em. by rewrite (proj2 (Z.leb_le _ _)). }
  simpl. destruct (dataDir _); simpl; by rewrite Ed, Em.
Qed.

Lemma Hex_inj k k' : Hex k = Hex k' -> k = k'.
Proof. intros E. pose proof (IDFromHex_Hex k) as H. rewrite E, IDFromHex_Hex in H. congruence. Qed.

(** What a verified search does to the node. *)
Lemma search_value_frame e n d k :
  dht_ok d ->
  exists r d', search_value e n d k true = Some (r, d') /\ dht_ok d'
    /\ d_blocklist d' = d_blocklist d
    /\ match r with
       | Ok v => ContentAddress v = k /\ d_store d' = Put e (d_store d) k v
       | Err _ => d_store d' = d_store d
       end.
Proof.
  intros Hd. unfold search_value. destruct (_ =? 0)%nat; [by eexists _, _|].
  destruct (start_walk_ends n (fun r c => sendFindValue n r k c)
    (fun v => negb true || Equal (ContentAddress v) k) k [] d Hd)
    as (w & -> & (P1 & _ & P3 & P4 & _ & _ & P7 & _) & _).
  destruct (w_found w) as [v|]; [|by eexists _, _]. eexists _, _. split; [done|].
  split; [exact P1|]. split; [exact P4|]. split; [apply ContentAddress_Equal, (P7 v eq_refl)|].
  simpl. by rewrite P3.
Qed.

(** [Get]: a local hit, or the outcome of a search. *)
Lemma Get_frame e n d k :
  dht_ok d ->
  exists r d', Get e n d k = Some (r, d') /\ dht_ok d' /\ d_blocklist d' = d_blocklist d
    /\ match r with Ok v => ContentAddress v = k | Err _ => True end
    /\ ((data (d_store d') = data (d_store d) /\ maxBytes (d_store d') = maxBytes (d_store d)
         /\ (IsBlocked d k = false -> forall v, data (d_store d) !! Hex k = Some v ->
               ContentAddress v = k -> r = Ok v))
        \/ exists v s, data s = data (d_store d) /\ maxBytes s = maxBytes (d_store d)
             /\ d_store d' = Put e s k v
             /\ (forall v0, data (d_store d) !! Hex k = Some v0 -> ContentAddress v0 <> k)).
Proof.
  intros Hd. unfold Get, getInner. destruct (IsBlocked d k);
    [by exists (Err ErrNotFound), d; split_and!; try done; left|].
  assert (forall s v, Store.Get (d_store d) (pe_now e) k = (s, v) ->
    v = data (d_store d) !! Hex k /\ data s = data (d_store d) /\ maxBytes s = maxBytes (d_store d)) as Hg.
  { intros s v. unfold Store.Get. destruct (data (d_store d) !! Hex k); intros [= <- <-]; done. }
  destruct (Store.Get (d_store d) (pe_now e) k) as [s local]. destruct (Hg s local eq_refl) as (-> & Hs & Hm).
  destruct (search_value_frame e n (with_store d s) k Hd) as (r & d' & Hr & Hd' & Hbl & Hpost).
  simpl negb. cbn [orb].
  assert (Hsearch : (forall v, data (d_store d) !! Hex k = Some v -> ContentAddress v <> k) ->
    exists r d', search_value e n (with_store d s) k true = Some (r, d') /\ dht_ok d'
    /\ d_blocklist d' = d_blocklist d
    /\ match r with Ok v => ContentAddress v = k | Err _ => True end
    /\ ((data (d_store d') = data (d_store d) /\ maxBytes (d_store d') = maxBytes (d_store d)
         /\ (false = false -> forall v, data (d_store d) !! Hex k = Some v ->
               ContentAddress v = k -> r = Ok v))
        \/ exists v s, data s = data (d_store d) /\ maxBytes s = maxBytes (d_store d)
             /\ d_store d' = Put e s k v
             /\ (forall v0, data (d_store d) !! Hex k = Some v0 -> ContentAddress v0 <> k))).
  { intros Hno. exists r, d'. split_and!; try done; [by destruct r as [v|]; [apply Hpost|]|].
    destruct r as [v|err]; [right|left].
    - exists v, s. split_and!; try done. apply Hpost.
    - rewrite Hpost. split_and!; [done|done|]. intros _ v Hv Ha. by destruct (Hno v Hv). }
  destruct (data (d_store d) !! Hex k) as [v|] eqn:Ev; [|by apply Hsearch].
  destruct (Equal (ContentAddress v) k) eqn:Eq.
  - apply ContentAddress_Equal in Eq. exists (Ok v), (with_store d s). split_and!; try done.
    left. split_and!; [done|done|]. intros _ v' [= ->]. done.
  - apply Hsearch. intros v' [= <-] Ha. apply ContentAddress_Equal in Ha. congruence.
Qed.

Lemma node_get_some s k :
  node_inv s -> exists r d, Get (env_of s) (net_of s) (n_dht s) k = Some (r, d).
Proof.
  intros Hi. destruct (Get_frame (env_of s) (net_of s) (n_dht s) k Hi) as (r & d & -> & _). eauto.
Qed.

Lemma Replicate_frame n d k v :
  dht_ok d ->
  exists d' c, Replicate n d k v = Some (d', c) /\ dht_ok d' /\ d_store d' = d_store d
    /\ d_blocklist d' = d_blocklist d.
Proof.
  intros Hd. unfold Replicate. destruct (IsBlocked d k); [by eexists _, _|].
  destruct (Lookup_Closest n k d Hd) as (d2 & -> & Hd2 & _ & _ & Hst & Hbl).
  set (targets := upd_order n _).
  pose proof (store_all_ok n max_rounds targets k v d2 Hd2) as H1.
  pose proof (store_all_store n max_rounds targets k v d2) as H2.
  pose proof (store_all_blocklist n max_rounds targets k v d2) as H3.
  destruct (store_all n max_rounds d2 targets k v) as [d3 c]. simpl in *.
  exists d3, c. split_and!; congruence.
Qed.

#[global] Instance node_read_laws : ReadLaws node node_inv node_keeps.
Proof.
  split; unfold node_inv; cbn [cs_get node_ContentStore].
  - by intros s k v [? _].
  - intros s k Hi. unfold node_get.
    by destruct (Get_frame (env_of s) (net_of s) (n_dht s) k Hi) as (r & d & -> & Hd & _).
  - intros s k v Hi. unfold node_get.
    destruct (Get_frame (env_of s) (net_of s) (n_dht s) k Hi) as (r & d & -> & _ & _ & Hr & _).
    simpl. by intros ->.
  - intros s k v Hi (Ha & Hv & Hm & Hb). unfold node_get.
    destruct (Get_frame (env_of s) (net_of s) (n_dht s) k Hi)
      as (r & d & -> & _ & _ & _ & [(_ & _ & Hk)|(v' & s' & _ & _ & _ & Hk)]).
    + simpl. apply Hk; [|done|done]. by apply unblocked_key.
    + by destruct (Hk v Hv).
  - intros s k k' v Hi (Ha & Hv & Hm & Hb). unfold node_get.
    destruct (Get_frame (env_of s) (net_of s) (n_dht s) k Hi)
      as (r & d & -> & _ & Hbl & _ & [(Hd & Hmx & _)|(v' & s' & Hd & Hmx & Hp & Hk)]);
      unfold node_keeps, node_roomy; simpl; rewrite Hbl.
    + by rewrite Hd, Hmx.
    + destruct (Put_unbounded (env_of s) s' k v') as [E1 E2]; [by rewrite Hmx|].
      rewrite Hp, E1, E2, Hd, Hmx. split_and!; try done.
      rewrite lookup_insert_ne; [done|]. intros E. apply Hex_inj in E. rewrite <- E in Hv, Ha. by destruct (Hk v Hv).
Qed.

#[global] Instance node_laws : ContentStoreLaws node node_inv node_roomy node_keeps.
Proof.
  split; unfold node_inv; cbn [cs_store_local cs_replicate node_ContentStore]; [exact node_read_laws|..].
  - intros s k v. unfold node_store_local, StoreLocal. destruct (Z.ltb_spec MaxValueSize (len v)).
    + simpl. symmetry. apply Z.leb_gt. done.
    + replace (len v <=? MaxValueSize) with true by (symmetry; by apply Z.leb_le).
      by destruct (IsBlocked _ _).
  - intros s k v s' Hi. unfold node_store_local, StoreLocal. repeat case_match; intros [= <-]; simplify_eq; done.
  - intros s k v s' [Hm Hb]. unfold node_store_local, StoreLocal. rewrite (unblocked_key _ k Hb).
    destruct (_ <? _); [done|]. intros [= <-]. split; simpl; [|done].
    by destruct (Put_unbounded (env_of s) (d_store (n_dht s)) k v Hm) as [_ ->].
  - intros s k v s' [Hm Hb] Ha. unfold node_store_local, StoreLocal. rewrite (unblocked_key _ k Hb).
    destruct (_ <? _); [done|]. intros [= <-].
    destruct (Put_unbounded (env_of s) (d_store (n_dht s)) k v Hm) as [E1 E2].
    unfold node_keeps, node_roomy; simpl. rewrite E1, E2, lookup_insert_eq. done.
  - intros s k v s' k' v' Hne (Ha & Hv & Hm & Hb). unfold node_store_local, StoreLocal. rewrite (unblocked_key _ k Hb).
    destruct (_ <? _); [done|]. intros [= <-].
    destruct (Put_unbounded (env_of s) (d_store (n_dht s)) k v Hm) as [E1 E2].
    unfold node_keeps, node_roomy; simpl. rewrite E1, E2, lookup_insert_ne; [done|].
    intros E. by apply Hne, Hex_inj.
  - intros s k v Hi. unfold node_replicate.
    by destruct (Replicate_frame (net_of s) (n_dht s) k v Hi) as (d & c & -> & ? & _).
  - intros s k v Hi Hr. unfold node_replicate.
    destruct (Replicate_frame (net_of s) (n_dht s) k v Hi) as (d & c & -> & _ & Hs & Hb).
    unfold node_roomy in *; simpl. by rewrite Hs, Hb.
  - intros s k v k' v' Hi Hr. unfold node_replicate.
    destruct (Replicate_frame (net_of s) (n_dht s) k v Hi) as (d & c & -> & _ & Hs & Hb).
    unfold node_keeps, node_roomy in *; simpl. by rewrite Hs, Hb.
Qed.

End Node.
