(* ===== verification/Cluster.v ===== *)
(** * A network of nodes

    Several nodes that run the code of Dht.v and Lookup.v and are each other's
    network: a request one of them makes is answered by the message handler of
    the host that listens at the address.  On the way a message is signed by its
    sender and takes the request ID of the call, as [Peer.Request] and
    [Peer.Reply] do; that a connection delivers it unchanged is [session_delivers]
    in Session.v.

    Find-node requests change nothing at the host that answers, and the store
    requests of a replication go to different hosts, so the answers a node gets
    during one operation are those of the network as it was when the operation
    began ([stores_do_not_interfere]). *)

From S2P Require Import Prelude GoStrings Encoding Json Sha256 Crypto Peer Revoke NodeId.
From S2P Require Import Blocklist Store Routing DhtWire Dht Lookup ContentStore.

(** ** Contacts in a table *)

(** A property of contacts that does not depend on when they were seen and holds of
    the union of two entries for one peer. *)
Class ContactProp (P : Contact -> Prop) := {
  prop_seen c t : P c -> P (set_LastSeen c t);
  prop_merge f p : ID f = ID p -> P f -> P p -> P (mergeAddresses f p)
}.

Section TableContacts.
Context (P : Contact -> Prop) `{ContactProp P}.

Definition table_all (d : DHT) : Prop := Forall P (All (d_rt d)).

Lemma with_bucket_all rt i b :
  Forall P (All rt) -> Forall P b -> Forall P (All (with_bucket rt i b)).
Proof.
  unfold All. rewrite !Forall_concat. intros Ha Hb. by apply Forall_insert.
Qed.

Lemma bucket_at_all rt i : Forall P (All rt) -> Forall P (bucket_at rt i).
Proof.
  unfold All, bucket_at. rewrite Forall_concat. intros Ha.
  destruct (buckets rt !! i) as [b|] eqn:E; [|apply Forall_nil_2]. by eapply Forall_lookup_1.
Qed.

Lemma remove_at_all i (b : list Contact) : Forall P b -> Forall P (remove_at i b).
Proof. intros Hb. apply Forall_app. split; [by apply Forall_take|by apply Forall_drop]. Qed.

Lemma rt_update_all d c now : table_all d -> P c -> table_all (rt_update d c now).
Proof.
  unfold table_all, rt_update, Update. intros Ha Hc. destruct (Equal _ _); [done|]. cbv zeta.
  set (b := bucket_at _ _). assert (Forall P b) as Hb by by apply bucket_at_all.
  destruct (find_id _ b) as [[i x]|] eqn:Ef; cbn [fst d_rt with_rt].
  - apply find_id_Some in Ef as [Hi Hid]. apply with_bucket_all; [done|].
    apply Forall_app. split; [by apply remove_at_all|]. apply Forall_singleton.
    apply prop_merge; [done|by apply prop_seen|]. by eapply Forall_lookup_1.
  - destruct (_ <? _)%nat.
    + apply with_bucket_all; [done|]. apply Forall_app. split; [done|].
      apply Forall_singleton. by apply prop_seen.
    + destruct (negb _); [done|]. by destruct b.
Qed.

Lemma hint_all_contacts l d : table_all d -> Forall P l -> table_all (hint_all d l).
Proof.
  unfold hint_all. intros Hd Hl. revert d Hd. induction Hl as [|c l Hc _ IH]; intros d Hd; [done|].
  cbn [foldl]. destruct (Equal _ _); [by apply IH|]. apply IH. unfold table_all. cbn [d_rt with_rt].
  unfold Hint. destruct (Equal _ _); [done|]. cbv zeta. destruct (find_id _ _); [done|].
  destruct (_ <? _)%nat; [|done]. apply with_bucket_all; [done|].
  apply Forall_cons. split; [by apply prop_seen|by apply bucket_at_all].
Qed.

Lemma update_all_contacts now l d : table_all d -> Forall P l -> table_all (update_all now d l).
Proof.
  unfold update_all. intros Hd Hl. revert d Hd. induction Hl as [|c l Hc _ IH]; intros d Hd; [done|].
  cbn [foldl]. by apply IH, rt_update_all.
Qed.

Lemma Closest_all d target n : table_all d -> Forall P (Closest (d_rt d) target n).
Proof.
  intros Hd. apply Forall_forall. intros c Hc. eapply Forall_forall; [exact Hd|].
  by eapply Closest_elem.
Qed.

(** When only such contacts are learned, a walk leaves only such contacts. *)
Lemma walk_contacts n rpc stop target fuel round queried seen d w :
  net_ok n -> (forall r c, P c -> Forall P (nodes (rpc r c))) -> table_all d ->
  walk fuel n rpc stop target round queried (Closest (d_rt d) target K) seen d = Some w ->
  table_all (w_dht w).
Proof.
  intros Hn Hrpc. revert round queried seen d.
  induction fuel as [|fuel IH]; intros round queried seen d Hd; [done|]. cbn [walk].
  case_bool_decide; [intros [= <-]; done|].
  set (batch := pick_batch queried _) in *.
  assert (Forall P batch) as Hb.
  { apply Forall_forall. intros c Hc. apply pick_batch_elem in Hc as [Hc _].
    eapply Forall_forall; [by apply Closest_all|exact Hc]. }
  set (d1 := update_all _ d _).
  assert (table_all d1) as Hd1.
  { apply update_all_contacts; [done|]. apply Forall_forall. intros c Hc.
    rewrite (proj1 (Hn _)) in Hc. apply list_elem_of_In, filter_In in Hc as [Hc _].
    apply list_elem_of_In in Hc. by eapply Forall_forall. }
  destruct (list_find _ _) as [[i v]|]; [intros [= <-]; done|].
  set (d2 := hint_all d1 _).
  assert (table_all d2) as Hd2.
  { apply hint_all_contacts; [done|]. apply Forall_concat, Forall_fmap, Forall_fmap.
    apply Forall_forall. intros c Hc. apply Hrpc.
    rewrite (proj2 (Hn batch)) in Hc. eapply Forall_forall; [exact Hb|exact Hc]. }
  case_bool_decide; [intros [= <-]; done|]. by apply IH.
Qed.

End TableContacts.

(** The closest of the peers a node knows is the first contact it asks. *)
Lemma Closest_nearest d key k n :
  (0 < n)%nat -> Hex k ∈ ids (d_rt d) ->
  table_all (fun c => distanceBigInt key k <= distanceBigInt key (ID c)) d ->
  exists c rest, Closest (d_rt d) key n = c :: rest /\ ID c = k.
Proof.
  intros Hn (c0 & Hc0 & Hk)%elem_of_ids Hall. apply (inj Hex) in Hk.
  destruct (Closest_sorted (d_rt d) key n) as (Hl & Hs & rest & Hp & Hle).
  assert (0 < Size (d_rt d))%nat as Hsz.
  { rewrite Size_All. destruct (All (d_rt d)); [by apply not_elem_of_nil in Hc0|simpl; lia]. }
  destruct (Closest (d_rt d) key n) as [|c out] eqn:E; [simpl in Hl; lia|].
  exists c, out. split; [done|]. apply (distance_inj key). apply Z.le_antisymm.
  - assert (closer key c c0) as Hcl; [|unfold closer in Hcl; by rewrite Hk in Hcl].
    rewrite Hp, elem_of_app in Hc0. destruct Hc0 as [[->|Hin]%elem_of_cons|Hin]; [done| |].
    + inversion Hs as [|? ? _ Hf]; subst. by eapply Forall_forall in Hf.
    + apply Hle; [by left|done].
  - eapply (Forall_forall (fun c => distanceBigInt key k <= distanceBigInt key (ID c))); [exact Hall|].
    eapply Closest_elem. rewrite E. by left.
Qed.

(** ** Hosts *)

(** A host is an identity and the node that runs under it.  Hosts go by the
    hexadecimal text of their ID; [book] says whose listener an address reaches. *)
Record host := MkHost { h_id : Identity; h_dht : DHT }.

Record cluster := MkCluster { hosts : gmap bytes host; book : gmap bytes bytes }.

Definition set_host (x : bytes) (h : host) (cl : cluster) : cluster :=
  MkCluster (<[x := h]> (hosts cl)) (book cl).

Section Hosts.
Context `{GoUnicode} `{Ed25519}.

(** What the clocks, disks and random sources of the hosts do: the environment of
    each host, the request ID a call takes, and the name a connection from a peer
    has at the other end. *)
Context (env : bytes -> put_env * Time) (rid : nat -> bytes -> bytes) (via : Identity -> bytes).
Context (upd app : list Contact -> list Contact) (clk : nat -> Time).

(** The first reply among the effects of a handler, as it is sent. *)
Definition reply_of (h : host) (effs : list effect) : option Message :=
  head (omap (fun e => match e with
                       | Reply _ req r => Some (Wire.seal (h_id h) (reply_message req r))
                       | _ => None
                       end) effs).

(** A request of [from] to the address [addr]: the reply, if there is one, and the
    network after it.  A host whose handler panics is gone. *)
Definition deliver (cl : cluster) (from : Identity) (round : nat) (addr : bytes) (msg : Message)
  : option Message * cluster :=
  match book cl !! addr with
  | None => (None, cl)
  | Some x =>
      match hosts cl !! x with
      | None => (None, cl)
      | Some h =>
          match HandleMessage (env x).1 (env x).2 (h_dht h) (via from)
                  (Wire.seal from (with_ReqID msg (rid round addr))) with
          | Panic => (None, MkCluster (delete x (hosts cl)) (book cl))
          | Ret (d, effs) => (reply_of h effs, set_host x (MkHost (h_id h) d) cl)
          end
      end
  end.

(** The network a node sees. *)
Definition network (cl : cluster) (me : Identity) : net :=
  MkNet (fun round _ addr msg => (deliver cl me round addr msg).1) upd app clk.

(** A request to a contact goes to its addresses in turn until one replies. *)
Fixpoint deliver_any (cl : cluster) (from : Identity) (round : nat) (addrs : list bytes) (msg : Message)
  : cluster :=
  match addrs with
  | [] => cl
  | a :: addrs =>
      match deliver cl from round a msg with
      | (Some _, cl) => cl
      | (None, cl) => deliver_any cl from round addrs msg
      end
  end.

(** The contacts [Replicate] sends the value to. *)
Definition replicate_targets (n : net) (d : DHT) (key : NodeID) : list Contact :=
  if IsBlocked d key then [] else
  match Lookup n key d with
  | None => []
  | Some (targets, d) => upd_order n (List.filter (fun c => negb (Equal (ID c) (d_self d))) targets)
  end.

Definition deliver_stores (cl : cluster) (from : Identity) (targets : list Contact) (key : NodeID)
    (v : bytes) : cluster :=
  foldl (fun cl c => deliver_any cl from max_rounds (AllAddresses c) (store_request key v)) cl targets.

(** Host [x] calls [Store]. *)
Definition cluster_store (cl : cluster) (x : bytes) (key : NodeID) (v : bytes)
  : option (cluster * nat) :=
  match hosts cl !! x with
  | None => None
  | Some h =>
      let n := network cl (h_id h) in
      match StoreLocal (env x).1 (h_dht h) key v with
      | Err _ => None
      | Ok d =>
          match Store (env x).1 n (h_dht h) key v with
          | Ok (Some (d', replicas)) =>
              Some (set_host x (MkHost (h_id h) d')
                      (deliver_stores cl (h_id h) (replicate_targets n d key) key v), replicas)
          | _ => None
          end
      end
  end.

(** Host [x] calls [Get]. *)
Definition cluster_get (cl : cluster) (x : bytes) (key : NodeID) : option (result dht_error bytes) :=
  match hosts cl !! x with
  | None => None
  | Some h => fst <$> Get (env x).1 (network cl (h_id h)) (h_dht h) key
  end.

(** * Facts *)

(** ** Answers *)

Lemma HandleMessage_find_node e unix d a msg :
  m_Type msg = bs "dht_find_node" -> HandleMessage e unix d a msg = Ret (d, handleFindNode d a msg).
Proof. intros E. unfold HandleMessage. by rewrite E. Qed.

Lemma HandleMessage_store e unix d a msg :
  m_Type msg = bs "dht_store" -> HandleMessage e unix d a msg = Ret (handleStore e d a msg).
Proof. intros E. unfold HandleMessage. by rewrite E. Qed.

Lemma HandleMessage_find_value e unix d a msg :
  m_Type msg = bs "dht_find_value" -> HandleMessage e unix d a msg = Ret (handleFindValue (pe_now e) d a msg).
Proof. intros E. unfold HandleMessage. by rewrite E. Qed.

Lemma find_node_parses target msg :
  m_Payload msg = m_Payload (find_node_request target) ->
  Unmarshal (m_Payload msg) = Some (MkFindNode (Hex target)).
Proof. intros ->. cbn [find_node_request m_Payload mk_message]. apply Unmarshal_Marshal. apply Hex_text. Qed.

(** A find-node request changes nothing and is answered with the closest contacts. *)
Lemma deliver_find_node cl from round addr x h target :
  book cl !! addr = Some x -> hosts cl !! x = Some h ->
  exists r, deliver cl from round addr (find_node_request target) = (Some r, set_host x h cl)
    /\ m_Type r = bs "dht_nodes"
    /\ m_Payload r = Marshal (MkNodes (to_wire <$> Closest (d_rt (h_dht h)) target K)).
Proof.
  intros Hx Hh. unfold deliver. rewrite Hx, Hh.
  set (req := Wire.seal from _). rewrite (HandleMessage_find_node _ _ _ _ req) by done.
  unfold handleFindNode. rewrite (find_node_parses target req) by done. cbn [fn_Target].
  rewrite IDFromHex_Hex. eexists. split; [destruct h; reflexivity|]. done.
Qed.

(** A find-value request to a host that has the value is answered with it. *)
Lemma deliver_find_value cl from round addr x h key v :
  book cl !! addr = Some x -> hosts cl !! x = Some h ->
  IsBlocked (h_dht h) key = false -> data (d_store (h_dht h)) !! Hex key = Some v ->
  exists r cl', deliver cl from round addr (find_value_request key) = (Some r, cl')
    /\ m_Type r = bs "dht_value" /\ value_of_reply r = Some v.
Proof.
  intros Hx Hh Hb Hv. unfold deliver. rewrite Hx, Hh.
  set (req := Wire.seal from _). rewrite (HandleMessage_find_value _ _ _ _ req) by done.
  rewrite (handleFindValue_eq _ _ _ _ key) by by apply find_request_is.
  rewrite Hb. unfold Store.Get. rewrite Hv. eexists _, _. split; [reflexivity|]. split; [done|].
  exact (value_reply v).
Qed.

(** A store request the host admits is acknowledged, and the host has the value. *)
Lemma deliver_store cl from round addr x h key v :
  book cl !! addr = Some x -> hosts cl !! x = Some h ->
  len v <= MaxValueSize -> IsBlocked (h_dht h) key = false ->
  admitted (d_store (h_dht h)) (Hex key) (len v) (Identity_ID from) = true ->
  exists r h', deliver cl from round addr (store_request key v) = (Some r, set_host x h' cl)
    /\ m_Type r = bs "dht_stored"
    /\ data (d_store (h_dht h')) !! Hex key = Some v /\ IsBlocked (h_dht h') key = false.
Proof.
  intros Hx Hh Hl Hb Ha. unfold deliver. rewrite Hx, Hh.
  set (req := Wire.seal from _). rewrite (HandleMessage_store _ _ _ _ req) by done.
  rewrite (handleStore_eq _ _ _ _ key v) by by apply store_request_is.
  destruct (Z.ltb_spec MaxValueSize (len v)); [lia|]. rewrite Hb.
  change (m_From req) with (Identity_ID from).
  assert (snd (put (env x).1 (d_store (h_dht h)) key v (Identity_ID from)) = true) as Hacc
    by (unfold put, put_locked; by rewrite Ha).
  pose proof (put_get (env x).1 (d_store (h_dht h)) key v (Identity_ID from) 0 Hacc) as Hget.
  unfold PutAttributed. destruct (put _ _ _ _ _) as [s b]. simpl in Hacc, Hget. subst b.
  eexists _, _. split; [reflexivity|]. split; [done|]. split; [|exact Hb].
  unfold Store.Get in Hget. cbn [h_dht with_store d_store].
  by destruct (data s !! Hex key).
Qed.

(** A request reaches one host: the others are as they were. *)
Lemma deliver_others cl from round addr msg y :
  book cl !! addr <> Some y ->
  hosts (deliver cl from round addr msg).2 !! y = hosts cl !! y
  /\ book (deliver cl from round addr msg).2 = book cl.
Proof.
  intros Hy. unfold deliver. destruct (book cl !! addr) as [x|] eqn:Ex; [|done].
  destruct (hosts cl !! x) as [h|]; [|done]. assert (x <> y) as Hne by congruence.
  destruct (HandleMessage _ _ _ _ _) as [[d effs]|]; cbn [snd hosts set_host book].
  - by rewrite lookup_insert_ne.
  - by rewrite lookup_delete_ne.
Qed.

(** ** A network in order *)

(** A contact whose addresses are those of the peer it names. *)
Definition genuine (cl : cluster) (c : Contact) : Prop :=
  Address c <> [] /\ contact_text c
  /\ forall a, a ∈ AllAddresses c -> book cl !! a = Some (Hex (ID c)).

#[export] Instance genuine_prop cl : ContactProp (genuine cl).
Proof.
  split; [done|]. intros f p Hid (Hf1 & [Hf2 Hf3] & Hf4) (Hp1 & [Hp2 Hp3] & Hp4).
  assert (forall c a, Address c <> [] -> a = Address c \/ a ∈ AltAddresses c -> a ∈ AllAddresses c) as Hin.
  { intros c a Hc. unfold AllAddresses. rewrite bool_decide_eq_false_2 by done. set_solver. }
  split; [done|]. split.
  - split; [done|]. apply Forall_forall. intros a Ha. apply mergeAddresses_alts in Ha as (_ & _ & [Ha|[->|Ha]]).
    + by eapply Forall_forall in Hf3.
    + done.
    + by eapply Forall_forall in Hp3.
  - intros a. unfold AllAddresses at 1. rewrite bool_decide_eq_false_2 by done.
    rewrite mergeAddresses_ID. intros [->%list_elem_of_singleton|Ha]%elem_of_app; [by apply Hf4, Hin; [|left]|].
    apply mergeAddresses_alts in Ha as (_ & _ & [Ha|Ha]); [by apply Hf4, Hin; [|right]|].
    rewrite Hid. by apply Hp4, Hin.
Qed.

(** Every host runs under its own ID, with a well-formed table of genuine contacts. *)
Definition cluster_ok (cl : cluster) : Prop :=
  forall x h, hosts cl !! x = Some h ->
    dht_ok (h_dht h) /\ Hex (d_self (h_dht h)) = x /\ table_all (genuine cl) (h_dht h).

(** No peer that listens anywhere is closer to [key] than [k]. *)
Definition nearest (cl : cluster) (key k : NodeID) : Prop :=
  forall a x, book cl !! a = Some x ->
    exists id, x = Hex id /\ distanceBigInt key k <= distanceBigInt key id.

(** Host [x] is the peer [k] or has it in its table. *)
Definition knows (cl : cluster) (x : bytes) (k : NodeID) : Prop :=
  x = Hex k \/ exists h, hosts cl !! x = Some h /\ Hex k ∈ ids (d_rt (h_dht h)).

Lemma genuine_primary cl c : genuine cl c -> book cl !! Address c = Some (Hex (ID c)).
Proof.
  intros (Ha & _ & Hb). apply Hb. unfold AllAddresses. rewrite bool_decide_eq_false_2 by done. by left.
Qed.

Lemma AllAddresses_primary c : Address c <> [] -> AllAddresses c = Address c :: AltAddresses c.
Proof. intros Ha. unfold AllAddresses. by rewrite bool_decide_eq_false_2. Qed.

Lemma genuine_far cl key k d :
  nearest cl key k -> table_all (genuine cl) d ->
  table_all (fun c => distanceBigInt key k <= distanceBigInt key (ID c)) d.
Proof.
  intros Hn Hd. eapply Forall_impl; [exact Hd|]. intros c Hc. apply genuine_primary in Hc.
  destruct (Hn _ _ Hc) as (id & E & Hle). apply (inj Hex) in E. by subst.
Qed.

(** Contacts learned from such a network are genuine. *)
Lemma FindNode_genuine cl me round target c :
  cluster_ok cl -> genuine cl c -> Forall (genuine cl) (nodes (FindNode (network cl me) round target c)).
Proof.
  intros Hok Hc. unfold FindNode, requestContact.
  destruct (try_addresses _ _) as [r|] eqn:Er; [|apply Forall_nil_2].
  assert (exists x h, hosts cl !! x = Some h /\ m_Type r = bs "dht_nodes"
    /\ m_Payload r = Marshal (MkNodes (to_wire <$> Closest (d_rt (h_dht h)) target K))) as (x & h & Hh & Ht & Hp).
  { destruct Hc as (_ & _ & Hb). revert Er Hb. generalize (AllAddresses c). clear -H0.
    induction l as [|a l IH]; [done|]. cbn [try_addresses network request].
    destruct (deliver cl me round a _) as [[r'|] cl'] eqn:Ed; [|intros; apply IH; set_solver].
    intros [= <-] Hb. specialize (Hb a ltac:(by left)).
    destruct (hosts cl !! Hex (ID c)) as [h|] eqn:Eh.
    - destruct (deliver_find_node cl me round a _ h target Hb Eh) as (r & Hd & H1 & H2).
      rewrite Ed in Hd. simplify_eq. eauto 6.
    - unfold deliver in Ed. by rewrite Hb, Eh in Ed. }
  rewrite bool_decide_eq_true_2 by done. cbn [negb]. unfold nodes_of_reply. rewrite Hp.
  destruct (Hok x h Hh) as (_ & _ & Hg).
  assert (Forall (genuine cl) (Closest (d_rt (h_dht h)) target K)) as Hcl by (by apply Closest_all).
  rewrite Unmarshal_Marshal.
  - cbn [np_Contacts nodes]. rewrite from_to_wire. apply Forall_fmap.
    eapply Forall_impl; [exact Hcl|]. intros c' Hc'. by apply (prop_seen c' 0).
  - cbn [np_Contacts]. apply Forall_fmap. eapply Forall_impl; [exact Hcl|].
    intros c' (_ & Ht' & _). by apply to_wire_fine.
Qed.

Lemma Lookup_genuine cl me key d l d' :
  cluster_ok cl -> net_ok (network cl me) -> table_all (genuine cl) d ->
  Lookup (network cl me) key d = Some (l, d') -> table_all (genuine cl) d'.
Proof.
  intros Hok Hn Hd. unfold Lookup. destruct (start_walk _ _ _ _ _ _) as [w|] eqn:Ew; [|discriminate].
  intros El. injection El as _ <-. eapply (walk_contacts (genuine cl)); [exact Hn| |exact Hd|exact Ew].
  intros r c Hc. exact (FindNode_genuine cl me r key c Hok Hc).
Qed.

(** The nearest peer is among those a value is replicated to. *)
Lemma replicate_targets_nearest cl me key k d :
  cluster_ok cl -> net_ok (network cl me) -> dht_ok d -> table_all (genuine cl) d ->
  nearest cl key k -> Hex k ∈ ids (d_rt d) -> k <> d_self d -> IsBlocked d key = false ->
  Forall (genuine cl) (replicate_targets (network cl me) d key)
  /\ exists c, c ∈ replicate_targets (network cl me) d key /\ ID c = k.
Proof.
  intros Hok Hn Hd Hg Hnear Hk Hne Hb. unfold replicate_targets. rewrite Hb.
  destruct (Lookup_Closest (network cl me) key d Hd) as (d' & El & Hd' & Hs' & Hi & _). rewrite El.
  pose proof (Lookup_genuine cl me key d _ d' Hok Hn Hg El) as Hg'.
  destruct (Closest_nearest d' key k K) as (c & rest & Ec & Hc);
    [unfold K; lia|by apply Hi|by eapply genuine_far|]. split.
  - apply Forall_forall. intros x Hx. rewrite (proj1 (Hn _)) in Hx.
    apply list_elem_of_In, filter_In in Hx as [Hx _]. apply list_elem_of_In in Hx.
    eapply Forall_forall; [|exact Hx]. by apply Closest_all.
  - exists c. split; [|done]. rewrite (proj1 (Hn _)). apply list_elem_of_In, filter_In. split.
    + apply list_elem_of_In. rewrite Ec. by left.
    + rewrite Hs', Hc, Equal_spec, bool_decide_eq_false_2 by done. done.
Qed.

(** ** What stores do to the network *)

(** The same host with another store. *)
Definition same_table (h h' : host) : Prop :=
  h_id h' = h_id h /\ exists s, h_dht h' = with_store (h_dht h) s.

Definition kept (cl cl' : cluster) : Prop :=
  book cl' = book cl
  /\ forall y h, hosts cl !! y = Some h -> exists h', hosts cl' !! y = Some h' /\ same_table h h'.

#[export] Instance kept_preorder : PreOrder kept.
Proof.
  split.
  - intros cl. split; [done|]. intros y h Hh. exists h. split; [done|]. split; [done|].
    exists (d_store (h_dht h)). by destruct (h_dht h).
  - intros c1 c2 c3 [B1 H1] [B2 H2]. split; [congruence|]. intros y h Hh.
    destruct (H1 y h Hh) as (h2 & Hh2 & E2 & s2 & Es2). destruct (H2 y h2 Hh2) as (h3 & Hh3 & E3 & s3 & Es3).
    exists h3. split; [done|]. split; [congruence|]. exists s3. by rewrite Es3, Es2.
Qed.

Definition holds (cl : cluster) (x : bytes) (key : NodeID) (v : bytes) : Prop :=
  exists h, hosts cl !! x = Some h /\ IsBlocked (h_dht h) key = false
    /\ data (d_store (h_dht h)) !! Hex key = Some v.

(** A value that is stored is there afterwards, and one that is there stays when it
    is stored again. *)
Lemma put_holds e s key v from :
  data (put e s key v from).1 !! Hex key = Some v \/ (put e s key v from).1 = s.
Proof.
  destruct (put e s key v from).2 eqn:Ea.
  - left. pose proof (put_get e s key v from 0 Ea) as Hg. unfold Store.Get in Hg.
    by destruct (data (put e s key v from).1 !! Hex key).
  - right. unfold put, put_locked in *. by destruct (admitted _ _ _ _).
Qed.

Lemma deliver_store_kept cl from round addr key v :
  let cl' := (deliver cl from round addr (store_request key v)).2 in
  kept cl cl' /\ forall x, holds cl x key v -> holds cl' x key v.
Proof.
  unfold deliver. destruct (book cl !! addr) as [x|]; [|done].
  destruct (hosts cl !! x) as [h|] eqn:Eh; [|done].
  set (req := Wire.seal from _). rewrite (HandleMessage_store _ _ _ _ req) by done.
  rewrite (handleStore_eq _ _ _ _ key v) by by apply store_request_is.
  assert (forall s, (data s !! Hex key = Some v \/ s = d_store (h_dht h)) ->
    let cl' := set_host x (MkHost (h_id h) (with_store (h_dht h) s)) cl in
    kept cl cl' /\ forall x, holds cl x key v -> holds cl' x key v) as Hset.
  { intros s Hs cl'. split.
    - split; [done|]. intros y hy Hy. destruct (decide (y = x)) as [->|Hne].
      + exists (MkHost (h_id h) (with_store (h_dht h) s)). cbn [cl' set_host hosts].
        rewrite lookup_insert_eq. rewrite Eh in Hy. injection Hy as <-. split; [done|]. split; [done|]. by exists s.
      + exists hy. cbn [cl' set_host hosts]. rewrite lookup_insert_ne by done. split; [done|]. split; [done|].
        exists (d_store (h_dht hy)). by destruct (h_dht hy).
    - intros y (hy & Hy & Hby & Hv). destruct (decide (y = x)) as [->|Hne].
      + rewrite Eh in Hy. injection Hy as <-. exists (MkHost (h_id h) (with_store (h_dht h) s)).
        cbn [cl' set_host hosts h_dht]. rewrite lookup_insert_eq. split_and!; [done|done|].
        cbn [with_store d_store]. by destruct Hs as [?| ->].
      + exists hy. cbn [cl' set_host hosts]. by rewrite lookup_insert_ne. }
  pose proof (Hset (d_store (h_dht h)) (or_intror eq_refl)) as Hsame.
  assert (with_store (h_dht h) (d_store (h_dht h)) = h_dht h) as Hid by by destruct (h_dht h).
  rewrite Hid in Hsame.
  destruct (MaxValueSize <? len v); [exact Hsame|]. destruct (IsBlocked (h_dht h) key); [exact Hsame|].
  unfold PutAttributed. pose proof (put_holds (env x).1 (d_store (h_dht h)) key v (m_From req)) as Hp.
  destruct (put _ _ _ _ _) as [s acc]. by apply Hset.
Qed.

Lemma deliver_any_kept cl from round addrs key v :
  let cl' := deliver_any cl from round addrs (store_request key v) in
  kept cl cl' /\ forall x, holds cl x key v -> holds cl' x key v.
Proof.
  revert cl. induction addrs as [|a addrs IH]; intros cl; [done|]. cbn [deliver_any].
  pose proof (deliver_store_kept cl from round a key v) as [Hk Hh].
  destruct (deliver cl from round a _) as [[r|] cl1]; cbn [snd] in *; [done|].
  destruct (IH cl1) as [Hk' Hh']. split; [by etrans|eauto].
Qed.

Lemma deliver_stores_kept targets cl from key v :
  let cl' := deliver_stores cl from targets key v in
  kept cl cl' /\ forall x, holds cl x key v -> holds cl' x key v.
Proof.
  unfold deliver_stores. revert cl. induction targets as [|c targets IH]; intros cl; [done|]. cbn [foldl].
  destruct (deliver_any_kept cl from max_rounds (AllAddresses c) key v) as [Hk Hh].
  destruct (IH (deliver_any cl from max_rounds (AllAddresses c) (store_request key v))) as [Hk' Hh'].
  split; [by etrans|eauto].
Qed.

(** Stores to other peers do not change what host [x] is. *)
Lemma stores_do_not_interfere cl from targets key v x :
  Forall (fun c => forall a, a ∈ AllAddresses c -> book cl !! a <> Some x) targets ->
  hosts (deliver_stores cl from targets key v) !! x = hosts cl !! x.
Proof.
  unfold deliver_stores. intros Hall.
  enough (forall cl', book cl' = book cl -> hosts cl' !! x = hosts cl !! x ->
    hosts (foldl (fun cl c => deliver_any cl from max_rounds (AllAddresses c) (store_request key v)) cl' targets)
      !! x = hosts cl !! x) as Hgen by by apply Hgen.
  induction Hall as [|c targets Hc _ IH]; intros cl' Hb Hx; [done|]. cbn [foldl].
  assert (forall addrs cl', (forall a, a ∈ addrs -> book cl !! a <> Some x) -> book cl' = book cl ->
    hosts cl' !! x = hosts cl !! x ->
    book (deliver_any cl' from max_rounds addrs (store_request key v)) = book cl
    /\ hosts (deliver_any cl' from max_rounds addrs (store_request key v)) !! x = hosts cl !! x) as Hany.
  { clear. intros addrs. induction addrs as [|a addrs IHa]; intros cl' Ha Hb Hx; [done|]. cbn [deliver_any].
    destruct (deliver_others cl' from max_rounds a (store_request key v) x) as [E1 E2];
      [rewrite Hb; apply Ha; by left|].
    destruct (deliver cl' from max_rounds a _) as [[r|] cl1]; cbn [snd] in *; [by rewrite E2, E1|].
    apply IHa; [intros a' Ha'; apply Ha; by right|by rewrite E2|by rewrite E1]. }
  destruct (Hany (AllAddresses c) cl' Hc Hb Hx) as [Hb' Hx']. by apply IH.
Qed.

(** The value reaches every target that takes it. *)
Lemma deliver_stores_reach targets cl from key v c h :
  c ∈ targets -> Forall (genuine cl) targets -> hosts cl !! Hex (ID c) = Some h ->
  len v <= MaxValueSize -> IsBlocked (h_dht h) key = false ->
  admitted (d_store (h_dht h)) (Hex key) (len v) (Identity_ID from) = true ->
  holds (deliver_stores cl from targets key v) (Hex (ID c)) key v.
Proof.
  intros Hc Hg Hh Hl Hb Ha. revert cl Hc Hg Hh. induction targets as [|c0 targets IH]; intros cl Hc Hg Hh;
    [by apply not_elem_of_nil in Hc|].
  apply Forall_cons in Hg as [Hg0 Hg].
  change (deliver_stores cl from (c0 :: targets) key v)
    with (deliver_stores (deliver_stores cl from [c0] key v) from targets key v).
  destruct (decide (Hex (ID c0) = Hex (ID c))) as [E|Hne].
  - apply deliver_stores_kept. cbn [deliver_stores foldl].
    rewrite AllAddresses_primary by apply Hg0. cbn [deliver_any].
    pose proof (genuine_primary cl c0 Hg0) as Hbk. rewrite E in Hbk.
    destruct (deliver_store cl from max_rounds _ _ h key v Hbk Hh Hl Hb Ha) as (r & h' & -> & _ & Hv & Hb').
    exists h'. split; [apply lookup_insert_eq|done].
  - destruct (deliver_stores_kept [c0] cl from key v) as [[Hbook _] _].
    apply IH; [apply elem_of_cons in Hc as [->|?]; done| |].
    + eapply Forall_impl; [exact Hg|]. intros x. unfold genuine. by rewrite Hbook.
    + rewrite stores_do_not_interfere; [done|]. apply Forall_singleton.
      intros a Hin. destruct Hg0 as (_ & _ & Hb0). rewrite (Hb0 a Hin). congruence.
Qed.

(** ** Finding *)

(** A host that holds a value gives it to whoever asks it. *)
Lemma find_value_held cl me round c key v :
  genuine cl c -> holds cl (Hex (ID c)) key v ->
  value (sendFindValue (network cl me) round key c) = Some v.
Proof.
  intros Hg (h & Hh & Hb & Hv). unfold sendFindValue, requestContact.
  rewrite AllAddresses_primary by apply Hg. cbn [try_addresses network request].
  destruct (deliver_find_value cl me round (Address c) _ h key v (genuine_primary cl c Hg) Hh Hb Hv)
    as (r & cl' & -> & Ht & Hr). cbn [fst]. rewrite Ht, bool_decide_eq_true_2 by done. exact Hr.
Qed.

(** A host finds a value that it has. *)
Lemma cluster_get_local cl x h key v :
  hosts cl !! x = Some h -> dht_ok (h_dht h) -> IsBlocked (h_dht h) key = false ->
  data (d_store (h_dht h)) !! Hex key = Some v -> ContentAddress v = key ->
  cluster_get cl x key = Some (Ok v).
Proof.
  intros Hh Hd Hb Hloc Hv. unfold cluster_get. rewrite Hh.
  destruct (Get_frame (env x).1 (network cl (h_id h)) (h_dht h) key Hd)
    as (r & d' & -> & _ & _ & _ & [(_ & _ & Hr)|(w & s & _ & _ & _ & Hno)]).
  - by rewrite (Hr Hb v Hloc Hv).
  - by destruct (Hno v Hloc).
Qed.

(** A host finds a value that the nearest peer, which it knows, has. *)
Lemma cluster_get_nearest cl x h key k v :
  net_ok (network cl (h_id h)) -> hosts cl !! x = Some h -> dht_ok (h_dht h) ->
  table_all (genuine cl) (h_dht h) -> IsBlocked (h_dht h) key = false -> ContentAddress v = key ->
  nearest cl key k -> holds cl (Hex k) key v -> Hex k ∈ ids (d_rt (h_dht h)) ->
  exists v', cluster_get cl x key = Some (Ok v') /\ ContentAddress v' = key.
Proof.
  intros Hn Hh Hd Hg Hb Hv Hnear Hhold Hk. unfold cluster_get. rewrite Hh.
  destruct (Closest_nearest (h_dht h) key k K) as (c & rest & Ec & Hc);
    [unfold K; lia|done|by eapply genuine_far|].
  assert (genuine cl c) as Hgc.
  { eapply Forall_forall; [by apply Closest_all|]. rewrite Ec. by left. }
  destruct (get_finds (env x).1 (network cl (h_id h)) (h_dht h) key c v) as (v' & d' & -> & Hv');
    [done|done|done| | |done|by exists v'].
  - rewrite Ec. unfold pick_batch. cbn [List.filter].
    rewrite bool_decide_eq_false_2 by apply not_elem_of_empty. by left.
  - apply find_value_held; [done|]. by rewrite Hc.
Qed.

Lemma set_host_holds cl x y h key v : x <> y -> holds cl y key v -> holds (set_host x h cl) y key v.
Proof. intros Hne (hy & Hy & Hv). exists hy. cbn [set_host hosts]. by rewrite lookup_insert_ne. Qed.

(** What [Store] comes to on a host that does not block the key. *)
Lemma cluster_store_eq cl x h key v :
  hosts cl !! x = Some h -> dht_ok (h_dht h) -> IsBlocked (h_dht h) key = false -> len v <= MaxValueSize ->
  let d1 := with_store (h_dht h) (Put (env x).1 (d_store (h_dht h)) key v) in
  exists d' replicas,
    cluster_store cl x key v
    = Some (set_host x (MkHost (h_id h) d')
              (deliver_stores cl (h_id h) (replicate_targets (network cl (h_id h)) d1 key) key v), replicas)
    /\ dht_ok d' /\ IsBlocked d' key = false /\ data (d_store d') !! Hex key = Some v.
Proof.
  intros Hh Hd Hb Hl d1. unfold cluster_store. rewrite Hh. unfold Store, StoreLocal.
  destruct (Z.ltb_spec MaxValueSize (len v)); [lia|]. rewrite Hb. fold d1.
  assert (IsBlocked d1 key = false) as -> by exact Hb.
  destruct (Replicate_frame (network cl (h_id h)) d1 key v Hd) as (d' & c & -> & Hok & Hs & Hbl).
  exists d', c. split; [reflexivity|]. split; [done|]. split.
  - unfold IsBlocked. rewrite Hbl. exact Hb.
  - rewrite Hs. apply Put_data.
Qed.

(** After a store the nearest peer has the value, and every other host is as it
    was but for its values. *)
Lemma cluster_store_reaches cl a ha hk key k v :
  (forall l, upd l ≡ₚ l /\ app l ≡ₚ l) ->
  cluster_ok cl -> nearest cl key k ->
  hosts cl !! a = Some ha -> hosts cl !! Hex k = Some hk -> knows cl a k -> len v <= MaxValueSize ->
  IsBlocked (h_dht ha) key = false -> IsBlocked (h_dht hk) key = false ->
  admitted (d_store (h_dht hk)) (Hex key) (len v) (Identity_ID (h_id ha)) = true ->
  exists cl' replicas ha',
    cluster_store cl a key v = Some (cl', replicas) /\ holds cl' (Hex k) key v
    /\ book cl' = book cl
    /\ (hosts cl' !! a = Some ha' /\ dht_ok (h_dht ha') /\ IsBlocked (h_dht ha') key = false
        /\ data (d_store (h_dht ha')) !! Hex key = Some v)
    /\ forall y h, y <> a -> hosts cl !! y = Some h ->
         exists h', hosts cl' !! y = Some h' /\ same_table h h'.
Proof.
  intros Hn Hok Hnear Ha Hk Hka Hl Hba Hbk Hadm. destruct (Hok a ha Ha) as (Hda & Hsa & Hga).
  destruct (cluster_store_eq cl a ha key v Ha Hda Hba Hl) as (d' & replicas & -> & Hd' & Hb' & Hv').
  set (targets := replicate_targets _ _ _).
  destruct (deliver_stores_kept targets cl (h_id ha) key v) as [[Hbook Hkept] _].
  set (cl1 := deliver_stores cl (h_id ha) targets key v) in *.
  exists (set_host a (MkHost (h_id ha) d') cl1), replicas, (MkHost (h_id ha) d').
  split; [done|]. split; [|split; [done|split]].
  - destruct (decide (a = Hex k)) as [->|Hne].
    { exists (MkHost (h_id ha) d'). split; [apply lookup_insert_eq|done]. }
    apply set_host_holds; [done|]. destruct Hka as [?|(h & Hh & Hids)]; [done|].
    rewrite Ha in Hh. injection Hh as <-.
    destruct (replicate_targets_nearest cl (h_id ha) key k
      (with_store (h_dht ha) (Put (env a).1 (d_store (h_dht ha)) key v))) as (Hgt & c & Hc & Hid);
      [done..|cbn [with_store d_self]; congruence|done|].
    rewrite <- Hid. eapply deliver_stores_reach; [exact Hc|exact Hgt|by rewrite Hid|done..].
  - split; [apply lookup_insert_eq|done].
  - intros y h Hne Hy. destruct (Hkept y h Hy) as (h' & Hh' & Hst). exists h'. split; [|done].
    cbn [set_host hosts]. by rewrite lookup_insert_ne.
Qed.

(** (dht.go, [Store], [Replicate], [Lookup], [Get], [handleFindNode], [handleStore],
    [handleFindValue]): what one node of a network stores, another finds.  In a
    network of nodes that all run this code and know each other by genuine addresses,
    let [k] be the peer closest to the key.  If both the node that stores and the
    one that looks for the key are [k] or have it in their tables, nobody involved
    blocks the key and [k] admits the value under its quota, then the store
    returns, [k] has the value afterwards, and the search ends with a value of that
    content address: the storing node's walk, the replication to the closest peers
    and the searching node's walk fit together. *)
Theorem network_put_get (cl : cluster) (a b : bytes) (ha hb hk : host) (key k : NodeID) (v : bytes) :
  (forall l, upd l ≡ₚ l /\ app l ≡ₚ l) ->
  cluster_ok cl -> nearest cl key k ->
  hosts cl !! a = Some ha -> hosts cl !! b = Some hb -> hosts cl !! Hex k = Some hk ->
  knows cl a k -> knows cl b k ->
  ContentAddress v = key -> len v <= MaxValueSize ->
  Forall (fun h => IsBlocked (h_dht h) key = false) [ha; hb; hk] ->
  admitted (d_store (h_dht hk)) (Hex key) (len v) (Identity_ID (h_id ha)) = true ->
  exists cl' replicas v',
    cluster_store cl a key v = Some (cl', replicas) /\ holds cl' (Hex k) key v
    /\ cluster_get cl' b key = Some (Ok v') /\ ContentAddress v' = key.
Proof.
  intros Hn Hok Hnear Ha Hb Hk Hka Hkb Hv Hl
    [Hba [Hbb [Hbk _]%Forall_cons]%Forall_cons]%Forall_cons Hadm.
  destruct (cluster_store_reaches cl a ha hk key k v) as (cl' & replicas & ha' & Hst & Hhold & Hbook & Hself & Hoth);
    [done..|].
  exists cl', replicas.
  assert (exists v', cluster_get cl' b key = Some (Ok v') /\ ContentAddress v' = key) as (v' & ? & ?);
    [|by exists v'].
  destruct (decide (b = a)) as [->|Hne].
  { exists v. split; [|done]. destruct Hself as (Hc & Hd & Hbl & Hval).
    exact (cluster_get_local cl' a ha' key v Hc Hd Hbl Hval Hv). }
  destruct (Hok b hb Hb) as (Hdb & Hsb & Hgb).
  destruct (Hoth b hb Hne Hb) as ([idb' db'] & Hb' & Hid & s & Hs). cbn [h_dht h_id] in Hid, Hs. subst idb' db'.
  destruct Hkb as [->|(h & Hh & Hids)].
  - destruct Hhold as (h & Hh & Hbh & Hvh). rewrite Hb' in Hh. injection Hh as <-.
    exists v. split; [|done]. by eapply cluster_get_local.
  - rewrite Hb in Hh. injection Hh as <-. eapply cluster_get_nearest; try done.
    + unfold table_all, genuine. rewrite Hbook. exact Hgb.
    + unfold nearest. rewrite Hbook. exact Hnear.
Qed.

End Hosts.

(** ** Three hosts *)

Module Trio.

Definition contact (n : Z) (addr : string) : Contact := MkContact (key_of n) (bs addr) [] 0.

Definition peer_a : Contact := contact 1 "10.0.0.1:7000".
Definition peer_b : Contact := contact 2 "10.0.0.2:7000".
Definition peer_k : Contact := contact 5 "10.0.0.5:7000".

(** A node with the given contacts in its table. *)
Definition node_with (self : NodeID) (l : list Contact) : DHT :=
  update_all 1 (MkDHT self (NewRoutingTable self) (bounded_store 0) None None ∅ []) l.

(** Two hosts that know only the third one. *)
Definition host_a : host := MkHost (toy_identity Byte.x01) (node_with (key_of 1) [peer_k]).
Definition host_b : host := MkHost (toy_identity Byte.x02) (node_with (key_of 2) [peer_k]).
Definition host_k : host := MkHost (toy_identity Byte.x05) (node_with (key_of 5) [peer_a; peer_b]).

Definition trio : cluster :=
  MkCluster
    (<[Hex (key_of 1) := host_a]> (<[Hex (key_of 2) := host_b]> {[Hex (key_of 5) := host_k]}))
    (<[Address peer_a := Hex (key_of 1)]>
       (<[Address peer_b := Hex (key_of 2)]> {[Address peer_k := Hex (key_of 5)]})).

Lemma trio_host x h :
  hosts trio !! x = Some h ->
  (x = Hex (key_of 1) /\ h = host_a) \/ (x = Hex (key_of 2) /\ h = host_b) \/ (x = Hex (key_of 5) /\ h = host_k).
Proof.
  unfold trio. cbn [hosts]. intros [[<- <-]|[_ H]]%lookup_insert_Some; [by left|].
  apply lookup_insert_Some in H as [[<- <-]|[_ H]]; [by right; left|].
  apply lookup_singleton_Some in H as [<- <-]. by right; right.
Qed.

Lemma trio_genuine : Forall (genuine trio) [peer_a; peer_b; peer_k].
Proof.
  repeat (apply Forall_cons; split); [| | |apply Forall_nil_2];
    (split; [done|]; split; [split; [by vm_compute|apply Forall_nil_2]|]);
    intros a ->%list_elem_of_singleton; by vm_compute.
Qed.

Lemma node_with_ok self l :
  Forall (genuine trio) l ->
  dht_ok (node_with self l) /\ d_self (node_with self l) = self /\ table_all (genuine trio) (node_with self l).
Proof.
  intros Hl. unfold node_with. set (d := MkDHT _ _ _ _ _ _ _).
  destruct (update_all_ok 1 l d) as (Hok & _ & Hs); [split; [done|apply NewRoutingTable_wf]|].
  split_and!; [done|done|]. apply update_all_contacts; [apply _| |done].
  unfold table_all, d. cbn [d_rt]. unfold NewRoutingTable, All. cbn [buckets].
  apply Forall_concat, Forall_replicate, Forall_nil_2.
Qed.

Lemma trio_ok : cluster_ok trio.
Proof.
  pose proof trio_genuine as Hg. rewrite !Forall_cons in Hg. destruct Hg as (Ga & Gb & Gk & _).
  intros x h Hx. apply trio_host in Hx as [[-> ->]|[[-> ->]|[-> ->]]]; cbn [h_dht host_a host_b host_k];
    match goal with |- context [node_with ?s ?l] => destruct (node_with_ok s l) as (H1 & H2 & H3) end;
    try (by rewrite H2); by repeat (apply Forall_cons; split).
Qed.

Definition content_key : NodeID := ContentAddress content.

(** The distances, with the content's address computed. *)
Lemma trio_distance_1 : (distanceBigInt content_key (key_of 5) <=? distanceBigInt content_key (key_of 1)) = true.
Proof. by vm_compute. Qed.

Lemma trio_distance_2 : (distanceBigInt content_key (key_of 5) <=? distanceBigInt content_key (key_of 2)) = true.
Proof. by vm_compute. Qed.

Lemma trio_book a x :
  book trio !! a = Some x -> x = Hex (key_of 1) \/ x = Hex (key_of 2) \/ x = Hex (key_of 5).
Proof.
  unfold trio. cbn [book]. generalize (Hex (key_of 1)) (Hex (key_of 2)) (Hex (key_of 5)). intros x1 x2 x5.
  intros [[_ <-]|[_ Hx]]%lookup_insert_Some; [by left|].
  apply lookup_insert_Some in Hx as [[_ <-]|[_ Hx]]; [by right; left|].
  apply lookup_singleton_Some in Hx as [_ <-]. by right; right.
Qed.

Lemma trio_nearest : nearest trio content_key (key_of 5).
Proof.
  intros a x [->|[->| ->]]%trio_book.
  - exists (key_of 1). exact (conj eq_refl (proj1 (Z.leb_le _ _) trio_distance_1)).
  - exists (key_of 2). exact (conj eq_refl (proj1 (Z.leb_le _ _) trio_distance_2)).
  - exists (key_of 5). exact (conj eq_refl (Z.le_refl _)).
Qed.

Lemma node_with_open self l key : IsBlocked (node_with self l) key = false.
Proof.
  unfold node_with, IsBlocked. set (d := MkDHT _ _ _ _ _ _ _).
  destruct (update_all_frame 1 l d) as [_ ->]. done.
Qed.

Lemma trio_unblocked : Forall (fun h => IsBlocked (h_dht h) content_key = false) [host_a; host_b; host_k].
Proof. repeat (apply Forall_cons; split); [..|apply Forall_nil_2]; apply node_with_open. Qed.

Lemma trio_admits :
  admitted (d_store (h_dht host_k)) (Hex content_key) (len content) (Identity_ID (h_id host_a)) = true.
Proof. by vm_compute. Qed.

Lemma content_fits : len content <= MaxValueSize.
Proof. vm_compute. discriminate. Qed.

Lemma trio_knows : forallb (fun h => bool_decide (Hex (key_of 5) ∈ ids (d_rt (h_dht h)))) [host_a; host_b] = true.
Proof. by vm_compute. Qed.

Lemma trio_lookups :
  hosts trio !! Hex (key_of 1) = Some host_a /\ hosts trio !! Hex (key_of 2) = Some host_b
  /\ hosts trio !! Hex (key_of 5) = Some host_k.
Proof.
  unfold trio. cbn [hosts]. split; [apply lookup_insert_eq|]. split.
  - rewrite lookup_insert_ne by (intros E; apply (inj Hex) in E; by vm_compute in E). apply lookup_insert_eq.
  - rewrite !lookup_insert_ne by (intros E; apply (inj Hex) in E; by vm_compute in E). apply lookup_insert_eq.
Qed.

Definition quiet (_ : bytes) : put_env * Time := (at_time 5, 0).

Lemma network_put_get_witness :
  exists cl' replicas v',
    cluster_store quiet (fun _ _ => bs "r") (fun _ => bs "conn") id id (fun _ => 5) trio
      (Hex (key_of 1)) content_key content = Some (cl', replicas)
    /\ holds cl' (Hex (key_of 5)) content_key content
    /\ cluster_get quiet (fun _ _ => bs "r") (fun _ => bs "conn") id id (fun _ => 5) cl'
         (Hex (key_of 2)) content_key = Some (Ok v')
    /\ ContentAddress v' = content_key.
Proof.
  destruct trio_lookups as (Ha & Hb & Hk). pose proof trio_knows as Hkn. cbn [forallb] in Hkn.
  rewrite !andb_true_iff in Hkn. destruct Hkn as (Ka & Kb & _).
  apply (network_put_get quiet (fun _ _ => bs "r") (fun _ => bs "conn") id id (fun _ => 5) trio
    (Hex (key_of 1)) (Hex (key_of 2)) host_a host_b host_k content_key (key_of 5) content).
  - intros l. split; apply Permutation_refl.
  - exact trio_ok.
  - exact trio_nearest.
  - exact Ha.
  - exact Hb.
  - exact Hk.
  - right. exists host_a. split; [exact Ha|exact (bool_decide_eq_true_1 _ Ka)].
  - right. exists host_b. split; [exact Hb|exact (bool_decide_eq_true_1 _ Kb)].
  - exact (eq_refl content_key).
  - exact content_fits.
  - exact trio_unblocked.
  - exact trio_admits.
Defined.

End Trio.
