(* ===== verification/NameService.v ===== *)
(** * What the registrar and the gateway need of the naming layer

    apps/registrar and apps/gateway call [name.Publish] and [name.Resolve] on a
    [*dht.DHT], and the registrar [BroadcastRevoke].  They are the class
    [NameService]; [NameServiceLaws] is what the clients' theorems use.  The
    instance is the node of ContentStore.v with a clock, the list of trusted
    registrars and the order in which a map of copies is ranged over. *)

From S2P Require Import Prelude GoStrings Encoding Json Sha256 Crypto Peer Revoke NodeId.
From S2P Require Import Blocklist Store Routing DhtWire Dht Lookup Name ContentStore.

Class NameService (S : Type) := {
  ns_publish : S -> Identity -> bytes -> NodeID -> Z -> result name_error NameRecord * S;
  ns_resolve : S -> bytes -> result name_error NameRecord * S;
  ns_broadcast : S -> RevokePayload -> list effect * S
}.

(** [trusted] is the set of registrars the node accepts. *)
Class NameServiceLaws `{GoUnicode} `{Ed25519} (S : Type) `{NameService S} (inv : S -> Prop)
    (keeps : S -> NodeID -> bytes -> Prop) (trusted : option (gset bytes)) := {
  publish_record s id nm root v rec :
    fst (ns_publish s id nm root v) = Ok rec ->
    validName nm = Ok tt /\ r_Name rec = CanonicalName nm /\ r_Root rec = Hex root /\ r_Version rec = v
    /\ r_PublicKey rec = PublicKeyToHex (PublicKey id);
  publish_inv s id nm root v : inv s -> inv (snd (ns_publish s id nm root v));
  publish_keeps s id nm root v k c :
    inv s -> k <> RecordKey nm -> keeps s k c -> keeps (snd (ns_publish s id nm root v)) k c;
  resolve_record s nm rec :
    fst (ns_resolve s nm) = Ok rec ->
    validName nm = Ok tt /\ r_Name rec = CanonicalName nm /\ record_Verify rec = true
    /\ registrarAllowed trusted (r_PublicKey rec) = true;
  resolve_inv s nm : inv s -> inv (snd (ns_resolve s nm));
  resolve_keeps s nm k c : inv s -> keeps s k c -> keeps (snd (ns_resolve s nm)) k c;
  broadcast_message s p : fst (ns_broadcast s p) = [Broadcast (mk_message (bs "dht_revoke") (Marshal p))];
  broadcast_inv s p : inv s -> inv (snd (ns_broadcast s p))
}.

(** ** The node as a name service *)

Section Node.
Context `{GoUnicode} `{Ed25519}.
Context (world : nat -> put_env * net) (clock : nat -> Z).
Context (trusted : option (gset bytes)) (order : gset bytes -> list bytes).

Definition node_publish (s : node) (id : Identity) (nm : bytes) (root : NodeID) (version : Z)
  : result name_error NameRecord * node :=
  match Publish (env_of world s) (net_of world s) (n_dht s) id nm root version (clock (n_tick s)) with
  | Ok (rec, Some (d, _)) => (Ok rec, MkNode d (S (n_tick s)))
  | Ok (rec, None) => (Ok rec, s)
  | Err e => (Err e, s)
  end.

Definition node_resolve (s : node) (nm : bytes) : result name_error NameRecord * node :=
  match Resolve (env_of world s) (net_of world s) (n_dht s) trusted nm (clock (n_tick s)) order with
  | Some (r, d) => (r, MkNode d (S (n_tick s)))
  | None => (Err ErrLookup, s)
  end.

Definition node_broadcast (s : node) (p : RevokePayload) : list effect * node :=
  let '(d, effs) := BroadcastRevoke (n_dht s) p in (effs, MkNode d (S (n_tick s))).

#[global] Instance node_NameService : NameService node := {|
  ns_publish := node_publish; ns_resolve := node_resolve; ns_broadcast := node_broadcast
|}.

(** [Store] on a node: a local put and a replication. *)
Lemma Store_keeps_others e n d k v :
  dht_ok d ->
  match Store e n d k v with
  | Err _ => True
  | Ok None => False
  | Ok (Some (d', _)) =>
      dht_ok d' /\ d_blocklist d' = d_blocklist d
      /\ (maxBytes (d_store d) <= 0 ->
          maxBytes (d_store d') = maxBytes (d_store d)
          /\ forall k', k' <> k -> data (d_store d') !! Hex k' = data (d_store d) !! Hex k')
  end.
Proof.
  intros Hd. unfold Store, StoreLocal. destruct (_ <? _); [done|].
  destruct (IsBlocked d k) eqn:Hb; [by rewrite Hb|].
  set (d1 := with_store d (Put e (d_store d) k v)). assert (IsBlocked d1 k = false) as -> by exact Hb.
  destruct (Replicate_frame n d1 k v Hd) as (d2 & c & -> & Hok & Hs & Hbl).
  split; [done|]. split; [by rewrite Hbl|]. intros Hm.
  destruct (Put_unbounded e (d_store d) k v Hm) as [Ed Em]. rewrite Hs. simpl. split; [done|].
  intros k' Hne. rewrite Ed, lookup_insert_ne; [done|]. intros E. by apply Hne, (inj Hex).
Qed.

Lemma GetAllUnverified_frame e n d k :
  dht_ok d ->
  exists r d', GetAllUnverified e n d k = Some (r, d') /\ dht_ok d' /\ d_blocklist d' = d_blocklist d
    /\ data (d_store d') = data (d_store d) /\ maxBytes (d_store d') = maxBytes (d_store d).
Proof.
  intros Hd. unfold GetAllUnverified. destruct (Store.Get (d_store d) (pe_now e) k) as [s local] eqn:Eg.
  assert (data s = data (d_store d) /\ maxBytes s = maxBytes (d_store d)) as [Hs Hm].
  { revert Eg. unfold Store.Get. destruct (data (d_store d) !! Hex k); intros [= <- _]; done. }
  destruct (_ && _); [by eexists _, _|].
  destruct (start_walk_ends n (fun r c => sendFindValue n r k c) (fun _ => false) k
    (option_list local) (with_store d s) Hd) as (w & -> & (P1 & _ & P3 & P4 & _) & _).
  eexists _, _. split; [done|]. split; [exact P1|]. rewrite P3, P4. done.
Qed.

Lemma Resolve_frame e n d nm now :
  dht_ok d ->
  exists r d', Resolve e n d trusted nm now order = Some (r, d') /\ dht_ok d' /\ d_blocklist d' = d_blocklist d
    /\ data (d_store d') = data (d_store d) /\ maxBytes (d_store d') = maxBytes (d_store d).
Proof.
  intros Hd. unfold Resolve. destruct (validName nm) as [[]|]; [|by eexists _, _]. cbv zeta.
  destruct (GetAllUnverified_frame e n d (RecordKey (CanonicalName nm)) Hd) as ([vs|] & d' & -> & F);
    eexists _, _; (split; [done|exact F]).
Qed.

(** The record [Publish] returns is the one it stores. *)
Lemma Publish_record e n d id nm root v now rec o :
  Publish e n d id nm root v now = Ok (rec, o) ->
  validName nm = Ok tt /\ rec = new_record id nm root v DefaultNameTTL now
  /\ len (Marshal rec) <= MaxValueSize /\ Store e n d (RecordKey nm) (Marshal rec) = Ok o.
Proof.
  unfold Publish, PublishWithTTL. destruct (validName nm) as [[]|]; [|done]. cbv zeta.
  fold (new_record id nm root v DefaultNameTTL now). set (r := new_record _ _ _ _ _ _).
  destruct (Z.ltb_spec MaxValueSize (len (Marshal r))); [done|].
  destruct (Store _ _ _ _ _) as [x|] eqn:Es; [|done]. by intros [= <- <-].
Qed.

(** A record that is resolved is one of the trusted registrars. *)
Lemma Resolve_record e n d nm now rec d' :
  Resolve e n d trusted nm now order = Some (Ok rec, d') ->
  validName nm = Ok tt /\ r_Name rec = CanonicalName nm /\ record_Verify rec = true
  /\ registrarAllowed trusted (r_PublicKey rec) = true.
Proof.
  unfold Resolve. destruct (validName nm) as [[]|]; [|done]. cbv zeta.
  destruct (GetAllUnverified _ _ _ _) as [[[vs|] d2]|]; [|done|done].
  pose proof (pickBestRecord_spec trusted now (CanonicalName nm) (order vs)) as [H1 _].
  destruct (pickBestRecord _ _ _ _) as [[b|] why]; [|done]. intros [= <- <-].
  destruct (H1 b eq_refl) as (blob & _ & (_ & E2 & E3 & E4 & _)%eligible_Ok). done.
Qed.

#[global] Instance node_ns_laws : NameServiceLaws node node_inv node_keeps trusted.
Proof.
  split; unfold node_inv; cbn [ns_publish ns_resolve ns_broadcast node_NameService].
  - intros s id nm root v rec. unfold node_publish. destruct (Publish _ _ _ _ _ _ _ _) as [[r o]|] eqn:E; [|done].
    apply Publish_record in E as (Hv & -> & _). by destruct o as [[d k]|]; intros [= <-].
  - intros s id nm root v Hi. unfold node_publish, Publish, PublishWithTTL.
    destruct (validName nm) as [[]|]; [|done]. cbv zeta. destruct (_ <? _); [done|].
    match goal with |- context [Store ?e ?n ?d ?k ?b] => pose proof (Store_keeps_others e n d k b Hi) as F;
      destruct (Store e n d k b) as [[[d' c]|]|] end; [|done|done]. apply F.
  - intros s id nm root v k c Hi Hne Hk. unfold node_publish, Publish, PublishWithTTL.
    destruct (validName nm) as [[]|]; [|done]. cbv zeta. destruct (_ <? _); [done|].
    match goal with |- context [Store ?e ?n ?d ?k ?b] => pose proof (Store_keeps_others e n d k b Hi) as F;
      destruct (Store e n d k b) as [[[d' r]|]|] end; [|done|done].
    destruct F as (_ & Fb & Fs), Hk as (Ha & Hv & Hm & Hb). destruct (Fs Hm) as [Em Ed].
    unfold node_keeps, node_roomy; cbn [snd n_dht]. rewrite Ed, Em, Fb by done. done.
  - intros s nm rec. unfold node_resolve. destruct (Resolve _ _ _ _ _ _ _) as [[r d]|] eqn:E; [|done].
    cbn [fst]. intros ->. by eapply Resolve_record.
  - intros s nm Hi. unfold node_resolve.
    destruct (Resolve_frame (env_of world s) (net_of world s) (n_dht s) nm (clock (n_tick s)) Hi)
      as (r & d' & -> & F). apply F.
  - intros s nm k c Hi Hk. unfold node_resolve.
    destruct (Resolve_frame (env_of world s) (net_of world s) (n_dht s) nm (clock (n_tick s)) Hi)
      as (r & d' & -> & _ & Fb & Fd & Fm).
    unfold node_keeps, node_roomy in *; cbn [snd n_dht]. by rewrite Fb, Fd, Fm.
  - done.
  - intros s p [Hs Hw]. unfold node_broadcast, BroadcastRevoke, applyRevoke; cbn [snd n_dht].
    set (d := match d_blocklist (n_dht s) with None => _ | Some _ => _ end).
    assert (dht_ok d) as Hd by (unfold d; by destruct (d_blocklist (n_dht s))).
    destruct (revoke_chunks_frame d (rp_Chunks p)) as [E1 E2]. unfold dht_ok. by rewrite E1, E2.
Qed.

End Node.
