(* ===== verification/Files.v ===== *)
(** * Files and directories over the DHT (apps/files)

    Chunks, manifests and directories (chunk.go, dir.go) and the lazy reader
    (stream.go), for any [ContentStore].  The host is a Unix one, so
    [filepath.ToSlash] and [FromSlash] are the identity; what its file system
    answers is an argument.  The goroutine that replicates a published blob runs
    to its end before the next call. *)

From S2P Require Import Prelude GoStrings Encoding Json Sha256 Crypto Peer NodeId Store Lookup ContentStore.

Definition ChunkSize : Z := 64 * 1024.
Definition chunk_nat : nat := Z.to_nat ChunkSize.

Record FileManifest := MkManifest { fm_Size : Z; fm_Chunks : list bytes }.

#[global] Instance FileManifest_eq_dec : EqDecision FileManifest.
Proof. solve_decision. Defined.

#[global] Instance FileManifest_codec : Codec FileManifest := {|
  to_json m := JObj [(bs "size", JInt (fm_Size m)); (bs "chunks", JStrs (fm_Chunks m))];
  zero_value := MkManifest 0 [];
  set_field k j m :=
    if key_is k "size" then (fun z => MkManifest z (fm_Chunks m)) <$> dec_int64 j (fm_Size m)
    else if key_is k "chunks"
    then (fun l => MkManifest (fm_Size m) l) <$> dec_slice dec_string [] j (fm_Chunks m)
    else Some m
|}.

Record DirEntry := MkEntry { de_Path : bytes; de_Size : Z; de_ManifestKey : bytes }.

#[global] Instance DirEntry_eq_dec : EqDecision DirEntry.
Proof. solve_decision. Defined.

#[global] Instance DirEntry_codec : Codec DirEntry := {|
  to_json e := JObj [(bs "path", JStr (de_Path e)); (bs "size", JInt (de_Size e));
                     (bs "manifest_key", JStr (de_ManifestKey e))];
  zero_value := MkEntry [] 0 [];
  set_field k j e :=
    let '(MkEntry p z mk) := e in
    if key_is k "path" then (fun p => MkEntry p z mk) <$> dec_string j p
    else if key_is k "size" then (fun z => MkEntry p z mk) <$> dec_int64 j z
    else if key_is k "manifest_key" then (fun mk => MkEntry p z mk) <$> dec_string j mk
    else Some e
|}.

Record Directory := MkDirectory { dir_Entries : list DirEntry }.

#[global] Instance Directory_eq_dec : EqDecision Directory.
Proof. solve_decision. Defined.

(** A directory without files has a nil slice, which is written [null]. *)
#[global] Instance Directory_codec : Codec Directory := {|
  to_json d := JObj [(bs "entries",
    match dir_Entries d with [] => JNull | l => JArr (to_json <$> l) end)];
  zero_value := MkDirectory [];
  set_field k j d :=
    if key_is k "entries"
    then MkDirectory <$> dec_slice (dec_struct set_field) zero_value j (dir_Entries d)
    else Some d
|}.

Inductive files_error :=
| ErrStoreChunk | ErrStoreManifest | ErrFetchManifest | ErrManifest | ErrChunkKey | ErrFetchChunk
| ErrFileSize | ErrStat | ErrNotDir | ErrWalk | ErrRead | ErrPublish (e : files_error)
| ErrStoreDir | ErrMkdirDest | ErrFetchDirectory | ErrDirectory | ErrUnsafePath | ErrManifestKey
| ErrFetch (e : files_error) | ErrSizeMismatch | ErrMkdirParent | ErrWrite.

Section Files.
Context {S : Type} `{ContentStore S}.

Definition publishStore (s : S) (key : NodeID) (value : bytes) : result dht_error S :=
  match cs_store_local s key value with
  | Err e => Err e
  | Ok s => Ok (cs_replicate s key value)
  end.

(** ** chunk.go *)

(** The loop of [PublishBytes] over the data from the current offset on; the
    result is the list of chunk keys.  Each turn takes at least one byte, so
    [length data] turns are enough. *)
Fixpoint publish_chunks (fuel : nat) (s : S) (data : bytes) : result files_error (list bytes) * S :=
  match fuel with
  | O => (Ok [], s)
  | Datatypes.S fuel =>
      if is_nil data then (Ok [], s) else
      let chunk := take chunk_nat data in
      let key := ContentAddress chunk in
      match publishStore s key chunk with
      | Err _ => (Err ErrStoreChunk, s)
      | Ok s =>
          match publish_chunks fuel s (drop chunk_nat data) with
          | (Ok keys, s) => (Ok (Hex key :: keys), s)
          | (Err e, s) => (Err e, s)
          end
      end
  end.

Definition PublishBytes (s : S) (data : bytes) : result files_error (FileManifest * NodeID) * S :=
  match publish_chunks (length data) s data with
  | (Err e, s) => (Err e, s)
  | (Ok keys, s) =>
      let manifest := MkManifest (len data) keys in
      let manifestBlob := Marshal manifest in
      let manifestKey := ContentAddress manifestBlob in
      match publishStore s manifestKey manifestBlob with
      | Err _ => (Err ErrStoreManifest, s)
      | Ok s => (Ok (manifest, manifestKey), s)
      end
  end.

(** The loop of [FetchBytes]. *)
Fixpoint fetch_chunks (s : S) (keys : list bytes) (out : bytes) : result files_error bytes * S :=
  match keys with
  | [] => (Ok out, s)
  | hexKey :: keys =>
      match IDFromHex hexKey with
      | Err _ => (Err ErrChunkKey, s)
      | Ok key =>
          match cs_get s key with
          | (Err _, s) => (Err ErrFetchChunk, s)
          | (Ok chunk, s) => fetch_chunks s keys (out ++ chunk)
          end
      end
  end.

(** [mem] is the largest capacity [make] accepts. *)
Definition FetchBytes (mem : Z) (s : S) (manifestKey : NodeID)
  : outcome (result files_error bytes * S) :=
  match cs_get s manifestKey with
  | (Err _, s) => Ret (Err ErrFetchManifest, s)
  | (Ok manifestBlob, s) =>
      match Unmarshal manifestBlob with
      | None => Ret (Err ErrManifest, s)
      | Some m =>
          if (fm_Size m <? 0) || (mem <? fm_Size m) then Panic else
          match fetch_chunks s (fm_Chunks m) [] with
          | (Err e, s) => Ret (Err e, s)
          | (Ok out, s) =>
              if negb (len out =? fm_Size m) then Ret (Err ErrFileSize, s) else Ret (Ok out, s)
          end
      end
  end.

(** ** stream.go *)

Record ChunkReader := MkReader {
  cr_manifest : FileManifest;
  cr_manifestKey : NodeID;
  cr_pos : Z;
  cr_cachedIdx : Z;
  cr_cachedChunk : option bytes
}.

Definition NewChunkReader (s : S) (manifestKey : NodeID) : result files_error ChunkReader * S :=
  match cs_get s manifestKey with
  | (Err _, s) => (Err ErrFetchManifest, s)
  | (Ok blob, s) =>
      match Unmarshal blob with
      | None => (Err ErrManifest, s)
      | Some manifest => (Ok (MkReader manifest manifestKey 0 (-1) None), s)
      end
  end.

Definition cr_Size (cr : ChunkReader) : Z := fm_Size (cr_manifest cr).

Inductive read_error := EOF | ErrChunkIndex | ErrBadChunkKey | ErrGetChunk | ErrShortChunk.

Definition with_cache (cr : ChunkReader) (idx : Z) (chunk : bytes) : ChunkReader :=
  MkReader (cr_manifest cr) (cr_manifestKey cr) (cr_pos cr) idx (Some chunk).

Definition with_pos (cr : ChunkReader) (pos : Z) : ChunkReader :=
  MkReader (cr_manifest cr) (cr_manifestKey cr) pos (cr_cachedIdx cr) (cr_cachedChunk cr).

Definition fetchChunk (s : S) (cr : ChunkReader) (idx : Z)
  : result read_error bytes * ChunkReader * S :=
  match (if idx =? cr_cachedIdx cr then cr_cachedChunk cr else None) with
  | Some chunk => (Ok chunk, cr, s)
  | None =>
      if (idx <? 0) || (Z.of_nat (length (fm_Chunks (cr_manifest cr))) <=? idx)
      then (Err ErrChunkIndex, cr, s)
      else
        match IDFromHex (default [] (fm_Chunks (cr_manifest cr) !! Z.to_nat idx)) with
        | Err _ => (Err ErrBadChunkKey, cr, s)
        | Ok key =>
            match cs_get s key with
            | (Err _, s) => (Err ErrGetChunk, cr, s)
            | (Ok data, s) => (Ok data, with_cache cr idx data, s)
            end
        end
  end.

(** [Read p] with [len p = plen]: the bytes copied into [p]. *)
Definition Read (s : S) (cr : ChunkReader) (plen : nat)
  : result read_error bytes * ChunkReader * S :=
  if fm_Size (cr_manifest cr) <=? cr_pos cr then (Err EOF, cr, s)
  else if (plen =? 0)%nat then (Ok [], cr, s)
  else
    let chunkIdx := Z.quot (cr_pos cr) ChunkSize in
    let chunkOffset := Z.rem (cr_pos cr) ChunkSize in
    match fetchChunk s cr chunkIdx with
    | (Err e, cr, s) => (Err e, cr, s)
    | (Ok chunk, cr, s) =>
        if len chunk <=? chunkOffset then (Err ErrShortChunk, cr, s) else
        let p := take plen (drop (Z.to_nat chunkOffset) chunk) in
        (Ok p, with_pos cr (int64 (cr_pos cr + len p)), s)
    end.

Inductive whence := SeekStart | SeekCurrent | SeekEnd | SeekOther.

(** The error values are a bad whence and a negative position. *)
Definition Seek (cr : ChunkReader) (offset : Z) (w : whence) : result bool Z * ChunkReader :=
  let set newPos := if newPos <? 0 then (Err false, cr) else (Ok newPos, with_pos cr newPos) in
  match w with
  | SeekStart => set offset
  | SeekCurrent => set (int64 (cr_pos cr + offset))
  | SeekEnd => set (int64 (fm_Size (cr_manifest cr) + offset))
  | SeekOther => (Err true, cr)
  end.

(** ** dir.go *)

(** What [filepath.WalkDir] passes to the callback: an error, or an entry with
    its type, its path relative to the root and its content. *)
Record walk_item := MkItem {
  wi_err : bool;
  wi_regular : bool;
  wi_rel : option bytes;
  wi_data : option bytes
}.

Fixpoint publish_walk (s : S) (items : list walk_item) (entries : list DirEntry)
  : result files_error (list DirEntry) * S :=
  match items with
  | [] => (Ok entries, s)
  | it :: items =>
      if wi_err it then (Err ErrWalk, s)
      else if negb (wi_regular it) then publish_walk s items entries
      else
        match wi_rel it, wi_data it with
        | None, _ => (Err ErrWalk, s)
        | _, None => (Err ErrRead, s)
        | Some rel, Some data =>
            match PublishBytes s data with
            | (Err e, s) => (Err (ErrPublish e), s)
            | (Ok (manifest, key), s) =>
                publish_walk s items (entries ++ [MkEntry rel (fm_Size manifest) (Hex key)])
            end
        end
  end.

Definition entry_le (a b : DirEntry) : Prop := bytes_le (de_Path a) (de_Path b).

#[global] Instance entry_le_dec : RelDecision entry_le.
Proof. intros a b. unfold entry_le. apply _. Defined.

(** [stat]: an error, or whether the root is a directory.  The paths of a walk
    are distinct, so every sort by path gives the same list. *)
Definition PublishDir (s : S) (stat : option bool) (items : list walk_item)
  : result files_error (NodeID * Directory) * S :=
  match stat with
  | None => (Err ErrStat, s)
  | Some false => (Err ErrNotDir, s)
  | Some true =>
      match publish_walk s items [] with
      | (Err e, s) => (Err e, s)
      | (Ok entries, s) =>
          let dir := MkDirectory (merge_sort entry_le entries) in
          let blob := Marshal dir in
          let rootKey := ContentAddress blob in
          match publishStore s rootKey blob with
          | Err _ => (Err ErrStoreDir, s)
          | Ok s => (Ok (rootKey, dir), s)
          end
      end
  end.

End Files.

(** [filepath.Clean], [Join] and [Dir]: the components of a path are put on a
    stack, [..] takes the last one off. *)
Definition slash : byte := Byte.x2f.

Definition push_component (rooted : bool) (stack : list bytes) (c : bytes) : list bytes :=
  if is_nil c || bool_decide (c = bs ".") then stack
  else if bool_decide (c = bs "..") then
    match stack with
    | [] => if rooted then [] else [c]
    | x :: rest => if bool_decide (x = bs "..") then c :: stack else rest
    end
  else c :: stack.

Definition components (path : bytes) : list bytes :=
  rev (foldl (push_component (HasPrefix path [slash])) [] (SplitByte path slash)).

Definition render_path (rooted : bool) (l : list bytes) : bytes :=
  if rooted then slash :: Join l [slash] else match l with [] => bs "." | _ => Join l [slash] end.

Definition Clean (path : bytes) : bytes := render_path (HasPrefix path [slash]) (components path).

Definition path_Join (a b : bytes) : bytes :=
  if negb (is_nil a) then Clean (a ++ [slash] ++ b)
  else if negb (is_nil b) then Clean b else [].

Definition path_Dir (path : bytes) : bytes :=
  match LastIndexByte path slash with
  | None => Clean []
  | Some i => Clean (take (i + 1) path)
  end.

(** How the host answers [os.MkdirAll] and [os.WriteFile]. *)
Record host := MkHost { h_mkdir : bytes -> bool; h_write : bytes -> write_end }.

Section FetchDir.
Context {S : Type} `{ContentStore S}.

Definition unsafe_path (p : bytes) : bool := Contains p (bs "..") || HasPrefix p [slash].

Fixpoint fetch_entries (mem : Z) (h : host) (dest : bytes) (s : S) (fs : files)
    (entries : list DirEntry) : outcome (result files_error unit * S * files) :=
  match entries with
  | [] => Ret (Ok tt, s, fs)
  | entry :: entries =>
      if unsafe_path (de_Path entry) then Ret (Err ErrUnsafePath, s, fs) else
      match IDFromHex (de_ManifestKey entry) with
      | Err _ => Ret (Err ErrManifestKey, s, fs)
      | Ok manifestKey =>
          match FetchBytes mem s manifestKey with
          | Panic => Panic
          | Ret (Err e, s) => Ret (Err (ErrFetch e), s, fs)
          | Ret (Ok data, s) =>
              if negb (len data =? de_Size entry) then Ret (Err ErrSizeMismatch, s, fs) else
              let full := path_Join dest (de_Path entry) in
              if negb (h_mkdir h (path_Dir full)) then Ret (Err ErrMkdirParent, s, fs) else
              let '(ok, fs) := WriteFile (h_write h full) full data fs in
              if negb ok then Ret (Err ErrWrite, s, fs)
              else fetch_entries mem h dest s fs entries
          end
      end
  end.

Definition FetchDir (mem : Z) (h : host) (s : S) (rootKey : NodeID) (dest : bytes) (fs : files)
  : outcome (result files_error Directory * S * files) :=
  if negb (h_mkdir h dest) then Ret (Err ErrMkdirDest, s, fs) else
  match cs_get s rootKey with
  | (Err _, s) => Ret (Err ErrFetchDirectory, s, fs)
  | (Ok blob, s) =>
      match Unmarshal blob with
      | None => Ret (Err ErrDirectory, s, fs)
      | Some dir =>
          match fetch_entries mem h dest s fs (dir_Entries dir) with
          | Panic => Panic
          | Ret (Err e, s, fs) => Ret (Err e, s, fs)
          | Ret (Ok _, s, fs) => Ret (Ok dir, s, fs)
          end
      end
  end.

End FetchDir.

(** * Facts *)

(** ** Codecs *)

#[global, program] Instance FileManifest_laws :
  CodecLaws FileManifest
    (fun m => in_int64 (fm_Size m) /\ Forall (fun s => utf8_valid s = true) (fm_Chunks m))
  := {| codec_depth := 2 |}.
Next Obligation. done. Qed.
Next Obligation.
  intros [z l] [_ Hl]. cbn [fm_Chunks] in Hl. unfold to_json, FileManifest_codec. apply (JObj_ok 1).
  constructor; [split; [done|apply JInt_ok]|]. constructor; [|constructor].
  split; [done|]. by apply (JStrs_ok 0).
Qed.
Next Obligation.
  intros [z l] [Hz _]. cbn [fm_Size] in Hz.
  cbn [dec_struct to_json FileManifest_codec dec_members fm_Size fm_Chunks set_field zero_value].
  change (key_is (bs "size") "size") with true. cbv iota. rewrite dec_int64_JInt by done.
  cbn [fmap option_fmap option_map dec_members fm_Size fm_Chunks].
  change (key_is (bs "chunks") "size") with false. change (key_is (bs "chunks") "chunks") with true.
  cbv iota. by rewrite dec_slice_strings.
Qed.

Definition entry_fine (e : DirEntry) : Prop :=
  utf8_valid (de_Path e) = true /\ in_int64 (de_Size e) /\ utf8_valid (de_ManifestKey e) = true.

Lemma entry_json_ok e : entry_fine e -> json_ok 1 (to_json e).
Proof.
  destruct e as [p z mk]. intros (H1 & _ & H3). cbn [de_Path de_ManifestKey] in *.
  unfold to_json, DirEntry_codec. apply (JObj_ok 0). cbn [de_Path de_Size de_ManifestKey].
  repeat (apply List.Forall_cons; [split; [done|cbn [snd]; auto with altnet]|]). apply List.Forall_nil.
Qed.

Lemma entry_fields e : entry_fine e -> dec_struct set_field (to_json e) zero_value = Some e.
Proof.
  destruct e as [p z mk]. intros (_ & Hz & _). cbn [de_Size] in Hz. unfold to_json, DirEntry_codec.
  cbn [de_Path de_Size de_ManifestKey]. lazy -[dec_int64 JInt]. by rewrite !dec_int64_JInt by done.
Qed.

#[global, program] Instance Directory_laws :
  CodecLaws Directory (fun d => Forall entry_fine (dir_Entries d)) := {| codec_depth := 3 |}.
Next Obligation. done. Qed.
Next Obligation.
  intros [l] Hl. cbn [dir_Entries] in Hl. unfold to_json, Directory_codec. cbn [dir_Entries].
  destruct l as [|e l]; [apply (JObj_ok 2); constructor; [done|constructor]|].
  apply Forall_cons. split; [|constructor]. split; [done|].
  change (Forall (json_ok 1) (to_json <$> (e :: l))). rewrite Forall_fmap. eapply Forall_impl; [done|].
  intros e' He. by apply entry_json_ok.
Qed.
Next Obligation.
  intros [l] Hl. cbn [dir_Entries] in Hl.
  destruct l as [|e l]; [done|]. set (l' := e :: l) in *.
  pose proof (dec_slice_map (dec_struct set_field) (zero_value (A := DirEntry)) to_json l' []) as Hs.
  change (match MkDirectory <$> dec_slice (dec_struct set_field) (zero_value (A := DirEntry))
    (JArr (to_json <$> l')) [] with Some d => Some d | None => None end = Some (MkDirectory l')).
  rewrite Hs; [done|]. eapply Forall_impl; [exact Hl|]. intros e'. apply entry_fields.
Qed.

(** ** Chunks *)

Fixpoint split_chunks (fuel : nat) (data : bytes) : list bytes :=
  match fuel with
  | O => []
  | S fuel =>
      if is_nil data then [] else take chunk_nat data :: split_chunks fuel (drop chunk_nat data)
  end.

(** The pieces [PublishBytes] cuts the data into. *)
Definition chunks (data : bytes) : list bytes := split_chunks (length data) data.

Lemma chunk_nat_pos : (0 < chunk_nat)%nat.
Proof. unfold chunk_nat, ChunkSize. lia. Qed.

Lemma chunk_nat_Z : Z.of_nat chunk_nat = ChunkSize.
Proof. unfold chunk_nat, ChunkSize. lia. Qed.

Lemma is_nil_spec (s : bytes) : is_nil s = true <-> s = [].
Proof. unfold is_nil. apply bool_decide_eq_true. Qed.

(** Opaque for reduction: 65536 is never unfolded. *)
Opaque chunk_nat.

Lemma split_chunks_concat fuel data : (length data <= fuel)%nat -> concat (split_chunks fuel data) = data.
Proof.
  revert data. induction fuel as [|fuel IH]; intros data Hf; simpl.
  { by destruct data; simpl in *; [|lia]. }
  destruct (is_nil data) eqn:En; [apply is_nil_spec in En; by subst|]. simpl.
  rewrite IH, take_drop; [done|]. rewrite length_drop. pose proof chunk_nat_pos.
  destruct data; [done|]. simpl in *. lia.
Qed.

Lemma chunks_concat data : concat (chunks data) = data.
Proof. by apply split_chunks_concat. Qed.

Lemma split_chunks_size fuel data c : c ∈ split_chunks fuel data -> len c <= MaxValueSize.
Proof.
  revert data. induction fuel as [|fuel IH]; intros data; simpl; [set_solver|].
  destruct (is_nil data); [set_solver|]. intros [->|Hc]%elem_of_cons; [|by eapply IH].
  unfold len. rewrite length_take. pose proof chunk_nat_Z. unfold MaxValueSize, ChunkSize in *. lia.
Qed.

Lemma split_chunks_lookup fuel data i :
  (length data <= fuel)%nat -> (i * chunk_nat < length data)%nat ->
  split_chunks fuel data !! i = Some (take chunk_nat (drop (i * chunk_nat) data)).
Proof.
  pose proof chunk_nat_pos as Hp. revert data i.
  induction fuel as [|fuel IH]; intros data i Hf Hi; simpl; [lia|].
  destruct (is_nil data) eqn:En; [apply is_nil_spec in En; subst; simpl in Hi; lia|].
  destruct i as [|i]; simpl; [done|]. rewrite IH; rewrite ?length_drop; [|lia|lia].
  rewrite drop_drop. do 3 f_equal.
Qed.

Lemma split_chunks_count fuel data :
  (length data <= fuel)%nat -> (length data <= length (split_chunks fuel data) * chunk_nat)%nat.
Proof.
  pose proof chunk_nat_pos as Hp. revert data. induction fuel as [|fuel IH]; intros data Hf; simpl; [lia|].
  destruct (is_nil data) eqn:En; [apply is_nil_spec in En; subst; simpl; lia|].
  specialize (IH (drop chunk_nat data)). rewrite length_drop in IH. simpl. lia.
Qed.

(** The manifest of a file, and every blob that is stored for it. *)
Definition manifest_of (data : bytes) : FileManifest :=
  MkManifest (len data) ((fun c => Hex (ContentAddress c)) <$> chunks data).

Definition blobs (data : bytes) : list bytes := Marshal (manifest_of data) :: chunks data.

Lemma manifest_roundtrip data :
  len data < 2 ^ 63 -> Unmarshal (Marshal (manifest_of data)) = Some (manifest_of data).
Proof.
  intros Hl. apply (Unmarshal_Marshal (manifest_of data)). split.
  - unfold in_int64. simpl. unfold len in *. lia.
  - simpl. apply Forall_fmap, Forall_forall. intros c _. apply DhtWire.Hex_text.
Qed.

(** Distinct blobs of a list have distinct content addresses. *)
Definition addr_inj (l : list bytes) : Prop :=
  forall a b, a ∈ l -> b ∈ l -> ContentAddress a = ContentAddress b -> a = b.

(** ** Publishing and fetching *)

Section Keeping.
Context {S : Type} {keeps : S -> NodeID -> bytes -> Prop}.

(** Every blob of the list is kept under its address. *)
Definition keeps_all (s : S) (l : list bytes) : Prop := Forall (fun b => keeps s (ContentAddress b) b) l.

End Keeping.

(** What publishing relies on: [publishStore] fails only for what is too large, and
    afterwards the blob is kept with all that was, if it is one that may be published. *)
Class PublishLaws (S : Type) `{ContentStore S} (inv roomy : S -> Prop) (keeps : S -> NodeID -> bytes -> Prop)
    (pub : bytes -> Prop) := {
  publishStore_ok s k v : inv s ->
    match publishStore s k v with
    | Ok s' => len v <= MaxValueSize /\ inv s'
    | Err _ => MaxValueSize < len v
    end;
  publishStore_keeps s b s' l :
    inv s -> roomy s -> pub b -> addr_inj (b :: l) -> keeps_all (keeps := keeps) s l ->
    publishStore s (ContentAddress b) b = Ok s' ->
    roomy s' /\ keeps_all (keeps := keeps) s' (b :: l)
}.

(** A node that keeps its own values. *)
#[global] Instance contents_published {S : Type} `{Laws : ContentStoreLaws S inv roomy keeps} :
  PublishLaws S inv roomy keeps (fun _ => True).
Proof.
  split.
  - intros s k v Hi. unfold publishStore. pose proof (store_fails s k v) as Hf.
    destruct (cs_store_local s k v) as [s'|e] eqn:E; simpl in Hf; symmetry in Hf; zbool; [|done].
    split; [done|]. eapply replicate_inv, store_inv; eauto.
  - intros s b s' l Hi Hr _ Ha Hk. unfold publishStore.
    destruct (cs_store_local s (ContentAddress b) b) as [s1|] eqn:E; [|done]. intros [= <-].
    pose proof (store_inv _ _ _ _ Hi E) as Hi1. pose proof (store_roomy _ _ _ _ Hr E) as Hr1.
    pose proof (store_kept _ _ _ _ Hr eq_refl E) as Hb. split; [by apply replicate_roomy|].
    unfold keeps_all in *. rewrite Forall_forall in Hk. apply Forall_forall. intros x Hx.
    apply replicate_keeps; [done|]. destruct (decide (ContentAddress b = ContentAddress x)) as [Ec|Ec].
    + assert (b = x) as <- by (apply Ha; [by left|done|done]). done.
    + apply (store_keeps s (ContentAddress b) b s1); [done|apply Hk; set_solver|done].
Qed.

Lemma addr_inj_sub l l' : addr_inj l -> l' ⊆ l -> addr_inj l'.
Proof. intros Ha Hs a b H1 H2. apply Ha; by apply Hs. Qed.

(** ** Directories *)

(** The regular files of a walk: relative path and content. *)
Definition items_of (fl : list (bytes * bytes)) : list walk_item :=
  (fun f => MkItem false true (Some (fst f)) (Some (snd f))) <$> fl.

Definition entry_of (f : bytes * bytes) : DirEntry :=
  MkEntry (fst f) (len (snd f)) (Hex (ContentAddress (Marshal (manifest_of (snd f))))).

Definition all_blobs (fl : list (bytes * bytes)) : list bytes := concat ((fun f => blobs (snd f)) <$> fl).

Lemma all_blobs_cons f fl : all_blobs (f :: fl) = blobs (snd f) ++ all_blobs fl.
Proof. done. Qed.

Definition directory_of (fl : list (bytes * bytes)) : Directory :=
  MkDirectory (merge_sort entry_le (entry_of <$> fl)).

(** ** Publishing *)

Section Publishing.
Context {S : Type} `{Laws : PublishLaws S inv roomy keeps pub}.

#[local] Abbreviation keeps_all := (keeps_all (keeps := keeps)).

Lemma publish_chunks_ok fuel s data :
  inv s ->
  exists s', publish_chunks fuel s data
             = (Ok ((fun c => Hex (ContentAddress c)) <$> split_chunks fuel data), s') /\ inv s'.
Proof.
  revert s data. induction fuel as [|fuel IH]; intros s data Hi; simpl; [eauto|].
  destruct (is_nil data) eqn:En; [eauto|]. set (c := take chunk_nat data).
  pose proof (publishStore_ok s (ContentAddress c) c Hi) as Hp.
  assert (len c <= MaxValueSize) as Hc.
  { apply (split_chunks_size (Datatypes.S fuel) data). simpl. rewrite En. by left. }
  destruct (publishStore s (ContentAddress c) c) as [s1|]; [|lia]. destruct Hp as [_ Hi1].
  destruct (IH s1 (drop chunk_nat data) Hi1) as (s2 & -> & Hi2). by exists s2.
Qed.

Lemma publish_chunks_keeps fuel s data kept keys s' :
  inv s -> roomy s -> Forall pub (split_chunks fuel data) -> addr_inj (split_chunks fuel data ++ kept) ->
  keeps_all s kept -> publish_chunks fuel s data = (Ok keys, s') ->
  roomy s' /\ keeps_all s' (split_chunks fuel data ++ kept).
Proof.
  revert s data kept keys. induction fuel as [|fuel IH]; intros s data kept keys Hi Hr Hpub Ha Hk; simpl;
    [by intros [= <- <-]|]. simpl in Ha, Hpub.
  destruct (is_nil data) eqn:En; [by intros [= <- <-]|]. set (c := take chunk_nat data) in *.
  apply Forall_cons in Hpub as [Hpc Hpub].
  pose proof (publishStore_ok s (ContentAddress c) c Hi) as Hp.
  destruct (publishStore s (ContentAddress c) c) as [s1|] eqn:E1; [|done]. destruct Hp as [_ Hi1].
  destruct (publishStore_keeps s c s1 kept Hi Hr Hpc) as [Hr1 Hk1];
    [eapply addr_inj_sub; [done|set_solver]|done|done|].
  destruct (publish_chunks fuel s1 (drop chunk_nat data)) as [[keys'|] s2] eqn:E2; [|done].
  intros [= <- <-]. destruct (IH s1 (drop chunk_nat data) (c :: kept) keys' Hi1 Hr1 Hpub) as [Hr2 Hk2];
    [eapply addr_inj_sub; [done|set_solver]|done|done|].
  split; [done|]. unfold keeps_all in *. rewrite Forall_forall in Hk2 |- *. intros x Hx. apply Hk2. set_solver.
Qed.

Lemma PublishBytes_ok s data :
  inv s ->
  match PublishBytes s data with
  | (Ok (m, key), s') =>
      m = manifest_of data /\ key = ContentAddress (Marshal m) /\ inv s' /\ len (Marshal m) <= MaxValueSize
  | (Err e, _) => e = ErrStoreManifest /\ MaxValueSize < len (Marshal (manifest_of data))
  end.
Proof.
  intros Hi. unfold PublishBytes. destruct (publish_chunks_ok (length data) s data Hi) as (s1 & -> & Hi1).
  fold (chunks data). fold (manifest_of data). cbv zeta.
  pose proof (publishStore_ok s1 (ContentAddress (Marshal (manifest_of data))) (Marshal (manifest_of data)) Hi1) as Hp.
  destruct (publishStore _ _ _) as [s2|]; [|done]. destruct Hp. by split_and!.
Qed.

Lemma PublishBytes_keeps s data kept m key s' :
  inv s -> roomy s -> Forall pub (blobs data) -> addr_inj (blobs data ++ kept) -> keeps_all s kept ->
  PublishBytes s data = (Ok (m, key), s') -> roomy s' /\ keeps_all s' (blobs data ++ kept).
Proof.
  intros Hi Hr [Hpm Hpub]%Forall_cons Ha Hk. unfold PublishBytes.
  destruct (publish_chunks_ok (length data) s data Hi) as (s1 & E1 & Hi1). rewrite E1.
  fold (chunks data). fold (manifest_of data). cbv zeta.
  assert (addr_inj (chunks data ++ kept)) as Ha1 by (eapply addr_inj_sub; [exact Ha|set_solver]).
  destruct (publish_chunks_keeps _ s data kept _ s1 Hi Hr Hpub Ha1 Hk E1) as [Hr1 Hk1].
  set (blob := Marshal (manifest_of data)) in *.
  destruct (publishStore s1 (ContentAddress blob) blob) as [s2|] eqn:E2; [|done]. intros [= <- <- <-].
  by apply (publishStore_keeps s1 blob s2 (chunks data ++ kept)).
Qed.

Lemma publish_walk_keeps fl s acc kept es s' :
  inv s -> roomy s -> Forall pub (all_blobs fl) -> addr_inj (all_blobs fl ++ kept) -> keeps_all s kept ->
  publish_walk s (items_of fl) acc = (Ok es, s') ->
  es = acc ++ (entry_of <$> fl) /\ inv s' /\ roomy s' /\ keeps_all s' (all_blobs fl ++ kept).
Proof.
  revert s acc kept. induction fl as [|[rel data] fl IH]; intros s acc kept Hi Hr Hpub Ha Hk.
  { intros [= <- <-]. by rewrite app_nil_r. }
  unfold items_of. rewrite fmap_cons. cbn [publish_walk wi_err wi_regular wi_rel wi_data negb fst snd].
  rewrite all_blobs_cons in Ha, Hpub |- *. cbn [snd] in Ha, Hpub |- *. apply Forall_app in Hpub as [Hpd Hpub]. set (rest := all_blobs fl) in *.
  pose proof (PublishBytes_ok s data Hi) as Hp.
  destruct (PublishBytes s data) as [[[m key]|] s1] eqn:E; [|done].
  destruct Hp as (-> & -> & Hi1 & _).
  assert (addr_inj (blobs data ++ kept)) as Ha1 by (eapply addr_inj_sub; [exact Ha|set_solver]).
  destruct (PublishBytes_keeps s data kept _ _ s1 Hi Hr Hpd Ha1 Hk E) as [Hr1 Hk1]. intros Hw.
  assert (addr_inj (rest ++ (blobs data ++ kept))) as Ha2 by (eapply addr_inj_sub; [exact Ha|set_solver]).
  destruct (IH s1 _ (blobs data ++ kept) Hi1 Hr1 Hpub Ha2 Hk1 Hw) as (-> & Hi2 & Hr2 & Hk2).
  split; [by rewrite <- app_assoc|]. split_and!; [done|done|].
  unfold keeps_all in *. rewrite Forall_forall in Hk2 |- *. intros x Hx. apply Hk2. set_solver.
Qed.

(** Files whose manifests fit are published. *)
Lemma publish_walk_ok fl s acc :
  inv s -> Forall (fun f => len (Marshal (manifest_of (snd f))) <= MaxValueSize) fl ->
  exists s', publish_walk s (items_of fl) acc = (Ok (acc ++ (entry_of <$> fl)), s') /\ inv s'.
Proof.
  intros Hi Hf. revert s acc Hi. induction Hf as [|[rel data] fl Hm _ IH]; intros s acc Hi.
  { exists s. by rewrite app_nil_r. }
  unfold items_of. rewrite fmap_cons. cbn [publish_walk wi_err wi_regular wi_rel wi_data negb fst snd] in *.
  pose proof (PublishBytes_ok s data Hi) as Hp. destruct (PublishBytes s data) as [[[m key]|] s1]; [|lia].
  destruct Hp as (-> & -> & Hi1 & _). destruct (IH s1 (acc ++ [entry_of (rel, data)]) Hi1) as (s2 & E & Hi2).
  exists s2. split; [|done]. rewrite <- app_assoc in E. exact E.
Qed.

Lemma PublishDir_succeeds s fl :
  inv s -> Forall (fun f => len (Marshal (manifest_of (snd f))) <= MaxValueSize) fl ->
  len (Marshal (directory_of fl)) <= MaxValueSize ->
  exists s', PublishDir s (Some true) (items_of fl)
             = (Ok (ContentAddress (Marshal (directory_of fl)), directory_of fl), s').
Proof.
  intros Hi Hf Hl. unfold PublishDir. destruct (publish_walk_ok fl s [] Hi Hf) as (s1 & -> & Hi1). cbn [app]. cbv zeta.
  fold (directory_of fl).
  pose proof (publishStore_ok s1 (ContentAddress (Marshal (directory_of fl))) (Marshal (directory_of fl)) Hi1) as Hp.
  destruct (publishStore _ _ _) as [s2|]; [by exists s2|lia].
Qed.

(** And only those. *)
Lemma PublishDir_fits s fl r s' :
  inv s -> PublishDir s (Some true) (items_of fl) = (Ok r, s') ->
  Forall (fun f => len (Marshal (manifest_of (snd f))) <= MaxValueSize) fl
  /\ len (Marshal (directory_of fl)) <= MaxValueSize.
Proof.
  intros Hi. unfold PublishDir. destruct (publish_walk s (items_of fl) []) as [[es|] s1] eqn:Ew; [|done].
  assert (Forall (fun f => len (Marshal (manifest_of (snd f))) <= MaxValueSize) fl) as Hf.
  { clear -Laws Hi Ew. revert s Hi Ew. generalize (@nil DirEntry).
    induction fl as [|[rel data] fl IH]; intros acc s Hi; [intros; apply Forall_nil_2|].
    unfold items_of. rewrite fmap_cons. cbn [publish_walk wi_err wi_regular wi_rel wi_data negb fst snd].
    pose proof (PublishBytes_ok s data Hi) as Hp. destruct (PublishBytes s data) as [[[m key]|] s2]; [|done].
    destruct Hp as (-> & -> & Hi2 & Hl). intros Ew. apply Forall_cons. split; [exact Hl|]. by eapply IH. }
  destruct (publish_walk_ok fl s [] Hi Hf) as (s2 & E & Hi2). rewrite E in Ew. injection Ew as <- <-.
  cbn [app]. cbv zeta. fold (directory_of fl).
  pose proof (publishStore_ok s2 (ContentAddress (Marshal (directory_of fl))) (Marshal (directory_of fl)) Hi2) as Hp.
  destruct (publishStore _ _ _) as [s3|]; [|done]. by destruct Hp.
Qed.

(** A published directory: its root key, and that the node keeps all of it. *)
Lemma PublishDir_published s s1 fl root dir :
  inv s -> roomy s -> Forall pub (Marshal (directory_of fl) :: all_blobs fl) -> addr_inj (Marshal (directory_of fl) :: all_blobs fl) ->
  PublishDir s (Some true) (items_of fl) = (Ok (root, dir), s1) ->
  dir = directory_of fl /\ root = ContentAddress (Marshal dir) /\ inv s1 /\ roomy s1
  /\ keeps_all s1 (Marshal (directory_of fl) :: all_blobs fl).
Proof.
  intros Hi Hr [Hpd Hpub]%Forall_cons Ha. unfold PublishDir.
  destruct (publish_walk s (items_of fl) []) as [[es|] s0] eqn:Ew; [|done].
  assert (addr_inj (all_blobs fl ++ [])) as Ha0 by (eapply addr_inj_sub; [exact Ha|set_solver]).
  destruct (publish_walk_keeps fl s [] [] es s0 Hi Hr Hpub Ha0 (Forall_nil_2 _) Ew) as (-> & Hi0 & Hr0 & Hk0).
  rewrite app_nil_r in Hk0. cbn [app]. cbv zeta. fold (directory_of fl).
  set (blob := Marshal (directory_of fl)) in *.
  pose proof (publishStore_ok s0 (ContentAddress blob) blob Hi0) as Hp.
  destruct (publishStore s0 (ContentAddress blob) blob) as [s1'|] eqn:E1; [|done].
  intros [= <- <- <-]. destruct Hp as [_ Hi1].
  destruct (publishStore_keeps s0 blob s1' (all_blobs fl) Hi0 Hr0 Hpd Ha Hk0 E1) as [Hr1 Hk1]. done.
Qed.

End Publishing.

(** ** Fetching *)

Section Reading.
Context {S : Type} `{Laws : ReadLaws S inv keeps}.

#[local] Abbreviation keeps_all := (keeps_all (keeps := keeps)).

Lemma get_keeps_all s k l : inv s -> keeps_all s l -> keeps_all (snd (cs_get s k)) l.
Proof. intros Hi Hk. eapply Forall_impl; [exact Hk|]. intros b Hb. by apply get_keeps. Qed.

Lemma get_of_kept s b l :
  inv s -> keeps_all s l -> b ∈ l ->
  exists s', cs_get s (ContentAddress b) = (Ok b, s') /\ inv s' /\ keeps_all s' l.
Proof.
  intros Hi Hk Hb. unfold keeps_all in Hk. pose proof Hk as Hk'. rewrite Forall_forall in Hk.
  pose proof (get_kept s _ _ Hi (Hk b Hb)) as Hg. pose proof (get_inv s (ContentAddress b) Hi) as Hi'.
  pose proof (get_keeps_all s (ContentAddress b) l Hi Hk') as Hk2.
  destruct (cs_get s (ContentAddress b)) as [r s']. simpl in *. subst r. eauto.
Qed.

Lemma fetch_chunks_kept s cs kept out :
  inv s -> keeps_all s kept -> cs ⊆ kept ->
  exists s', fetch_chunks s ((fun c => Hex (ContentAddress c)) <$> cs) out = (Ok (out ++ concat cs), s')
    /\ inv s' /\ keeps_all s' kept.
Proof.
  revert s out. induction cs as [|c cs IH]; intros s out Hi Hk Hs.
  { exists s. cbn. by rewrite app_nil_r. }
  rewrite fmap_cons. cbn [fetch_chunks concat].
  rewrite IDFromHex_Hex. destruct (get_of_kept s c kept Hi Hk) as (s1 & -> & Hi1 & Hk1); [set_solver|].
  destruct (IH s1 (out ++ c) Hi1 Hk1) as (s2 & -> & ? & ?); [set_solver|].
  exists s2. by rewrite <- app_assoc.
Qed.

Lemma FetchBytes_kept mem s data kept :
  inv s -> keeps_all s kept -> blobs data ⊆ kept -> len data <= mem < 2 ^ 63 ->
  exists s', FetchBytes mem s (ContentAddress (Marshal (manifest_of data))) = Ret (Ok data, s')
    /\ inv s' /\ keeps_all s' kept.
Proof.
  intros Hi Hk Hs Hm. unfold FetchBytes.
  destruct (get_of_kept s (Marshal (manifest_of data)) kept Hi Hk) as (s1 & -> & Hi1 & Hk1);
    [apply Hs; by left|].
  rewrite manifest_roundtrip by lia. cbn [manifest_of fm_Size fm_Chunks].
  rewrite (proj2 (Z.ltb_ge (len data) 0)) by (unfold len; lia).
  rewrite (proj2 (Z.ltb_ge mem (len data))) by lia. simpl orb. cbv iota.
  destruct (fetch_chunks_kept s1 (chunks data) kept [] Hi1 Hk1) as (s2 & -> & ? & ?);
    [unfold blobs in Hs; set_solver|].
  simpl app. rewrite chunks_concat, Z.eqb_refl. by exists s2.
Qed.

(** ** Integrity of what is fetched *)

(** The chunks [fetch_chunks] gets, in order. *)
Fixpoint got_chunks (s : S) (keys : list bytes) : list bytes :=
  match keys with
  | [] => []
  | hexKey :: keys =>
      match IDFromHex hexKey with
      | Err _ => []
      | Ok key => match cs_get s key with (Ok chunk, s) => chunk :: got_chunks s keys | _ => [] end
      end
  end.

(** Every blob one [FetchBytes] gets. *)
Definition got (s : S) (manifestKey : NodeID) : list bytes :=
  match cs_get s manifestKey with
  | (Err _, _) => []
  | (Ok blob, s) =>
      blob :: match Unmarshal blob with Some m => got_chunks s (fm_Chunks m) | None => [] end
  end.

Lemma fetch_chunks_got s cs out r s' :
  inv s -> fetch_chunks s ((fun c => Hex (ContentAddress c)) <$> cs) out = (Ok r, s') ->
  let g := got_chunks s ((fun c => Hex (ContentAddress c)) <$> cs) in
  r = out ++ concat g /\ Forall2 (fun c x => ContentAddress x = ContentAddress c) cs g.
Proof.
  revert s out. induction cs as [|c cs IH]; intros s out Hi.
  { cbn. intros [= <- <-]. rewrite app_nil_r. by split; [|constructor]. }
  rewrite fmap_cons. cbn [fetch_chunks got_chunks].
  rewrite IDFromHex_Hex. pose proof (get_address s (ContentAddress c)) as Hg.
  pose proof (get_inv s (ContentAddress c) Hi) as Hi1.
  destruct (cs_get s (ContentAddress c)) as [[x|] s1]; [|done]. simpl in Hg, Hi1. intros Hf.
  destruct (IH s1 _ Hi1 Hf) as [-> Hf2]. cbv zeta. cbn [concat]. rewrite <- app_assoc. split; [done|].
  constructor; [by apply Hg|done].
Qed.

(** C5 (apps/files/chunk.go, [FetchBytes]): a fetched file cannot have been tampered
    with.  From any network and any local state, fetching the key of a published
    file returns that file or fails; the only way to another result is a blob
    received in this very fetch that is different from a blob of the file and has
    the same SHA-256. *)
Theorem fetch_integrity (mem : Z) (s s' : S) (data out : bytes) :
  inv s -> len data < 2 ^ 63 ->
  FetchBytes mem s (ContentAddress (Marshal (manifest_of data))) = Ret (Ok out, s') ->
  out = data
  \/ exists a b, a ∈ blobs data /\ b ∈ got s (ContentAddress (Marshal (manifest_of data)))
       /\ a <> b /\ ContentAddress a = ContentAddress b.
Proof.
  intros Hi Hl. unfold FetchBytes, got. set (blob := Marshal (manifest_of data)).
  pose proof (get_address s (ContentAddress blob)) as Hg. pose proof (get_inv s (ContentAddress blob) Hi) as Hi1.
  destruct (cs_get s (ContentAddress blob)) as [[x|] s1]; [|done]. simpl in Hg, Hi1.
  destruct (decide (x = blob)) as [->|Hne].
  2:{ intros _. right. exists blob, x. split_and!; [by left|by left|done|]. symmetry. by apply Hg. }
  unfold blob. rewrite manifest_roundtrip by done. destruct (_ || _); [done|].
  destruct (fetch_chunks s1 _ []) as [[r|] s2] eqn:Ef; [|done]. destruct (negb _); [done|].
  intros [= <- <-]. cbn [manifest_of fm_Chunks] in *. apply fetch_chunks_got in Ef as [-> Hf2]; [|done].
  simpl app. set (g := got_chunks s1 _) in *.
  destruct (decide (g = chunks data)) as [->|Hne]; [left; apply chunks_concat|right].
  assert (exists a b, a ∈ chunks data /\ b ∈ g /\ a <> b /\ ContentAddress b = ContentAddress a)
    as (a & b & Ha & Hb & Hab & He); [|exists a, b; by split_and!; [right|right| |]].
  revert Hne. clear -Hf2. induction Hf2 as [|c x cs g Hx Hf IH]; [done|]. intros Hne.
  destruct (decide (x = c)) as [->|Hc].
  - destruct IH as (a & b & ? & ? & ? & ?); [congruence|]. exists a, b. by split_and!; [right|right| |].
  - exists c, x. split_and!; [by left|by left|done|done].
Qed.

(** ** The reader *)

(** A reader over [data] whose cached chunk, if any, is the right one. *)
Definition reader_of (data : bytes) (cr : ChunkReader) : Prop :=
  cr_manifest cr = manifest_of data /\ 0 <= cr_pos cr < 2 ^ 63
  /\ match cr_cachedChunk cr with
     | Some c => chunks data !! Z.to_nat (cr_cachedIdx cr) = Some c /\ 0 <= cr_cachedIdx cr
     | None => True
     end.

Lemma fetchChunk_kept s cr data idx c kept :
  inv s -> keeps_all s kept -> chunks data ⊆ kept -> reader_of data cr -> 0 <= idx ->
  chunks data !! Z.to_nat idx = Some c ->
  exists cr' s', fetchChunk s cr idx = (Ok c, cr', s') /\ inv s' /\ keeps_all s' kept
    /\ reader_of data cr' /\ cr_pos cr' = cr_pos cr.
Proof.
  intros Hi Hk Hs Hr Hidx Hc. pose proof Hr as (Em & Hp & Hcache). unfold fetchChunk.
  destruct (if idx =? cr_cachedIdx cr then cr_cachedChunk cr else None) as [x|] eqn:Ec.
  { exists cr, s. destruct (Z.eqb_spec idx (cr_cachedIdx cr)) as [->|]; [|done]. rewrite Ec in Hcache.
    destruct Hcache as [Hx _]. assert (x = c) as -> by congruence. done. }
  pose proof (lookup_lt_Some _ _ _ Hc) as Hlt. rewrite Em. cbn [manifest_of fm_Chunks].
  rewrite length_fmap, (proj2 (Z.ltb_ge idx 0)), (proj2 (Z.leb_gt _ _)) by lia. cbn [orb].
  rewrite list_lookup_fmap, Hc. simpl default. rewrite IDFromHex_Hex.
  destruct (get_of_kept s c kept Hi Hk) as (s1 & -> & Hi1 & Hk1).
  { apply Hs. by eapply list_elem_of_lookup_2. }
  exists (with_cache cr idx c), s1. split_and!; done.
Qed.

Lemma take_min_length {A} n (l : list A) : take (Nat.min n (length l)) l = take n l.
Proof.
  destruct (Nat.min_spec n (length l)) as [[? ->]|[? ->]]; [done|].
  by rewrite !take_ge.
Qed.

(** (apps/files/stream.go, [Read], [fetchChunk]): on a node that keeps the file's
    chunks, a [Read] into [plen] bytes at a position inside the file copies exactly
    the file's bytes from that position, up to the end of the chunk, at least one,
    and advances by their number; at or past the end it reports EOF and moves
    nothing.  The reader stays a reader of that file. *)
Theorem read_spec (s : S) (cr : ChunkReader) (data : bytes) (plen : nat) (kept : list bytes) :
  inv s -> keeps_all s kept -> chunks data ⊆ kept -> reader_of data cr -> len data < 2 ^ 63 ->
  (0 < plen)%nat ->
  if len data <=? cr_pos cr then Read s cr plen = (Err EOF, cr, s)
  else exists cr' s',
    let pos := Z.to_nat (cr_pos cr) in
    let n := Nat.min plen (Nat.min (chunk_nat - pos mod chunk_nat) (length data - pos)) in
    Read s cr plen = (Ok (take n (drop pos data)), cr', s')
    /\ (0 < n)%nat /\ cr_pos cr' = cr_pos cr + Z.of_nat n
    /\ reader_of data cr' /\ inv s' /\ keeps_all s' kept.
Proof.
  intros Hi Hk Hs Hr Hl Hpl. pose proof Hr as (Em & Hpos & _). unfold Read. rewrite Em.
  cbn [manifest_of fm_Size]. destruct (Z.leb_spec (len data) (cr_pos cr)) as [|Hlt]; [done|].
  rewrite (proj2 (Nat.eqb_neq plen 0)) by lia. cbv zeta.
  set (pos := Z.to_nat (cr_pos cr)). pose proof chunk_nat_pos as Hc0. pose proof chunk_nat_Z as HcZ.
  assert (cr_pos cr = Z.of_nat pos) as Epos by lia.
  assert (pos < length data)%nat as Hp by (unfold len in Hlt; lia).
  rewrite Epos, <- HcZ, Z.quot_div_nonneg, Z.rem_mod_nonneg by lia.
  rewrite <- Nat2Z.inj_div, <- Nat2Z.inj_mod.
  pose proof (Nat.div_mod pos chunk_nat ltac:(lia)) as Edm.
  pose proof (Nat.mod_upper_bound pos chunk_nat ltac:(lia)) as Hmod.
  set (q := (pos / chunk_nat)%nat) in *. set (r := (pos mod chunk_nat)%nat) in *.
  assert (chunks data !! q = Some (take chunk_nat (drop (q * chunk_nat) data))) as Hlook
    by (apply split_chunks_lookup; lia).
  set (c := take chunk_nat _) in *.
  rewrite <- (Nat2Z.id q) in Hlook.
  destruct (fetchChunk_kept s cr data (Z.of_nat q) c kept Hi Hk Hs Hr ltac:(lia) Hlook)
    as (cr1 & s1 & -> & Hi1 & Hk1 & Hr1 & Ep1).
  assert (length c = Nat.min chunk_nat (length data - q * chunk_nat)) as Elen
    by (unfold c; by rewrite length_take, length_drop).
  rewrite (proj2 (Z.leb_gt _ _)) by (unfold len; lia). rewrite Nat2Z.id.
  set (n := Nat.min plen (Nat.min (chunk_nat - r) (length data - pos))).
  assert (take plen (drop r c) = take n (drop pos data)) as ->.
  { unfold c. rewrite skipn_firstn_comm, drop_drop, take_take.
    replace (q * chunk_nat + r)%nat with pos by lia.
    rewrite <- (take_min_length (Nat.min plen (chunk_nat - r))), length_drop. f_equal. lia. }
  assert (len (take n (drop pos data)) = Z.of_nat n) as ->
    by (unfold len; rewrite length_take, length_drop; lia).
  destruct Hr1 as (Em1 & _ & Hc1).
  rewrite Ep1, int64_id by (unfold in_int64, len in *; lia).
  exists (with_pos cr1 (cr_pos cr + Z.of_nat n)), s1. split; [reflexivity|].
  split; [lia|]. split; [cbn [with_pos cr_pos]; lia|]. split; [|exact (conj Hi1 Hk1)].
  split; [exact Em1|]. split; [cbn [with_pos cr_pos]; unfold len in *; lia|exact Hc1].
Qed.

Definition write_all (dest : bytes) (fl : list (bytes * bytes)) (fs : files) : files :=
  foldl (fun fs f => <[path_Join dest (fst f) := snd f]> fs) fs fl.

Definition fetchable (mem : Z) (f : bytes * bytes) : Prop :=
  unsafe_path (fst f) = false /\ len (snd f) <= mem.

Definition willing (h : host) : Prop := (forall p, h_mkdir h p = true) /\ forall p, h_write h p = Written.

Lemma fetch_entries_kept mem h dest fl s fs kept :
  inv s -> keeps_all s kept -> all_blobs fl ⊆ kept -> mem < 2 ^ 63 -> willing h ->
  Forall (fetchable mem) fl ->
  exists s', fetch_entries mem h dest s fs (entry_of <$> fl) = Ret (Ok tt, s', write_all dest fl fs).
Proof.
  intros Hi Hk Hs Hm [Hmk Hwr] Hf. revert s fs Hi Hk Hs.
  induction Hf as [|[rel data] fl [Hu Hl] Hf IH]; intros s fs Hi Hk Hs; [by exists s|].
  rewrite fmap_cons. cbn [fetch_entries entry_of de_Path de_ManifestKey de_Size fst snd] in *.
  rewrite all_blobs_cons in Hs. cbn [snd] in Hs.
  rewrite Hu, IDFromHex_Hex.
  destruct (FetchBytes_kept mem s data kept Hi Hk) as (s1 & -> & Hi1 & Hk1); [set_solver|done|].
  rewrite Z.eqb_refl. cbn [negb]. rewrite Hmk. cbn [negb]. rewrite Hwr. cbn [WriteFile negb].
  apply IH; [done|done|]. set_solver.
Qed.

Lemma write_all_lookup_ne dest fl fs p :
  p ∉ ((fun f => path_Join dest (fst f)) <$> fl) -> write_all dest fl fs !! p = fs !! p.
Proof.
  unfold write_all. revert fs. induction fl as [|f fl IH]; intros fs Hp; [done|].
  rewrite fmap_cons, not_elem_of_cons in Hp. destruct Hp as [Hne Hp]. simpl. rewrite IH by done.
  by rewrite lookup_insert_ne.
Qed.

Lemma write_all_lookup dest fl fs f :
  NoDup ((fun f => path_Join dest (fst f)) <$> fl) -> f ∈ fl ->
  write_all dest fl fs !! path_Join dest (fst f) = Some (snd f).
Proof.
  revert fs. induction fl as [|g fl IH]; intros fs Hn Hf; [set_solver|].
  rewrite fmap_cons, NoDup_cons in Hn. destruct Hn as [Hg Hn].
  apply elem_of_cons in Hf as [->|Hf]; [|by apply (IH (<[_ := _]> fs))].
  change (write_all dest fl (<[path_Join dest (fst g) := snd g]> fs) !! path_Join dest (fst g) = Some (snd g)).
  rewrite write_all_lookup_ne by done. by rewrite lookup_insert_eq.
Qed.

Lemma directory_fine fl :
  Forall (fun f => utf8_valid (fst f) = true /\ len (snd f) < 2 ^ 63) fl ->
  Unmarshal (Marshal (directory_of fl)) = Some (directory_of fl).
Proof.
  intros Hf. apply (Unmarshal_Marshal (directory_of fl)). cbn [directory_of dir_Entries].
  rewrite merge_sort_Permutation. apply Forall_fmap. eapply Forall_impl; [exact Hf|].
  intros [rel data] [Hu Hl]. split_and!; [exact Hu| |apply DhtWire.Hex_text].
  unfold in_int64. cbn [entry_of de_Size snd] in *. unfold len in *. lia.
Qed.

(** The entries of a directory are those of its files, in another order. *)
Lemma directory_entries fl : exists fl', dir_Entries (directory_of fl) = entry_of <$> fl' /\ fl ≡ₚ fl'.
Proof.
  pose proof (merge_sort_Permutation entry_le (entry_of <$> fl)) as Hps.
  apply Permutation_map_inv in Hps as (fl' & E & Hp). exists fl'. done.
Qed.

Lemma all_blobs_perm fl fl' : fl ≡ₚ fl' -> all_blobs fl ≡ₚ all_blobs fl'.
Proof. intros Hp. unfold all_blobs. by rewrite Hp. Qed.

(** A directory that is kept can be fetched. *)
Lemma FetchDir_kept (mem : Z) (h : host) (s : S) (fl : list (bytes * bytes)) (dest : bytes) (fs : files) :
  inv s -> keeps_all s (Marshal (directory_of fl) :: all_blobs fl) -> mem < 2 ^ 63 -> willing h ->
  Forall (fun f => fetchable mem f /\ utf8_valid (fst f) = true) fl ->
  NoDup ((fun f => path_Join dest (fst f)) <$> fl) ->
  exists s' fs', FetchDir mem h s (ContentAddress (Marshal (directory_of fl))) dest fs = Ret (Ok (directory_of fl), s', fs')
    /\ (forall f, f ∈ fl -> fs' !! path_Join dest (fst f) = Some (snd f))
    /\ (forall p, p ∉ ((fun f => path_Join dest (fst f)) <$> fl) -> fs' !! p = fs !! p).
Proof.
  intros Hi Hk Hm Hh Hf Hn. unfold FetchDir. rewrite (proj1 Hh). cbn [negb].
  destruct (get_of_kept s (Marshal (directory_of fl)) _ Hi Hk) as (s2 & -> & Hi2 & Hk2); [by left|].
  rewrite directory_fine.
  2:{ eapply Forall_impl; [exact Hf|]. intros f [[_ ?] ?]. split; [done|lia]. }
  destruct (directory_entries fl) as (fl' & -> & Hp).
  destruct (fetch_entries_kept mem h dest fl' s2 fs _ Hi2 Hk2) as (s3 & ->); [|done|done| |].
  { rewrite (all_blobs_perm fl fl' Hp). set_solver. }
  { rewrite <- Hp. eapply Forall_impl; [exact Hf|]. by intros f [? _]. }
  eexists s3, _. split; [done|]. rewrite Hp in Hn. split.
  - intros f Hfl. apply write_all_lookup; [done|]. by rewrite <- Hp.
  - intros p Hpn. apply write_all_lookup_ne. by rewrite <- Hp.
Qed.

End Reading.

(** ** Round trips *)

Section Laws.
Context {S : Type} `{Laws : ContentStoreLaws S inv roomy keeps}.

#[local] Abbreviation keeps_all := (keeps_all (keeps := keeps)).

Lemma PublishDir_keeps s s1 fl root dir :
  inv s -> roomy s -> addr_inj (Marshal (directory_of fl) :: all_blobs fl) ->
  PublishDir s (Some true) (items_of fl) = (Ok (root, dir), s1) ->
  dir = directory_of fl /\ root = ContentAddress (Marshal dir) /\ inv s1
  /\ keeps_all s1 (Marshal (directory_of fl) :: all_blobs fl).
Proof.
  intros Hi Hr Ha Hp.
  destruct (PublishDir_published s s1 fl root dir Hi Hr (Forall_true _ _ (fun _ => I)) Ha Hp) as (? & ? & ? & _ & ?). done.
Qed.

(** (apps/files/chunk.go, [PublishBytes], [FetchBytes]): publishing a file fails
    exactly when its manifest is over the DHT's value limit.  Otherwise, on a node
    that keeps what it stores, and as long as the stored blobs have distinct
    hashes, fetching the manifest key returns the file byte for byte, whatever the
    rest of the network does. *)
Theorem publish_fetch_roundtrip (mem : Z) (s : S) (data : bytes) :
  inv s -> roomy s -> addr_inj (blobs data) -> len data <= mem < 2 ^ 63 ->
  match PublishBytes s data with
  | (Ok (m, key), s1) =>
      len (Marshal (manifest_of data)) <= MaxValueSize
      /\ exists s2, FetchBytes mem s1 key = Ret (Ok data, s2)
  | (Err _, _) => MaxValueSize < len (Marshal (manifest_of data))
  end.
Proof.
  intros Hi Hr Ha Hm. pose proof (PublishBytes_ok s data Hi) as Hp.
  destruct (PublishBytes s data) as [[[m key]|e] s1] eqn:E; [|by destruct Hp].
  destruct Hp as (-> & -> & Hi1 & Hl). split; [done|].
  assert (addr_inj (blobs data ++ [])) as Ha' by by rewrite app_nil_r.
  destruct (PublishBytes_keeps s data [] _ _ s1 Hi Hr (Forall_true _ _ (fun _ => I)) Ha' (Forall_nil_2 _) E) as [_ Hk].
  destruct (FetchBytes_kept mem s1 data _ Hi1 Hk) as (s2 & E2 & _); [set_solver|done|]. eauto.
Qed.

(** (apps/files/dir.go, [PublishDir], [FetchDir]): a directory comes back as it
    was published.  When [PublishDir] returns a root key on a node that keeps what
    it stores, fetching that key into a writable [dest] gives every published file
    its content again and changes no other file.  The paths are those [FetchDir]
    accepts, and their targets in [dest] are distinct. *)
Theorem directory_roundtrip (mem : Z) (h : host) (s s1 : S) (fl : list (bytes * bytes))
    (root : NodeID) (dir : Directory) (dest : bytes) (fs : files) :
  inv s -> roomy s -> addr_inj (Marshal (directory_of fl) :: all_blobs fl) ->
  mem < 2 ^ 63 -> willing h ->
  Forall (fun f => fetchable mem f /\ utf8_valid (fst f) = true) fl ->
  NoDup ((fun f => path_Join dest (fst f)) <$> fl) ->
  PublishDir s (Some true) (items_of fl) = (Ok (root, dir), s1) ->
  exists s2 fs', FetchDir mem h s1 root dest fs = Ret (Ok dir, s2, fs')
    /\ dir = directory_of fl
    /\ (forall f, f ∈ fl -> fs' !! path_Join dest (fst f) = Some (snd f))
    /\ (forall p, p ∉ ((fun f => path_Join dest (fst f)) <$> fl) -> fs' !! p = fs !! p).
Proof.
  intros Hi Hr Ha Hm Hh Hf Hn Hpub.
  destruct (PublishDir_keeps s s1 fl root dir Hi Hr Ha Hpub) as (-> & -> & Hi1 & Hk1).
  destruct (FetchDir_kept mem h s1 fl dest fs Hi1 Hk1 Hm Hh Hf Hn) as (s2 & fs' & E & Hin & Hout).
  by exists s2, fs'.
Qed.

End Laws.

(** ** Path safety *)

Lemma Contains_spec s sub : Contains s sub = true <-> exists a b, s = a ++ sub ++ b.
Proof.
  assert (forall s : bytes, (exists a b, s = a ++ sub ++ b) <->
    HasPrefix s sub = true \/ exists x s', s = x :: s' /\ exists a b, s' = a ++ sub ++ b) as Hstep.
  { intros t. rewrite HasPrefix_spec. split.
    - intros ([|x a] & b & ->); [left; by exists b|right; exists x, (a ++ sub ++ b); eauto].
    - intros [[b ->]|(x & s' & -> & a & b & ->)]; [by exists [], b|by exists (x :: a), b]. }
  induction s as [|x s IH]; rewrite Hstep; simpl; rewrite orb_true_iff.
  - split; [intros [?|?]; [by left|done]|intros [?|(? & ? & ? & _)]; [by left|done]].
  - rewrite IH. split; [intros [?|?]; [by left|right; eauto]|].
    intros [?|(? & ? & [= <- <-] & ?)]; [by left|by right].
Qed.

(** A component of a split is a substring. *)
Lemma SplitByte_sub s c p : p ∈ SplitByte s c -> exists a b, s = a ++ p ++ b.
Proof.
  revert p. enough ((forall p, head (SplitByte s c) = Some p -> exists b, s = p ++ b)
    /\ forall p, p ∈ SplitByte s c -> exists a b, s = a ++ p ++ b) as [_ H] by apply H.
  induction s as [|x s [IH1 IH2]]; simpl.
  { split; [intros p [= <-]; by exists []|]. intros p ->%list_elem_of_singleton. by exists [], []. }
  case_bool_decide as E.
  - split; [intros p [= <-]; by eexists|]. intros p [->|Hp]%elem_of_cons; [by exists [], (x :: s)|].
    destruct (IH2 p Hp) as (a & b & ->). by exists (x :: a), b.
  - pose proof (SplitByte_nonempty s c). destruct (SplitByte s c) as [|q l]; [done|]. split.
    + intros p [= <-]. destruct (IH1 q eq_refl) as [b ->]. by exists b.
    + intros p [->|Hp]%elem_of_cons; [destruct (IH1 q eq_refl) as [b ->]; by exists [], b|].
      destruct (IH2 p) as (a & b & ->); [by right|]. by exists (x :: a), b.
Qed.

Lemma SplitByte_app_sep s t c : SplitByte (s ++ [c] ++ t) c = SplitByte s c ++ SplitByte t c.
Proof.
  induction s as [|x s IH]; simpl; [by rewrite bool_decide_eq_true_2|].
  case_bool_decide; simpl in IH; rewrite IH; [done|]. pose proof (SplitByte_nonempty s c).
  by destruct (SplitByte s c).
Qed.

(** Components that are not [..] are only ever pushed. *)
Lemma push_components rooted st cs :
  (bs ".." ∉ cs) ->
  foldl (push_component rooted) st cs
  = rev (List.filter (fun c => negb (is_nil c || bool_decide (c = bs "."))) cs) ++ st.
Proof.
  revert st. induction cs as [|c cs IH]; intros st Hn; [done|]. apply not_elem_of_cons in Hn as [Hc Hn].
  cbn [foldl List.filter]. rewrite IH by done. unfold push_component at 1.
  destruct (is_nil c || bool_decide (c = bs ".")); cbn [negb]; [done|].
  rewrite bool_decide_eq_false_2 by done. cbn [rev]. by rewrite <- app_assoc.
Qed.

(** A path at or below [dest]: components after those of [dest], none of them [..]. *)
Definition under (dest p : bytes) : Prop :=
  exists l, (bs ".." ∉ l) /\ p = render_path (HasPrefix dest [slash]) (components dest ++ l).

Lemma safe_path_under dest rel :
  dest <> [] -> unsafe_path rel = false -> under dest (path_Join dest rel).
Proof.
  intros Hd [Hc _]%orb_false_iff. unfold path_Join.
  assert (is_nil dest = false) as -> by (unfold is_nil; by apply bool_decide_eq_false_2). cbn [negb].
  assert (HasPrefix (dest ++ [slash] ++ rel) [slash] = HasPrefix dest [slash]) as Hp.
  { unfold HasPrefix. by destruct dest. }
  assert (bs ".." ∉ SplitByte rel slash) as Hn.
  { intros (a & b & E)%SplitByte_sub. assert (Contains rel (bs "..") = true); [|congruence].
    apply Contains_spec. eauto. }
  exists (List.filter (fun c => negb (is_nil c || bool_decide (c = bs "."))) (SplitByte rel slash)).
  split; [intros Hx; apply list_elem_of_In, filter_In in Hx as [Hx _]; by apply Hn, list_elem_of_In|].
  unfold Clean. rewrite Hp. f_equal. unfold components. rewrite Hp, SplitByte_app_sep, foldl_app.
  rewrite push_components by done. rewrite rev_app_distr, rev_involutive. done.
Qed.

Section Safety.
Context {S : Type} `{ContentStore S}.

Lemma fetch_entries_under mem h dest es (s s' : S) fs fs' r p :
  dest <> [] -> fetch_entries mem h dest s fs es = Ret (r, s', fs') -> fs' !! p <> fs !! p -> under dest p.
Proof.
  intros Hd. revert s fs. induction es as [|e es IH]; intros s fs; cbn [fetch_entries]; [by intros [= <- <- <-]|].
  destruct (unsafe_path (de_Path e)) eqn:Hu; [by intros [= <- <- <-]|].
  destruct (IDFromHex _); [|by intros [= <- <- <-]].
  destruct (FetchBytes _ _ _) as [[[data|] s1]|]; [|by intros [= <- <- <-]|done].
  destruct (negb (len data =? _)); [by intros [= <- <- <-]|]. cbv zeta.
  destruct (negb (h_mkdir h _)); [by intros [= <- <- <-]|].
  pose proof (safe_path_under dest (de_Path e) Hd Hu) as Hun.
  destruct (WriteFile (h_write h (path_Join dest (de_Path e))) (path_Join dest (de_Path e)) data fs)
    as [ok fs1] eqn:Ew.
  assert (forall q, q <> path_Join dest (de_Path e) -> fs1 !! q = fs !! q) as Hw.
  { intros q Hq. unfold WriteFile in Ew. destruct (h_write _ _) as [|[l|]]; injection Ew as <- <-;
      by rewrite ?lookup_insert_ne by done. }
  destruct (decide (p = path_Join dest (de_Path e))) as [->|Hne]; [done|].
  destruct ok; cbn [negb].
  - intros Hf Hp. apply (IH s1 fs1 Hf). by rewrite (Hw p Hne).
  - intros [= <- <- <-]. by rewrite Hw.
Qed.

(** C36 (apps/files/dir.go, [FetchDir]): no path traversal.  Whatever directory record
    the network returns, valid or hostile, and whether or not the fetch succeeds,
    every file it creates or changes lies at or below [dest] once the path is
    cleaned: its components are those of [dest] followed by components none of
    which is [..]. *)
Theorem fetch_dir_contained (mem : Z) (h : host) (s s' : S) (root : NodeID) (dest : bytes)
    (fs fs' : files) (r : result files_error Directory) (p : bytes) :
  dest <> [] -> FetchDir mem h s root dest fs = Ret (r, s', fs') -> fs' !! p <> fs !! p -> under dest p.
Proof.
  intros Hd. unfold FetchDir. destruct (negb _); [by intros [= <- <- <-]|].
  destruct (cs_get s root) as [[blob|] s1]; [|by intros [= <- <- <-]].
  destruct (Unmarshal blob) as [dir|]; [|by intros [= <- <- <-]].
  destruct (fetch_entries mem h dest s1 fs (dir_Entries dir)) as [[[[[]|e] s2] fs2]|] eqn:E; [| |done];
    intros [= <- <- <-]; by eapply fetch_entries_under.
Qed.

End Safety.

(** ** The largest file *)

Lemma quote_loop_length s :
  forallb is_ascii s = true -> (length s <= length (quote_loop (length s) s))%nat.
Proof.
  induction s as [|b s IH]; [done|]. intros [Hb Hs]%andb_true_iff.
  change (length (b :: s)) with (S (length s)). cbn [quote_loop]. rewrite is_ascii_width by done.
  rewrite length_app. pose proof (escape_ascii_length b). specialize (IH Hs). lia.
Qed.

Lemma quote_Hex_length k : (66 <= length (quote (Hex k)))%nat.
Proof.
  unfold quote. rewrite !length_app. cbn [length].
  pose proof (quote_loop_length (Hex k)) as Hq. rewrite (Hex_length k) in *.
  assert (forallb is_ascii (Hex k) = true) as Ha; [|specialize (Hq Ha); lia].
  eapply forallb_impl; [|apply Hex_lower_plain]. intros b Hb. by destruct b.
Qed.

Lemma Join_length n l :
  Forall (fun s => (n <= length s)%nat) l -> (length l * (n + 1) <= length (Join l (bs ",")) + 1)%nat.
Proof.
  induction 1 as [|s l Hs Hf IH]; [simpl; lia|]. destruct l as [|t l]; [simpl; lia|].
  change (Join (s :: t :: l) (bs ",")) with (s ++ bs "," ++ Join (t :: l) (bs ",")).
  rewrite !length_app. change (length (bs ",")) with 1%nat. cbn [length] in *. lia.
Qed.

Lemma manifest_length data :
  67 * Z.of_nat (length (chunks data)) + 20 <= len (Marshal (manifest_of data)).
Proof.
  unfold Marshal, to_json, FileManifest_codec, manifest_of. cbn [fm_Size fm_Chunks]. unfold JStrs, JInt.
  cbn [print fmap list_fmap Join snd fst].
  set (num := print_Z _). set (arr := Join _ (bs ",")).
  assert (length (chunks data) * 67 <= length arr + 1)%nat as Harr.
  { unfold arr. rewrite <- (length_fmap (fun c => print (JStr (Hex (ContentAddress c)))) (chunks data)).
    assert (forall l : list bytes, print <$> (JStr <$> ((fun c => Hex (ContentAddress c)) <$> l))
      = (fun c => print (JStr (Hex (ContentAddress c)))) <$> l) as ->
      by (intros l; induction l as [|c l IHl]; [done|]; cbn [fmap list_fmap] in *; by rewrite IHl).
    apply (Join_length 66), Forall_fmap, Forall_forall. intros c _. apply quote_Hex_length. }
  unfold len. rewrite !length_app.
  assert (length (quote (bs "size")) = 6%nat) as -> by by vm_compute.
  assert (length (quote (bs "chunks")) = 8%nat) as -> by by vm_compute.
  change (length (bs "{")) with 1%nat. change (length (bs ":")) with 1%nat.
  change (length (bs ",")) with 1%nat. change (length (bs "[")) with 1%nat.
  change (length (bs "]")) with 1%nat. change (length (bs "}")) with 1%nat. lia.
Qed.

(** (apps/files/chunk.go, [PublishBytes]; dht.go, [MaxValueSize]): the manifest of
    a file is one DHT value, so a file of more than 977 chunks (64028672 bytes)
    cannot be published: all chunks are stored and the manifest is refused. *)
Theorem oversized_file_rejected {S : Type} `{Laws : ContentStoreLaws S inv roomy keeps}
    (s : S) (data : bytes) :
  inv s -> 977 * ChunkSize < len data ->
  exists s', PublishBytes s data = (Err ErrStoreManifest, s').
Proof.
  intros Hi Hl. pose proof (PublishBytes_ok s data Hi) as Hp. pose proof (manifest_length data) as Hm.
  pose proof (split_chunks_count (length data) data ltac:(lia)) as Hc. fold (chunks data) in Hc.
  pose proof chunk_nat_Z. unfold len in Hl.
  assert (977 < Z.of_nat (length (chunks data))) by nia.
  destruct (PublishBytes s data) as [[[m key]|e] s'].
  - destruct Hp as (-> & _ & _ & Hp). unfold MaxValueSize in Hp. lia.
  - destruct Hp as [-> _]. eauto.
Qed.

(** ** Concrete runs *)

Definition quiet : nat -> put_env * net := fun _ => (at_time 6, serving).
Definition carol_node : node := MkNode carol 0.

Lemma carol_inv : node_inv carol_node.
Proof. exact carol_ok. Qed.

Lemma carol_roomy : node_roomy carol_node.
Proof. split; [|by left]. apply Z.leb_le. exact eq_refl. Qed.

Lemma addr_inj_NoDup l : NoDup ((fun b => Hex (ContentAddress b)) <$> l) -> addr_inj l.
Proof.
  intros Hn a b Ha Hb E. revert Hn Ha Hb. induction l as [|x l IH]; [set_solver|].
  rewrite fmap_cons, NoDup_cons. intros [Hx Hn].
  assert (forall y, y ∈ l -> ContentAddress x = ContentAddress y -> False) as Hno.
  { intros y Hy Exy. apply Hx. rewrite Exy. by apply (list_elem_of_fmap_2 (fun b => Hex (ContentAddress b))). }
  intros [->|Ha]%elem_of_cons [->|Hb]%elem_of_cons; [done| | |by apply IH].
  - by destruct (Hno b Hb E).
  - by destruct (Hno a Ha (eq_sym E)).
Qed.

Definition greeting : bytes := bs "hello, alt net".

Lemma greeting_blobs_b : bool_decide (NoDup ((fun b => Hex (ContentAddress b)) <$> blobs greeting)) = true.
Proof. by vm_compute. Qed.

Lemma greeting_blobs : addr_inj (blobs greeting).
Proof. exact (addr_inj_NoDup _ (bool_decide_eq_true_1 _ greeting_blobs_b)). Qed.

Definition small_mem : Z := 2 ^ 30.

Lemma greeting_fits : len greeting <= small_mem < 2 ^ 63.
Proof. by vm_compute. Qed.

Lemma publish_fetch_roundtrip_witness :
  match @PublishBytes node (node_ContentStore quiet) carol_node greeting with
  | (Ok (m, key), s1) =>
      len (Marshal (manifest_of greeting)) <= MaxValueSize
      /\ exists s2, @FetchBytes node (node_ContentStore quiet) small_mem s1 key = Ret (Ok greeting, s2)
  | (Err _, _) => MaxValueSize < len (Marshal (manifest_of greeting))
  end.
Proof.
  exact (publish_fetch_roundtrip (Laws := node_laws quiet) small_mem carol_node greeting carol_inv
    carol_roomy greeting_blobs greeting_fits).
Defined.

Lemma greeting_small : (MaxValueSize <? len (Marshal (manifest_of greeting))) = false.
Proof. by vm_compute. Qed.

(** The node after publishing the greeting. *)
Lemma greeting_published :
  exists s1, node_inv s1 /\ keeps_all (keeps := node_keeps) s1 (blobs greeting).
Proof.
  pose proof (PublishBytes_ok (Laws := contents_published (Laws := node_laws quiet)) carol_node greeting carol_inv) as Hp.
  pose proof (PublishBytes_keeps (Laws := contents_published (Laws := node_laws quiet)) carol_node greeting []) as Hk.
  destruct (PublishBytes carol_node greeting) as [[[m key]|e] s1].
  - destruct Hp as (-> & -> & Hi & _). exists s1. split; [exact Hi|].
    rewrite app_nil_r in Hk.
    exact (proj2 (Hk _ _ s1 carol_inv carol_roomy (Forall_true _ _ (fun _ => I)) greeting_blobs (Forall_nil_2 _) eq_refl)).
  - pose proof greeting_small. zbool. lia.
Qed.

Lemma fetch_integrity_witness :
  exists s s' out,
    @FetchBytes node (node_ContentStore quiet) small_mem s
      (ContentAddress (Marshal (manifest_of greeting))) = Ret (Ok out, s')
    /\ (out = greeting
        \/ exists a b, a ∈ blobs greeting
             /\ b ∈ @got node (node_ContentStore quiet) s (ContentAddress (Marshal (manifest_of greeting)))
             /\ a <> b /\ ContentAddress a = ContentAddress b).
Proof.
  destruct greeting_published as (s & Hi & Hk).
  destruct (FetchBytes_kept (Laws := node_read_laws quiet) small_mem s greeting _ Hi Hk
    (fun x Hx => Hx) greeting_fits) as (s' & E & _).
  exists s, s', greeting. split; [exact E|].
  exact (fetch_integrity (Laws := node_read_laws quiet) small_mem s s' greeting greeting Hi
    (Z.le_lt_trans _ _ _ (proj1 greeting_fits) (proj2 greeting_fits)) E).
Defined.

Lemma greeting_reader : reader_of greeting (MkReader (manifest_of greeting) (key_of 1) 7 (-1) None).
Proof. split; [exact eq_refl|]. split; [split; [by vm_compute|by vm_compute]|exact I]. Qed.

Lemma greeting_chunks_kept : chunks greeting ⊆ blobs greeting.
Proof. intros x Hx. by right. Qed.

Lemma read_spec_witness :
  exists s cr' s' n,
    @Read node (node_ContentStore quiet) s (MkReader (manifest_of greeting) (key_of 1) 7 (-1) None) 4
    = (Ok (take n (drop 7 greeting)), cr', s') /\ (0 < n)%nat.
Proof.
  destruct greeting_published as (s & Hi & Hk). exists s.
  pose proof (read_spec (Laws := node_read_laws quiet) s
    (MkReader (manifest_of greeting) (key_of 1) 7 (-1) None) greeting 4 (blobs greeting) Hi Hk
    greeting_chunks_kept greeting_reader
    (Z.le_lt_trans _ _ _ (proj1 greeting_fits) (proj2 greeting_fits)) ltac:(lia)) as Hr.
  change (len greeting <=? cr_pos (MkReader (manifest_of greeting) (key_of 1) 7 (-1) None)) with false in Hr.
  destruct Hr as (cr' & s' & E & Hn & _). eexists cr', s', _. exact (conj E Hn).
Defined.

Definition big_file : bytes := replicate (Z.to_nat 64028673) Byte.x00.

Lemma big_file_len : 977 * ChunkSize < len big_file.
Proof. unfold len, big_file. rewrite length_replicate, Z2Nat.id by lia. unfold ChunkSize. lia. Qed.

Lemma oversized_file_rejected_witness :
  exists s', @PublishBytes node (node_ContentStore quiet) carol_node big_file = (Err ErrStoreManifest, s').
Proof.
  exact (oversized_file_rejected (Laws := node_laws quiet) carol_node big_file carol_inv big_file_len).
Defined.

(** A site of two files. *)
Definition site : list (bytes * bytes) := [(bs "index.html", greeting); (bs "css/a.css", bs "p{}")].

Definition open_host : host := MkHost (fun _ => true) (fun _ => Written).

Lemma site_blobs_b :
  bool_decide (NoDup ((fun b => Hex (ContentAddress b)) <$> Marshal (directory_of site) :: all_blobs site)) = true.
Proof. by vm_compute. Qed.

Lemma site_blobs : addr_inj (Marshal (directory_of site) :: all_blobs site).
Proof. exact (addr_inj_NoDup _ (bool_decide_eq_true_1 _ site_blobs_b)). Qed.

Lemma site_fetchable : Forall (fun f => fetchable small_mem f /\ utf8_valid (fst f) = true) site.
Proof. repeat constructor; by vm_compute. Qed.

Lemma site_targets : NoDup ((fun f => path_Join (bs "/srv/www/") (fst f)) <$> site).
Proof.
  apply (bool_decide_eq_true_1 _). by vm_compute.
Qed.

Lemma site_publishes_b :
  is_ok (fst (@PublishDir node (node_ContentStore quiet) carol_node (Some true) (items_of site))) = true.
Proof. by vm_compute. Qed.

Lemma site_published :
  exists root dir s1, @PublishDir node (node_ContentStore quiet) carol_node (Some true) (items_of site)
    = (Ok (root, dir), s1).
Proof.
  pose proof site_publishes_b as Hb.
  destruct (@PublishDir node (node_ContentStore quiet) carol_node (Some true) (items_of site))
    as [[[root dir]|e] s1]; [eauto|discriminate Hb].
Qed.

Lemma directory_roundtrip_witness :
  exists root dir s1 s2 fs', 
    @PublishDir node (node_ContentStore quiet) carol_node (Some true) (items_of site) = (Ok (root, dir), s1)
    /\ @FetchDir node (node_ContentStore quiet) small_mem open_host s1 root (bs "/srv/www/") ∅
       = Ret (Ok dir, s2, fs')
    /\ fs' !! path_Join (bs "/srv/www/") (bs "index.html") = Some greeting.
Proof.
  destruct site_published as (root & dir & s1 & E).
  destruct (directory_roundtrip (Laws := node_laws quiet) small_mem open_host carol_node s1 site root dir
    (bs "/srv/www/") ∅ carol_inv carol_roomy site_blobs (proj2 greeting_fits)
    (conj (fun _ => eq_refl) (fun _ => eq_refl)) site_fetchable site_targets E)
    as (s2 & fs' & Hf & _ & Hl & _).
  exists root, dir, s1, s2, fs'. split; [exact E|]. split; [exact Hf|].
  exact (Hl (bs "index.html", greeting) (list_elem_of_here _ _)).
Defined.

Definition fetch_published (p : result files_error (NodeID * Directory) * node)
  : outcome (result files_error Directory * node * files) :=
  match p with
  | (Ok (root, _), s1) =>
      @FetchDir node (node_ContentStore quiet) small_mem open_host s1 root (bs "/srv/www/") ∅
  | (Err _, _) => Panic
  end.

Definition site_fetch : outcome (result files_error Directory * node * files) :=
  fetch_published (@PublishDir node (node_ContentStore quiet) carol_node (Some true) (items_of site)).

Lemma site_fetch_b :
  match site_fetch with
  | Ret (_, fs') => bool_decide (fs' !! bs "/srv/www/index.html" = Some greeting)
  | Panic => false
  end = true.
Proof. by vm_compute. Qed.

(** Every file of that fetch is below the destination. *)
Lemma fetch_dir_contained_witness :
  exists r s2 fs', site_fetch = Ret (r, s2, fs') /\ under (bs "/srv/www/") (bs "/srv/www/index.html").
Proof.
  pose proof site_fetch_b as Hb. unfold site_fetch, fetch_published in *.
  destruct (@PublishDir node (node_ContentStore quiet) carol_node (Some true) (items_of site))
    as [[[root dir]|e] s1]; [|discriminate Hb].
  destruct (@FetchDir node (node_ContentStore quiet) small_mem open_host s1 root (bs "/srv/www/") ∅)
    as [[[r s2] fs']|] eqn:Hf; [|discriminate Hb].
  exists r, s2, fs'. split; [exact eq_refl|].
  refine (fetch_dir_contained small_mem open_host s1 s2 root (bs "/srv/www/") ∅ fs' r _ _ Hf _).
  - discriminate.
  - rewrite (bool_decide_eq_true_1 _ Hb), lookup_empty. discriminate.
Defined.
