(* ===== verification/Maintenance.v ===== *)
(** * Background maintenance of a node (core/dht/maintenance.go)

    One pass of each maintenance loop: republishing, pinging the table, and the
    reconnection with its backoff.  The tickers that start the passes are not
    modelled; the environment answers the network calls of a pass one after the
    other ([node] of ContentStore.v). *)

From S2P Require Import Prelude GoStrings Encoding Json Sha256 Crypto Peer Revoke NodeId.
From S2P Require Import Blocklist Store Routing DhtWire Dht Lookup ContentStore.

Definition DefaultRepublishInterval : Z := Hour.
Definition DefaultPeerCheckInterval : Z := 10 * Minute.
Definition DefaultBootstrapRetryInterval : Z := 30 * Second.
Definition MaxBootstrapBackoff : Z := 5 * Minute.

Record MaintenanceConfig := MkConfig {
  BootstrapPeers : list bytes;
  RepublishInterval : Z;
  PeerCheckInterval : Z;
  BootstrapRetryInterval : Z
}.

(** The configuration [StartMaintenance] runs with. *)
Definition effective_config (cfg : MaintenanceConfig) : MaintenanceConfig :=
  MkConfig (BootstrapPeers cfg)
    (if RepublishInterval cfg =? 0 then DefaultRepublishInterval else RepublishInterval cfg)
    (if PeerCheckInterval cfg =? 0 then DefaultPeerCheckInterval else PeerCheckInterval cfg)
    (if BootstrapRetryInterval cfg =? 0 then DefaultBootstrapRetryInterval
     else BootstrapRetryInterval cfg).

(** ** Republishing *)

Section Maintenance.
Context (world : nat -> put_env * net).

(** [d.Store(key, value)], its result ignored. *)
Definition node_store (s : node) (key : NodeID) (value : bytes) : node :=
  match Store (env_of world s) (net_of world s) (n_dht s) key value with
  | Ok (Some (d, _)) => MkNode d (S (n_tick s))
  | Ok None | Err _ => s
  end.

Definition republish_one (s : node) (hex : bytes) : node :=
  match IDFromHex hex with
  | Err _ => s
  | Ok key =>
      let '(st, value) := Store.Get (d_store (n_dht s)) (pe_now (env_of world s)) key in
      let s := MkNode (with_store (n_dht s) st) (n_tick s) in
      match value with
      | None => s
      | Some value => node_store s key value
      end
  end.

(** The keys, in the order Go ranges over the map. *)
Definition snapshotKeys (order : gmap bytes bytes -> list bytes) (st : localStore) : list bytes :=
  order (data st).

Definition republishAll (order : gmap bytes bytes -> list bytes) (s : node) : node :=
  foldl republish_one s (snapshotKeys order (d_store (n_dht s))).

(** [startupRepublish] after its wait for a contact. *)
Definition startupRepublish (order : gmap bytes bytes -> list bytes) (s : node) : node :=
  if (Size (d_rt (n_dht s)) =? 0)%nat then s else republishAll order s.

(** ** Pinging the table *)

(** One goroutine of [pingAll]. *)
Definition ping_one (s : node) (c : Contact) : outcome node :=
  let '(d, ok) := Ping (net_of world s) 0 (n_dht s) c in
  let tick := S (n_tick s) in
  if ok then Ret (MkNode d tick) else
  match Remove (d_rt d) (ID c) with
  | Panic => Panic
  | Ret rt => Ret (MkNode (with_rt d rt []) tick)
  end.

Fixpoint ping_each (s : node) (l : list Contact) : outcome node :=
  match l with
  | [] => Ret s
  | c :: l => match ping_one s c with Panic => Panic | Ret s => ping_each s l end
  end.

(** [order]: the order in which the goroutines finish. *)
Definition pingAll (order : list Contact -> list Contact) (s : node) : outcome node :=
  ping_each s (order (All (d_rt (n_dht s)))).

(** ** Reconnecting *)

(** One turn of [bootstrapLoop]: the next wait.  [healthy] is [rt.Size() > 0],
    [succeeded] whether one of the bootstrap addresses answered. *)
Definition next_wait (baseline wait : Z) (healthy succeeded : bool) : Z :=
  if healthy then baseline
  else if succeeded then baseline
  else
    let wait := int64 (wait * 2) in
    if MaxBootstrapBackoff <? wait then MaxBootstrapBackoff else wait.

(** [BootstrapAll]: the address that worked, the empty string for no addresses,
    or the addresses that were tried.  [boot] is [d.Bootstrap] with what the
    network answers. *)
Fixpoint bootstrap_tries (boot : DHT -> bytes -> bool * DHT) (d : DHT) (addrs tried : list bytes)
  : result (list bytes) bytes * DHT :=
  match addrs with
  | [] => (Err tried, d)
  | a :: addrs =>
      let a := TrimSpace a in
      if is_nil a then bootstrap_tries boot d addrs tried
      else
        let '(ok, d) := boot d a in
        if ok then (Ok a, d) else bootstrap_tries boot d addrs (tried ++ [a])
  end.

Definition BootstrapAll (boot : DHT -> bytes -> bool * DHT) (d : DHT) (addrs : list bytes)
  : result (list bytes) bytes * DHT :=
  match addrs with [] => (Ok [], d) | _ => bootstrap_tries boot d addrs [] end.

(** The attempts of one turn of [bootstrapLoop]: the addresses are used as they
    are. *)
Fixpoint bootstrap_turn (boot : DHT -> bytes -> bool * DHT) (d : DHT) (addrs : list bytes)
  : bool * DHT :=
  match addrs with
  | [] => (false, d)
  | a :: addrs => let '(ok, d) := boot d a in if ok then (true, d) else bootstrap_turn boot d addrs
  end.

(** One turn of [bootstrapLoop] after its wait. *)
Definition bootstrap_step (boot : DHT -> bytes -> bool * DHT) (cfg : MaintenanceConfig)
    (wait : Z) (d : DHT) : Z * DHT :=
  let baseline := BootstrapRetryInterval cfg in
  if (0 <? Size (d_rt d))%nat then (next_wait baseline wait true false, d)
  else let '(ok, d) := bootstrap_turn boot d (BootstrapPeers cfg) in
       (next_wait baseline wait false ok, d).

(** * Facts *)

(** ** Republishing *)

Lemma Put_attribution e s k v :
  maxBytes s <= 0 -> attribution (Put e s k v) = delete (Hex k) (attribution s).
Proof.
  intros Hm. unfold Put, put, put_locked, admitted. rewrite bool_decide_eq_false_2 by tauto. simpl.
  assert (maxBytes (refund s (Hex k)) = maxBytes s /\ attribution (refund s (Hex k)) = attribution s)
    as [Em Ea] by (unfold refund; by repeat case_match).
  assert (evictToFit (pe_ord e) (len v) (refund s (Hex k)) = refund s (Hex k)) as ->.
  { unfold evictToFit. rewrite Em. by rewrite (proj2 (Z.leb_le _ _)). }
  simpl. destruct (dataDir _); simpl; by rewrite Ea.
Qed.

(** What the theorem below asks of the node: consistent counters, no byte
    budget, nothing blocked, only real keys and values of legal size. *)
Definition republishable (s : node) : Prop :=
  node_inv s /\ node_roomy s /\ store_ok (d_store (n_dht s))
  /\ forall h v, data (d_store (n_dht s)) !! h = Some v -> (exists k, h = Hex k) /\ len v <= MaxValueSize.

Definition ordered_world : Prop := forall i, ord_ok (pe_ord (fst (world i))).

Lemma Store_frame e n d k v :
  dht_ok d -> maxBytes (d_store d) <= 0 -> unblocked (d_blocklist d) -> len v <= MaxValueSize ->
  exists d' c, Store e n d k v = Ok (Some (d', c)) /\ dht_ok d' /\ unblocked (d_blocklist d')
    /\ d_store d' = Put e (d_store d) k v.
Proof.
  intros Hd Hm Hb Hv. unfold Store, StoreLocal. rewrite (proj2 (Z.ltb_ge _ _)) by lia.
  rewrite (unblocked_key d k Hb). cbv zeta.
  change (IsBlocked (with_store d (Put e (d_store d) k v)) k) with (IsBlocked d k). rewrite (unblocked_key d k Hb).
  destruct (Replicate_frame n (with_store d (Put e (d_store d) k v)) k v Hd) as (d' & c & -> & Hd' & Hs & Hbl).
  exists d', c. split_and!; [done|done|by rewrite Hbl|done].
Qed.

Lemma republish_one_spec s h :
  ordered_world -> republishable s ->
  let s' := republish_one s h in
  republishable s' /\ data (d_store (n_dht s')) = data (d_store (n_dht s))
  /\ (is_Some (data (d_store (n_dht s)) !! h) -> attribution (d_store (n_dht s')) !! h = None)
  /\ (forall h', attribution (d_store (n_dht s)) !! h' = None -> attribution (d_store (n_dht s')) !! h' = None).
Proof.
  intros Hw (Hi & [Hm Hb] & Hok & Hk). unfold republish_one.
  destruct (IDFromHex h) as [key|e] eqn:Eh.
  2:{ simpl. split; [by split_and!|]. split; [done|]. split; [|done].
      intros [v Hv]. destruct (Hk h v Hv) as [[k ->] _]. by rewrite IDFromHex_Hex in Eh. }
  assert (forall v, data (d_store (n_dht s)) !! h = Some v -> h = Hex key) as Hkey.
  { intros v Hv. destruct (Hk h v Hv) as [[k ->] _]. rewrite IDFromHex_Hex in Eh. congruence. }
  pose proof (Get_ok (d_store (n_dht s)) (pe_now (env_of world s)) key Hok) as Hgok.
  destruct (Store.Get (d_store (n_dht s)) (pe_now (env_of world s)) key) as [st value] eqn:Eg.
  assert (value = data (d_store (n_dht s)) !! Hex key /\ data st = data (d_store (n_dht s))
    /\ maxBytes st = maxBytes (d_store (n_dht s)) /\ attribution st = attribution (d_store (n_dht s)))
    as (-> & Ed & Em & Ea).
  { unfold Store.Get in Eg. destruct (data (d_store (n_dht s)) !! Hex key); injection Eg as <- <-; done. }
  simpl in Hgok. destruct (data (d_store (n_dht s)) !! Hex key) as [v|] eqn:Ev.
  2:{ simpl. split; [split_and!; try done; [split; [simpl; by rewrite Em|done]|simpl; by rewrite Ed]|].
      rewrite Ed, Ea. split_and!; [done| |done]. intros [v Hv]. pose proof (Hkey v Hv) as ->. congruence. }
  unfold node_store. set (s1 := MkNode (with_store (n_dht s) st) (n_tick s)).
  destruct (Hk (Hex key) v Ev) as [_ Hlen].
  destruct (Store_frame (env_of world s1) (net_of world s1) (n_dht s1) key v) as (d' & c & -> & Hd' & Hb' & Hs');
    [done|simpl; by rewrite Em|done|done|].
  destruct (Put_unbounded (env_of world s1) st key v) as [E1 E2]; [by rewrite Em|].
  simpl in Hs'. pose proof (Put_attribution (env_of world s1) st key v ltac:(by rewrite Em)) as E3.
  assert (data (d_store d') = data (d_store (n_dht s))) as Edata.
  { rewrite Hs', E1, Ed. by rewrite insert_id. }
  simpl. split; [split_and!|].
  - done.
  - split; [simpl; by rewrite Hs', E2, Em|done].
  - simpl. rewrite Hs'. apply put_ok; [apply Hw|done|]. right. unfold evictToFit.
    assert (maxBytes (refund st (Hex key)) = maxBytes st) as Er by (unfold refund; by case_match).
    rewrite Er, Em, (proj2 (Z.leb_le _ _)) by done. rewrite refund_data, Ed, Ev. done.
  - simpl. by rewrite Edata.
  - split; [done|]. rewrite Hs', E3, Ea. split.
    + intros [v' Hv']. pose proof (Hkey v' Hv') as ->. apply lookup_delete_eq.
    + intros h' Hn. by apply lookup_delete_None; right.
Qed.

Lemma republish_fold l s :
  ordered_world -> republishable s ->
  let s' := foldl republish_one s l in
  republishable s' /\ data (d_store (n_dht s')) = data (d_store (n_dht s))
  /\ (forall h, h ∈ l -> is_Some (data (d_store (n_dht s)) !! h) -> attribution (d_store (n_dht s')) !! h = None)
  /\ (forall h, attribution (d_store (n_dht s)) !! h = None -> attribution (d_store (n_dht s')) !! h = None).
Proof.
  intros Hw. revert s. induction l as [|x l IH]; intros s Hs; cbn [foldl]; [split_and!; try done; set_solver|].
  destruct (republish_one_spec s x Hw Hs) as (H1 & H2 & H3 & H4).
  destruct (IH _ H1) as (I1 & I2 & I3 & I4). rewrite H2 in *. split_and!; [done|done| |naive_solver].
  intros h [->|Hh]%elem_of_cons Hd; [by apply I4, H3|by apply I3].
Qed.

(** (maintenance.go, [republishAll]; store.go, [put]): a republish pass keeps every
    stored value and the counters consistent, and it makes all of them local:
    [Store] puts each value back without a sender, so afterwards no byte is
    charged to any peer.  The per-peer quota of handleStore is thereby open again
    after every pass (at start-up and every hour). *)
Theorem republish_resets_quota (order : gmap bytes bytes -> list bytes) (s : node) :
  ordered_world -> republishable s ->
  (forall h, is_Some (data (d_store (n_dht s)) !! h) -> h ∈ order (data (d_store (n_dht s)))) ->
  let s' := republishAll order s in
  data (d_store (n_dht s')) = data (d_store (n_dht s)) /\ store_ok (d_store (n_dht s'))
  /\ forall p, p <> [] -> PerPeerUsage (d_store (n_dht s')) p = 0.
Proof.
  intros Hw Hs Ho. unfold republishAll, snapshotKeys.
  destruct (republish_fold (order (data (d_store (n_dht s)))) s Hw Hs) as ((_ & _ & Hok & _) & H2 & H3 & _).
  cbv zeta. set (s' := foldl republish_one s _) in *. split_and!; [done|done|]. intros p Hp.
  destruct Hok as [_ [_ Hc]]. rewrite Hc by done. unfold peer_bytes.
  rewrite (msum_ext _ (fun _ _ => 0)); [apply msum_zero|]. intros k v Hkv. rewrite H2 in Hkv.
  unfold attr_size. assert (attribution (d_store (n_dht s')) !! k = None) as -> by (apply H3; eauto).
  done.
Qed.

(** ** Reconnecting *)

(** The waits of a run of failures, starting from the baseline. *)
Fixpoint failing_wait (baseline : Z) (failures : nat) : Z :=
  match failures with
  | O => baseline
  | S k => next_wait baseline (failing_wait baseline k) false false
  end.

(** (maintenance.go, [bootstrapLoop]): the wait after [k] failures in a row is the
    baseline doubled [k] times, cut at [MaxBootstrapBackoff]; it never leaves the
    interval from the baseline to that cap, does not overflow, and a healthy
    table or a success brings it back to the baseline. *)
Theorem bootstrap_backoff (baseline : Z) (k : nat) :
  0 < baseline <= MaxBootstrapBackoff ->
  failing_wait baseline k = Z.min (baseline * 2 ^ Z.of_nat k) MaxBootstrapBackoff
  /\ baseline <= failing_wait baseline k <= MaxBootstrapBackoff
  /\ forall healthy succeeded, healthy || succeeded = true ->
       next_wait baseline (failing_wait baseline k) healthy succeeded = baseline.
Proof.
  intros Hb.
  assert (failing_wait baseline k = Z.min (baseline * 2 ^ Z.of_nat k) MaxBootstrapBackoff) as E.
  { induction k as [|k IH]; [simpl; lia|]. cbn [failing_wait]. unfold next_wait. rewrite IH.
    rewrite Nat2Z.inj_succ, Z.pow_succ_r by lia.
    assert (0 < 2 ^ Z.of_nat k) by (apply Z.pow_pos_nonneg; lia).
    assert (0 < baseline * 2 ^ Z.of_nat k) by nia.
    rewrite int64_id by (unfold in_int64, MaxBootstrapBackoff, Minute, Second in *; lia).
    unfold MaxBootstrapBackoff, Minute, Second in *.
    destruct (Z.ltb_spec (5 * (60 * 1000000000)) (Z.min (baseline * 2 ^ Z.of_nat k) (5 * (60 * 1000000000)) * 2)); lia. }
  split; [done|]. split.
  - rewrite E. assert (0 < 2 ^ Z.of_nat k) by (apply Z.pow_pos_nonneg; lia). nia.
  - intros [] []; done.
Qed.

(** ** Pinging the table *)

(** Whether the contact answers the ping made when the node is at [tick]. *)
Definition answers (tick : nat) (c : Contact) : bool :=
  match requestContact (snd (world tick)) 0 c (mk_message (bs "dht_ping") []) with
  | Some reply => bool_decide (m_Type reply = bs "dht_pong")
  | None => false
  end.

Definition table_ok (d : DHT) : Prop := dht_ok d /\ rt_nodup (d_rt d).

Lemma Hex_eq a b : Hex a = Hex b <-> a = b.
Proof. split; [apply Hex_inj|congruence]. Qed.

(** Refreshing a contact of the table keeps the IDs. *)
Lemma Update_present rt c now :
  rt_wf rt -> Hex (ID c) ∈ ids rt -> ids (fst (Update rt c now)) = ids rt.
Proof.
  intros Hw Hin. apply set_eq. intros x. split; [|by apply Update_ids].
  pose proof (Update_wf rt c now Hw) as HW. revert HW. unfold Update.
  destruct (Equal (ID c) (self rt)) eqn:He; [done|]. apply CommonPrefixLen_Equal_lt in He. simpl.
  destruct (find_id (ID c) (bucket_at rt (CommonPrefixLen (self rt) (ID c)))) as [[i e]|] eqn:Hf.
  - intros (Hw' & _ & _) Hx. simpl in Hx. apply (ids_bucket _ _ Hw') in Hx as (j & a & Ha & <-).
    apply (ids_bucket _ _ Hw). rewrite bucket_at_with_bucket in Ha by done. case_decide as Ej; [|eauto].
    apply find_id_Some in Hf as [Hi Hid]. subst j.
    apply (list_elem_of_fmap_2 ID) in Ha. rewrite (move_to_tail_perm _ i e) in Ha by (done || symmetry; done).
    apply list_elem_of_fmap in Ha as (a' & Ea & Ha'). rewrite Ea. eauto.
  - intros _. exfalso. apply find_id_None in Hf. apply Hf.
    apply elem_of_ids in Hin as (a & Ha & Ex). apply Hex_inj in Ex. rewrite <- Ex.
    apply (elem_of_All_wf rt a Hw) in Ha. by apply list_elem_of_fmap_2.
Qed.

Lemma concat_ids_nodup self bs k :
  (forall i b, bs !! i = Some b ->
     NoDup (ID <$> b) /\ Forall (fun c => CommonPrefixLen self (ID c) = (k + i)%nat) b) ->
  NoDup (ID <$> concat bs).
Proof.
  revert k. induction bs as [|b bs IH]; intros k Hbs; [constructor|]. cbn [concat]. rewrite fmap_app.
  apply NoDup_app. split_and!.
  - by apply (Hbs 0%nat b).
  - intros x (c & -> & Hc)%list_elem_of_fmap (c' & Ec & Hc')%list_elem_of_fmap.
    destruct (Hbs 0%nat b eq_refl) as [_ Hf]. rewrite Forall_forall in Hf. specialize (Hf c Hc).
    apply list_elem_of_In, in_concat in Hc' as (b' & Hb' & Hc'). apply list_elem_of_In in Hb', Hc'.
    apply list_elem_of_lookup in Hb' as [i Hi]. destruct (Hbs (S i) b' Hi) as [_ Hf'].
    rewrite Forall_forall in Hf'. specialize (Hf' c' Hc'). rewrite <- Ec in Hf'. lia.
  - apply (IH (S k)). intros i b' Hi. destruct (Hbs (S i) b' Hi) as [? Hf]. split; [done|].
    eapply Forall_impl; [exact Hf|]. simpl. intros c. lia.
Qed.

Lemma All_nodup rt : rt_wf rt -> rt_nodup rt -> NoDup (ID <$> All rt).
Proof.
  intros [_ Hw] Hn. apply (concat_ids_nodup (self rt) _ 0). intros i b Hi. split; [by eapply Hn|]. by apply Hw.
Qed.

Lemma ping_one_spec s c :
  table_ok (n_dht s) -> Hex (ID c) ∈ ids (d_rt (n_dht s)) ->
  exists s', ping_one s c = Ret s' /\ n_tick s' = S (n_tick s) /\ table_ok (n_dht s')
    /\ ids (d_rt (n_dht s'))
       = if answers (n_tick s) c then ids (d_rt (n_dht s)) else ids (d_rt (n_dht s)) ∖ {[Hex (ID c)]}.
Proof.
  intros [Hd Hn] Hin. unfold ping_one, Ping, answers. fold (net_of world s).
  assert (Hfail : exists s', match Remove (d_rt (n_dht s)) (ID c) with
      | Panic => Panic
      | Ret rt => Ret (MkNode (with_rt (n_dht s) rt []) (S (n_tick s)))
      end = Ret s' /\ n_tick s' = S (n_tick s) /\ table_ok (n_dht s')
    /\ ids (d_rt (n_dht s')) = ids (d_rt (n_dht s)) ∖ {[Hex (ID c)]}).
  { destruct Hd as [Hself Hw]. pose proof (Remove_elem (d_rt (n_dht s)) (ID c) Hw Hn) as Hr.
    pose proof (Remove_wf (d_rt (n_dht s)) (ID c)) as Hrw. pose proof (Remove_nodup (d_rt (n_dht s)) (ID c)) as Hrn.
    destruct (Remove (d_rt (n_dht s)) (ID c)) as [rt'|].
    - eexists. split; [done|]. destruct (Hrw rt' Hw eq_refl) as [Hw' Hs']. split; [done|]. split.
      + split; [split; [simpl; congruence|done]|by apply Hrn].
      + simpl. destruct Hr as [_ Hr]. apply set_eq. intros x.
        rewrite elem_of_difference, elem_of_singleton, !elem_of_ids. split.
        * intros (a & [Ha Hne]%Hr & <-). split; [eauto|]. by intros ?%Hex_inj.
        * intros [(a & Ha & <-) Hne]. exists a. split; [|done]. apply Hr. split; [done|]. congruence.
    - apply elem_of_ids in Hin as (a & Ha & Ex). apply Hex_inj in Ex.
      apply (rt_wf_All _ _ Hw) in Ha as (i & b & Hi & _ & _ & E). apply lookup_lt_Some in Hi.
      rewrite Ex, Hr, (proj2 (CommonPrefixLen_256 _ _)) in E by done. destruct Hw as [Hl _]. lia. }
  destruct (requestContact _ _ _ _) as [reply|]; [|exact Hfail].
  destruct (bool_decide (m_Type reply = bs "dht_pong")); cbn [negb]; [|exact Hfail].
  eexists. split; [done|]. split; [done|]. simpl n_dht.
  destruct (rt_update_ok (n_dht s) c (clock (net_of world s) 0) Hd) as [Hd' _].
  pose proof (Update_nodup (d_rt (n_dht s)) c (clock (net_of world s) 0) Hn) as Hn'.
  pose proof (Update_present (d_rt (n_dht s)) c (clock (net_of world s) 0) (proj2 Hd) Hin) as Hi'.
  split; [split; [done|]|].
  - unfold rt_update. by destruct (Update (d_rt (n_dht s)) c (clock (net_of world s) 0)).
  - rewrite <- Hi'. unfold rt_update. by destruct (Update (d_rt (n_dht s)) c (clock (net_of world s) 0)).
Qed.

Lemma ping_each_spec l s :
  table_ok (n_dht s) -> NoDup (ID <$> l) -> (forall c, c ∈ l -> Hex (ID c) ∈ ids (d_rt (n_dht s))) ->
  exists s', ping_each s l = Ret s' /\ table_ok (n_dht s')
    /\ ids (d_rt (n_dht s')) ⊆ ids (d_rt (n_dht s))
    /\ (forall x, x ∈ ids (d_rt (n_dht s)) -> (forall c, c ∈ l -> Hex (ID c) <> x) -> x ∈ ids (d_rt (n_dht s')))
    /\ (forall i c, l !! i = Some c ->
          Hex (ID c) ∈ ids (d_rt (n_dht s')) <-> answers (n_tick s + i) c = true).
Proof.
  revert s. induction l as [|c l IH]; intros s Hs Hn Hin; cbn [ping_each].
  { exists s. split_and!; try done. }
  rewrite fmap_cons, NoDup_cons in Hn. destruct Hn as [Hc Hn].
  destruct (ping_one_spec s c Hs (Hin c ltac:(by left))) as (s1 & -> & Ht & Hs1 & Hi1).
  assert (forall c', c' ∈ l -> Hex (ID c') <> Hex (ID c)) as Hne.
  { intros c' Hc' E. apply Hex_inj in E. apply Hc. rewrite <- E. by apply list_elem_of_fmap_2. }
  assert (forall x, x <> Hex (ID c) -> x ∈ ids (d_rt (n_dht s)) -> x ∈ ids (d_rt (n_dht s1))) as Hkeep.
  { intros x Hx Hx'. rewrite Hi1. destruct (answers _ c); [done|]. by apply elem_of_difference; rewrite elem_of_singleton. }
  destruct (IH s1 Hs1 Hn) as (s2 & -> & Hs2 & Hsub & Hrest & Hl).
  { intros c' Hc'. apply Hkeep; [by apply Hne|]. apply Hin. by right. }
  exists s2. split_and!; [done|done| | |].
  - rewrite Hsub, Hi1. destruct (answers _ c); [done|]. apply subseteq_difference_l. done.
  - intros x Hx Hnot. apply Hrest; [apply Hkeep; [|done]|].
    + intros ->. by apply (Hnot c ltac:(by left)).
    + intros c' Hc'. apply Hnot. by right.
  - intros [|i] c' Hi; simpl in Hi.
    + injection Hi as <-. rewrite Nat.add_0_r. destruct (answers (n_tick s) c) eqn:Ea; rewrite Hi1 in *.
      * split; [done|]. intros _. apply Hrest; [apply Hin; by left|]. intros c' Hc'. by apply Hne.
      * split; [|done]. intros Hx. apply Hsub in Hx. apply elem_of_difference in Hx as [_ Hx].
        by rewrite elem_of_singleton in Hx.
    + rewrite (Hl i c' Hi), Ht. by rewrite Nat.add_succ_comm.
Qed.

(** (maintenance.go, [pingAll]): checking the table never panics, and afterwards it
    holds exactly the contacts of before that answered their ping with a pong,
    in whatever order the goroutines finish; no ID is added and the table stays
    well formed. *)
Theorem ping_all_prunes (order : list Contact -> list Contact) (s : node) :
  table_ok (n_dht s) -> (forall l, order l ≡ₚ l) ->
  exists s', pingAll order s = Ret s' /\ table_ok (n_dht s')
    /\ ids (d_rt (n_dht s')) ⊆ ids (d_rt (n_dht s))
    /\ forall i c, order (All (d_rt (n_dht s))) !! i = Some c ->
         Hex (ID c) ∈ ids (d_rt (n_dht s')) <-> answers (n_tick s + i) c = true.
Proof.
  intros Hs Ho. unfold pingAll.
  destruct (ping_each_spec (order (All (d_rt (n_dht s)))) s Hs) as (s' & E & H1 & H2 & _ & H3).
  - rewrite Ho. destruct Hs as [[_ Hw] Hn]. by apply All_nodup.
  - intros c Hc. rewrite Ho in Hc. apply elem_of_ids. eauto.
  - by exists s'.
Qed.

End Maintenance.

(** ** Concrete runs *)

Definition calm : nat -> put_env * net := fun _ => (at_time 6, serving).

(** A node that holds one value a peer stored. *)
Definition hosting : localStore :=
  fst (PutAttributed (at_time 2) (bounded_store 0) (key_of 3) content (bs "peer")).

Definition host_node : node := MkNode (with_store carol hosting) 0.

Lemma hosting_ok : store_ok hosting.
Proof.
  apply put_ok; [apply lru_order_ok|apply bounded_store_ok|]. left. apply lookup_empty.
Qed.

Lemma hosting_charged : PerPeerUsage hosting (bs "peer") = 4.
Proof. by vm_compute. Qed.

Lemma hosting_data : data hosting = {[Hex (key_of 3) := content]}.
Proof. apply (bool_decide_eq_true_1 _). by vm_compute. Qed.

Lemma calm_ordered : ordered_world calm.
Proof. intros i. apply lru_order_ok. Qed.

Lemma host_republishable : republishable host_node.
Proof.
  split; [exact carol_ok|]. split; [split; [apply Z.leb_le; by vm_compute|by left]|].
  split; [exact hosting_ok|]. intros h v Hv. change (data hosting !! h = Some v) in Hv.
  rewrite hosting_data in Hv. apply lookup_singleton_Some in Hv as [<- <-].
  split; [by eexists|apply Z.leb_le; by vm_compute].
Qed.

Definition keys_in_order (m : gmap bytes bytes) : list bytes := (map_to_list m).*1.

Lemma republish_resets_quota_witness :
  PerPeerUsage (d_store (n_dht host_node)) (bs "peer") = 4
  /\ PerPeerUsage (d_store (n_dht (republishAll calm keys_in_order host_node))) (bs "peer") = 0.
Proof.
  split; [exact hosting_charged|].
  apply (republish_resets_quota calm keys_in_order host_node calm_ordered host_republishable); [|done].
  intros h [v Hv]. apply list_elem_of_fmap. exists (h, v). split; [done|]. by apply elem_of_map_to_list.
Defined.

Lemma bootstrap_backoff_witness :
  failing_wait (30 * Second) 3 = 240 * Second /\ failing_wait (30 * Second) 9 = MaxBootstrapBackoff.
Proof.
  assert (0 < 30 * Second <= MaxBootstrapBackoff) as Hb
    by (unfold MaxBootstrapBackoff, Minute, Second; lia).
  split.
  - rewrite (proj1 (bootstrap_backoff (30 * Second) 3 Hb)). by vm_compute.
  - rewrite (proj1 (bootstrap_backoff (30 * Second) 9 Hb)). by vm_compute.
Defined.

Lemma carol_table : table_ok carol.
Proof. split; [exact carol_ok|]. apply rt_nodup_decide. by vm_compute. Qed.

Lemma ping_all_prunes_witness :
  exists s', pingAll calm (fun l => l) (MkNode carol 0) = Ret s'
    /\ forall i c, All (d_rt carol) !! i = Some c ->
         Hex (ID c) ∈ ids (d_rt (n_dht s')) <-> answers calm (0 + i) c = true.
Proof.
  destruct (ping_all_prunes calm (fun l => l) (MkNode carol 0) carol_table (fun l => Permutation_refl l))
    as (s' & E & _ & _ & H). exists s'. exact (conj E H).
Defined.
