(* ===== verification/Upkeep.v ===== *)
(** * The maintenance loops at work (core/dht/maintenance.go)

    [StartMaintenance] starts four goroutines over one node and [Stop] ends them.
    Here they run against each other and against the rest of the program, which may
    change the node between any two of their steps.  A step is one turn of a loop,
    one key of a republish pass, one contact of a check or one bootstrap address;
    what each of them does to the node is in Maintenance.v. *)

From S2P Require Import Prelude GoStrings Encoding Json Sha256 Crypto Peer Revoke NodeId.
From S2P Require Import Blocklist Store Routing DhtWire Dht Lookup Name ContentStore NameService Maintenance.

(** A loop waits in its [select], works through a list, or has returned. *)
Inductive loop (A : Type) := Idle | Busy (left : list A) | Ended.
Arguments Idle {A}.
Arguments Busy {A} left.
Arguments Ended {A}.

(** [startupRepublish] first waits for a contact. *)
Inductive startup := Polling | Polled | Republishing (left : list bytes) | StartupEnded.

(** A call of [Stop]: past its [select] with the channel still open, waiting for the
    goroutines, or back. *)
Inductive stop_phase := AboutToClose | Awaiting | Done.

Record upkeep := MkUpkeep {
  u_node : node;
  u_stop : bool;                (* [stop] is closed *)
  u_republish : loop bytes;
  u_check : loop Contact;
  u_bootstrap : loop bytes;
  u_wait : Z;                   (* [wait] of [bootstrapLoop] *)
  u_startup : startup;
  u_stops : gmap nat stop_phase;
  u_panicked : bool
}.

Definition set_node n s := MkUpkeep n (u_stop s) (u_republish s) (u_check s) (u_bootstrap s) (u_wait s) (u_startup s) (u_stops s) (u_panicked s).
Definition set_stop_chan s := MkUpkeep (u_node s) true (u_republish s) (u_check s) (u_bootstrap s) (u_wait s) (u_startup s) (u_stops s) (u_panicked s).
Definition set_republish p s := MkUpkeep (u_node s) (u_stop s) p (u_check s) (u_bootstrap s) (u_wait s) (u_startup s) (u_stops s) (u_panicked s).
Definition set_check p s := MkUpkeep (u_node s) (u_stop s) (u_republish s) p (u_bootstrap s) (u_wait s) (u_startup s) (u_stops s) (u_panicked s).
Definition set_bootstrap p w s := MkUpkeep (u_node s) (u_stop s) (u_republish s) (u_check s) p w (u_startup s) (u_stops s) (u_panicked s).
Definition set_startup p s := MkUpkeep (u_node s) (u_stop s) (u_republish s) (u_check s) (u_bootstrap s) (u_wait s) p (u_stops s) (u_panicked s).
Definition set_caller i p s := MkUpkeep (u_node s) (u_stop s) (u_republish s) (u_check s) (u_bootstrap s) (u_wait s) (u_startup s) (<[i := p]> (u_stops s)) (u_panicked s).
Definition set_panicked s := MkUpkeep (u_node s) (u_stop s) (u_republish s) (u_check s) (u_bootstrap s) (u_wait s) (u_startup s) (u_stops s) true.

Section Loops.
Context (world : nat -> put_env * net).
Context (keys : gmap bytes bytes -> list bytes).   (* the order of a map *)

(** [hello tick addr d]: what [EnsureConnected(addr)] and the wait for the hello
    make of the node; [None] when there is no connection. *)
Context (hello : nat -> bytes -> DHT -> option DHT).
Context (cfg : MaintenanceConfig).

(** [d.Bootstrap(addr)] *)
Definition bootstrap_one (n : node) (addr : bytes) : bool * node :=
  let tick := S (n_tick n) in
  match hello (n_tick n) addr (n_dht n) with
  | None => (false, MkNode (n_dht n) tick)
  | Some d =>
      match Bootstrap (net_of world n) true d with
      | Ok (Some d') => (true, MkNode d' tick)
      | _ => (false, MkNode d tick)
      end
  end.

Definition StartMaintenance (n : node) : upkeep :=
  MkUpkeep n false Idle Idle Idle (BootstrapRetryInterval (effective_config cfg)) Polling ∅ false.

(** The node is empty of contacts. *)
Definition alone (s : upkeep) : bool := (Size (d_rt (n_dht (u_node s))) =? 0)%nat.

Definition pass_keys (s : upkeep) : list bytes := snapshotKeys keys (d_store (n_dht (u_node s))).

(** ** [republishLoop] *)

Definition republish_tick (s : upkeep) : option upkeep :=
  match u_republish s with Idle => Some (set_republish (Busy (pass_keys s)) s) | _ => None end.

Definition republish_key (s : upkeep) : option upkeep :=
  match u_republish s with
  | Busy (h :: l) => Some (set_republish (Busy l) (set_node (republish_one world (u_node s) h) s))
  | Busy [] => Some (set_republish Idle s)
  | _ => None
  end.

Definition republish_stop (s : upkeep) : option upkeep :=
  match u_republish s with Idle => if u_stop s then Some (set_republish Ended s) else None | _ => None end.

(** ** [peerCheckLoop]: the goroutines of [pingAll] finish in any order *)

Definition check_tick (s : upkeep) : option upkeep :=
  match u_check s with Idle => Some (set_check (Busy (All (d_rt (n_dht (u_node s))))) s) | _ => None end.

Definition check_ping (i : nat) (s : upkeep) : option upkeep :=
  match u_check s with
  | Busy l =>
      match l !! i with
      | Some c =>
          match ping_one world (u_node s) c with
          | Ret n => Some (set_check (Busy (remove_at i l)) (set_node n s))
          | Panic => Some (set_panicked s)
          end
      | None => None
      end
  | _ => None
  end.

Definition check_done (s : upkeep) : option upkeep :=
  match u_check s with Busy [] => Some (set_check Idle s) | _ => None end.

Definition check_stop (s : upkeep) : option upkeep :=
  match u_check s with Idle => if u_stop s then Some (set_check Ended s) else None | _ => None end.

(** ** [bootstrapLoop] *)

(** The start of the goroutine when there is nobody to bootstrap from. *)
Definition bootstrap_none (s : upkeep) : option upkeep :=
  match u_bootstrap s, BootstrapPeers cfg with
  | Idle, [] => Some (set_bootstrap Ended (u_wait s) s)
  | _, _ => None
  end.

Definition bootstrap_wake (s : upkeep) : option upkeep :=
  match u_bootstrap s, BootstrapPeers cfg with
  | Idle, _ :: _ =>
      Some (if negb (alone s)
            then set_bootstrap Idle (next_wait (BootstrapRetryInterval (effective_config cfg)) (u_wait s) true false) s
            else set_bootstrap (Busy (BootstrapPeers cfg)) (u_wait s) s)
  | _, _ => None
  end.

Definition bootstrap_try (s : upkeep) : option upkeep :=
  let baseline := BootstrapRetryInterval (effective_config cfg) in
  match u_bootstrap s with
  | Busy (a :: l) =>
      let '(ok, n) := bootstrap_one (u_node s) a in
      Some (if ok then set_bootstrap Idle (next_wait baseline (u_wait s) false true) (set_node n s)
            else set_bootstrap (Busy l) (u_wait s) (set_node n s))
  | Busy [] => Some (set_bootstrap Idle (next_wait baseline (u_wait s) false false) s)
  | _ => None
  end.

Definition bootstrap_stop (s : upkeep) : option upkeep :=
  match u_bootstrap s with
  | Idle => if u_stop s then Some (set_bootstrap Ended (u_wait s) s) else None
  | _ => None
  end.

(** ** [startupRepublish] *)

(** A turn of the wait; [late] when the deadline has passed. *)
Definition startup_poll (late : bool) (s : upkeep) : option upkeep :=
  match u_startup s with
  | Polling =>
      Some (if late then set_startup Polled s
            else if u_stop s then set_startup StartupEnded s
            else if alone s then s else set_startup Polled s)
  | _ => None
  end.

(** After the wait the table is looked at again. *)
Definition startup_check (s : upkeep) : option upkeep :=
  match u_startup s with
  | Polled => Some (if alone s then set_startup StartupEnded s else set_startup (Republishing (pass_keys s)) s)
  | _ => None
  end.

Definition startup_key (s : upkeep) : option upkeep :=
  match u_startup s with
  | Republishing (h :: l) => Some (set_startup (Republishing l) (set_node (republish_one world (u_node s) h) s))
  | Republishing [] => Some (set_startup StartupEnded s)
  | _ => None
  end.

(** ** [Stop] *)

(** The [select]: the channel is closed already, or the default branch is taken. *)
Definition stop_begin (i : nat) (s : upkeep) : option upkeep :=
  match u_stops s !! i with
  | None => Some (set_caller i (if u_stop s then Awaiting else AboutToClose) s)
  | Some _ => None
  end.

(** [close(m.stop)], which panics on a closed channel. *)
Definition stop_close (i : nat) (s : upkeep) : option upkeep :=
  match u_stops s !! i with
  | Some AboutToClose => Some (if u_stop s then set_panicked s else set_caller i Awaiting (set_stop_chan s))
  | _ => None
  end.

Definition all_ended (s : upkeep) : bool :=
  match u_republish s, u_check s, u_bootstrap s, u_startup s with
  | Ended, Ended, Ended, StartupEnded => true
  | _, _, _, _ => false
  end.

(** [m.wg.Wait()] *)
Definition stop_end (i : nat) (s : upkeep) : option upkeep :=
  match u_stops s !! i with
  | Some Awaiting => if all_ended s then Some (set_caller i Done s) else None
  | _ => None
  end.

(** ** All together *)

Inductive event :=
| RepublishTick | RepublishKey | RepublishStop
| CheckTick | CheckPing (i : nat) | CheckDone | CheckStop
| BootstrapNone | BootstrapWake | BootstrapTry | BootstrapStop
| StartupPoll (late : bool) | StartupCheck | StartupKey
| StopBegin (i : nat) | StopClose (i : nat) | StopEnd (i : nat)
| Elsewhere (n : node).         (* what the rest of the program does to the node *)

Definition exec (s : upkeep) (e : event) : option upkeep :=
  if u_panicked s then None else
  match e with
  | RepublishTick => republish_tick s
  | RepublishKey => republish_key s
  | RepublishStop => republish_stop s
  | CheckTick => check_tick s
  | CheckPing i => check_ping i s
  | CheckDone => check_done s
  | CheckStop => check_stop s
  | BootstrapNone => bootstrap_none s
  | BootstrapWake => bootstrap_wake s
  | BootstrapTry => bootstrap_try s
  | BootstrapStop => bootstrap_stop s
  | StartupPoll late => startup_poll late s
  | StartupCheck => startup_check s
  | StartupKey => startup_key s
  | StopBegin i => stop_begin i s
  | StopClose i => stop_close i s
  | StopEnd i => stop_end i s
  | Elsewhere n => Some (set_node n s)
  end.

Fixpoint run (s : upkeep) (es : list event) : option upkeep :=
  match es with
  | [] => Some s
  | e :: es => match exec s e with Some s => run s es | None => None end
  end.

(** * Facts *)

(** What a ping or a bootstrap leaves alone. *)
Definition same_store (d d' : DHT) : Prop := d_store d' = d_store d /\ d_blocklist d' = d_blocklist d.

Context (hello_ok : forall tick a d d', dht_ok d -> hello tick a d = Some d' ->
  dht_ok d' /\ d_self d' = d_self d /\ same_store d d').

(** What a step of maintenance does to the node: its invariant and identity stay. *)
Definition node_for (id : NodeID) (n : node) : Prop := node_inv n /\ d_self (n_dht n) = id.

Lemma Store_self e n d k v d' c : Store e n d k v = Ok (Some (d', c)) -> dht_ok d -> d_self d' = d_self d.
Proof.
  unfold Store, StoreLocal. destruct (_ <? _); [done|]. intros Hs Hd.
  destruct (IsBlocked d k) eqn:Hb; [rewrite Hb in Hs; congruence|].
  set (d1 := with_store d _) in Hs. change (IsBlocked d1 k) with (IsBlocked d k) in Hs. rewrite Hb in Hs.
  injection Hs as Hr. revert Hr. unfold Replicate. change (IsBlocked d1 k) with (IsBlocked d k). rewrite Hb.
  destruct (Lookup_Closest n k d1 Hd) as (d2 & -> & Hd2 & Hs2 & _). intros Hr. injection Hr as Hr.
  assert (forall l d0, d_self (fst (store_all n max_rounds d0 l k v)) = d_self d0) as Hall.
  { induction l as [|c0 l IH]; intros d0; [done|]. cbn [store_all].
    assert (d_self (fst (sendStore n max_rounds d0 c0 k v)) = d_self d0) as Hone.
    { unfold sendStore, rt_update. repeat case_match; done. }
    destruct (sendStore n max_rounds d0 c0 k v) as [d3 ok]. specialize (IH d3).
    destruct (store_all n max_rounds d3 l k v). cbn [fst] in *. congruence. }
  specialize (Hall (upd_order n (List.filter (fun c => negb (Equal (ID c) (d_self d2))) (Closest (d_rt d2) k K))) d2).
  rewrite Hr in Hall. cbn [fst] in Hall. by rewrite Hall, Hs2.
Qed.

Lemma republish_one_for id n h : node_for id n -> node_for id (republish_one world n h).
Proof.
  intros [Hi Hs]. unfold republish_one. destruct (IDFromHex h) as [k|]; [|done].
  destruct (Store.Get _ _ _) as [st [v|]]; [|done]. unfold node_store.
  set (n1 := MkNode (with_store (n_dht n) st) (n_tick n)).
  pose proof (Store_keeps_others (env_of world n1) (net_of world n1) (n_dht n1) k v Hi) as Hk.
  pose proof (Store_self (env_of world n1) (net_of world n1) (n_dht n1) k v) as Hself.
  destruct (Store _ _ _ _ _) as [[[d' c]|]|]; [|done|done]. split; [apply Hk|].
  rewrite <- Hs. by apply (Hself d' c).
Qed.

Lemma ping_one_for id n c :
  node_for id n -> ID c <> id ->
  exists n', ping_one world n c = Ret n' /\ node_for id n' /\ same_store (n_dht n) (n_dht n').
Proof.
  intros [[Hself Hw] Hs] Hc. unfold ping_one.
  assert (exists d ok, Ping (net_of world n) 0 (n_dht n) c = (d, ok) /\ dht_ok d /\ d_self d = id
    /\ same_store (n_dht n) d) as (d & ok & -> & Hd & Hid & Hst).
  { unfold Ping. destruct (requestContact _ _ _ _) as [r|]; [|by eexists _, _].
    destruct (negb _); [by eexists _, _|].
    eexists _, _. split; [done|]. destruct (rt_update_ok (n_dht n) c (clock (net_of world n) 0)) as [? ?]; [by split|].
    split_and!; [done|congruence|]. unfold rt_update. by destruct (Update _ _ _). }
  destruct ok; [by eexists|]. destruct Hd as [Hself' Hw'].
  destruct (Remove (d_rt d) (ID c)) as [rt|] eqn:Er.
  - destruct (Remove_wf _ _ _ Hw' Er) as [Hw2 Hs2]. eexists. split; [done|].
    split; [split; [split; [cbn; congruence|done]|done]|done].
  - exfalso. revert Er. unfold Remove. pose proof Hw' as [Hl _].
    destruct (lookup_lt_is_Some_2 (buckets (d_rt d)) (CommonPrefixLen (self (d_rt d)) (ID c))) as [b ->]; [|done].
    rewrite Hl. apply CommonPrefixLen_lt. congruence.
Qed.

Lemma bootstrap_one_for id n a :
  node_for id n ->
  node_for id (bootstrap_one n a).2 /\ same_store (n_dht n) (n_dht (bootstrap_one n a).2).
Proof.
  intros [Hi Hs]. unfold bootstrap_one. destruct (hello _ _ _) as [d|] eqn:Eh; [|done].
  destruct (hello_ok _ _ _ _ Hi Eh) as (Hd & Hself & Hst).
  unfold Bootstrap. cbn [negb]. destruct (_ =? 0)%nat; [split; [split; [done|cbn; congruence]|done]|].
  destruct (Lookup_Closest (net_of world n) (d_self d) d Hd) as (d' & -> & Hd' & Hs' & _ & Hst' & Hbl').
  destruct Hst as [Hst Hbl].
  cbn [fmap option_fmap option_map snd]. split; [split; [done|cbn; congruence]|split; cbn; congruence].
Qed.

Definition baseline : Z := BootstrapRetryInterval (effective_config cfg).

Record inv (id : NodeID) (s : upkeep) : Prop := {
  inv_node : node_for id (u_node s);
  inv_check l : u_check s = Busy l -> Forall (fun c => ID c <> id) l;
  inv_wait : 0 < baseline <= MaxBootstrapBackoff -> baseline <= u_wait s <= MaxBootstrapBackoff;
  inv_closed i : u_stops s !! i = Some Awaiting \/ u_stops s !! i = Some Done -> u_stop s = true;
  inv_done i : u_stops s !! i = Some Done -> all_ended s = true
}.

Lemma next_wait_range w h ok :
  0 < baseline <= MaxBootstrapBackoff -> baseline <= w <= MaxBootstrapBackoff ->
  baseline <= next_wait baseline w h ok <= MaxBootstrapBackoff.
Proof.
  intros Hb Hw. unfold next_wait. destruct h; [lia|]. destruct ok; [lia|].
  rewrite int64_id by (unfold in_int64, MaxBootstrapBackoff, Minute, Second in *; lia).
  destruct (Z.ltb_spec MaxBootstrapBackoff (w * 2)); lia.
Qed.

Ltac upkeep_cbn :=
  cbn [u_node u_stop u_republish u_check u_bootstrap u_wait u_startup u_stops u_panicked set_node set_stop_chan
       set_republish set_check set_bootstrap set_startup set_caller set_panicked] in *.

(** A step that leaves [Stop] and its callers alone. *)
Lemma loop_step id s s' :
  inv id s -> u_stop s' = u_stop s -> u_stops s' = u_stops s ->
  node_for id (u_node s') -> (forall l, u_check s' = Busy l -> Forall (fun c => ID c <> id) l) ->
  (0 < baseline <= MaxBootstrapBackoff -> baseline <= u_wait s' <= MaxBootstrapBackoff) ->
  (all_ended s = true -> all_ended s' = true) -> inv id s'.
Proof.
  intros [H1 H2 H3 H4 H5] E1 E2 Hn Hc Hw He.
  split; rewrite ?E1, ?E2; try done. intros i Hi. by apply He, (H5 i).
Qed.

Lemma remove_at_Forall {A} (P : A -> Prop) i l : Forall P l -> Forall P (remove_at i l).
Proof. intros Hl. apply Forall_app. split; [by apply Forall_take|by apply Forall_drop]. Qed.

Ltac wait_range := match goal with Hwait : forall (h ok : bool) (Hb : _), _ |- _ =>
  first [exact (Hwait true false)|exact (Hwait false true)|exact (Hwait false false)] end.

Ltac loop_cases Hx :=
  repeat match type of Hx with
    | context [match u_republish ?x with _ => _ end] => destruct (u_republish x) as [|[|]|] eqn:?; try discriminate Hx
    | context [match u_check ?x with _ => _ end] => destruct (u_check x) as [|[|]|] eqn:?; try discriminate Hx
    | context [match u_bootstrap ?x with _ => _ end] => destruct (u_bootstrap x) as [|[|]|] eqn:?; try discriminate Hx
    | context [match u_startup ?x with _ => _ end] => destruct (u_startup x) as [| |[|]|] eqn:?; try discriminate Hx
    | context [match BootstrapPeers cfg with _ => _ end] => destruct (BootstrapPeers cfg) eqn:?; try discriminate Hx
    | context [if ?b then _ else _] => destruct b eqn:?; try discriminate Hx
    end; injection Hx as <-.

(** The steps of the loops. *)
Definition is_stop (e : event) : bool :=
  match e with StopBegin _ | StopClose _ | StopEnd _ => true | _ => false end.

Definition elsewhere_ok (id : NodeID) (e : event) : Prop :=
  match e with Elsewhere n => node_for id n | _ => True end.

Lemma loops_inv id s e s' :
  is_stop e = false -> elsewhere_ok id e -> u_panicked s = false -> exec s e = Some s' -> inv id s -> inv id s'.
Proof.
  intros He Hel Hp Hx Hinv. pose proof Hinv as [Hn Hc Hw _ _].
  pose proof (fun h ok Hb => next_wait_range (u_wait s) h ok Hb (Hw Hb)) as Hwait.
  unfold exec in Hx. rewrite Hp in Hx.
  assert (all_ended s = true -> u_republish s = Ended /\ u_check s = Ended /\ u_bootstrap s = Ended
    /\ u_startup s = StartupEnded) as Hend.
  { unfold all_ended. by destruct (u_republish s), (u_check s), (u_bootstrap s), (u_startup s). }
  destruct e; try discriminate He;
    unfold republish_tick, republish_key, republish_stop, check_tick, check_done, check_stop,
      bootstrap_none, bootstrap_wake, bootstrap_stop, startup_poll, startup_check, startup_key in Hx.
  5: { unfold check_ping in Hx. destruct (u_check s) as [|l|] eqn:Ec; try done.
       destruct (l !! i) as [c|] eqn:El; [|done]. pose proof (Hc l eq_refl) as Hl.
       destruct (ping_one_for id (u_node s) c Hn) as (n' & Ep & Hn' & _);
         [exact (Forall_lookup_1 _ _ _ _ Hl El)|]. rewrite Ep in Hx.
       injection Hx as <-. apply (loop_step id s); try done; upkeep_cbn.
       - intros l' [= <-]. by apply remove_at_Forall.
       - intros (_ & Ec' & _)%Hend. congruence. }
  9: { unfold bootstrap_try in Hx. destruct (u_bootstrap s) as [|[|a l]|] eqn:Eb; try done.
       - injection Hx as <-. apply (loop_step id s); try done; upkeep_cbn.
         + wait_range.
         + intros (_ & _ & Eb' & _)%Hend. congruence.
       - destruct (bootstrap_one_for id (u_node s) a Hn) as [Hn' _].
         destruct (bootstrap_one (u_node s) a) as [[] n']; injection Hx as <-;
           (apply (loop_step id s); try done; upkeep_cbn; try wait_range);
           intros (_ & _ & Eb' & _)%Hend; congruence. }
  all: loop_cases Hx; apply (loop_step id s); upkeep_cbn; try done;
    try (by apply republish_one_for); try wait_range;
    try (intros (? & ? & ? & ?)%Hend; congruence);
    try (intros l' [= <-]; apply Forall_forall; intros c Hin; destruct Hn as [[Hself Hwf] Hid];
         rewrite <- Hid, <- Hself; by apply rt_wf_no_self).
Qed.

(** The steps of [Stop]. *)
Lemma stops_inv id s e s' :
  is_stop e = true -> u_panicked s = false -> exec s e = Some s' -> inv id s -> inv id s'.
Proof.
  intros He Hp Hx [H1 H2 H3 H4 H5]. unfold exec in Hx. rewrite Hp in Hx.
  destruct e as [| | | | | | | | | | | | | |i|i|i|]; try discriminate He; cbn in Hx.
  - unfold stop_begin in Hx. destruct (u_stops s !! i) eqn:Ei; [done|]. injection Hx as <-.
    split; upkeep_cbn; try done.
    + intros j [Hj|Hj]; apply lookup_insert_Some in Hj as [[_ Hj]|[_ Hj]];
        [destruct (u_stop s); done|by apply (H4 j); left|destruct (u_stop s); done|by apply (H4 j); right].
    + intros j Hj. apply lookup_insert_Some in Hj as [[_ Hj]|[_ Hj]]; [destruct (u_stop s); done|by apply (H5 j)].
  - unfold stop_close in Hx. destruct (u_stops s !! i) as [[]|] eqn:Ei; try done.
    destruct (u_stop s) eqn:Es; injection Hx as <-; (split; upkeep_cbn; try done; try congruence).
    intros j Hj. apply lookup_insert_Some in Hj as [[_ Hj]|[_ Hj]]; [done|by apply (H5 j)].
  - unfold stop_end in Hx. destruct (u_stops s !! i) as [[]|] eqn:Ei; try done.
    destruct (all_ended s) eqn:Ea; [|done]. injection Hx as <-.
    pose proof (H4 i (or_introl Ei)) as Hs.
    split; upkeep_cbn; try done; try congruence.
Qed.

Lemma upkeep_step id s e s' : elsewhere_ok id e -> exec s e = Some s' -> inv id s -> inv id s'.
Proof.
  intros Hel Hx Hi. destruct (u_panicked s) eqn:Hp; [unfold exec in Hx; by rewrite Hp in Hx|].
  destruct (is_stop e) eqn:He; [by apply (stops_inv id s e)|by apply (loops_inv id s e)].
Qed.

Lemma upkeep_run id es s s' : Forall (elsewhere_ok id) es -> run s es = Some s' -> inv id s -> inv id s'.
Proof.
  revert s. induction es as [|e es IH]; intros s Hes; cbn [run]; [congruence|].
  destruct (exec s e) as [s1|] eqn:E; [|done]. apply Forall_cons in Hes as [He Hes].
  intros Hr Hi. apply (IH s1); [done|done|]. by apply (upkeep_step id s e).
Qed.

Lemma StartMaintenance_inv id n : node_for id n -> inv id (StartMaintenance n).
Proof.
  intros Hn. split; cbn; try done.
  - fold baseline. lia.
  - intros i. rewrite lookup_empty. by intros [|].
Qed.

(** ** When [Stop] panics *)

(** The loops leave [Stop] alone, and no ping panics. *)
Lemma loops_frame id s e s' :
  is_stop e = false -> inv id s -> exec s e = Some s' ->
  u_stop s' = u_stop s /\ u_stops s' = u_stops s /\ u_panicked s' = false.
Proof.
  intros He [Hn Hc _ _ _] Hx. unfold exec in Hx. destruct (u_panicked s) eqn:Hp; [done|].
  destruct e; try discriminate He;
    unfold republish_tick, republish_key, republish_stop, check_tick, check_done, check_stop,
      bootstrap_none, bootstrap_wake, bootstrap_stop, startup_poll, startup_check, startup_key in Hx.
  5: { unfold check_ping in Hx. destruct (u_check s) as [|l|] eqn:Ec; try done.
       destruct (l !! i) as [c|] eqn:El; [|done].
       destruct (ping_one_for id (u_node s) c Hn) as (n' & Ep & _ & _);
         [exact (Forall_lookup_1 _ _ _ _ (Hc l eq_refl) El)|]. rewrite Ep in Hx. by injection Hx as <-. }
  9: { unfold bootstrap_try in Hx. destruct (u_bootstrap s) as [|[|a l]|]; try done; [by injection Hx as <-|].
       destruct (bootstrap_one (u_node s) a) as [[] n']; by injection Hx as <-. }
  all: loop_cases Hx; upkeep_cbn; done.
Qed.

(** Call [j] closes the channel after call [i] has looked at it and before call [i]
    closes it, which is the last thing that happens. *)
Definition stops_meet (es : list event) : Prop :=
  exists i j e1 e2 e3, i <> j /\ es = e1 ++ StopBegin i :: e2 ++ StopClose j :: e3 ++ [StopClose i].

(** What the past says of the channel and of the calls of [Stop]. *)
Record stop_history (es : list event) (s : upkeep) : Prop := {
  sh_open : u_stop s = false -> forall j, StopClose j ∉ es;
  sh_closed : u_stop s = true -> exists j, StopClose j ∈ es;
  sh_about i : u_panicked s = false -> u_stops s !! i = Some AboutToClose ->
    StopClose i ∉ es /\ exists e1 e2, es = e1 ++ StopBegin i :: e2 /\ forall j, StopClose j ∉ e1;
  sh_panic : u_panicked s = true -> stops_meet es
}.

Lemma history_quiet es e s s' :
  (forall j, e <> StopClose j) -> stop_history es s -> u_panicked s = false ->
  u_stop s' = u_stop s -> (forall i, u_stops s' !! i = Some AboutToClose -> u_stops s !! i = Some AboutToClose) ->
  u_panicked s' = false -> stop_history (es ++ [e]) s'.
Proof.
  intros He [H1 H2 H3 _] Hp E1 E2 E3.
  assert (forall j, StopClose j ∈ es ++ [e] -> StopClose j ∈ es) as Hin.
  { intros j [?|Hj%list_elem_of_singleton]%elem_of_app; [done|]. by destruct (He j). }
  split.
  - rewrite E1. intros Ho j Hj. by apply (H1 Ho j), Hin.
  - rewrite E1. intros Hc. destruct (H2 Hc) as [j Hj]. exists j. apply elem_of_app. by left.
  - intros i _ Hi. destruct (H3 i Hp (E2 i Hi)) as (Hn & e1 & e2 & -> & Hb). split; [auto|].
    exists e1, (e2 ++ [e]). by rewrite <- app_assoc.
  - congruence.
Qed.

Lemma history_step id es e s s' :
  inv id s -> stop_history es s -> exec s e = Some s' -> stop_history (es ++ [e]) s'.
Proof.
  intros Hi Hh Hx. pose proof Hx as Hx0. unfold exec in Hx. destruct (u_panicked s) eqn:Hp; [done|].
  destruct (is_stop e) eqn:He.
  2:{ destruct (loops_frame id s e s' He Hi Hx0) as (E1 & E2 & E3).
      apply (history_quiet es e s); [intros j ->; discriminate He|done|done|done|by rewrite E2|done]. }
  destruct e as [| | | | | | | | | | | | | |i|i|i|]; try discriminate He; cbn in Hx.
  - unfold stop_begin in Hx. destruct (u_stops s !! i) eqn:Ei; [done|]. injection Hx as <-.
    destruct (u_stop s) eqn:Es.
    + apply (history_quiet es _ s); upkeep_cbn; try done.
      intros j [[_ Hj]|[_ Hj]]%lookup_insert_Some; done.
    + pose proof Hh as [H1 H2 H3 _]. specialize (H1 Es).
      assert (forall j, StopClose j ∉ es ++ [StopBegin i]) as Hno.
      { intros j [?|?%list_elem_of_singleton]%elem_of_app; [by apply (H1 j)|done]. }
      split; upkeep_cbn; try congruence; [done|]. intros j _ [[<- _]|[_ Hj]]%lookup_insert_Some.
      * split; [done|]. by exists es, [].
      * destruct (H3 j Hp Hj) as (_ & e1 & e2 & -> & Hb). split; [done|].
        exists e1, (e2 ++ [StopBegin i]). by rewrite <- app_assoc.
  - unfold stop_close in Hx. destruct (u_stops s !! i) as [[]|] eqn:Ei; try done.
    destruct Hh as [H1 H2 H3 _]. destruct (H3 i Hp Ei) as (Hni & e1 & e2 & -> & Hb).
    assert (StopClose i ∈ (e1 ++ StopBegin i :: e2) ++ [StopClose i]) as Hin by set_solver.
    destruct (u_stop s) eqn:Es; injection Hx as <-; (split; upkeep_cbn; try congruence; [by exists i|]).
    + intros _. destruct (H2 eq_refl) as [j Hj]. exists i, j.
      assert (StopClose j ∈ e2) as (f1 & f2 & ->)%list_elem_of_split.
      { apply elem_of_app in Hj as [Hj|[|Hj]%elem_of_cons]; [by destruct (Hb j)|done|done]. }
      exists e1, f1, f2. split; [intros ->; done|]. by rewrite <- app_assoc, app_comm_cons, <- app_assoc.
    + intros j _ [[_ Hj]|[Hne Hj]]%lookup_insert_Some; [done|].
      destruct (H3 j Hp Hj) as (Hnj & f1 & f2 & Ef & Hf). rewrite Ef in *. split.
      * intros [?|[= ->]%list_elem_of_singleton]%elem_of_app; done.
      * exists f1, (f2 ++ [StopClose i]). by rewrite <- app_assoc.
  - unfold stop_end in Hx. destruct (u_stops s !! i) as [[]|] eqn:Ei; try done.
    destruct (all_ended s); [|done]. injection Hx as <-. apply (history_quiet es _ s); upkeep_cbn; try done.
    intros j [[_ Hj]|[_ Hj]]%lookup_insert_Some; done.
Qed.

Lemma history_run id es s s' :
  Forall (elsewhere_ok id) es -> inv id s -> stop_history [] s -> run s es = Some s' -> stop_history es s'.
Proof.
  intros Hes Hi Hh. assert (forall past s, inv id s -> stop_history past s -> run s es = Some s' ->
    stop_history (past ++ es) s') as Hgen; [|by apply (Hgen [] s)].
  clear s Hi Hh. induction Hes as [|e es He Hes IH]; intros past s Hi Hh; cbn [run].
  - intros [= <-]. by rewrite app_nil_r.
  - destruct (exec s e) as [s1|] eqn:Ex; [|done]. rewrite cons_middle, app_assoc. apply IH.
    + by apply (upkeep_step id s e).
    + by apply (history_step id past e s).
Qed.

(** C20 (maintenance.go, [StartMaintenance], the four loops and [Stop]): whatever the order
    in which the goroutines, the pings of a check, the calls of [Stop] and the rest of the
    program act on a node, the node keeps its identity and the invariant of its routing
    table, and nothing panics but this: one call of [Stop] closes the channel between the
    moment another call looks at it and the moment that call closes it.  So calls of
    [Stop] one after the other never do.  The wait between bootstrap attempts stays
    between the configured interval and the cap, and once a call of [Stop] has returned
    all four goroutines have ended. *)
Theorem upkeep_safe (id : NodeID) (n : node) (es : list event) (s : upkeep) :
  node_for id n -> Forall (elsewhere_ok id) es ->
  run (StartMaintenance n) es = Some s ->
  node_for id (u_node s)
  /\ (0 < baseline <= MaxBootstrapBackoff -> baseline <= u_wait s <= MaxBootstrapBackoff)
  /\ (u_panicked s = true -> stops_meet es)
  /\ (forall i, u_stops s !! i = Some Done -> all_ended s = true /\ u_stop s = true).
Proof.
  intros Hn Hes Hr. pose proof (StartMaintenance_inv id n Hn) as Hi0.
  pose proof (upkeep_run id es _ s Hes Hr Hi0) as [H1 H2 H3 H4 H5].
  assert (stop_history es s) as Hh.
  { apply (history_run id es (StartMaintenance n)); [done|done| |done].
    split; cbn; try done. intros _ j. apply not_elem_of_nil. }
  split_and!; [done|done|apply Hh|]. intros i Hi. split; [by apply (H5 i)|]. apply (H4 i). by right.
Qed.

(** ** Values *)

Definition from_outside (e : event) : bool := match e with Elsewhere _ => true | _ => false end.

(** What a step of the loops makes of the node. *)
Lemma node_step id s e s' :
  from_outside e = false -> inv id s -> exec s e = Some s' ->
  u_node s' = u_node s
  \/ (exists h, u_node s' = republish_one world (u_node s) h)
  \/ (node_for id (u_node s') /\ same_store (n_dht (u_node s)) (n_dht (u_node s'))).
Proof.
  intros He [Hn Hc _ _ _] Hx. unfold exec in Hx. destruct (u_panicked s); [done|].
  destruct e; try discriminate He; cbn [from_outside] in He;
    unfold republish_tick, republish_key, republish_stop, check_tick, check_done, check_stop, bootstrap_none,
      bootstrap_wake, bootstrap_stop, startup_poll, startup_check, startup_key in Hx.
  5: { unfold check_ping in Hx. destruct (u_check s) as [|l|] eqn:Ec; try done.
       destruct (l !! i) as [c|] eqn:El; [|done].
       destruct (ping_one_for id (u_node s) c Hn) as (n' & Ep & Hn' & Hst);
         [exact (Forall_lookup_1 _ _ _ _ (Hc l eq_refl) El)|].
       rewrite Ep in Hx. injection Hx as <-. right. right. by upkeep_cbn. }
  9: { unfold bootstrap_try in Hx. destruct (u_bootstrap s) as [|[|a l]|] eqn:Eb; try done;
         [injection Hx as <-; by left|].
       pose proof (bootstrap_one_for id (u_node s) a Hn) as Hb.
       right. right. destruct (bootstrap_one (u_node s) a) as [[] n']; injection Hx as <-; exact Hb. }
  all: try (unfold stop_begin, stop_close, stop_end in Hx; repeat case_match; simplify_eq; by left).
  all: loop_cases Hx; first [by left|right; left; by eexists].
Qed.

Lemma step_keeps_values id s e s' :
  ordered_world world -> from_outside e = false -> inv id s -> republishable (u_node s) -> exec s e = Some s' ->
  republishable (u_node s')
  /\ data (d_store (n_dht (u_node s'))) = data (d_store (n_dht (u_node s))).
Proof.
  intros Hw He Hi Hrep Hx. destruct (node_step id s e s' He Hi Hx) as [->|[[h ->]|[[Hn _] [Hst Hbl]]]]; [done| |].
  - destruct (republish_one_spec world (u_node s) h Hw Hrep) as (? & ? & _). done.
  - destruct Hrep as (_ & [Hm Hb] & Hok & Hk). rewrite Hst. split; [|done].
    split_and!; [done|split; congruence|congruence|by rewrite Hst].
Qed.

(** (maintenance.go, [republishAll], [pingAll], [bootstrapLoop], [startupRepublish]):
    however the four goroutines interleave, they lose nothing that the node stores: the
    republish passes put back what they read, also while another pass runs over the same
    keys, and checks and bootstraps do not touch the store. *)
Theorem upkeep_keeps_values (id : NodeID) (n : node) (es : list event) (s : upkeep) :
  ordered_world world -> node_for id n -> republishable n ->
  forallb (fun e => negb (from_outside e)) es = true ->
  run (StartMaintenance n) es = Some s ->
  republishable (u_node s) /\ data (d_store (n_dht (u_node s))) = data (d_store (n_dht n)).
Proof.
  intros Hw Hn Hrep Hes Hr. pose proof (StartMaintenance_inv id n Hn) as Hi.
  assert (u_node (StartMaintenance n) = n) as E by done. rewrite <- E in Hrep. rewrite <- E at 1.
  clear E. revert Hes Hr Hi Hrep. generalize (StartMaintenance n) as s0. induction es as [|e es IH]; intros s0; cbn [forallb run]; [by intros _ [= <-]|].
  intros [He Hes]%andb_true_iff. apply negb_true_iff in He.
  destruct (exec s0 e) as [s1|] eqn:Ex; [|done]. intros Hr Hi Hrep.
  destruct (step_keeps_values id s0 e s1 Hw He Hi Hrep Ex) as [Hrep1 Hd1].
  assert (elsewhere_ok id e) as Hel by (by destruct e).
  destruct (IH s1 Hes Hr (upkeep_step id s0 e s1 Hel Ex Hi) Hrep1) as [H1 H2]. split; [done|congruence].
Qed.

End Loops.

(** ** Concrete runs *)

Module UpkeepRuns.

Definition config : MaintenanceConfig := MkConfig [bs "1.2.3.4:7001"] 0 0 0.

Definition no_hello (tick : nat) (a : bytes) (d : DHT) : option DHT := None.

Lemma no_hello_ok tick a d d' :
  dht_ok d -> no_hello tick a d = Some d' -> dht_ok d' /\ d_self d' = d_self d /\ same_store d d'.
Proof. done. Qed.

(** The start-up pass and a check run into each other, then [Stop] is called. *)
Definition work : list event :=
  [StartupPoll false; CheckTick; StartupCheck; CheckPing 0; RepublishTick; StartupKey; RepublishKey; StartupKey].
Definition halt : list event :=
  [StopBegin 1; RepublishKey; StopClose 1; BootstrapStop; CheckDone; CheckStop; RepublishStop; StopEnd 1].

Definition after (n : node) (es : list event) : upkeep :=
  default (StartMaintenance config n) (run calm keys_in_order no_hello config (StartMaintenance config n) es).

Definition ran (n : node) (es : list event) : bool :=
  match run calm keys_in_order no_hello config (StartMaintenance config n) es with Some _ => true | None => false end.

Lemma upkeep_ran_after n es :
  ran n es = true ->
  run calm keys_in_order no_hello config (StartMaintenance config n) es = Some (after n es).
Proof. unfold ran, after. by destruct (run _ _ _ _ _ es). Qed.
Lemma worked : ran host_node (work ++ halt) = true.
Proof. by vm_compute. Qed.

Lemma worked_done : u_stops (after host_node (work ++ halt)) !! 1%nat = Some Done.
Proof. by vm_compute. Qed.

Lemma host_node_for : node_for (d_self carol) host_node.
Proof. split; [exact carol_ok|exact eq_refl]. Qed.

Lemma work_inside id : Forall (elsewhere_ok id) (work ++ halt).
Proof. by repeat constructor. Qed.

Lemma upkeep_safe_witness :
  u_stops (after host_node (work ++ halt)) !! 1%nat = Some Done
  /\ all_ended (after host_node (work ++ halt)) = true.
Proof.
  split; [exact worked_done|].
  destruct (upkeep_safe calm keys_in_order no_hello config no_hello_ok (d_self carol) host_node (work ++ halt) _
    host_node_for (work_inside _) (upkeep_ran_after _ _ worked)) as (_ & _ & _ & H).
  exact (proj1 (H 1%nat worked_done)).
Defined.

Lemma upkeep_keeps_values_witness :
  data (d_store (n_dht (u_node (after host_node (work ++ halt))))) = data (d_store (n_dht host_node)).
Proof.
  exact (proj2 (upkeep_keeps_values calm keys_in_order no_hello config no_hello_ok (d_self carol) host_node
    (work ++ halt) _ calm_ordered host_node_for host_republishable eq_refl (upkeep_ran_after _ _ worked))).
Defined.

(** Two calls of [Stop] that both find the channel open: the second [close] panics. *)
Example stops_collide :
  let s := after host_node [StopBegin 1; StopBegin 2; StopClose 1; StopClose 2] in
  ran host_node [StopBegin 1; StopBegin 2; StopClose 1; StopClose 2] = true /\ u_panicked s = true.
Proof. vm_compute. split; reflexivity. Qed.

End UpkeepRuns.
