(* ===== verification/Console.v ===== *)
(** * The interactive console (cli/main.go, the loop of [main] and the run* and show* functions)

    A line of standard input is trimmed and dispatched; each command works on the
    node, the peer and the host's file system.  What is printed is kept as values,
    one constructor per [Printf], with the errors inside. *)

From S2P Require Import RelayClient PeerNode Upkeep.
From S2P Require Import Prelude GoStrings Encoding Json Sha256 AesGcm Crypto Secure Relay Peer SingleFlight Session.
From S2P Require Import Revoke NodeId Blocklist Store Routing DhtWire Dht Lookup Name ContentStore NameService.
From S2P Require Import Files Maintenance.

(** ** Text *)

(** [splitAndTrim] *)
Definition splitAndTrim (s : bytes) : list bytes :=
  if is_nil s then [] else
  List.filter (fun p => negb (is_nil p)) (TrimSpace <$> SplitByte s Byte.x2c).

(** ** Dispatch *)

Inductive command :=
| CmdPeers | CmdPing | CmdDht | CmdRelays | CmdStats | CmdHelp
| CmdFind (idHex : bytes) | CmdPut (text : bytes) | CmdGet (keyHex : bytes)
| CmdPublish (dir : bytes) | CmdFetch (args : bytes)
| CmdRegister (args : bytes) | CmdResolve (n : bytes) | CmdBootstrap (addr : bytes)
| CmdChat (line : bytes).

(** The argument of a command word (which ends in a space). *)
Definition argument (word line : bytes) : option bytes :=
  if HasPrefix line word then Some (TrimSpace (drop (length word) line)) else None.

(** The commands with an argument, in the order of the cases. *)
Definition words : list (bytes * (bytes -> command)) :=
  [(bs "find ", CmdFind); (bs "put ", CmdPut); (bs "get ", CmdGet); (bs "publish ", CmdPublish);
   (bs "fetch ", CmdFetch); (bs "register ", CmdRegister); (bs "resolve ", CmdResolve);
   (bs "bootstrap ", CmdBootstrap)].

Fixpoint with_argument (ws : list (bytes * (bytes -> command))) (line : bytes) : command :=
  match ws with
  | [] => CmdChat line
  | (word, mk) :: ws => match argument word line with Some a => mk a | None => with_argument ws line end
  end.

Inductive request := Blank | Quit | Run (cmd : command).

(** What a line of input asks for. *)
Definition dispatch (text : bytes) : request :=
  let line := TrimSpace text in
  if bool_decide (line = []) then Blank
  else if bool_decide (line = bs "quit") || bool_decide (line = bs "exit") then Quit
  else if bool_decide (line = bs "peers") then Run CmdPeers
  else if bool_decide (line = bs "ping") then Run CmdPing
  else if bool_decide (line = bs "dht") then Run CmdDht
  else if bool_decide (line = bs "relays") then Run CmdRelays
  else if bool_decide (line = bs "stats") then Run CmdStats
  else if bool_decide (line = bs "help") || bool_decide (line = bs "?") then Run CmdHelp
  else Run (with_argument words line).

(** ** Output *)

Inductive output :=
| OUsage (cmd : bytes)
| ONotHex (e : id_error)
| ORoutingTable (contacts : list Contact)
| OFound (target : NodeID) (contacts : list Contact)
| OStored (size : Z) (key : bytes) (replicas : nat) | OStoreFailed (e : dht_error)
| OGot (size : Z) (value : bytes) | OGetFailed (e : dht_error)
| OPublished (files : nat) (dir : bytes) (root : bytes) | OPublishFailed (e : files_error)
| OFetched (files : nat) (dest : bytes) | OFetchFailed (e : files_error)
| ORegistered (rec : NameRecord) | ORegisterFailed (e : name_error)
| OResolved (rec : NameRecord) | OResolveFailed (e : name_error)
| OBootstrapped (addr : bytes) (contacts : nat) | OBootstrapFailed
| OPeers (aliases unique : nat) (table : list (bytes * bytes))
| ORelays (own_urls : list (bytes * bytes))
| OStats (id listen : bytes) (public : bool) (advertised : list bytes) (unique aliases contacts entries : nat)
    (used budget : Z)
| OHelp
| OSent (msgs : list (nat * Message)).      (* a broadcast: what goes to which connection *)

Record console := MkConsole { co_peer : Peer; co_node : node; co_fs : files }.

Definition with_node (n : node) (c : console) : console := MkConsole (co_peer c) n (co_fs c).

(** ** What the console looks at (dht.go) *)

Definition LocalStoreSize (d : DHT) : nat := store_Size (d_store d).
Definition LocalStoreBytes (d : DHT) : Z := TotalBytes (d_store d).
Definition LocalStoreBudget (d : DHT) : Z := maxBytes (d_store d).

(** ** The commands *)

Section Console.
Context `{GoUnicode} `{Ed25519}.
Context (world : nat -> put_env * net) (clock nanos : nat -> Z).
Context (trusted : option (gset bytes)) (order : gset bytes -> list bytes).
Context (hello : nat -> bytes -> DHT -> option DHT).

(** The host: what a walk of a directory finds, the memory there is, how writes end. *)
Context (walk : bytes -> option bool * list walk_item) (mem : Z) (h : host).

(** The node's identity. *)
Context (id : Identity).

Definition showRoutingTable (c : console) : output := ORoutingTable (All (d_rt (n_dht (co_node c)))).

Definition runFind (idHex : bytes) (c : console) : output * console :=
  match IDFromHex idHex with
  | Err e => (ONotHex e, c)
  | Ok target =>
      match Lookup (net_of world (co_node c)) target (n_dht (co_node c)) with
      | Some (results, d) => (OFound target results, with_node (MkNode d (S (n_tick (co_node c)))) c)
      | None => (OFound target [], c)
      end
  end.

Definition runPut (text : bytes) (c : console) : output * console :=
  if bool_decide (text = []) then (OUsage (bs "put"), c) else
  let key := ContentAddress text in
  match Store (env_of world (co_node c)) (net_of world (co_node c)) (n_dht (co_node c)) key text with
  | Err e => (OStoreFailed e, c)
  | Ok (Some (d, stores)) =>
      (OStored (len text) (Hex key) stores, with_node (MkNode d (S (n_tick (co_node c)))) c)
  | Ok None => (OStored (len text) (Hex key) 0, c)
  end.

Definition runGet (keyHex : bytes) (c : console) : output * console :=
  match IDFromHex keyHex with
  | Err e => (ONotHex e, c)
  | Ok key =>
      let '(r, n) := node_get world (co_node c) key in
      (match r with Ok value => OGot (len value) value | Err e => OGetFailed e end, with_node n c)
  end.

#[local] Instance console_store : ContentStore node := node_ContentStore world.

Definition runPublish (dir : bytes) (c : console) : output * console :=
  if bool_decide (dir = []) then (OUsage (bs "publish"), c) else
  let '(r, n) := PublishDir (co_node c) (walk dir).1 (walk dir).2 in
  (match r with
   | Ok (rootKey, manifest) => OPublished (length (dir_Entries manifest)) dir (Hex rootKey)
   | Err e => OPublishFailed e
   end, with_node n c).

Definition runFetch (args : bytes) (c : console) : outcome (output * console) :=
  match Fields args with
  | [keyHex; dest] =>
      match IDFromHex keyHex with
      | Err e => Ret (ONotHex e, c)
      | Ok rootKey =>
          match FetchDir mem h (co_node c) rootKey dest (co_fs c) with
          | Panic => Panic
          | Ret (r, n, fs) =>
              Ret (match r with
                   | Ok manifest => OFetched (length (dir_Entries manifest)) dest
                   | Err e => OFetchFailed e
                   end, MkConsole (co_peer c) n fs)
          end
      end
  | _ => Ret (OUsage (bs "fetch"), c)
  end.

Definition runRegister (args : bytes) (c : console) : output * console :=
  match Fields args with
  | [nm; keyHex] =>
      match IDFromHex keyHex with
      | Err e => (ONotHex e, c)
      | Ok rootKey =>
          let '(r, n) := node_publish world clock (co_node c) id nm rootKey (nanos (n_tick (co_node c))) in
          (match r with Ok rec => ORegistered rec | Err e => ORegisterFailed e end, with_node n c)
      end
  | _ => (OUsage (bs "register"), c)
  end.

Definition runResolve (n : bytes) (c : console) : output * console :=
  if bool_decide (n = []) then (OUsage (bs "resolve"), c) else
  let '(r, nd) := node_resolve world clock trusted order (co_node c) n in
  (match r with Ok rec => OResolved rec | Err e => OResolveFailed e end, with_node nd c).

Definition run_bootstrap (addr : bytes) (c : console) : output * console :=
  let '(ok, n) := bootstrap_one world hello (co_node c) addr in
  (if ok then OBootstrapped addr (Routing.Size (d_rt (n_dht n))) else OBootstrapFailed, with_node n c).

(** The IDs are cut to 16 characters; the map is ranged over in some order. *)
Definition showPeers (c : console) : output :=
  let t := conn_tables (co_peer c) in
  OPeers (size (Requests.PeerCountByAddr t)) (UniqueConnCount (co_peer c))
    ((fun kv => (kv.1, take 16 kv.2)) <$> map_to_list (Requests.PeerCountByAddr t)).

Definition showRelays (c : console) : output :=
  ORelays ((fun r => (r, Addresses.relay_url r (p_id (co_peer c)))) <$> RelayAddresses (co_peer c)).

Definition showStats (c : console) : output :=
  let p := co_peer c in
  let d := n_dht (co_node c) in
  OStats (p_id p) (LocalAddr p) (IsPublic p) (peer_AdvertisedAddresses p) (UniqueConnCount p)
    (Requests.PeerCount (conn_tables p)) (Routing.Size (d_rt d)) (LocalStoreSize d) (LocalStoreBytes d)
    (LocalStoreBudget d).

Definition broadcast (m : Message) (c : console) : output := OSent (Requests.Broadcast (conn_tables (co_peer c)) m).

Definition exec_command (cmd : command) (c : console) : outcome (output * console) :=
  match cmd with
  | CmdPeers => Ret (showPeers c, c)
  | CmdPing => Ret (broadcast (mk_message (bs "ping") []) c, c)
  | CmdDht => Ret (showRoutingTable c, c)
  | CmdRelays => Ret (showRelays c, c)
  | CmdStats => Ret (showStats c, c)
  | CmdHelp => Ret (OHelp, c)
  | CmdFind a => Ret (runFind a c)
  | CmdPut a => Ret (runPut a c)
  | CmdGet a => Ret (runGet a c)
  | CmdPublish a => Ret (runPublish a c)
  | CmdFetch a => runFetch a c
  | CmdRegister a => Ret (runRegister a c)
  | CmdResolve a => Ret (runResolve a c)
  | CmdBootstrap a => Ret (run_bootstrap a c)
  | CmdChat line => Ret (broadcast (mk_message (bs "chat") line) c, c)
  end.

(** The loop over the scanned lines: what is printed and the state it leaves.  It
    returns at [quit] or at the end of the input. *)
Fixpoint loop_lines (lines : list bytes) (c : console) : outcome (list output * console) :=
  match lines with
  | [] => Ret ([], c)
  | text :: lines =>
      match dispatch text with
      | Blank => loop_lines lines c
      | Quit => Ret ([], c)
      | Run cmd =>
          match exec_command cmd c with
          | Panic => Panic
          | Ret (o, c) =>
              match loop_lines lines c with
              | Panic => Panic
              | Ret (os, c) => Ret (o :: os, c)
              end
          end
      end
  end.

(** The console on the bytes of standard input; a line that does not fit the
    scanner's buffer ends it like the end of the input. *)
Definition repl (stdin : bytes) (c : console) : outcome (list output * console) :=
  loop_lines (scan_lines stdin).1 c.

End Console.

(** * Facts *)

(** ** Spaces *)

(** The encodings of a space. *)
Definition space_seq (e : bytes) : Prop :=
  match e with
  | [a] => ascii_space a = true
  | [a; b] => space2 a b = true
  | [a; b; c] => space3 a b c = true
  | _ => False
  end.

Definition spaces (s : bytes) : Prop := exists l, s = concat l /\ Forall space_seq l.

Lemma spaces_app s t : spaces s -> spaces t -> spaces (s ++ t).
Proof. intros (l & -> & Hl) (k & -> & Hk). exists (l ++ k). rewrite concat_app. split; [done|by apply Forall_app]. Qed.

(** No byte of a longer encoding is an ASCII space, and none is read as a shorter one. *)
Ltac space_bytes :=
  unfold space2, space3, ascii_space;
  rewrite ?orb_true_iff, ?andb_true_iff, ?orb_false_iff, ?andb_false_iff, ?Z.eqb_eq, ?Z.leb_le, ?Z.eqb_neq, ?Z.leb_gt;
  lia.

Lemma space2_bytes a b : space2 a b = true -> ascii_space a = false /\ ascii_space b = false.
Proof. space_bytes. Qed.

Lemma space3_bytes a b c :
  space3 a b c = true -> ascii_space a = false /\ ascii_space c = false /\ space2 a b = false /\ space2 b c = false.
Proof. space_bytes. Qed.

Lemma trim_left_space e t : space_seq e -> trim_left (e ++ t) = trim_left t.
Proof.
  destruct e as [|a [|b [|c [|]]]]; try done; cbn [space_seq app trim_left].
  - by intros ->.
  - intros Hs. destruct (space2_bytes a b Hs) as [-> _]. by rewrite Hs.
  - intros Hs. destruct (space3_bytes a b c Hs) as (-> & _ & -> & _). by rewrite Hs.
Qed.

Lemma trim_right_space e t : space_seq e -> trim_right (t ++ e) = trim_right t.
Proof.
  unfold trim_right. intros Hs. rewrite rev_app_distr. f_equal. revert Hs.
  destruct e as [|a [|b [|c [|]]]]; try done; cbn [space_seq rev app trim_left_rev].
  - by intros ->.
  - intros Hs. destruct (space2_bytes a b Hs) as [_ ->]. by rewrite Hs.
  - intros Hs. destruct (space3_bytes a b c Hs) as (_ & -> & _ & ->). by rewrite Hs.
Qed.

Lemma trim_right_spaces s t : spaces s -> trim_right (t ++ s) = trim_right t.
Proof.
  intros (l & -> & Hl). induction l as [|e l IH] using rev_ind; [by rewrite app_nil_r|].
  apply Forall_app in Hl as [Hl [He _]%Forall_cons].
  rewrite concat_app. cbn [concat]. rewrite app_nil_r, app_assoc, (trim_right_space e _ He). apply (IH Hl).
Qed.

Lemma trim_left_spaces s : exists p, spaces p /\ s = p ++ trim_left s.
Proof.
  remember (length s) as n eqn:Hn. revert s Hn. induction (lt_wf n) as [n _ IH]. intros s ->.
  assert (forall e t, space_seq e -> s = e ++ t -> exists p, spaces p /\ s = p ++ trim_left s) as Hstep.
  { intros e t He ->. rewrite trim_left_space by done. destruct (IH (length t)) with t as (p & Hp & Et); [|done|].
    { rewrite length_app. destruct e; [done|simpl; lia]. }
    exists (e ++ p). rewrite <- app_assoc, <- Et. split; [|done]. apply spaces_app; [|done].
    exists [e]. cbn. rewrite app_nil_r. split; [done|by constructor]. }
  destruct (trim_left_step s) as [->|_]; [exists []; split; [by exists []|done]|].
  destruct s as [|a s1]; [exists []; split; [by exists []|done]|].
  destruct (ascii_space a) eqn:Ea; [by apply (Hstep [a] s1)|].
  destruct s1 as [|b s2]; [exists []; split; [by exists []|cbn; by rewrite Ea]|].
  destruct (space2 a b) eqn:Eb; [by apply (Hstep [a; b] s2)|].
  destruct s2 as [|c s3]; [exists []; split; [by exists []|cbn; by rewrite Ea, Eb]|].
  destruct (space3 a b c) eqn:Ec; [by apply (Hstep [a; b; c] s3)|].
  exists []. split; [by exists []|]. cbn. by rewrite Ea, Eb, Ec.
Qed.

Lemma trim_right_split s : exists q, spaces q /\ s = trim_right s ++ q.
Proof.
  remember (length s) as n eqn:Hn. revert s Hn. induction (lt_wf n) as [n _ IH]. intros s ->.
  assert (forall e t, space_seq e -> s = t ++ e -> exists p, spaces p /\ s = trim_right s ++ p) as Hstep.
  { intros e t He ->. rewrite trim_right_space by done. destruct (IH (length t)) with t as (p & Hp & Et); [|done|].
    { rewrite length_app. destruct e; [done|simpl; lia]. }
    exists (p ++ e). rewrite app_assoc, <- Et. split; [|done]. apply spaces_app; [done|].
    exists [e]. cbn. rewrite app_nil_r. split; [done|by constructor]. }
  assert (forall r, rev s = r -> trim_left_rev r = r -> exists q, spaces q /\ s = trim_right s ++ q) as Hfix.
  { intros r E Hr. exists []. rewrite app_nil_r. split; [by exists []|]. unfold trim_right.
    rewrite E, Hr, <- E. by rewrite rev_involutive. }
  assert (forall r, rev s = r -> s = rev r) as Hrev by (intros r <-; by rewrite rev_involutive).
  destruct (rev s) as [|a s1] eqn:E; [by apply (Hfix [])|].
  destruct (ascii_space a) eqn:Ea; [apply (Hstep [a] (rev s1)); [done|]; by rewrite (Hrev _ eq_refl)|].
  destruct s1 as [|b s2]; [apply (Hfix _ eq_refl); cbn; by rewrite Ea|].
  destruct (space2 b a) eqn:Eb.
  { apply (Hstep [b; a] (rev s2)); [done|]. rewrite (Hrev _ eq_refl). cbn. by rewrite <- app_assoc. }
  destruct s2 as [|c s3]; [apply (Hfix _ eq_refl); cbn; by rewrite Ea, Eb|].
  destruct (space3 c b a) eqn:Ec.
  { apply (Hstep [c; b; a] (rev s3)); [done|]. rewrite (Hrev _ eq_refl). cbn. by rewrite <- !app_assoc. }
  apply (Hfix _ eq_refl). cbn. by rewrite Ea, Eb, Ec.
Qed.

Lemma TrimSpace_nil s : TrimSpace s = [] -> spaces s.
Proof.
  unfold TrimSpace. intros Hn. destruct (trim_left_spaces s) as (p & Hp & Es).
  destruct (trim_right_split (trim_left s)) as (q & Hq & Et). rewrite Hn in Et. cbn in Et.
  rewrite Es. rewrite Et. by apply spaces_app.
Qed.

(** A trimmed line has no command word with nothing after it. *)
Lemma argument_nonempty w line a :
  TrimSpace line = line -> argument (w ++ [Byte.x20]) line = Some a -> a <> [].
Proof.
  intros Ht. unfold argument. destruct (HasPrefix _ _) eqn:Hp; [|done]. intros [= <-] Ha.
  apply HasPrefix_spec in Hp as [s ->]. rewrite drop_app_length in Ha. apply TrimSpace_nil in Ha.
  assert (trim_right ((w ++ [Byte.x20]) ++ s) = (w ++ [Byte.x20]) ++ s) as Hr.
  { rewrite <- Ht at 1. unfold TrimSpace at 1. rewrite trim_right_idem. exact Ht. }
  rewrite <- app_assoc, trim_right_spaces in Hr.
  - destruct (trim_right_prefix w) as [q Hq]. apply (f_equal length) in Hq. apply (f_equal length) in Hr.
    rewrite !length_app in Hq, Hr. cbn in Hr. lia.
  - apply (spaces_app [Byte.x20] s); [|done]. exists [[Byte.x20]]. split; [done|]. by repeat constructor.
Qed.

Lemma with_argument_nonempty ws line cmd :
  TrimSpace line = line -> Forall (fun w => exists u, w.1 = u ++ [Byte.x20]) ws ->
  with_argument ws line = cmd ->
  cmd = CmdChat line \/ exists w a, w ∈ ws /\ cmd = w.2 a /\ a <> [].
Proof.
  intros Ht Hws <-. induction Hws as [|[word mk] ws [u Hu] Hws IH]; [by left|]. cbn [with_argument].
  destruct (argument word line) as [a|] eqn:Ea.
  - right. exists (word, mk), a. cbn in Hu. subst word. split; [apply list_elem_of_here|]. split; [done|].
    by eapply argument_nonempty.
  - destruct IH as [IH|(w & a & Hin & IH)]; [by left|]. right. exists w, a. split; [by apply list_elem_of_further|done].
Qed.

Definition argument_of (cmd : command) : option bytes :=
  match cmd with
  | CmdFind a | CmdPut a | CmdGet a | CmdPublish a | CmdFetch a | CmdRegister a | CmdResolve a | CmdBootstrap a => Some a
  | CmdChat line => Some line
  | _ => None
  end.

Lemma words_end : Forall (fun w => exists u, w.1 = u ++ [Byte.x20]) words.
Proof.
  repeat constructor; cbn [fst];
    [exists (bs "find")|exists (bs "put")|exists (bs "get")|exists (bs "publish")|exists (bs "fetch")
    |exists (bs "register")|exists (bs "resolve")|exists (bs "bootstrap")]; done.
Qed.

(** No command is called with an empty argument. *)
Lemma dispatch_nonempty text cmd a : dispatch text = Run cmd -> argument_of cmd = Some a -> a <> [].
Proof.
  unfold dispatch. case_bool_decide as Hne; [done|].
  destruct (_ || _); [done|]. repeat (destruct (bool_decide _); [by intros [= <-]|]).
  destruct (_ || _); [by intros [= <-]|]. intros [= Hc].
  destruct (with_argument_nonempty words (TrimSpace text) cmd (TrimSpace_idem text) words_end Hc)
    as [->|(w & b & Hw & -> & Hb)]; [by intros [= <-]|].
  unfold words in Hw. rewrite !elem_of_cons in Hw.
  destruct Hw as [->|[->|[->|[->|[->|[->|[->|[->|Hn]]]]]]]]; try (cbn; by intros [= <-]).
  by apply not_elem_of_nil in Hn.
Qed.

(** ** Lines *)

Lemma trim_left_rev_shorter r t p : p <> [] -> r = p ++ t -> trim_left_rev r = trim_left_rev t -> trim_left_rev r <> r.
Proof.
  intros Hp Hr Ht E. rewrite E in Ht. destruct (trimmer_spec _ trim_left_rev_step t) as [_ [q Hq]].
  rewrite <- Ht, Hr in Hq. apply (f_equal length) in Hq. rewrite !length_app in Hq. destruct p; [done|]. cbn in Hq. lia.
Qed.

Lemma trim_left_rev_app r t :
  r <> [] -> trim_left_rev r = r -> trim_left_rev (r ++ Byte.x20 :: t) = r ++ Byte.x20 :: t.
Proof.
  intros Hne Hf. destruct r as [|a r]; [done|].
  assert (ascii_space a = false) as Ea.
  { destruct (ascii_space a) eqn:E; [|done]. exfalso.
    apply (trim_left_rev_shorter (a :: r) r [a]); [done|done|cbn; by rewrite E|done]. }
  destruct r as [|b r].
  { cbn [app trim_left_rev]. rewrite Ea. change (space2 Byte.x20 a) with false. destruct t as [|c t]; [done|].
    assert (space3 c Byte.x20 a = false) as ->; [|done].
    unfold space3. change (u8 Byte.x20) with 32.
    rewrite ?orb_false_iff, ?andb_false_iff, ?Z.eqb_neq, ?Z.leb_gt, ?orb_false_iff, ?Z.eqb_neq. lia. }
  assert (space2 b a = false) as Eb.
  { destruct (space2 b a) eqn:E; [|done]. exfalso.
    apply (trim_left_rev_shorter (a :: b :: r) r [a; b]); [done|done|cbn; by rewrite Ea, E|done]. }
  destruct r as [|c r]; [cbn [app trim_left_rev]; rewrite Ea, Eb; by change (space3 Byte.x20 b a) with false|].
  assert (space3 c b a = false) as Ec.
  { destruct (space3 c b a) eqn:E; [|done]. exfalso.
    apply (trim_left_rev_shorter (a :: b :: c :: r) r [a; b; c]); [done|done|cbn; by rewrite Ea, Eb, E|done]. }
  cbn [app trim_left_rev]. by rewrite Ea, Eb, Ec.
Qed.

Lemma TrimSpace_word u t :
  u <> [] -> forallb GoStrings.plain u = true -> TrimSpace t = t -> t <> [] ->
  TrimSpace ((u ++ [Byte.x20]) ++ t) = (u ++ [Byte.x20]) ++ t.
Proof.
  intros Hu Hpl Ht Hne. unfold TrimSpace.
  assert (trim_left ((u ++ [Byte.x20]) ++ t) = (u ++ [Byte.x20]) ++ t) as ->.
  { apply trim_left_fix. destruct u as [|a u]; [done|]. apply lead_ok_plain. cbn in Hpl. by zbool. }
  unfold trim_right. rewrite !rev_app_distr. cbn [rev app].
  rewrite trim_left_rev_app.
  - rewrite rev_app_distr. cbn [rev]. by rewrite !rev_involutive, <- app_assoc.
  - intros E. apply Hne. apply (f_equal (@rev byte)) in E. by rewrite rev_involutive in E.
  - assert (trim_right t = t) as Hr by (rewrite <- Ht at 1; unfold TrimSpace; rewrite trim_right_idem; exact Ht).
    unfold trim_right in Hr. apply (f_equal (@rev byte)) in Hr. by rewrite rev_involutive in Hr.
Qed.

(** The lines that give a command and its argument. *)
Lemma argument_other w line : take (length w) line <> w -> argument w line = None.
Proof. intros Hne. unfold argument, HasPrefix. by rewrite bool_decide_eq_false_2. Qed.

Lemma argument_this w t : TrimSpace t = t -> argument w (w ++ t) = Some t.
Proof.
  intros Ht. unfold argument. rewrite (proj2 (HasPrefix_spec _ _)) by eauto. by rewrite drop_app_length, Ht.
Qed.

Lemma dispatch_put t : TrimSpace t = t -> t <> [] -> dispatch (bs "put " ++ t) = Run (CmdPut t).
Proof.
  intros Ht Hne. unfold dispatch. pose proof (TrimSpace_word (bs "put") t ltac:(done) ltac:(done) Ht Hne) as Hw.
  change (bs "put" ++ [Byte.x20]) with (bs "put ") in Hw. rewrite Hw. cbv zeta.
  repeat rewrite bool_decide_eq_false_2 by discriminate. cbn [orb words with_argument].
  rewrite (argument_other (bs "find ")) by discriminate. by rewrite argument_this.
Qed.

Lemma dispatch_get t : TrimSpace t = t -> t <> [] -> dispatch (bs "get " ++ t) = Run (CmdGet t).
Proof.
  intros Ht Hne. unfold dispatch. pose proof (TrimSpace_word (bs "get") t ltac:(done) ltac:(done) Ht Hne) as Hw.
  change (bs "get" ++ [Byte.x20]) with (bs "get ") in Hw. rewrite Hw. cbv zeta.
  repeat rewrite bool_decide_eq_false_2 by discriminate. cbn [orb words with_argument].
  rewrite (argument_other (bs "find ")), (argument_other (bs "put ")) by discriminate. by rewrite argument_this.
Qed.

(** Lines typed one after the other. *)
Definition typed (lines : list bytes) : bytes := concat ((fun l => l ++ [Byte.x0a]) <$> lines).

Definition typeable (l : bytes) : Prop :=
  (Byte.x0a ∉ l) /\ HasSuffix l [Byte.x0d] = false /\ (length l < max_token)%nat.

Lemma scan_typed lines : Forall typeable lines -> scan_lines (typed lines) = (lines, false).
Proof.
  unfold scan_lines. intros Hl. induction Hl as [|l lines (Hn & Hr & Hm) Hl IH]; [done|].
  unfold typed. rewrite fmap_cons. cbn [concat]. fold (typed lines). rewrite <- app_assoc. cbn [app].
  rewrite SplitByte_app by done.
  destruct (SplitByte (typed lines) Byte.x0a) as [|x xs] eqn:E; [by apply SplitByte_nonempty in E|].
  cbn [scan_fitting]. rewrite (proj2 (Nat.leb_gt _ _)) by done. cbn [scan_fitting] in IH. rewrite IH.
  unfold drop_cr. by rewrite TrimSuffix_none.
Qed.

Lemma get_typeable k : typeable (bs "get " ++ Hex k).
Proof.
  assert (forall b, b ∈ bs "get " ++ Hex k -> b <> Byte.x0a /\ b <> Byte.x0d) as Hb.
  { intros b [Hb|Hb]%elem_of_app; [|apply hex_encode_digits in Hb as [x Hx]; split; intros ->; done].
    repeat (apply elem_of_cons in Hb as [->|Hb]; [done|]). by apply not_elem_of_nil in Hb. }
  split; [|split].
  - intros Hi. by destruct (Hb _ Hi).
  - apply not_true_is_false. intros [t E]%HasSuffix_spec. destruct (Hb Byte.x0d) as [_ Hn]; [|done].
    rewrite E. set_solver.
  - rewrite length_app, Hex_length. unfold max_token. cbn [length]. apply Nat2Z.inj_lt. rewrite Z2Nat.id by lia. done.
Qed.

(** ** A session *)

Section Sessions.
Context `{GoUnicode} `{Ed25519}.
Context (world : nat -> put_env * net) (clock nanos : nat -> Z).
Context (trusted : option (gset bytes)) (order : gset bytes -> list bytes).
Context (hello : nat -> bytes -> DHT -> option DHT).
Context (hello_ok : forall tick a d d', dht_ok d -> hello tick a d = Some d' ->
  dht_ok d' /\ d_self d' = d_self d /\ same_store d d').
Context (walk : bytes -> option bool * list walk_item) (mem : Z) (h : host) (id : Identity).

#[local] Abbreviation exec_line := (exec_command world clock nanos trusted order hello walk mem h id).
#[local] Abbreviation loop_on := (loop_lines world clock nanos trusted order hello walk mem h id).
#[local] Abbreviation session := (repl world clock nanos trusted order hello walk mem h id).

(** The commands that store nothing of their own. *)
Definition reads (r : request) : bool :=
  match r with
  | Blank => true
  | Quit => false
  | Run (CmdPut _) | Run (CmdPublish _) | Run (CmdFetch _) | Run (CmdRegister _) => false
  | Run _ => true
  end.

Definition has (k : NodeID) (v : bytes) (c : console) : Prop :=
  node_inv (co_node c) /\ node_keeps (co_node c) k v.

Lemma keeps_frame n n' k v :
  node_keeps n k v -> d_blocklist (n_dht n') = d_blocklist (n_dht n) ->
  data (d_store (n_dht n')) = data (d_store (n_dht n)) -> maxBytes (d_store (n_dht n')) = maxBytes (d_store (n_dht n)) ->
  node_keeps n' k v.
Proof. intros (Ha & Hv & Hm & Hb) E1 E2 E3. unfold node_keeps, node_roomy. by rewrite E1, E2, E3. Qed.

Lemma put_keeps t c :
  node_inv (co_node c) -> node_roomy (co_node c) -> t <> [] -> len t <= MaxValueSize ->
  exists reps c', exec_line (CmdPut t) c = Ret (OStored (len t) (Hex (ContentAddress t)) reps, c')
    /\ has (ContentAddress t) t c'.
Proof.
  intros Hi [Hm Hb] Hne Hlen. cbn [Console.exec_command]. unfold runPut, Store, StoreLocal.
  rewrite bool_decide_eq_false_2 by done. rewrite (proj2 (Z.ltb_ge _ _)) by done.
  set (e := env_of world (co_node c)). set (d := n_dht (co_node c)). set (k := ContentAddress t).
  assert (IsBlocked d k = false) as Hbl by (by apply unblocked_key). rewrite Hbl.
  set (d1 := with_store d (Put e (d_store d) k t)). change (IsBlocked d1 k) with (IsBlocked d k). rewrite Hbl.
  destruct (Replicate_frame (net_of world (co_node c)) d1 k t Hi) as (d2 & reps & -> & Hok & Hs & Hb2).
  destruct (Put_unbounded e (d_store d) k t Hm) as [Ed Em].
  assert (data (d_store d2) = <[Hex k := t]> (data (d_store d))) as E1 by (rewrite Hs; exact Ed).
  assert (maxBytes (d_store d2) <= 0) as E2 by (rewrite Hs; change (maxBytes (Put e (d_store d) k t) <= 0); by rewrite Em).
  assert (unblocked (d_blocklist d2)) as E3 by (rewrite Hb2; exact Hb).
  eexists _, _. split; [reflexivity|]. split; [exact Hok|]. split; [exact eq_refl|]. split; [|exact (conj E2 E3)].
  change (data (d_store d2) !! Hex k = Some t). rewrite E1. apply lookup_insert_eq.
Qed.

Lemma get_prints k v c :
  has k v c -> exists c', exec_line (CmdGet (Hex k)) c = Ret (OGot (len v) v, c') /\ has k v c'.
Proof.
  intros [Hi Hk]. cbn [Console.exec_command]. unfold runGet. rewrite IDFromHex_Hex.
  pose proof (get_kept (ReadLaws := node_read_laws world) (co_node c) k v Hi Hk) as Hg.
  pose proof (get_inv (ReadLaws := node_read_laws world) (co_node c) k Hi) as Hgi.
  pose proof (get_keeps (ReadLaws := node_read_laws world) (co_node c) k k v Hi Hk) as Hgk.
  cbn [cs_get node_ContentStore] in *.
  destruct (node_get world (co_node c) k) as [r n]. cbn [fst snd] in *. subst r.
  eexists. split; [done|]. by split.
Qed.

Lemma get_keeps_has k v keyHex c :
  has k v c -> exists o c', exec_line (CmdGet keyHex) c = Ret (o, c') /\ has k v c'.
Proof.
  intros [Hi Hk]. cbn [Console.exec_command]. unfold runGet. destruct (IDFromHex keyHex) as [k'|]; [|by eexists _, _].
  pose proof (get_inv (ReadLaws := node_read_laws world) (co_node c) k' Hi) as Hgi.
  pose proof (get_keeps (ReadLaws := node_read_laws world) (co_node c) k' k v Hi Hk) as Hgk.
  cbn [cs_get node_ContentStore] in *.
  destruct (node_get world (co_node c) k') as [r n]. eexists _, _. split; [reflexivity|]. by split.
Qed.

Lemma find_keeps_has k v a c :
  has k v c -> exists o c', exec_line (CmdFind a) c = Ret (o, c') /\ has k v c'.
Proof.
  intros [Hi Hk]. cbn [Console.exec_command]. unfold runFind. destruct (IDFromHex a) as [t|]; [|by eexists _, _].
  destruct (Lookup_Closest (net_of world (co_node c)) t (n_dht (co_node c)) Hi) as (d' & -> & Hd & _ & _ & Hst & Hbl).
  eexists _, _. split; [reflexivity|]. split; [exact Hd|].
  apply (keeps_frame (co_node c)); [done|exact Hbl|cbn; by rewrite Hst|cbn; by rewrite Hst].
Qed.

Lemma resolve_keeps_has k v a c :
  has k v c -> exists o c', exec_line (CmdResolve a) c = Ret (o, c') /\ has k v c'.
Proof.
  intros [Hi Hk]. cbn [Console.exec_command]. unfold runResolve. case_bool_decide; [by eexists _, _|].
  pose proof (resolve_inv (NameServiceLaws := node_ns_laws world clock trusted order) (co_node c) a Hi) as Hri.
  pose proof (resolve_keeps (NameServiceLaws := node_ns_laws world clock trusted order) (co_node c) a k v Hi Hk) as Hrk.
  cbn [ns_resolve node_NameService] in *.
  destruct (node_resolve world clock trusted order (co_node c) a) as [r n]. eexists _, _. split; [reflexivity|]. by split.
Qed.

Lemma bootstrap_keeps_has k v a c :
  has k v c -> exists o c', exec_line (CmdBootstrap a) c = Ret (o, c') /\ has k v c'.
Proof.
  intros [Hi Hk]. cbn [Console.exec_command]. unfold run_bootstrap.
  destruct (bootstrap_one_for world hello hello_ok (d_self (n_dht (co_node c))) (co_node c) a (conj Hi eq_refl))
    as [[Hi' _] [Hst Hbl]].
  destruct (bootstrap_one world hello (co_node c) a) as [ok n]. cbn [snd] in *.
  eexists _, _. split; [reflexivity|]. split; [exact Hi'|].
  apply (keeps_frame (co_node c)); [done|exact Hbl|cbn; by rewrite Hst|cbn; by rewrite Hst].
Qed.

Lemma reads_keep k v lines more c :
  Forall (fun l => reads (dispatch l) = true) lines -> has k v c ->
  exists os c', has k v c'
    /\ loop_on (lines ++ more) c
       = match loop_on more c' with Panic => Panic | Ret (os', c'') => Ret (os ++ os', c'') end.
Proof.
  intros Hl. revert c. induction Hl as [|l lines Hl _ IH]; intros c Hc.
  { exists [], c. split; [done|]. cbn [app]. by destruct (loop_on more c) as [[]|]. }
  cbn [app Console.loop_lines]. destruct (dispatch l) as [| |cmd] eqn:Ed; [by apply IH|done|].
  assert (exists o c1, exec_line cmd c = Ret (o, c1) /\ has k v c1) as (o & c1 & -> & Hc1).
  { destruct cmd; try discriminate Hl; try (by eexists _, _);
      [by apply find_keeps_has|by apply get_keeps_has|by apply resolve_keeps_has|by apply bootstrap_keeps_has]. }
  destruct (IH c1 Hc1) as (os & c' & Hc' & ->). exists (o :: os), c'. split; [done|].
  by destruct (loop_on more c') as [[]|].
Qed.

(** (main.go, the loop of [main], [runPut], [runGet]): what is put can be got.  On a node
    without a byte budget and with nothing blocked, typing [put <text>], any lines that
    store nothing (lookups, resolutions, chat, counters, even lines that are no command)
    and [get <key>] with the key that [put] printed prints the text again; the text is
    any trimmed line that fits the scanner. *)
Theorem console_put_get (c : console) (t : bytes) (between : list bytes) :
  node_inv (co_node c) -> node_roomy (co_node c) ->
  t <> [] -> TrimSpace t = t -> typeable (bs "put " ++ t) ->
  Forall (fun l => typeable l /\ reads (dispatch l) = true) between ->
  exists reps os c',
    session (typed ([bs "put " ++ t] ++ between ++ [bs "get " ++ Hex (ContentAddress t)])) c
    = Ret ([OStored (len t) (Hex (ContentAddress t)) reps] ++ os ++ [OGot (len t) t], c').
Proof.
  intros Hi Hr Hne Ht Hty Hb. unfold Console.repl. apply Forall_and in Hb as [Hbt Hbr].
  assert (TrimSpace (Hex (ContentAddress t)) = Hex (ContentAddress t)) as Hk.
  { apply TrimSpace_plain. unfold Hex. apply hex_encode_plain. }
  assert (Hex (ContentAddress t) <> []) as Hkn.
  { intros E. apply (f_equal length) in E. by rewrite Hex_length in E. }
  rewrite scan_typed.
  2: { apply Forall_app. split; [by constructor|]. apply Forall_app. split; [done|]. constructor; [|constructor].
       apply get_typeable. }
  cbn [fst app Console.loop_lines]. rewrite dispatch_put by done.
  destruct (put_keeps t c Hi Hr Hne) as (reps & c1 & -> & Hc1).
  { destruct Hty as (_ & _ & Hl). rewrite length_app in Hl. cbn [length] in Hl.
    unfold len, MaxValueSize, max_token in *. lia. }
  destruct (reads_keep (ContentAddress t) t between [bs "get " ++ Hex (ContentAddress t)] c1 Hbr Hc1) as (os & c2 & Hc2 & ->).
  cbn [Console.loop_lines]. rewrite dispatch_get by done.
  destruct (get_prints (ContentAddress t) t c2 Hc2) as (c3 & -> & _).
  exists reps, os, c3. reflexivity.
Qed.

End Sessions.

(** ** Concrete sessions *)

Module ConsoleRuns.

Definition no_walk (dir : bytes) : option bool * list walk_item := (None, []).
Definition clock0 (tick : nat) : Z := 0.
Definition at_carol : console := MkConsole (PeerNode.New alice (bs "127.0.0.1:0")) carol_node ∅.

Definition type_lines (lines : list bytes) : outcome (list output * console) :=
  repl quiet clock0 clock0 None elements UpkeepRuns.no_hello no_walk small_mem open_host alice (typed lines) at_carol.

Definition note : bytes := bs "hello there".
Definition chatter : list bytes := [bs "  dht "; bs "good morning"; []].

Lemma note_trimmed : TrimSpace note = note.
Proof. by vm_compute. Qed.

Lemma typeable_decide l :
  bool_decide (Byte.x0a ∈ l) = false -> HasSuffix l [Byte.x0d] = false -> (length l <? 100)%nat = true -> typeable l.
Proof.
  intros H1 H2 H3. split; [by apply (bool_decide_eq_false_1 _) in H1|]. split; [done|].
  apply Nat.ltb_lt in H3. assert (100 < max_token)%nat; [|lia]. unfold max_token.
  apply Nat2Z.inj_lt. rewrite Z2Nat.id by lia. done.
Qed.

Lemma note_typeable : typeable (bs "put " ++ note).
Proof. apply typeable_decide; by vm_compute. Qed.

Lemma chatter_reads : Forall (fun l => typeable l /\ reads (dispatch l) = true) chatter.
Proof.
  assert (forall l, bool_decide (Byte.x0a ∈ l) = false -> HasSuffix l [Byte.x0d] = false ->
    (length l <? 100)%nat = true -> reads (dispatch l) = true -> typeable l /\ reads (dispatch l) = true) as Hl
    by (intros l H1 H2 H3 H4; split; [by apply typeable_decide|exact H4]).
  unfold chatter. repeat (apply Forall_cons; split; [apply Hl; by vm_compute|]). apply Forall_nil_2.
Qed.

Lemma console_put_get_witness :
  exists reps os c',
    type_lines ([bs "put " ++ note] ++ chatter ++ [bs "get " ++ Hex (ContentAddress note)])
    = Ret ([OStored (len note) (Hex (ContentAddress note)) reps] ++ os ++ [OGot (len note) note], c').
Proof.
  exact (console_put_get quiet clock0 clock0 None elements UpkeepRuns.no_hello UpkeepRuns.no_hello_ok no_walk small_mem open_host alice at_carol note
    chatter carol_inv carol_roomy ltac:(discriminate) note_trimmed note_typeable chatter_reads).
Defined.

(** A command word alone is no command: the trimmed line has lost the space the case
    asks for, and the word goes out as a chat message. *)
Example bare_put_is_chat : dispatch (bs "put ") = Run (CmdChat (bs "put")).
Proof. by vm_compute. Qed.

(** A line that does not fit the scanner ends the session, with what follows unread. *)
Lemma long_line_ends rest : (scan_lines (replicate max_token Byte.x61 ++ Byte.x0a :: rest)).1 = [].
Proof.
  unfold scan_lines. rewrite SplitByte_app.
  - cbn [scan_fitting]. destruct (SplitByte rest Byte.x0a) as [|x xs] eqn:E; [by apply SplitByte_nonempty in E|].
    by rewrite length_replicate, Nat.leb_refl.
  - intros [Hb _]%elem_of_replicate. done.
Qed.

End ConsoleRuns.
