(* ===== verification/RateLimit.v ===== *)
(** * The token-bucket rate limiters (apps/gateway/ratelimit.go, apps/dns/ratelimit.go)

    Both limiters are the same code, once for HTTP and once for UDP.  Tokens are
    counted in units of a thousand-millionth, so that the refill of an integer
    rate over a number of nanoseconds is an integer: the model computes exactly
    where the source rounds to a [float64]. *)

From S2P Require Import Prelude.

Record bucket := MkBucket { b_tokens : Z; b_lastSeen : Time }.

Record ipRateLimiter := MkLimiter {
  l_rate : Z;                         (* tokens per second *)
  l_burst : Z;
  l_buckets : gmap bytes bucket;
  l_lastSweep : Time
}.

(** One token. *)
Definition token : Z := Second.

Definition newIPRateLimiter (rate burst : Z) (now : Time) : ipRateLimiter :=
  MkLimiter rate burst ∅ now.

Definition gc (buckets : gmap bytes bucket) (now : Time) : gmap bytes bucket :=
  filter (fun kb => ~ (5 * Minute < now - b_lastSeen (snd kb))) buckets.

Definition sweep (l : ipRateLimiter) (now : Time) : ipRateLimiter :=
  if 30 * Second <? now - l_lastSweep l
  then MkLimiter (l_rate l) (l_burst l) (gc (l_buckets l) now) now
  else l.

(** The bucket with the tokens it has at [now]. *)
Definition refill (l : ipRateLimiter) (b : bucket) (now : Time) : Z :=
  let tokens := b_tokens b + (now - b_lastSeen b) * l_rate l in
  if l_burst l * token <? tokens then l_burst l * token else tokens.

(** [now] is read before the mutex is taken, so it may be older than what the
    limiter has seen. *)
Definition allow (l : ipRateLimiter) (ip : bytes) (now : Time) : ipRateLimiter * bool :=
  let l := sweep l now in
  let b := default (MkBucket (l_burst l * token) now) (l_buckets l !! ip) in
  let tokens := refill l b now in
  let '(tokens, ok) := if token <=? tokens then (tokens - token, true) else (tokens, false) in
  (MkLimiter (l_rate l) (l_burst l) (<[ip := MkBucket tokens now]> (l_buckets l)) (l_lastSweep l), ok).

(** The limiter of the resolver. *)
Definition newUDPRateLimiter (qps burst : Z) (now : Time) : ipRateLimiter :=
  newIPRateLimiter qps burst now.

Definition udp_allow (l : ipRateLimiter) (ip : bytes) (now : Time) : ipRateLimiter * bool :=
  allow l ip now.

(** * Facts *)

(** A sequence of requests, each with its source and its reading of the clock:
    the limiter afterwards and the answers. *)
Fixpoint requests (l : ipRateLimiter) (reqs : list (bytes * Time)) : ipRateLimiter * list bool :=
  match reqs with
  | [] => (l, [])
  | (ip, now) :: reqs =>
      let '(l, ok) := allow l ip now in
      let '(l, oks) := requests l reqs in
      (l, ok :: oks)
  end.

(** How many requests of [ip] were let through. *)
Fixpoint admitted_from (ip : bytes) (reqs : list (bytes * Time)) (oks : list bool) : Z :=
  match reqs, oks with
  | (a, _) :: reqs, ok :: oks =>
      (if bool_decide (a = ip) && ok then 1 else 0) + admitted_from ip reqs oks
  | _, _ => 0
  end.

Fixpoint ordered (t : Time) (reqs : list (bytes * Time)) : Prop :=
  match reqs with [] => True | (_, now) :: reqs => t <= now /\ ordered now reqs end.

Definition last_time (t : Time) (reqs : list (bytes * Time)) : Time := default t (snd <$> last reqs).

(** What [ip] could spend at time [t]. *)
Definition credit (l : ipRateLimiter) (ip : bytes) (t : Time) : Z :=
  match l_buckets l !! ip with
  | None => l_burst l * token
  | Some b => refill l b t
  end.

Definition limiter_ok (l : ipRateLimiter) (t : Time) : Prop :=
  0 <= l_rate l /\ 0 <= l_burst l
  /\ forall ip b, l_buckets l !! ip = Some b -> 0 <= b_tokens b /\ b_lastSeen b <= t.

Lemma refill_range l b t :
  0 <= l_rate l -> 0 <= l_burst l -> 0 <= b_tokens b -> b_lastSeen b <= t ->
  0 <= refill l b t <= l_burst l * token.
Proof.
  intros Hr Hb Ht Hs. unfold refill. unfold token, Second in *.
  destruct (Z.ltb_spec (l_burst l * 1000000000) (b_tokens b + (t - b_lastSeen b) * l_rate l)); nia.
Qed.

Lemma refill_later l b t t' :
  0 <= l_rate l -> t <= t' -> refill l b t' <= refill l b t + (t' - t) * l_rate l.
Proof.
  intros Hr Ht. unfold refill. repeat case_match; zbool; nia.
Qed.

Lemma sweep_fields l now :
  l_rate (sweep l now) = l_rate l /\ l_burst (sweep l now) = l_burst l
  /\ (l_buckets (sweep l now) = l_buckets l \/ l_buckets (sweep l now) = gc (l_buckets l) now).
Proof. unfold sweep. destruct (_ <? _); simpl; auto. Qed.

Lemma gc_lookup m now ip b :
  gc m now !! ip = Some b <-> m !! ip = Some b /\ now - b_lastSeen b <= 5 * Minute.
Proof. unfold gc. rewrite map_lookup_filter_Some. simpl. split; intros [? ?]; split; (done || lia). Qed.

Lemma sweep_ok l t now : limiter_ok l t -> t <= now -> limiter_ok (sweep l now) now.
Proof.
  intros (Hr & Hb & Hm) Ht. destruct (sweep_fields l now) as (E1 & E2 & E3). unfold limiter_ok.
  rewrite E1, E2. split_and!; [done|done|]. intros ip b Hl.
  assert (l_buckets l !! ip = Some b) as Hl'.
  { destruct E3 as [E3|E3]; rewrite E3 in Hl; [done|by apply gc_lookup in Hl as [? _]]. }
  destruct (Hm ip b Hl'). split; [done|lia].
Qed.

(** Forgetting an idle bucket gives its owner nothing: five minutes fill it. *)
Lemma sweep_credit l t now ip :
  limiter_ok l t -> t <= now -> l_burst l <= 300 * l_rate l ->
  credit (sweep l now) ip now <= credit l ip now.
Proof.
  intros (Hr & Hb & Hm) Ht Hslow. destruct (sweep_fields l now) as (E1 & E2 & E3). unfold credit, refill.
  rewrite E1, E2. destruct E3 as [-> | ->]; [done|].
  destruct (l_buckets l !! ip) as [b|] eqn:Hl.
  - destruct (gc (l_buckets l) now !! ip) as [b'|] eqn:Hg.
    { apply gc_lookup in Hg as [Hg _]. assert (b' = b) as -> by congruence. done. }
    assert (5 * Minute < now - b_lastSeen b) as Hidle.
    { destruct (Z.le_gt_cases (now - b_lastSeen b) (5 * Minute)); [|lia].
      assert (gc (l_buckets l) now !! ip = Some b) by by apply gc_lookup. congruence. }
    destruct (Hm ip b Hl). unfold Minute, token, Second in *. case_match; zbool; nia.
  - destruct (gc (l_buckets l) now !! ip) as [b'|] eqn:Hg; [|done].
    apply gc_lookup in Hg as [Hg _]. congruence.
Qed.

Lemma credit_later l ip t t' :
  0 <= l_rate l -> t <= t' -> credit l ip t' <= credit l ip t + (t' - t) * l_rate l.
Proof. intros Hr Ht. unfold credit. destruct (l_buckets l !! ip); [by apply refill_later|nia]. Qed.

(** One request moves the credit of [ip]: by the time that passed, and by one
    token if it was let through; nobody else's request costs [ip] anything. *)
Lemma allow_credit l t ip a now :
  limiter_ok l t -> t <= now -> l_burst l <= 300 * l_rate l ->
  let '(l', ok) := allow l a now in
  limiter_ok l' now /\ l_rate l' = l_rate l /\ l_burst l' = l_burst l
  /\ credit l' ip now + (if bool_decide (a = ip) && ok then token else 0) <= credit l ip now.
Proof.
  intros Hl Ht Hslow. pose proof (sweep_ok l t now Hl Ht) as Hok.
  pose proof (sweep_credit l t now ip Hl Ht Hslow) as Hc.
  destruct (sweep_fields l now) as (E1 & E2 & _). destruct Hok as (Hr & Hb & Hm).
  unfold allow. cbv zeta. rewrite <- E1, <- E2. set (s := sweep l now) in *.
  set (b := default _ (l_buckets s !! a)).
  assert (0 <= b_tokens b /\ b_lastSeen b <= now) as [Hb1 Hb2].
  { unfold b. destruct (l_buckets s !! a) as [x|] eqn:E; simpl; [by apply (Hm a)|].
    unfold token, Second. lia. }
  pose proof (refill_range s b now Hr Hb Hb1 Hb2) as [Hf1 Hf2].
  assert (credit s a now = refill s b now) as Hca.
  { unfold credit, b, refill. destruct (l_buckets s !! a); simpl; [done|].
    rewrite Z.sub_diag, Z.mul_0_l, Z.add_0_r, Z.ltb_irrefl. done. }
  set (f := refill s b now) in *.
  assert (forall x ok, 0 <= x <= f -> x + (if ok : bool then token else 0) = f ->
    limiter_ok (MkLimiter (l_rate s) (l_burst s) (<[a := MkBucket x now]> (l_buckets s)) (l_lastSweep s)) now
    /\ credit (MkLimiter (l_rate s) (l_burst s) (<[a := MkBucket x now]> (l_buckets s)) (l_lastSweep s)) ip now
       + (if bool_decide (a = ip) && ok then token else 0) <= credit l ip now) as Hfin.
  { intros x ok Hx He. split.
    - split_and!; [done|done|]. simpl. intros ip' b' [[<- <-]|[_ Hl']]%lookup_insert_Some; [simpl; lia|].
      by apply (Hm ip').
    - destruct (bool_decide (a = ip)) eqn:Ea; zbool; [subst a|]; cbn [andb].
      + unfold credit at 1. cbn [l_buckets]. rewrite lookup_insert_eq. unfold refill.
        cbn [l_rate l_burst b_tokens b_lastSeen]. rewrite Z.sub_diag, Z.mul_0_l, Z.add_0_r.
        rewrite (proj2 (Z.ltb_ge _ _)) by lia. lia.
      + unfold credit at 1. cbn [l_buckets]. rewrite lookup_insert_ne by done.
        unfold credit at 1 in Hc. rewrite Z.add_0_r. exact Hc. }
  destruct (Z.leb_spec token f) as [Hle|Hle].
  - destruct (Hfin (f - token) true) as [H1 H2]; [unfold token, Second in *; lia|lia|]. by split_and!.
  - destruct (Hfin f false) as [H1 H2]; [lia|lia|]. by split_and!.
Qed.

Lemma requests_credit l t ip reqs :
  limiter_ok l t -> ordered t reqs -> l_burst l <= 300 * l_rate l ->
  let '(l', oks) := requests l reqs in
  limiter_ok l' (last_time t reqs)
  /\ credit l' ip (last_time t reqs) + token * admitted_from ip reqs oks
     <= credit l ip t + (last_time t reqs - t) * l_rate l.
Proof.
  revert l t. induction reqs as [|[a now] reqs IH]; intros l t Hl Ho Hs; cbn [requests].
  { unfold last_time. simpl. split; [done|lia]. }
  destruct Ho as [Ht Ho]. pose proof (allow_credit l t ip a now Hl Ht Hs) as Ha.
  pose proof (credit_later l ip t now (proj1 Hl) Ht) as Hc.
  destruct (allow l a now) as [l1 ok]. destruct Ha as (Hl1 & E1 & E2 & Ha).
  specialize (IH l1 now Hl1 Ho). rewrite E1, E2 in IH. specialize (IH Hs).
  destruct (requests l1 reqs) as [l2 oks]. destruct IH as [Hl2 IH].
  assert (last_time t ((a, now) :: reqs) = last_time now reqs) as ->.
  { unfold last_time. destruct reqs as [|r reqs]; [done|]. change (last ((a, now) :: r :: reqs)) with (last (r :: reqs)).
    destruct (last (r :: reqs)) eqn:E; [done|]. by apply last_None in E. }
  split; [done|]. cbn [admitted_from]. destruct (bool_decide (a = ip) && ok); lia.
Qed.

(** (apps/gateway/ratelimit.go and apps/dns/ratelimit.go, [allow], [gc]): over any
    interleaving of requests from any sources, in the order of their clock
    readings, a source gets at most [burst] requests through plus [rate] for every
    second that passed, buckets forgotten by the sweep included, as long as five
    minutes refill a bucket. *)
Theorem rate_limited (rate burst : Z) (start : Time) (reqs : list (bytes * Time)) (ip : bytes) :
  0 <= rate -> 0 <= burst <= 300 * rate -> ordered start reqs ->
  let oks := snd (requests (newIPRateLimiter rate burst start) reqs) in
  token * admitted_from ip reqs oks <= token * burst + (last_time start reqs - start) * rate.
Proof.
  intros Hr Hb Ho. set (l := newIPRateLimiter rate burst start).
  assert (limiter_ok l start) as Hl by (split_and!; simpl; [done|lia|by intros]).
  pose proof (requests_credit l start ip reqs Hl Ho (proj2 Hb)) as Hq.
  destruct (requests l reqs) as [l' oks]. destruct Hq as [Hl' Hq]. simpl.
  assert (0 <= credit l' ip (last_time start reqs)) as Hc.
  { destruct Hl' as (H1 & H2 & H3). unfold credit. destruct (l_buckets l' !! ip) as [b|] eqn:E.
    - destruct (H3 ip b E). by apply refill_range.
    - unfold token, Second. nia. }
  assert (credit l ip start = burst * token) as E by done. rewrite E in Hq. simpl in Hq. lia.
Qed.

(** (the same functions): a source whose bucket is that of a fresh limiter or has
    had [1 / rate] seconds since its last request is let through, whatever the
    other sources did. *)
Theorem rate_limiter_live (l : ipRateLimiter) (ip : bytes) (t now : Time) :
  limiter_ok l t -> t <= now -> 1 <= l_burst l ->
  match l_buckets l !! ip with
  | None => snd (allow l ip now) = true
  | Some b => token <= (now - b_lastSeen b) * l_rate l -> snd (allow l ip now) = true
  end.
Proof.
  intros Hl Ht Hb. pose proof (sweep_ok l t now Hl Ht) as (Hr & _ & Hm).
  destruct (sweep_fields l now) as (E1 & E2 & E3). unfold allow. cbv zeta.
  set (s := sweep l now) in *.
  assert (token <= l_burst s * token) as Hbt by (rewrite E2; unfold token, Second; lia).
  assert (forall x, l_buckets s !! ip = None -> x = default (MkBucket (l_burst s * token) now) (l_buckets s !! ip) ->
    token <= refill s x now) as Hnew.
  { intros x E ->. rewrite E. unfold refill. simpl. rewrite Z.sub_diag. case_match; zbool; lia. }
  destruct (l_buckets l !! ip) as [b|] eqn:El.
  - intros Hgap. set (x := default _ (l_buckets s !! ip)).
    assert (token <= refill s x now) as Hf.
    { destruct (l_buckets s !! ip) as [b'|] eqn:Es; [|by apply Hnew].
      assert (b' = b) as -> by (destruct E3 as [E3|E3]; rewrite E3 in Es;
        [congruence|apply gc_lookup in Es as [? _]; congruence]).
      subst x. simpl. destruct (Hm ip b Es). unfold refill. rewrite E1 in *. case_match; zbool; nia. }
    rewrite (proj2 (Z.leb_le _ _) Hf). done.
  - assert (l_buckets s !! ip = None) as Es.
    { destruct E3 as [-> | ->]; [done|]. destruct (gc (l_buckets l) now !! ip) eqn:E; [|done].
      apply gc_lookup in E as [? _]. congruence. }
    rewrite (proj2 (Z.leb_le _ _) (Hnew _ Es eq_refl)). done.
Qed.

(** ** Concrete runs *)

Definition flood : list (bytes * Time) := (fun i => (bs "10.0.0.7", Z.of_nat i)) <$> seq 0 5.

Lemma rate_limited_witness :
  let oks := snd (requests (newIPRateLimiter 1 2 0) flood) in
  oks = [true; true; false; false; false]
  /\ token * admitted_from (bs "10.0.0.7") flood oks <= token * 2 + (last_time 0 flood - 0) * 1.
Proof.
  split; [by vm_compute|]. apply (rate_limited 1 2 0 flood (bs "10.0.0.7")); [lia|lia|].
  unfold flood. simpl. lia.
Defined.

Lemma rate_limiter_live_witness :
  snd (allow (newIPRateLimiter 50 100 0) (bs "10.0.0.7") 5) = true.
Proof.
  apply (rate_limiter_live (newIPRateLimiter 50 100 0) (bs "10.0.0.7") 0 5); [|lia|simpl; lia].
  split_and!; simpl; [lia|lia|]. intros ip b Hb. by rewrite lookup_empty in Hb.
Defined.
