(* ===== verification/SiteStats.v ===== *)
(** * Per-site statistics (apps/sitestats/sitestats.go)

    The counters the gateway writes and the registrar reads, against a
    specification: the list of recorded requests.  The two sides see the
    registry through the interfaces [Recorder] and [Reader]; [Forget] is the
    capability the registrar looks for with a type assertion. *)

From S2P Require Import Prelude.

Record Snapshot := MkSnapshot {
  sn_Name : bytes; sn_Requests : Z; sn_Bytes : Z; sn_UniqueIPs : nat; sn_LastSeenUnix : Z
}.

Record SiteCounter := MkCounter { c_requests : Z; c_bytes : Z; c_lastSeen : Z; c_ips : gset bytes }.

Record Stats := MkStats { maxIPsPerSite : nat; sites : gmap bytes SiteCounter }.

Definition New : Stats := MkStats (Z.to_nat 10000) ∅.

Definition new_counter : SiteCounter := MkCounter 0 0 0 ∅.

(** [Record] at Unix time [now]. *)
Definition stats_Record (s : Stats) (now : Z) (name remoteIP : bytes) (bytesServed : Z) : Stats :=
  if bool_decide (name = []) then s else
  let c := default new_counter (sites s !! name) in
  let ips := if negb (bool_decide (remoteIP = [])) && (size (c_ips c) <? maxIPsPerSite s)%nat
             then {[remoteIP]} ∪ c_ips c else c_ips c in
  MkStats (maxIPsPerSite s)
    (<[name := MkCounter (int64 (c_requests c + 1)) (int64 (c_bytes c + bytesServed)) now ips]> (sites s)).

Definition snapshot (name : bytes) (c : SiteCounter) : Snapshot :=
  MkSnapshot name (c_requests c) (c_bytes c) (size (c_ips c)) (c_lastSeen c).

Definition Get (s : Stats) (name : bytes) : Snapshot :=
  match sites s !! name with
  | None => MkSnapshot name 0 0 0 0
  | Some c => snapshot name c
  end.

(** In the order Go ranges over the map, which is not specified: as a set of pairs. *)
Definition All (s : Stats) : list Snapshot := (fun kv => snapshot kv.1 kv.2) <$> map_to_list (sites s).

Definition Forget (s : Stats) (name : bytes) : Stats := MkStats (maxIPsPerSite s) (delete name (sites s)).

(** ** The specification: the requests themselves *)

Inductive op :=
| ORecord (now : Z) (name remoteIP : bytes) (served : Z)
| OForget (name : bytes).

Definition exec (s : Stats) (o : op) : Stats :=
  match o with
  | ORecord now name ip n => stats_Record s now name ip n
  | OForget name => Forget s name
  end.

(** The requests for a site since it was last forgotten, in order. *)
Definition requests (name : bytes) (ops : list op) : list (Z * bytes * Z) :=
  foldl (fun l o => match o with
                    | ORecord now n ip served => if bool_decide (n = name) then l ++ [(now, ip, served)] else l
                    | OForget n => if bool_decide (n = name) then [] else l
                    end) [] ops.

Definition total (l : list (Z * bytes * Z)) : Z := foldr (fun r n => r.2 + n) 0 l.

(** The distinct addresses, as many as are kept. *)
Definition seen_ips (max : nat) (l : list (Z * bytes * Z)) : gset bytes :=
  foldl (fun ips r => if negb (bool_decide (r.1.2 = [])) && (size ips <? max)%nat then {[r.1.2]} ∪ ips else ips) ∅ l.

Definition spec (max : nat) (name : bytes) (l : list (Z * bytes * Z)) : Snapshot :=
  MkSnapshot name (int64 (Z.of_nat (length l))) (int64 (total l)) (size (seen_ips max l))
    (default 0 ((fun r => r.1.1) <$> last l)).

(** The counter that a list of requests leaves. *)
Definition counts (max : nat) (l : list (Z * bytes * Z)) (c : SiteCounter) : Prop :=
  c_requests c = int64 (Z.of_nat (length l)) /\ c_bytes c = int64 (total l)
  /\ c_ips c = seen_ips max l /\ c_lastSeen c = default 0 ((fun r => r.1.1) <$> last l).

Definition refines (max : nat) (s : Stats) (ops : list op) : Prop :=
  maxIPsPerSite s = max
  /\ forall name, name <> [] ->
       match sites s !! name with
       | Some c => requests name ops <> [] /\ counts max (requests name ops) c
       | None => requests name ops = []
       end.

Lemma int64_add a b : int64 (int64 a + b) = int64 (a + b).
Proof.
  unfold int64. f_equal.
  replace ((a + 2 ^ 63) mod 2 ^ 64 - 2 ^ 63 + b + 2 ^ 63) with ((a + 2 ^ 63) mod 2 ^ 64 + b) by lia.
  rewrite Zplus_mod_idemp_l. f_equal. lia.
Qed.

Lemma total_snoc l r : total (l ++ [r]) = total l + r.2.
Proof. unfold total. induction l; simpl; lia. Qed.

Lemma counts_record max l c now ip served ips :
  counts max l c ->
  ips = (if negb (bool_decide (ip = [])) && (size (c_ips c) <? max)%nat then {[ip]} ∪ c_ips c else c_ips c) ->
  counts max (l ++ [(now, ip, served)])
    (MkCounter (int64 (c_requests c + 1)) (int64 (c_bytes c + served)) now ips).
Proof.
  intros (Hr & Hb & Hi & _) Hips. unfold counts. cbn [c_requests c_bytes c_ips c_lastSeen]. split_and!.
  - rewrite Hr, int64_add, length_app. f_equal. simpl. lia.
  - rewrite Hb, int64_add, total_snoc. done.
  - unfold seen_ips. rewrite foldl_snoc. fold (seen_ips max l). by rewrite <- Hi.
  - by rewrite last_snoc.
Qed.

Lemma counts_new max : counts max [] new_counter.
Proof. by split_and!. Qed.

Lemma requests_snoc name ops o :
  requests name (ops ++ [o])
  = match o with
    | ORecord now n ip served =>
        if bool_decide (n = name) then requests name ops ++ [(now, ip, served)] else requests name ops
    | OForget n => if bool_decide (n = name) then [] else requests name ops
    end.
Proof. unfold requests. by rewrite foldl_snoc. Qed.

Lemma exec_refines max s ops o : refines max s ops -> refines max (exec s o) (ops ++ [o]).
Proof.
  intros [Hm Hs]. destruct o as [now n ip served|n]; unfold exec.
  - unfold stats_Record. destruct (bool_decide (n = [])) eqn:En; zbool.
    { split; [done|]. intros name Hname. rewrite requests_snoc, bool_decide_eq_false_2 by congruence. by apply Hs. }
    split; [done|]. intros name Hname. cbn [sites]. rewrite requests_snoc.
    destruct (decide (n = name)) as [->|Hne].
    + rewrite lookup_insert_eq, bool_decide_eq_true_2 by done. split; [by destruct (requests name ops)|].
      apply counts_record; [|by rewrite Hm]. specialize (Hs name En).
      destruct (sites s !! name) as [c|]; [by destruct Hs|]. simpl. rewrite Hs. apply counts_new.
    + rewrite lookup_insert_ne, bool_decide_eq_false_2 by done. by apply Hs.
  - split; [done|]. intros name Hname. unfold Forget. cbn [sites]. rewrite requests_snoc.
    destruct (decide (n = name)) as [->|Hne].
    + by rewrite lookup_delete_eq, bool_decide_eq_true_2.
    + rewrite lookup_delete_ne, bool_decide_eq_false_2 by done. by apply Hs.
Qed.

Lemma run_refines ops : refines (Z.to_nat 10000) (foldl exec New ops) ops.
Proof.
  induction ops as [|o ops IH] using rev_ind; [by split|].
  rewrite foldl_snoc. by apply exec_refines.
Qed.

Lemma refines_get max s ops name : refines max s ops -> name <> [] -> Get s name = spec max name (requests name ops).
Proof.
  intros [_ Hs] Hn. specialize (Hs name Hn). unfold Get, spec.
  destruct (sites s !! name) as [c|]; [|by rewrite Hs].
  destruct Hs as [_ (Hr & Hb & Hi & Hl)]. unfold snapshot. by rewrite Hr, Hb, Hi, Hl.
Qed.

Lemma seen_ips_snoc max l r :
  seen_ips max (l ++ [r])
  = if negb (bool_decide (r.1.2 = [])) && (size (seen_ips max l) <? max)%nat
    then {[r.1.2]} ∪ seen_ips max l else seen_ips max l.
Proof. unfold seen_ips. by rewrite foldl_snoc. Qed.

Lemma size_add (x : bytes) (X : gset bytes) : (size ({[x]} ∪ X) <= S (size X))%nat.
Proof.
  rewrite size_union_alt, size_singleton.
  assert (size (X ∖ {[x]}) <= size X)%nat by (apply subseteq_size; set_solver). lia.
Qed.

Lemma seen_ips_size max l : (size (seen_ips max l) <= Nat.min max (length l))%nat.
Proof.
  induction l as [|r l IH] using rev_ind.
  { change (size (∅ : gset bytes) <= Nat.min max 0)%nat. rewrite size_empty. lia. }
  rewrite seen_ips_snoc, length_app. cbn [length]. pose proof (size_add r.1.2 (seen_ips max l)).
  destruct (negb _ && _) eqn:E; zbool; lia.
Qed.

(** While fewer than [max] addresses have been seen, the count of distinct ones is exact. *)
Lemma seen_ips_exact max l :
  (length l <= max)%nat ->
  seen_ips max l = list_to_set (filter (fun ip => ip <> []) ((fun r => r.1.2) <$> l)).
Proof.
  induction l as [|r l IH] using rev_ind; intros Hl; [done|].
  rewrite length_app in Hl. simpl in Hl. specialize (IH ltac:(lia)). rewrite seen_ips_snoc.
  pose proof (seen_ips_size max l).
  rewrite (proj2 (Nat.ltb_lt _ _)), andb_true_r by lia.
  rewrite fmap_app, filter_app, list_to_set_app_L, <- IH. cbn [fmap list_fmap].
  case_bool_decide as Hip; simpl.
  - rewrite filter_cons_False by tauto. simpl. set_solver.
  - rewrite filter_cons_True by done. simpl. set_solver.
Qed.

(** C37 (sitestats.go, [Record], [Get], [Forget]): the counters implement the log of
    requests.  After any sequence of records and forgets, what [Get] reports for a
    site is what its requests since it was last forgotten come to: their number
    and the sum of their bytes (as 64-bit integers), the time of the last one, and
    the number of distinct addresses among them, exact as long as there are no
    more requests than the bound of 10,000 and never above it. *)
Theorem stats_refine_log (ops : list op) (name : bytes) :
  name <> [] ->
  let log := requests name ops in
  let snap := Get (foldl exec New ops) name in
  snap = spec (Z.to_nat 10000) name log
  /\ (sn_UniqueIPs snap <= Z.to_nat 10000)%nat
  /\ ((length log <= Z.to_nat 10000)%nat ->
      sn_UniqueIPs snap = size (list_to_set (filter (fun ip => ip <> []) ((fun r => r.1.2) <$> log)) : gset bytes)).
Proof.
  intros Hn log snap.
  assert (snap = spec (Z.to_nat 10000) name log) as -> by (apply refines_get; [apply run_refines|done]).
  split_and!; [done| |].
  - unfold spec. cbn [sn_UniqueIPs]. pose proof (seen_ips_size (Z.to_nat 10000) log). lia.
  - intros Hl. unfold spec. cbn [sn_UniqueIPs]. by rewrite seen_ips_exact.
Qed.

(** The sites listed are those with requests. *)
Lemma All_spec (s : Stats) (sn : Snapshot) :
  sn ∈ All s <-> exists name, is_Some (sites s !! name) /\ sn = Get s name.
Proof.
  unfold All. rewrite list_elem_of_fmap. split.
  - intros ([name c] & -> & Hin). apply elem_of_map_to_list in Hin. exists name. unfold Get.
    rewrite Hin. eauto.
  - intros (name & [c Hc] & ->). exists (name, c). unfold Get. rewrite Hc.
    split; [done|]. by apply elem_of_map_to_list.
Qed.

Lemma stats_refine_log_witness :
  let ops := [ORecord 1 (bs "a.alt") (bs "10.0.0.1") 5; OForget (bs "a.alt");
              ORecord 2 (bs "a.alt") (bs "10.0.0.1") 7; ORecord 3 (bs "a.alt") (bs "10.0.0.1") 8] in
  Get (foldl exec New ops) (bs "a.alt") = spec (Z.to_nat 10000) (bs "a.alt") (requests (bs "a.alt") ops).
Proof. intros ops. apply (stats_refine_log ops (bs "a.alt")). done. Defined.
