(* ===== verification/Registry.v ===== *)
(** * The registrar's registry and its file (apps/registrar/registrar.go)

    The records of the registered domains, the map that holds them, and how the
    map is written to and read from registrar.json.  A Go map of pointers is kept
    as it is: the map may be nil and an entry may be a nil pointer, which is what
    reading a hand-edited file can give. *)

From S2P Require Import Prelude GoStrings Encoding Json JsonIndent Sha256 Crypto Peer.

Record RegistrationRecord := MkReg {
  g_Name : bytes;
  g_Root : bytes;
  g_Owner : bytes;
  g_RegisteredAt : Z;
  g_UpdatedAt : Z;
  g_Version : Z
}.

#[global] Instance RegistrationRecord_eq_dec : EqDecision RegistrationRecord.
Proof. solve_decision. Defined.

#[global] Instance RegistrationRecord_codec : Codec RegistrationRecord := {|
  to_json r := JObj
    [(bs "name", JStr (g_Name r)); (bs "root", JStr (g_Root r)); (bs "owner", JStr (g_Owner r));
     (bs "registered_at", JInt (g_RegisteredAt r)); (bs "updated_at", JInt (g_UpdatedAt r));
     (bs "version", JInt (g_Version r))];
  zero_value := MkReg [] [] [] 0 0 0;
  set_field k j r :=
    let '(MkReg n root o ra ua v) := r in
    if key_is k "name" then (fun n => MkReg n root o ra ua v) <$> dec_string j n
    else if key_is k "root" then (fun root => MkReg n root o ra ua v) <$> dec_string j root
    else if key_is k "owner" then (fun o => MkReg n root o ra ua v) <$> dec_string j o
    else if key_is k "registered_at" then (fun ra => MkReg n root o ra ua v) <$> dec_int64 j ra
    else if key_is k "updated_at" then (fun ua => MkReg n root o ra ua v) <$> dec_int64 j ua
    else if key_is k "version" then (fun v => MkReg n root o ra ua v) <$> dec_int64 j v
    else Some r
|}.

(** [map[string]*RegistrationRecord] *)
Abbreviation registry_map := (gmap bytes (option RegistrationRecord)).

(** A nil map is [None]. *)
Abbreviation go_registry := (option registry_map).

(** Reading a nil map finds nothing; writing to one panics. *)
Definition map_lookup (m : go_registry) (k : bytes) : option (option RegistrationRecord) :=
  match m with None => None | Some m => m !! k end.

Definition map_assign (m : go_registry) (k : bytes) (r : RegistrationRecord) : outcome go_registry :=
  match m with None => Panic | Some m => Ret (Some (<[k := Some r]> m)) end.

Definition map_delete (m : go_registry) (k : bytes) : go_registry := delete k <$> m.

(** ** The file *)

Definition pair_le (a b : bytes * option RegistrationRecord) : Prop := bytes_le (fst a) (fst b).

#[global] Instance pair_le_dec : RelDecision pair_le.
Proof. intros a b. unfold pair_le. apply _. Defined.

(** The entries in the order encoding/json writes a map. *)
Definition sorted_entries (m : registry_map) : list (bytes * option RegistrationRecord) :=
  merge_sort pair_le (map_to_list m).

Definition pointer_json (r : option RegistrationRecord) : json :=
  match r with None => JNull | Some r => to_json r end.

Definition registry_json (m : go_registry) : json :=
  match m with
  | None => JNull
  | Some m => JObj ((fun kv => (kv.1, pointer_json kv.2)) <$> sorted_entries m)
  end.

(** A member of the map: a null is a nil pointer, an object a new record. *)
Definition dec_pointer (j : json) : option (option RegistrationRecord) :=
  match j with
  | JNull => Some None
  | _ => Some <$> dec_struct set_field j zero_value
  end.

Fixpoint dec_entries (l : list (bytes * json)) (m : registry_map) : option registry_map :=
  match l with
  | [] => Some m
  | (k, j) :: l => match dec_pointer j with Some r => dec_entries l (<[k := r]> m) | None => None end
  end.

(** Into a nil [map[string]*RegistrationRecord]. *)
Definition dec_registry (j : json) : option go_registry :=
  match j with
  | JNull => Some None
  | JObj l => Some <$> dec_entries l ∅
  | _ => None
  end.

Inductive read_file := NoFile | ReadError | FileData (data : bytes).

(** [load] into an empty registry: [None] is an error. *)
Definition load (f : read_file) : option go_registry :=
  match f with
  | NoFile => Some (Some ∅)
  | ReadError => None
  | FileData data =>
      if is_nil data then Some (Some ∅)
      else match parse data with Some j => dec_registry j | None => None end
  end.

(** How the disk operations of a save end. *)
Record save_io := MkSaveIO { io_write : write_end; io_rename : bool; io_remove : bool }.

Definition save (io : save_io) (registryPath : bytes) (m : go_registry) (fs : files) : files :=
  if is_nil registryPath then fs else
  let data := print_indent 0 (registry_json m) in
  let tmp := registryPath ++ bs ".tmp" in
  let '(ok, fs) := WriteFile (io_write io) tmp data fs in
  if negb ok then fs else
  if io_rename io then <[registryPath := data]> (delete tmp fs)
  else if io_remove io then delete tmp fs else fs.

(** * Facts *)

Definition reg_fine (r : RegistrationRecord) : Prop :=
  utf8_valid (g_Name r) = true /\ utf8_valid (g_Root r) = true /\ utf8_valid (g_Owner r) = true
  /\ in_int64 (g_RegisteredAt r) /\ in_int64 (g_UpdatedAt r) /\ in_int64 (g_Version r).

#[global, program] Instance RegistrationRecord_laws : CodecLaws RegistrationRecord reg_fine :=
  {| codec_depth := 1 |}.
Next Obligation. done. Qed.
Next Obligation.
  intros [n root o ra ua v] (H1 & H2 & H3 & _). cbn [g_Name g_Root g_Owner] in *.
  apply (JObj_ok 0). repeat (apply List.Forall_cons; [split; [done|cbn [snd]; auto with altnet]|]).
  apply List.Forall_nil.
Qed.
Next Obligation.
  intros [n root o ra ua v] (_ & _ & _ & H4 & H5 & H6). simpl in H4, H5, H6.
  lazy -[dec_int64 JInt]. by rewrite !dec_int64_JInt by done.
Qed.

(** The registries that survive being written and read. *)
Definition registry_fine (m : registry_map) : Prop :=
  forall k o, m !! k = Some o -> utf8_valid k = true /\ forall r, o = Some r -> reg_fine r.

Lemma dec_pointer_json (o : option RegistrationRecord) :
  (forall r, o = Some r -> reg_fine r) -> dec_pointer (pointer_json o) = Some o.
Proof.
  intros Ho. destruct o as [r|]; [|done].
  change (dec_pointer (pointer_json (Some r))) with (Some <$> dec_struct set_field (to_json r) zero_value).
  by rewrite (codec_fields (fine := reg_fine)) by auto.
Qed.

Lemma dec_entries_json (l : list (bytes * option RegistrationRecord)) (m : registry_map) :
  Forall (fun kv => forall r, kv.2 = Some r -> reg_fine r) l ->
  dec_entries ((fun kv => (kv.1, pointer_json kv.2)) <$> l) m
  = Some (foldl (fun m kv => <[kv.1 := kv.2]> m) m l).
Proof.
  intros Hl. revert m. induction Hl as [|[k o] l Hk Hl IH]; intros m; [done|].
  cbn [fmap list_fmap dec_entries]. rewrite dec_pointer_json by done. apply IH.
Qed.

Lemma foldl_insert_list (l : list (bytes * option RegistrationRecord)) (m : registry_map) :
  NoDup l.*1 -> foldl (fun m kv => <[kv.1 := kv.2]> m) m l = list_to_map l ∪ m.
Proof.
  revert m. induction l as [|[k o] l IH]; intros m Hnd; cbn [foldl list_to_map foldr fst snd];
    [by rewrite (left_id_L ∅ (∪))|].
  inversion Hnd as [|? ? Hk Hnd']; subst. rewrite IH by done. rewrite <- insert_union_r.
  - by rewrite insert_union_l.
  - by apply not_elem_of_list_to_map.
Qed.

#[global] Instance pair_le_transitive : Transitive pair_le.
Proof. intros a b c. unfold pair_le. apply bytes_le_transitive. Qed.

Lemma sorted_entries_perm m : sorted_entries m ≡ₚ map_to_list m.
Proof. apply merge_sort_Permutation. Qed.

Lemma dec_registry_json (m : registry_map) :
  registry_fine m -> dec_registry (registry_json (Some m)) = Some (Some m).
Proof.
  intros Hm. cbn [registry_json dec_registry]. pose proof (sorted_entries_perm m) as Hp.
  rewrite dec_entries_json.
  - cbn [fmap option_fmap option_map]. do 2 f_equal.
    rewrite foldl_insert_list by (rewrite Hp; apply NoDup_fst_map_to_list).
    rewrite (right_id_L ∅ (∪)), (list_to_map_proper _ (map_to_list m)); [apply list_to_map_to_list| |done].
    rewrite Hp. apply NoDup_fst_map_to_list.
  - rewrite Hp. apply Forall_forall. intros [k o] Hin%elem_of_map_to_list. by apply (Hm k).
Qed.

Lemma registry_json_ok (m : registry_map) : registry_fine m -> json_ok 2 (registry_json (Some m)).
Proof.
  intros Hm. apply (JObj_ok 1). apply Forall_fmap. rewrite (sorted_entries_perm m). apply Forall_forall.
  intros [k o] Hin%elem_of_map_to_list. destruct (Hm k o Hin) as [Hk Ho]. split; [done|].
  cbn [compose snd fst]. destruct o as [r|]; [|exact I]. exact (codec_ok (fine := reg_fine) r (Ho r eq_refl)).
Qed.

Lemma registry_text_nonempty m : is_nil (print_indent 0 (registry_json m)) = false.
Proof.
  destruct m as [m|]; [|done]. cbn [registry_json]. by destruct (_ <$> _).
Qed.

(** What a file written by a save that succeeded loads as. *)
Lemma load_saved (m : registry_map) :
  registry_fine m -> load (FileData (print_indent 0 (registry_json (Some m)))) = Some (Some m).
Proof.
  intros Hm. unfold load. rewrite registry_text_nonempty.
  rewrite (parse_print_indent 2); [by apply dec_registry_json|by apply registry_json_ok|].
  unfold max_depth. lia.
Qed.

(** The file of the registry after a save: the new text, or what was there. *)
Lemma save_file (io : save_io) (path : bytes) (m : go_registry) (fs : files) :
  path <> [] ->
  save io path m fs !! path
  = match io_write io, io_rename io with
    | Written, true => Some (print_indent 0 (registry_json m))
    | _, _ => fs !! path
    end.
Proof.
  intros Hp. assert (path ++ bs ".tmp" <> path) as Hne.
  { intros E. apply (f_equal length) in E. rewrite length_app in E. simpl in E. lia. }
  unfold save, is_nil. rewrite bool_decide_eq_false_2 by done.
  generalize (print_indent 0 (registry_json m)) as data. intros data.
  destruct io as [[|[l|]] [] []]; cbn [io_write io_rename io_remove WriteFile negb];
    by rewrite ?lookup_insert_eq, ?lookup_delete_ne, ?lookup_insert_ne by done.
Qed.
