(* ===== verification/Registrar.v ===== *)
(** * The registrar (apps/registrar/registrar.go)

    The HTTP interface of the domain registry: authentication, the handlers and
    the background pass that republishes every name.  The node is any
    [ContentStore] and [NameService].  A request is one step: the handlers hold
    the registry's lock over everything they do to it, while the background pass
    releases it between names, so its steps are separate and interleave with
    requests.  Error messages are values of [api_error]; the path of a request is
    taken without percent-escapes. *)

From S2P Require Import Prelude GoStrings Encoding Json JsonIndent Sha256 Crypto Peer Revoke NodeId.
From S2P Require Import Blocklist Store Routing DhtWire Dht Lookup Name ContentStore NameService Files.
From S2P Require SiteStats.
From S2P Require Import Utf8 Registry.

(** ** Requests and responses *)

Record Request := MkRequest {
  rq_Method : bytes;
  rq_Path : bytes;
  rq_Authorization : bytes;
  rq_Body : bytes
}.

Inductive domain_error := ErrDomainEmpty | ErrDomainShort | ErrDomainTLD | ErrDomainPrefix.

Inductive api_error :=
| EMethodNotAllowed | EMissingAuth | EInvalidToken | EMissingName | EInvalidJSON
| EDomain (e : domain_error) | EInvalidRoot | EAlreadyRegistered (name : bytes)
| ENotRegistered (name : bytes) | EPublish (e : name_error) | EPathRequired
| EPublishFailed (e : files_error) | ESignRevoke (e : revoke_error).

Record CheckResponse := MkCheck {
  ck_Name : bytes; ck_Available : bool; ck_Owner : bytes; ck_Root : bytes; ck_Error : option api_error
}.
Record RegisterRequest := MkRegisterRequest { rr_Name : bytes; rr_Root : bytes; rr_Owner : bytes }.
Record RegisterResponse := MkRegisterResponse {
  ro_Name : bytes; ro_Root : bytes; ro_Version : Z; ro_Error : option api_error
}.
Record UpdateRequest := MkUpdateRequest { ur_Name : bytes; ur_Root : bytes }.
Record DomainsResponse := MkDomains { dr_Domains : list (option RegistrationRecord); dr_Count : nat }.
Record PublishRequest := MkPublishRequest { pr_Path : bytes }.
Record PublishResponse := MkPublishResponse {
  po_Root : bytes; po_EntryCount : nat; po_Error : option api_error
}.
Record StatsResponse := MkStatsResponse {
  st_Name : bytes; st_Requests : Z; st_Bytes : Z; st_UniqueIPs : nat; st_LastSeenUnix : Z;
  st_Error : option api_error
}.
(** [UnregisterRequest] and [RevokeRequest] have the same single field. *)
Record NameRequest := MkNameRequest { nr_Name : bytes }.
Record UnregisterResponse := MkUnregister { un_Name : bytes; un_OK : bool; un_Error : option api_error }.
Record RevokeResponse := MkRevokeResponse {
  rv_Name : bytes; rv_ChunkCount : nat; rv_OK : bool; rv_Error : option api_error
}.

(** What a handler writes: a status with the value it encodes. *)
Inductive body :=
| BError (e : api_error)
| BCheck (r : CheckResponse)
| BRegister (r : RegisterResponse)
| BDomains (r : DomainsResponse)
| BPublish (r : PublishResponse)
| BStats (r : StatsResponse)
| BUnregister (r : UnregisterResponse)
| BRevoke (r : RevokeResponse)
| BRedirect (location : bytes)
| BNone.

Record Response := MkResponse { rs_Status : Z; rs_Body : body }.

#[global] Instance RegisterRequest_codec : Codec RegisterRequest := {|
  to_json r := JObj [(bs "name", JStr (rr_Name r)); (bs "root", JStr (rr_Root r)); (bs "owner", JStr (rr_Owner r))];
  zero_value := MkRegisterRequest [] [] [];
  set_field k j r :=
    let '(MkRegisterRequest n root o) := r in
    if key_is k "name" then (fun n => MkRegisterRequest n root o) <$> dec_string j n
    else if key_is k "root" then (fun root => MkRegisterRequest n root o) <$> dec_string j root
    else if key_is k "owner" then (fun o => MkRegisterRequest n root o) <$> dec_string j o
    else Some r
|}.

#[global] Instance UpdateRequest_codec : Codec UpdateRequest := {|
  to_json r := JObj [(bs "name", JStr (ur_Name r)); (bs "root", JStr (ur_Root r))];
  zero_value := MkUpdateRequest [] [];
  set_field k j r :=
    let '(MkUpdateRequest n root) := r in
    if key_is k "name" then (fun n => MkUpdateRequest n root) <$> dec_string j n
    else if key_is k "root" then (fun root => MkUpdateRequest n root) <$> dec_string j root
    else Some r
|}.

#[global] Instance PublishRequest_codec : Codec PublishRequest := {|
  to_json r := JObj [(bs "path", JStr (pr_Path r))];
  zero_value := MkPublishRequest [];
  set_field k j r := if key_is k "path" then MkPublishRequest <$> dec_string j (pr_Path r) else Some r
|}.

#[global] Instance NameRequest_codec : Codec NameRequest := {|
  to_json r := JObj [(bs "name", JStr (nr_Name r))];
  zero_value := MkNameRequest [];
  set_field k j r := if key_is k "name" then MkNameRequest <$> dec_string j (nr_Name r) else Some r
|}.

(** [json.NewDecoder(body).Decode]: the first value of the body; what follows it
    is not read. *)
Definition Decode {A} `{Codec A} (s : bytes) : option A :=
  match parse_value (2 * length s + 2) max_depth s with
  | Some (j, _) => dec_struct set_field j zero_value
  | None => None
  end.

(** ** The registrar *)

Record Registrar := MkRegistrar {
  reg_id : Identity;
  reg_token : bytes;
  reg_registry : go_registry;
  reg_path : bytes;                     (* [registryPath] *)
  reg_fs : files;                       (* the host's files *)
  reg_stats : option SiteStats.Stats    (* [stats], nil or the node's counters *)
}.

Definition with_registry (r : Registrar) (m : go_registry) : Registrar :=
  MkRegistrar (reg_id r) (reg_token r) m (reg_path r) (reg_fs r) (reg_stats r).

Definition SetStats (r : Registrar) (s : option SiteStats.Stats) : Registrar :=
  MkRegistrar (reg_id r) (reg_token r) (reg_registry r) (reg_path r) (reg_fs r) s.

Definition reg_save (io : save_io) (r : Registrar) : Registrar :=
  MkRegistrar (reg_id r) (reg_token r) (reg_registry r) (reg_path r)
    (save io (reg_path r) (reg_registry r) (reg_fs r)) (reg_stats r).

(** [if forgetter, ok := reg.stats.(interface{ Forget(string) }); ok] *)
Definition forget (r : Registrar) (name : bytes) : Registrar :=
  SetStats r ((fun s => SiteStats.Forget s name) <$> reg_stats r).

Definition New (id : Identity) (token : bytes) (fs : files) : Registrar :=
  MkRegistrar id token (Some ∅) [] fs None.

(** [mkdir] is whether [os.MkdirAll] succeeds, [readable] whether an existing
    file can be read. *)
Definition NewWithDataDir (id : Identity) (token dataDir : bytes) (mkdir readable : bool) (fs : files)
  : option Registrar :=
  if is_nil dataDir then Some (New id token fs)
  else if negb mkdir then None
  else
    let path := path_Join dataDir (bs "registrar.json") in
    let f := match fs !! path with
             | None => NoFile
             | Some data => if readable then FileData data else ReadError
             end in
    match load f with
    | None => None
    | Some m => Some (MkRegistrar id token m path fs None)
    end.

Inductive auth := Allowed | Denied (e : api_error).

Definition requireAuth (r : Registrar) (rq : Request) : auth :=
  let a := rq_Authorization rq in
  if is_nil a then Denied EMissingAuth else
  let token := TrimSpace (TrimPrefix (TrimPrefix a (bs "Bearer ")) (bs "bearer ")) in
  if bool_decide (token = reg_token r) then Allowed else Denied EInvalidToken.

Definition alt_suffix : bytes := bs ".alt".

Definition ValidateDomain (canonical : bytes) : option domain_error :=
  if is_nil canonical then Some ErrDomainEmpty
  else if (length canonical <? 2)%nat then Some ErrDomainShort
  else if negb (HasSuffix canonical alt_suffix) then Some ErrDomainTLD
  else if is_nil (TrimSuffix canonical alt_suffix) then Some ErrDomainPrefix
  else None.

Definition UnixNano (now : Time) : Z := int64 (now - 62135596800 * Second).
Definition Unix (now : Time) : Z := int64 (unix_of now).

(** What a request sees of its surroundings: the clock, the disk under the
    registry's file, the random source and the files under a path. *)
Record env := MkEnv {
  en_now : Time;
  en_io : save_io;
  en_rand : option bytes;
  en_dir : bytes -> option bool * list walk_item
}.

Definition jsonError (status : Z) (e : api_error) : Response := MkResponse status (BError e).

Section Handlers.
Context `{GoUnicode} `{Ed25519} {S : Type} `{ContentStore S} `{NameService S}.

(** What a request leaves: the response, the messages broadcast and the state. *)
Abbreviation handled := (outcome (Response * list effect * (Registrar * S))).

Definition reply (status : Z) (b : body) (st : Registrar * S) : handled :=
  Ret (MkResponse status b, [], st).

Definition fails (status : Z) (e : api_error) (st : Registrar * S) : handled :=
  Ret (jsonError status e, [], st).

(** The guards every handler starts with: the method, then the token. *)
Definition guarded (method : bytes) (rq : Request) (st : Registrar * S) (h : handled) : handled :=
  if negb (bool_decide (rq_Method rq = method)) then fails 405 EMethodNotAllowed st
  else match requireAuth (fst st) rq with
       | Denied e => fails 401 e st
       | Allowed => h
       end.

(** The decoding of the body. *)
Definition decoded {A} `{Codec A} (rq : Request) (st : Registrar * S) (h : A -> handled) : handled :=
  match Decode (rq_Body rq) with
  | None => fails 400 EInvalidJSON st
  | Some req => h req
  end.

Definition handleCheck (rq : Request) (st : Registrar * S) : handled :=
  let '(reg, s) := st in
  if negb (bool_decide (rq_Method rq = bs "GET")) then fails 405 EMethodNotAllowed st else
  let rawName := TrimPrefix (rq_Path rq) (bs "/api/check/") in
  if is_nil rawName then fails 400 EMissingName st else
  let canonical := CanonicalName rawName in
  match ValidateDomain canonical with
  | Some e => reply 400 (BCheck (MkCheck canonical false [] [] (Some (EDomain e)))) st
  | None =>
      match map_lookup (reg_registry reg) canonical with
      | Some None => Panic
      | Some (Some rec) => reply 200 (BCheck (MkCheck canonical false (g_Owner rec) (g_Root rec) None)) st
      | None =>
          match ns_resolve s canonical with
          | (Ok dhtRec, s) => reply 200 (BCheck (MkCheck canonical false [] (r_Root dhtRec) None)) (reg, s)
          | (Err _, s) => reply 200 (BCheck (MkCheck canonical true [] [] None)) (reg, s)
          end
      end
  end.

Definition handleRegister (e : env) (rq : Request) (st : Registrar * S) : handled :=
  guarded (bs "POST") rq st (decoded rq st (fun req : RegisterRequest =>
  let '(reg, s) := st in
  let no err := BRegister (MkRegisterResponse [] [] 0 (Some err)) in
  let canonical := CanonicalName (rr_Name req) in
  match ValidateDomain canonical with
  | Some err => reply 400 (no (EDomain err)) st
  | None =>
      match IDFromHex (rr_Root req) with
      | Err _ => reply 400 (no EInvalidRoot) st
      | Ok rootKey =>
          match map_lookup (reg_registry reg) canonical with
          | Some _ => reply 409 (no (EAlreadyRegistered canonical)) st
          | None =>
              match ns_publish s (reg_id reg) canonical rootKey (UnixNano (en_now e)) with
              | (Err err, s) => reply 500 (no (EPublish err)) (reg, s)
              | (Ok dhtRec, s) =>
                  let unix := Unix (en_now e) in
                  match map_assign (reg_registry reg) canonical
                          (MkReg canonical (rr_Root req) (rr_Owner req) unix unix (r_Version dhtRec)) with
                  | Panic => Panic
                  | Ret m =>
                      reply 201 (BRegister (MkRegisterResponse canonical (r_Root dhtRec) (r_Version dhtRec) None))
                        (reg_save (en_io e) (with_registry reg m), s)
                  end
              end
          end
      end
  end)).

Definition handleUpdate (e : env) (rq : Request) (st : Registrar * S) : handled :=
  guarded (bs "POST") rq st (decoded rq st (fun req : UpdateRequest =>
  let '(reg, s) := st in
  let canonical := CanonicalName (ur_Name req) in
  match IDFromHex (ur_Root req) with
  | Err _ => fails 400 EInvalidRoot st
  | Ok rootKey =>
      match map_lookup (reg_registry reg) canonical with
      | None => fails 404 (ENotRegistered canonical) st
      | Some rec =>
          match ns_publish s (reg_id reg) canonical rootKey (UnixNano (en_now e)) with
          | (Err err, s) => fails 500 (EPublish err) (reg, s)
          | (Ok dhtRec, s) =>
              match rec with
              | None => Panic
              | Some rec =>
                  let m := <[canonical := Some (MkReg (g_Name rec) (ur_Root req) (g_Owner rec)
                              (g_RegisteredAt rec) (Unix (en_now e)) (r_Version dhtRec))]>
                           <$> reg_registry reg in
                  reply 200 (BRegister (MkRegisterResponse canonical (r_Root dhtRec) (r_Version dhtRec) None))
                    (reg_save (en_io e) (with_registry reg m), s)
              end
          end
      end
  end)).

(** The domains in the order Go ranges over the map, which is not specified. *)
Definition handleDomains (rq : Request) (st : Registrar * S) : handled :=
  guarded (bs "GET") rq st
    (let domains := match reg_registry (fst st) with
                    | None => []
                    | Some m => snd <$> map_to_list m
                    end in
     reply 200 (BDomains (MkDomains domains (length domains))) st).

Definition handlePublish (e : env) (rq : Request) (st : Registrar * S) : handled :=
  guarded (bs "POST") rq st (decoded rq st (fun req : PublishRequest =>
  let '(reg, s) := st in
  let no err := BPublish (MkPublishResponse [] 0 (Some err)) in
  if is_nil (TrimSpace (pr_Path req)) then reply 400 (no EPathRequired) st else
  let '(stat, items) := en_dir e (pr_Path req) in
  match PublishDir s stat items with
  | (Err err, s) => reply 500 (no (EPublishFailed err)) (reg, s)
  | (Ok (rootKey, dir), s) =>
      reply 200 (BPublish (MkPublishResponse (Hex rootKey) (length (dir_Entries dir)) None)) (reg, s)
  end)).

Definition handleStats (rq : Request) (st : Registrar * S) : handled :=
  guarded (bs "GET") rq st (
  let rawName := TrimPrefix (rq_Path rq) (bs "/api/stats/") in
  if is_nil rawName then fails 400 EMissingName st else
  let canonical := CanonicalName rawName in
  match ValidateDomain canonical with
  | Some e => reply 400 (BStats (MkStatsResponse canonical 0 0 0 0 (Some (EDomain e)))) st
  | None =>
      match reg_stats (fst st) with
      | None => reply 200 (BStats (MkStatsResponse canonical 0 0 0 0 None)) st
      | Some stats =>
          let snap := SiteStats.Get stats canonical in
          reply 200 (BStats (MkStatsResponse (SiteStats.sn_Name snap) (SiteStats.sn_Requests snap)
            (SiteStats.sn_Bytes snap) (SiteStats.sn_UniqueIPs snap) (SiteStats.sn_LastSeenUnix snap) None)) st
      end
  end).

Definition handleUnregister (e : env) (rq : Request) (st : Registrar * S) : handled :=
  guarded (bs "POST") rq st (decoded rq st (fun req : NameRequest =>
  let '(reg, s) := st in
  let canonical := CanonicalName (nr_Name req) in
  match map_lookup (reg_registry reg) canonical with
  | None => reply 404 (BUnregister (MkUnregister canonical false (Some (ENotRegistered canonical)))) st
  | Some _ =>
      let reg := reg_save (en_io e) (with_registry reg (map_delete (reg_registry reg) canonical)) in
      reply 200 (BUnregister (MkUnregister canonical true None)) (forget reg canonical, s)
  end)).

(** ** Revoking a site *)

(** [seen] and [out] of [collectChunkHashes]. *)
Definition add_hash (acc : gset bytes * list bytes) (h : bytes) : gset bytes * list bytes :=
  if bool_decide (h ∈ fst acc) then acc else ({[h]} ∪ fst acc, snd acc ++ [h]).

Fixpoint collect_entries (s : S) (entries : list DirEntry) (acc : gset bytes * list bytes)
  : list bytes * S :=
  match entries with
  | [] => (snd acc, s)
  | entry :: entries =>
      match IDFromHex (de_ManifestKey entry) with
      | Err _ => collect_entries s entries acc
      | Ok manifestKey =>
          let acc := add_hash acc (Hex manifestKey) in
          match cs_get s manifestKey with
          | (Err _, s) => collect_entries s entries acc
          | (Ok manifestBlob, s) =>
              match (Unmarshal manifestBlob : option FileManifest) with
              | None => collect_entries s entries acc
              | Some m => collect_entries s entries (foldl add_hash acc (fm_Chunks m))
              end
          end
      end
  end.

Definition collectChunkHashes (s : S) (canonicalName : bytes) : list bytes * S :=
  match ns_resolve s canonicalName with
  | (Err _, s) => ([], s)
  | (Ok rec, s) =>
      match RootKey rec with
      | Err _ => ([], s)
      | Ok rootKey =>
          let out := [Hex rootKey] in
          match cs_get s rootKey with
          | (Err _, s) => (out, s)
          | (Ok blob, s) =>
              match (Unmarshal blob : option Directory) with
              | None => (out, s)
              | Some dir => collect_entries s (dir_Entries dir) ({[Hex rootKey]}, out)
              end
          end
      end
  end.

(** The handler runs as one step; the hashes are collected before the lock is taken, from
    the node and not from the registry. *)
Definition handleRevoke (e : env) (rq : Request) (st : Registrar * S) : handled :=
  guarded (bs "POST") rq st (decoded rq st (fun req : NameRequest =>
  let '(reg, s) := st in
  let canonical := CanonicalName (nr_Name req) in
  let '(chunks, s) := collectChunkHashes s canonical in
  let reg := reg_save (en_io e) (with_registry reg (map_delete (reg_registry reg) canonical)) in
  let reg := forget reg canonical in
  match SignRevoke (reg_id reg) canonical chunks (en_rand e) (Unix (en_now e)) with
  | Err err => reply 500 (BRevoke (MkRevokeResponse canonical 0 false (Some (ESignRevoke err)))) (reg, s)
  | Ok payload =>
      let '(effs, s) := ns_broadcast s payload in
      Ret (MkResponse 200 (BRevoke (MkRevokeResponse canonical (length chunks) true None)), effs, (reg, s))
  end)).

(** ** Routing: [corsMiddleware] around the [http.ServeMux] of [Start] *)

Inductive endpoint :=
| AtCheck | AtRegister | AtUpdate | AtDomains | AtPublish | AtRevoke | AtStats | AtUnregister.

Definition match_path (p : bytes) : option endpoint :=
  if HasPrefix p (bs "/api/check/") then Some AtCheck
  else if bool_decide (p = bs "/api/register") then Some AtRegister
  else if bool_decide (p = bs "/api/update") then Some AtUpdate
  else if bool_decide (p = bs "/api/domains") then Some AtDomains
  else if bool_decide (p = bs "/api/publish") then Some AtPublish
  else if bool_decide (p = bs "/api/revoke") then Some AtRevoke
  else if HasPrefix p (bs "/api/stats/") then Some AtStats
  else if bool_decide (p = bs "/api/unregister") then Some AtUnregister
  else None.

(** net/http's [cleanPath]: the mux redirects to it when it differs. *)
Definition cleanPath (p : bytes) : bytes :=
  if is_nil p then [slash] else
  let p := if HasPrefix p [slash] then p else slash :: p in
  let np := Clean p in
  if HasSuffix p [slash] && negb (bool_decide (np = [slash])) then np ++ [slash] else np.

(** The status the [http.ServeMux] of Go 1.26, the version go.mod asks for, redirects with. *)
Definition StatusTemporaryRedirect : Z := 307.

Inductive routed := ServeAt (ep : endpoint) | RedirectTo (p : bytes) | NoRoute.

Definition route (method path : bytes) : routed :=
  let p := if bool_decide (method = bs "CONNECT") then path else cleanPath path in
  if bool_decide (p = bs "/api/check") || bool_decide (p = bs "/api/stats") then RedirectTo (p ++ [slash])
  else if negb (bool_decide (p = path)) then RedirectTo p
  else match match_path p with Some ep => ServeAt ep | None => NoRoute end.

Definition dispatch (ep : endpoint) (e : env) (rq : Request) (st : Registrar * S) : handled :=
  match ep with
  | AtCheck => handleCheck rq st
  | AtRegister => handleRegister e rq st
  | AtUpdate => handleUpdate e rq st
  | AtDomains => handleDomains rq st
  | AtPublish => handlePublish e rq st
  | AtRevoke => handleRevoke e rq st
  | AtStats => handleStats rq st
  | AtUnregister => handleUnregister e rq st
  end.

Definition serve (e : env) (rq : Request) (st : Registrar * S) : handled :=
  if bool_decide (rq_Method rq = bs "OPTIONS") then reply 200 BNone st else
  match route (rq_Method rq) (rq_Path rq) with
  | ServeAt ep => dispatch ep e rq st
  | RedirectTo p => reply StatusTemporaryRedirect (BRedirect p) st
  | NoRoute => reply 404 BNone st
  end.

(** ** The background pass *)

Definition republishInterval : Z := 24 * Hour.

(** The copies made under the read lock, in the order [entries] of the map. *)
Fixpoint snapshot_records (entries : list (bytes * option RegistrationRecord))
  : outcome (list RegistrationRecord) :=
  match entries with
  | [] => Ret []
  | (_, None) :: _ => Panic
  | (_, Some rec) :: entries =>
      match snapshot_records entries with Ret l => Ret (rec :: l) | Panic => Panic end
  end.

(** One turn of the loop: publishing, outside the lock, with whether it succeeded, and
    then the update of the live entry, under the lock.  The version is the first reading
    of the clock, [t1]; [t2] is the second. *)
Definition republish_publish (t1 : Time) (rec : RegistrationRecord) (st : Registrar * S) : bool * S :=
  let '(reg, s) := st in
  match IDFromHex (g_Root rec) with
  | Err _ => (false, s)
  | Ok rootKey =>
      let version := UnixNano t1 in
      match ns_publish s (reg_id reg) (g_Name rec) rootKey version with
      | (Err _, s) => (false, s)
      | (Ok _, s) => (true, s)
      end
  end.

Definition republish_mark (t1 t2 : Time) (nm : bytes) (reg : Registrar) : outcome Registrar :=
  match map_lookup (reg_registry reg) nm with
  | None => Ret reg
  | Some None => Panic
  | Some (Some live) =>
      let version := UnixNano t1 in
      let live := MkReg (g_Name live) (g_Root live) (g_Owner live) (g_RegisteredAt live) (Unix t2) version in
      Ret (with_registry reg (<[nm := Some live]> <$> reg_registry reg))
  end.

Definition republish_one (t1 t2 : Time) (rec : RegistrationRecord) (st : Registrar * S)
  : outcome (Registrar * S) :=
  match republish_publish t1 rec st with
  | (false, s) => Ret (fst st, s)
  | (true, s) =>
      match republish_mark t1 t2 (g_Name rec) (fst st) with
      | Panic => Panic
      | Ret reg => Ret (reg, s)
      end
  end.

(** The whole pass, when no request comes in between. *)
Fixpoint republish_loop (clock : nat -> Time) (i : nat) (l : list RegistrationRecord) (st : Registrar * S)
  : outcome (Registrar * S) :=
  match l with
  | [] => Ret st
  | rec :: l =>
      match republish_one (clock (2 * i)%nat) (clock (2 * i + 1)%nat) rec st with
      | Panic => Panic
      | Ret st => republish_loop clock (Datatypes.S i) l st
      end
  end.

Definition republishAll (clock : nat -> Time) (io : save_io)
    (entries : list (bytes * option RegistrationRecord)) (st : Registrar * S) : outcome (Registrar * S) :=
  match snapshot_records entries with
  | Panic => Panic
  | Ret l =>
      match republish_loop clock 0 l st with
      | Panic => Panic
      | Ret (reg, s) => Ret (reg_save io reg, s)
      end
  end.

End Handlers.

(** * Facts *)

(** ** What a request does to the registrar *)

(** Whether the status of a response says that the endpoint changed the registry.
    A revocation that cannot be signed has removed the name already. *)
Definition committed (ep : endpoint) (status : Z) : bool :=
  match ep with
  | AtRegister => status =? 201
  | AtUpdate | AtUnregister => status =? 200
  | AtRevoke => (status =? 200) || (status =? 500)
  | _ => false
  end.

Section Effects.
Context `{GoUnicode} `{Ed25519} {S : Type} `{ContentStore S}.
Context `{Laws : NameServiceLaws S inv keeps trusted}.

(** The endpoint that answers a request. *)
Definition target (rq : Request) : routed :=
  if bool_decide (rq_Method rq = bs "OPTIONS") then NoRoute else route (rq_Method rq) (rq_Path rq).

(** An authenticated request for an endpoint. *)
Definition granted (reg : Registrar) (rq : Request) (ep : endpoint) : Prop :=
  target rq = ServeAt ep /\ requireAuth reg rq = Allowed.

(** The registry with one entry set, and saved. *)
Definition store_entry (io : save_io) (reg : Registrar) (m : registry_map) (r : RegistrationRecord) : Registrar :=
  reg_save io (with_registry reg (Some (<[g_Name r := Some r]> m))).

Definition drop_entry (io : save_io) (reg : Registrar) (k : bytes) : Registrar :=
  forget (reg_save io (with_registry reg (map_delete (reg_registry reg) k))) k.

(** The effect of a request on the registrar, with what it had to pass first. *)
Inductive change (e : env) (rq : Request) (rs : Response) (reg : Registrar) : Registrar -> Prop :=
| ch_none :
    (forall ep, target rq = ServeAt ep -> committed ep (rs_Status rs) = false) ->
    change e rq rs reg reg
| ch_register m (req : RegisterRequest) rootKey :
    granted reg rq AtRegister -> rs_Status rs = 201 -> reg_registry reg = Some m ->
    Decode (rq_Body rq) = Some req -> IDFromHex (rr_Root req) = Ok rootKey ->
    let k := CanonicalName (rr_Name req) in
    ValidateDomain k = None -> m !! k = None -> validName k = Ok tt ->
    change e rq rs reg (store_entry (en_io e) reg m
      (MkReg k (rr_Root req) (rr_Owner req) (Unix (en_now e)) (Unix (en_now e)) (UnixNano (en_now e))))
| ch_update m (req : UpdateRequest) rootKey rec :
    granted reg rq AtUpdate -> rs_Status rs = 200 -> reg_registry reg = Some m ->
    Decode (rq_Body rq) = Some req -> IDFromHex (ur_Root req) = Ok rootKey ->
    let k := CanonicalName (ur_Name req) in
    m !! k = Some (Some rec) ->
    change e rq rs reg (reg_save (en_io e) (with_registry reg (Some (<[k := Some
      (MkReg (g_Name rec) (ur_Root req) (g_Owner rec) (g_RegisteredAt rec) (Unix (en_now e)) (UnixNano (en_now e)))]> m))))
| ch_unregister (req : NameRequest) :
    granted reg rq AtUnregister -> rs_Status rs = 200 -> Decode (rq_Body rq) = Some req ->
    is_Some (map_lookup (reg_registry reg) (CanonicalName (nr_Name req))) ->
    change e rq rs reg (drop_entry (en_io e) reg (CanonicalName (nr_Name req)))
| ch_revoke (req : NameRequest) :
    granted reg rq AtRevoke -> rs_Status rs = 200 \/ rs_Status rs = 500 -> Decode (rq_Body rq) = Some req ->
    change e rq rs reg (drop_entry (en_io e) reg (CanonicalName (nr_Name req))).

(** The request returns and has such an effect. *)
Definition returns (e : env) (rq : Request) (reg : Registrar)
    (out : outcome (Response * list effect * (Registrar * S))) : Prop :=
  exists rs effs reg' s', out = Ret (rs, effs, (reg', s')) /\ change e rq rs reg reg'.

(** No nil map, no nil pointer. *)
Definition no_nil (reg : Registrar) : Prop :=
  exists m, reg_registry reg = Some m /\ forall k o, m !! k = Some o -> is_Some o.

Lemma reply_returns e rq reg ep status b (s : S) :
  target rq = ServeAt ep -> committed ep status = false ->
  returns e rq reg (reply status b (reg, s)).
Proof.
  intros Hr Hc. eexists _, _, _, _. split; [done|]. apply ch_none. intros ep' Hr'. cbn [rs_Status]. congruence.
Qed.

Lemma guarded_returns e rq reg (s : S) ep method h :
  target rq = ServeAt ep ->
  (requireAuth reg rq = Allowed -> returns e rq reg h) ->
  returns e rq reg (guarded method rq (reg, s) h).
Proof.
  intros Hr Hh. unfold guarded. destruct (negb _); [by eapply reply_returns; [done|by destruct ep]|].
  cbn [fst]. destruct (requireAuth reg rq); [by apply Hh|]. by eapply reply_returns; [done|by destruct ep].
Qed.

Lemma decoded_returns {A} `{Codec A} e rq reg (s : S) ep (h : A -> _) :
  target rq = ServeAt ep ->
  (forall req, Decode (rq_Body rq) = Some req -> returns e rq reg (h req)) ->
  returns e rq reg (decoded rq (reg, s) h).
Proof.
  intros Hr Hh. unfold decoded. destruct (Decode (rq_Body rq)) as [req|]; [by apply Hh|].
  by eapply reply_returns; [done|by destruct ep].
Qed.

Ltac quiet := by eapply reply_returns.

Lemma handleCheck_returns e rq reg (s : S) :
  no_nil reg -> target rq = ServeAt AtCheck ->
  returns e rq reg (handleCheck rq (reg, s)).
Proof.
  intros (m & Em & Hm) Hr. unfold handleCheck. destruct (negb _); [quiet|]. destruct (is_nil _); [quiet|].
  destruct (ValidateDomain _); [quiet|]. rewrite Em. cbn [map_lookup].
  destruct (m !! _) as [[rec|]|] eqn:El; [quiet|by destruct (Hm _ _ El)|].
  destruct (ns_resolve s _) as [[r|] s']; quiet.
Qed.

Lemma handleRegister_returns e rq reg (s : S) :
  no_nil reg -> target rq = ServeAt AtRegister ->
  returns e rq reg (handleRegister e rq (reg, s)).
Proof.
  intros (m & Em & Hm) Hr. apply (guarded_returns _ _ _ _ AtRegister); [done|]. intros Ha.
  apply (decoded_returns _ _ _ _ AtRegister); [done|]. intros req Hreq. cbv zeta.
  destruct (ValidateDomain _) eqn:Ev; [quiet|]. destruct (IDFromHex (rr_Root req)) as [rootKey|] eqn:Ei; [|quiet].
  rewrite Em. cbn [map_lookup map_assign]. destruct (m !! _) eqn:El; [quiet|].
  pose proof (publish_record s (reg_id reg) (CanonicalName (rr_Name req)) rootKey (UnixNano (en_now e))) as Hp.
  destruct (ns_publish _ _ _ _ _) as [[dhtRec|err] s']; [|quiet].
  destruct (Hp dhtRec eq_refl) as (Hv & _ & _ & -> & _).
  eexists _, _, _, _. split; [done|]. by eapply (ch_register _ _ _ _ m req rootKey).
Qed.

Lemma handleUpdate_returns e rq reg (s : S) :
  no_nil reg -> target rq = ServeAt AtUpdate ->
  returns e rq reg (handleUpdate e rq (reg, s)).
Proof.
  intros (m & Em & Hm) Hr. apply (guarded_returns _ _ _ _ AtUpdate); [done|]. intros Ha.
  apply (decoded_returns _ _ _ _ AtUpdate); [done|]. intros req Hreq. cbv zeta.
  destruct (IDFromHex (ur_Root req)) as [rootKey|] eqn:Ei; [|quiet].
  rewrite Em. cbn [map_lookup]. destruct (m !! _) as [o|] eqn:El; [|quiet].
  pose proof (publish_record s (reg_id reg) (CanonicalName (ur_Name req)) rootKey (UnixNano (en_now e))) as Hp.
  destruct (ns_publish _ _ _ _ _) as [[dhtRec|err] s']; [|quiet].
  destruct (Hp dhtRec eq_refl) as (_ & _ & _ & -> & _). destruct (Hm _ _ El) as [rec ->].
  eexists _, _, _, _. split; [done|]. by eapply (ch_update _ _ _ _ m req rootKey rec).
Qed.

Lemma handleUnregister_returns e rq reg (s : S) :
  target rq = ServeAt AtUnregister ->
  returns e rq reg (handleUnregister e rq (reg, s)).
Proof.
  intros Hr. apply (guarded_returns _ _ _ _ AtUnregister); [done|]. intros Ha.
  apply (decoded_returns _ _ _ _ AtUnregister); [done|]. intros req Hreq. cbv zeta.
  destruct (map_lookup _ _) eqn:El; [|quiet].
  eexists _, _, _, _. split; [done|]. apply ch_unregister; [done..|]. by rewrite El.
Qed.

Lemma handleRevoke_returns e rq reg (s : S) :
  target rq = ServeAt AtRevoke ->
  returns e rq reg (handleRevoke e rq (reg, s)).
Proof.
  intros Hr. apply (guarded_returns _ _ _ _ AtRevoke); [done|]. intros Ha.
  apply (decoded_returns _ _ _ _ AtRevoke); [done|]. intros req Hreq. cbv zeta.
  destruct (collectChunkHashes s _) as [chunks s1]. destruct (SignRevoke _ _ _ _ _) as [p|err].
  - destruct (ns_broadcast s1 p) as [effs s2].
    eexists _, _, _, _. split; [done|]. apply ch_revoke; [done|by left|done].
  - eexists _, _, _, _. split; [done|]. apply ch_revoke; [done|by right|done].
Qed.

Lemma serve_returns e rq reg (s : S) : no_nil reg -> returns e rq reg (serve e rq (reg, s)).
Proof.
  intros Hn. unfold serve. pose proof (eq_refl (target rq)) as Ht. unfold target at 2 in Ht.
  assert (forall status b, target rq = NoRoute \/ (exists p, target rq = RedirectTo p) ->
    returns e rq reg (reply status b (reg, s))) as Hq.
  { intros status b Hno. eexists _, _, _, _. split; [done|]. apply ch_none. intros ep Hep.
    destruct Hno as [Hno|[p Hno]]; congruence. }
  case_bool_decide; [by apply Hq; left|].
  destruct (route (rq_Method rq) (rq_Path rq)) as [ep|p|]; [|by apply Hq; right; eexists|by apply Hq; left].
  destruct ep; cbn [dispatch].
  - by apply handleCheck_returns.
  - by apply handleRegister_returns.
  - by apply handleUpdate_returns.
  - apply (guarded_returns _ _ _ _ AtDomains); [done|]. intros _. quiet.
  - apply (guarded_returns _ _ _ _ AtPublish); [done|]. intros _.
    apply (decoded_returns _ _ _ _ AtPublish); [done|]. intros req _. cbv zeta. destruct (is_nil _); [quiet|].
    destruct (en_dir e _) as [stat items]. destruct (PublishDir s stat items) as [[[root dir]|] s']; quiet.
  - by apply handleRevoke_returns.
  - apply (guarded_returns _ _ _ _ AtStats); [done|]. intros _. cbv zeta.
    destruct (is_nil _); [quiet|]. destruct (ValidateDomain _); [quiet|].
    cbn [fst]. destruct (reg_stats reg); quiet.
  - by apply handleUnregister_returns.
Qed.

End Effects.

(** ** The registrar as a process

    Requests and the steps of the background pass, one after the other in any
    order: between two steps of a pass any number of requests can come in. *)

Section Process.
Context `{GoUnicode} `{Ed25519} {S : Type} `{ContentStore S}.
Context `{Laws : NameServiceLaws S inv keeps trusted}.

(** Where the background pass is: the copies it has still to publish, and the name it has
    published, with the time its version is, and not marked yet. *)
Inductive pass :=
| Resting
| Publishing (l : list RegistrationRecord)
| Marking (nm : bytes) (t1 : Time) (l : list RegistrationRecord).

Record process := MkProcess {
  ps_reg : Registrar;
  ps_node : S;
  ps_pass : pass
}.

Inductive label :=
| LRequest (e : env) (rq : Request) (rs : Response)
| LBackground (io : option save_io).

Inductive step (p : process) : label -> outcome process -> Prop :=
| step_request e rq rs effs reg s :
    serve e rq (ps_reg p, ps_node p) = Ret (rs, effs, (reg, s)) ->
    step p (LRequest e rq rs) (Ret (MkProcess reg s (ps_pass p)))
| step_request_panics e rq rs :
    serve e rq (ps_reg p, ps_node p) = Panic -> step p (LRequest e rq rs) Panic
| step_snapshot entries :
    ps_pass p = Resting -> entries ≡ₚ map_to_list (default ∅ (reg_registry (ps_reg p))) ->
    step p (LBackground None)
      match snapshot_records entries with
      | Ret l => Ret (MkProcess (ps_reg p) (ps_node p) (Publishing l))
      | Panic => Panic
      end
| step_publish t rec l :
    ps_pass p = Publishing (rec :: l) ->
    step p (LBackground None)
      (let '(ok, s) := republish_publish t rec (ps_reg p, ps_node p) in
       Ret (MkProcess (ps_reg p) s (if ok : bool then Marking (g_Name rec) t l else Publishing l)))
| step_mark t1 t2 nm l :
    ps_pass p = Marking nm t1 l ->
    step p (LBackground None)
      match republish_mark t1 t2 nm (ps_reg p) with
      | Ret reg => Ret (MkProcess reg (ps_node p) (Publishing l))
      | Panic => Panic
      end
| step_finish io :
    ps_pass p = Publishing [] ->
    step p (LBackground (Some io)) (Ret (MkProcess (reg_save io (ps_reg p)) (ps_node p) Resting)).

Inductive run (p : process) : list label -> process -> Prop :=
| run_nil : run p [] p
| run_snoc ls q l q' : run p ls q -> step q l (Ret q') -> run p (ls ++ [l]) q'.

(** ** The invariant *)

(** An entry of the registry: under its own name, which is a name that can be
    published and ends in .alt, pointing to a key. *)
Definition entry_ok (k : bytes) (o : option RegistrationRecord) : Prop :=
  exists r, o = Some r /\ g_Name r = k /\ validName k = Ok tt /\ ValidateDomain k = None
    /\ is_ok (IDFromHex (g_Root r)) = true /\ utf8_valid (g_Owner r) = true
    /\ in_int64 (g_RegisteredAt r) /\ in_int64 (g_UpdatedAt r) /\ in_int64 (g_Version r).

Definition reg_ok (reg : Registrar) : Prop :=
  exists m, reg_registry reg = Some m /\ map_Forall entry_ok m.

Lemma reg_ok_no_nil reg : reg_ok reg -> no_nil reg.
Proof.
  intros (m & Em & Hm). exists m. split; [done|]. intros k o Hk. destruct (Hm k o Hk) as (r & -> & _). eauto.
Qed.

Lemma RegisterRequest_utf8 body (req : RegisterRequest) :
  Decode body = Some req -> utf8_valid (rr_Owner req) = true.
Proof.
  unfold Decode. destruct (parse_value _ _ _) as [[j t]|] eqn:Ep; [|done].
  apply parse_value_members in Ep. destruct j as [| | | | |l]; try done; [by intros [= <-]|].
  cbn [dec_struct members_utf8] in *.
  assert (utf8_valid (rr_Owner (zero_value : RegisterRequest)) = true) as Hz by done. revert Hz.
  generalize (zero_value : RegisterRequest) as r0. induction Ep as [|[k j] l Hj Hl IH]; intros r0 Hr;
    [by intros [= <-]|]. cbn [dec_members].
  destruct (set_field k j r0) as [r1|] eqn:Es; [|done]. apply IH. revert Es. cbn [snd] in Hj.
  destruct r0 as [n root o]. cbn [set_field RegisterRequest_codec rr_Owner] in *.
  destruct (key_is k "name"); [by destruct j; intros [= <-]|].
  destruct (key_is k "root"); [by destruct j; intros [= <-]|].
  destruct (key_is k "owner"); [by destruct j; intros [= <-]|]. by intros [= <-].
Qed.

Lemma change_ok e rq rs reg reg' : change e rq rs reg reg' -> reg_ok reg -> reg_ok reg'.
Proof.
  intros Hc (m0 & Em0 & Hm0).
  destruct Hc as [_|m req rootKey Hg _ Em Hd Hi k Hv Hk Hn|m req rootKey rec Hg _ Em Hd Hi k Hk|req _ _ _ _|req _ _ _].
  - by exists m0.
  - simplify_eq. eexists. split; [done|]. apply map_Forall_insert_2; [|done].
    eexists. split; [done|]. cbn [g_Name g_Root g_Owner g_RegisteredAt g_UpdatedAt g_Version].
    rewrite Hi. split_and!; try done; [by eapply RegisterRequest_utf8|apply int64_range..].
  - simplify_eq. eexists. split; [done|]. apply map_Forall_insert_2; [|done].
    destruct (Hm0 _ _ Hk) as (r & [= <-] & P1 & P2 & P3 & _ & P5 & P6 & _).
    eexists. split; [done|]. cbn [g_Name g_Root g_Owner g_RegisteredAt g_UpdatedAt g_Version].
    rewrite Hi. split_and!; try done; apply int64_range.
  - eexists. cbn. rewrite Em0. split; [done|]. by apply map_Forall_delete.
  - eexists. cbn. rewrite Em0. split; [done|]. by apply map_Forall_delete.
Qed.

Lemma snapshot_records_ok entries :
  Forall (fun kv => entry_ok kv.1 kv.2) entries -> exists l, snapshot_records entries = Ret l.
Proof.
  induction 1 as [|[k o] entries (r & Eo & _) _ [l IH]]; [by eexists|]. cbn [fst snd] in Eo. subst.
  cbn [snapshot_records]. rewrite IH. eauto.
Qed.

(** Marking a republication: nothing, or new times in an entry. *)
Lemma republish_mark_effect t1 t2 nm reg :
  reg_ok reg ->
  exists reg', republish_mark t1 t2 nm reg = Ret reg' /\
    (reg' = reg \/ exists m live, reg_registry reg = Some m /\ m !! nm = Some (Some live)
       /\ reg' = with_registry reg (Some (<[nm := Some
            (MkReg (g_Name live) (g_Root live) (g_Owner live) (g_RegisteredAt live) (Unix t2) (UnixNano t1))]> m))).
Proof.
  intros (m & Em & Hm). unfold republish_mark.
  rewrite Em. cbn [map_lookup]. destruct (m !! nm) as [o|] eqn:El; [|by eexists; split; [|left]].
  destruct (Hm _ _ El) as (live & -> & _). eexists. split; [done|]. right. eauto.
Qed.

Lemma step_ok p l out :
  step p l out -> reg_ok (ps_reg p) -> exists p', out = Ret p' /\ reg_ok (ps_reg p').
Proof.
  intros Hs Hok. pose proof (reg_ok_no_nil _ Hok) as Hn.
  destruct Hs as [e rq rs effs reg s Hs|e rq rs Hs|entries _ Hp|t rec l Hp|t1 t2 nm l Hp|io _].
  - destruct (serve_returns e rq (ps_reg p) (ps_node p) Hn) as (? & ? & ? & ? & E & Hc).
    rewrite E in Hs. simplify_eq. eexists. split; [done|]. by eapply change_ok.
  - destruct (serve_returns e rq (ps_reg p) (ps_node p) Hn) as (? & ? & ? & ? & E & _). congruence.
  - destruct Hok as (m & Em & Hm). rewrite Em in Hp. cbn [default] in Hp.
    destruct (snapshot_records_ok entries) as [l ->]; [|eexists; split; [done|by exists m]].
    rewrite Hp. apply Forall_forall. intros [k o] Hin%elem_of_map_to_list. by apply Hm.
  - destruct (republish_publish t rec _) as [ok s]. by eexists.
  - destruct (republish_mark_effect t1 t2 nm (ps_reg p) Hok)
      as (reg' & -> & [->|(m & live & Em & Hl & ->)]); (eexists; split; [done|]); [done|].
    destruct Hok as (m' & Em' & Hm). simplify_eq. eexists. split; [done|]. apply map_Forall_insert_2; [|done].
    destruct (Hm _ _ Hl) as (r & [= <-] & P1 & P2 & P3 & P4 & P5 & P6 & _).
    eexists. split; [done|]. split_and!; try done; apply int64_range.
  - eexists. split; [done|]. by destruct Hok as (m & Em & Hm); exists m.
Qed.

Lemma run_ok p ls q : run p ls q -> reg_ok (ps_reg p) -> reg_ok (ps_reg q).
Proof.
  induction 1 as [|ls q l q' Hr IH Hs]; [done|]. intros Hok.
  destruct (step_ok _ _ _ Hs (IH Hok)) as (q2 & [= <-] & ?). done.
Qed.

(** C24 (registrar.go, [Start], all handlers, [republishAll]): in every state that
    requests and steps of the background pass lead to, in whatever order, each
    entry of the registry is stored under its own name, a publishable name that
    ends in .alt, with a content key as its root and times that fit 64 bits; and
    no request and no step of a pass from there panics. *)
Theorem registry_invariant (p q : process) (ls : list label) :
  reg_ok (ps_reg p) -> run p ls q ->
  reg_ok (ps_reg q) /\ forall l, ~ step q l Panic.
Proof.
  intros Hok Hr. pose proof (run_ok _ _ _ Hr Hok) as Hq. split; [done|].
  intros l Hs. by destruct (step_ok _ _ _ Hs Hq) as (? & ? & _).
Qed.

(** ** The abstract registry: who owns which name, and where it points *)

Abbreviation ownership := (gmap bytes (bytes * bytes)).

Definition owned (o : option RegistrationRecord) : bytes * bytes :=
  match o with Some r => (g_Owner r, g_Root r) | None => ([], []) end.

Definition abs (reg : Registrar) : ownership := owned <$> default ∅ (reg_registry reg).

Inductive op :=
| OpRegister (name owner root : bytes)
| OpUpdate (name root : bytes)
| OpUnregister (name : bytes)
| OpRevoke (name : bytes)
| OpNone.

(** What an operation does; [None] where it is not allowed. *)
Definition apply_op (o : op) (m : ownership) : option ownership :=
  match o with
  | OpRegister k w root => match m !! k with Some _ => None | None => Some (<[k := (w, root)]> m) end
  | OpUpdate k root => match m !! k with Some (w, _) => Some (<[k := (w, root)]> m) | None => None end
  | OpUnregister k => match m !! k with Some _ => Some (delete k m) | None => None end
  | OpRevoke k => Some (delete k m)
  | OpNone => Some m
  end.

(** The operation a request and its response stand for. *)
Definition op_of (rq : Request) (rs : Response) : op :=
  match target rq with
  | ServeAt ep =>
      if negb (committed ep (rs_Status rs)) then OpNone else
      match ep with
      | AtRegister =>
          match (Decode (rq_Body rq) : option RegisterRequest) with
          | Some req => OpRegister (CanonicalName (rr_Name req)) (rr_Owner req) (rr_Root req)
          | None => OpNone
          end
      | AtUpdate =>
          match (Decode (rq_Body rq) : option UpdateRequest) with
          | Some req => OpUpdate (CanonicalName (ur_Name req)) (ur_Root req)
          | None => OpNone
          end
      | AtUnregister =>
          match (Decode (rq_Body rq) : option NameRequest) with
          | Some req => OpUnregister (CanonicalName (nr_Name req))
          | None => OpNone
          end
      | AtRevoke =>
          match (Decode (rq_Body rq) : option NameRequest) with
          | Some req => OpRevoke (CanonicalName (nr_Name req))
          | None => OpNone
          end
      | _ => OpNone
      end
  | _ => OpNone
  end.

Definition label_op (l : label) : op :=
  match l with LRequest _ rq rs => op_of rq rs | LBackground _ => OpNone end.

Fixpoint spec_run (ls : list label) (m : ownership) : option ownership :=
  match ls with
  | [] => Some m
  | l :: ls => match apply_op (label_op l) m with Some m => spec_run ls m | None => None end
  end.

Lemma spec_run_snoc ls l m m' :
  spec_run ls m = Some m' -> spec_run (ls ++ [l]) m = apply_op (label_op l) m'.
Proof.
  revert m. induction ls as [|l' ls IH]; intros m; cbn [spec_run app].
  - intros [= ->]. by destruct (apply_op _ _).
  - destruct (apply_op (label_op l') m); [apply IH|done].
Qed.

Lemma abs_drop io reg k : abs (drop_entry io reg k) = delete k (abs reg).
Proof.
  unfold abs. cbn. destruct (reg_registry reg) as [m|]; cbn; [by rewrite fmap_delete|by rewrite fmap_empty, delete_empty].
Qed.

Lemma change_refines e rq rs reg reg' :
  change e rq rs reg reg' -> apply_op (op_of rq rs) (abs reg) = Some (abs reg').
Proof.
  intros Hc. unfold op_of.
  destruct Hc as [Hno|m req rootKey [Hg _] Hst Em Hd Hi k Hv Hk Hn|m req rootKey rec [Hg _] Hst Em Hd Hi k Hk
    |req [Hg _] Hst Hd Hk|req [Hg _] Hst Hd].
  - destruct (target rq) as [ep| |]; [|done..]. by rewrite (Hno ep eq_refl).
  - rewrite Hg, Hst, Hd. assert (abs reg = owned <$> m) as -> by (unfold abs; by rewrite Em).
    cbn -[abs]. fold k. rewrite lookup_fmap, Hk. cbn -[abs].
    unfold abs. cbn. rewrite fmap_insert. done.
  - rewrite Hg, Hst, Hd. assert (abs reg = owned <$> m) as -> by (unfold abs; by rewrite Em).
    cbn -[abs]. fold k. rewrite lookup_fmap, Hk. cbn -[abs].
    unfold abs. cbn. rewrite fmap_insert. done.
  - rewrite Hg, Hst, Hd, abs_drop. cbn -[abs].
    destruct Hk as [o Hk]. destruct (reg_registry reg) as [m|] eqn:Em; [|done]. cbn [map_lookup] in Hk.
    assert (abs reg !! CanonicalName (nr_Name req) = Some (owned o)) as ->; [|done].
    unfold abs. rewrite Em. cbn. by rewrite lookup_fmap, Hk.
  - rewrite Hg, Hd, abs_drop. by destruct Hst as [-> | ->].
Qed.

Lemma republish_abs reg m k live r :
  reg_registry reg = Some m -> m !! k = Some (Some live) ->
  g_Owner r = g_Owner live -> g_Root r = g_Root live ->
  abs (with_registry reg (Some (<[k := Some r]> m))) = abs reg.
Proof.
  intros Em Hk Ho Hr. unfold abs. rewrite Em. cbn.
  rewrite fmap_insert. apply insert_id. rewrite lookup_fmap, Hk. cbn. by rewrite Ho, Hr.
Qed.

Lemma step_refines p l q :
  reg_ok (ps_reg p) -> step p l (Ret q) -> apply_op (label_op l) (abs (ps_reg p)) = Some (abs (ps_reg q)).
Proof.
  intros Hok Hs. remember (Ret q) as out eqn:Eo.
  destruct Hs as [e rq rs effs reg s Hs|e rq rs Hs|entries _ Hp|t rec l Hp|t1 t2 nm l Hp|io _]; simplify_eq.
  - destruct (serve_returns e rq (ps_reg p) (ps_node p) (reg_ok_no_nil _ Hok)) as (? & ? & ? & ? & E & Hc).
    rewrite E in Hs. simplify_eq. by apply (change_refines e).
  - destruct (snapshot_records entries); [|done]. by simplify_eq.
  - destruct (republish_publish t rec _) as [ok s]. by simplify_eq.
  - destruct (republish_mark_effect t1 t2 nm (ps_reg p) Hok)
      as (reg' & Er & [->|(m & live & Em & Hl & ->)]); rewrite Er in Eo; simplify_eq;
      cbn [label_op apply_op ps_reg]; [done|]. by rewrite (republish_abs _ m _ live).
  - done.
Qed.

(** C8 (registrar.go, all handlers, [republishAll]): the registrar implements a map
    from names to owner and root.  Along any interleaving of requests and
    background steps, a 201 to a registration takes a free name, a 200 to an
    update keeps the owner and sets the root, a 200 to a removal takes an existing
    name away, a revocation takes the name away even when it cannot be signed (500),
    and nothing else, in particular no refused request and no republication, changes
    an owner or a root. *)
Theorem registry_refines_ownership (p q : process) (ls : list label) :
  reg_ok (ps_reg p) -> run p ls q -> spec_run ls (abs (ps_reg p)) = Some (abs (ps_reg q)).
Proof.
  intros Hok. induction 1 as [|ls q l q' Hr IH Hs]; [done|]. rewrite (spec_run_snoc _ _ _ _ IH).
  apply step_refines; [by eapply run_ok|done].
Qed.

(** ** Authentication *)

(** C23 (registrar.go, [requireAuth], [corsMiddleware], all handlers): a request that
    does not carry the token leaves the registrar as it was, its file and the
    statistics included, and broadcasts nothing; unless it is an availability check,
    the node is untouched as well, and an endpoint answers it with 401 or 405 and
    an error only. *)
Theorem token_required (e : env) (rq : Request) (reg reg' : Registrar) (s s' : S) (rs : Response)
    (effs : list effect) :
  requireAuth reg rq <> Allowed -> serve e rq (reg, s) = Ret (rs, effs, (reg', s')) ->
  reg' = reg /\ effs = []
  /\ (target rq <> ServeAt AtCheck ->
        s' = s /\ forall ep, target rq = ServeAt ep ->
          (rs_Status rs = 401 \/ rs_Status rs = 405) /\ exists err, rs_Body rs = BError err).
Proof.
  intros Ha Hs. unfold target in *. unfold serve, reply in Hs. case_bool_decide; [naive_solver|].
  destruct (route (rq_Method rq) (rq_Path rq)) as [ep|p|]; [|naive_solver..].
  assert (forall method h, guarded method rq (reg, s) h = Ret (rs, effs, (reg', s')) ->
    reg' = reg /\ effs = [] /\ s' = s /\ (rs_Status rs = 401 \/ rs_Status rs = 405)
    /\ exists err, rs_Body rs = BError err) as Hg.
  { intros method h. unfold guarded, fails. cbn [fst]. destruct (negb _); [intros [= <- <- <- <-]|].
    - split_and!; try done; [by right|by eexists].
    - destruct (requireAuth reg rq) as [|err]; [done|]. intros [= <- <- <- <-].
      split_and!; try done; [by left|by eexists]. }
  destruct ep; cbn [dispatch] in Hs;
    try (apply Hg in Hs as (-> & -> & -> & ? & ?); (split; [done|]); (split; [done|]); intros _; (split; [done|]); by intros).
  clear Hg. unfold handleCheck, reply, fails in Hs.
  split; [|split; [|by intros []]]; repeat case_match; simplify_eq; done.
Qed.

(** ** Restarts *)

(** What strings.ToLower is documented to give: each character's lower case, so
    text in UTF-8. *)
Definition lower_utf8 : Prop := forall s, utf8_valid (unicode_ToLower s) = true.

(** What of a record its owner relies on; the other two fields are the time and
    the version of the last publication. *)
Definition kept_fields (o : option RegistrationRecord) : option (bytes * bytes * bytes * Z) :=
  (fun r => (g_Name r, g_Root r, g_Owner r, g_RegisteredAt r)) <$> o.

Definition view (m : registry_map) : gmap bytes (option (bytes * bytes * bytes * Z)) := kept_fields <$> m.

Definition file_of (reg : Registrar) : read_file :=
  match reg_fs reg !! reg_path reg with None => NoFile | Some data => FileData data end.

Definition map_ok (m : registry_map) : Prop :=
  map_Forall (fun k o => entry_ok k o /\ utf8_valid k = true) m.

(** The registry is in order, and so is what its file holds, which agrees with it
    on the fields above. *)
Definition durable (reg : Registrar) : Prop :=
  reg_path reg <> [] /\ exists m m0, reg_registry reg = Some m /\ map_ok m
    /\ load (file_of reg) = Some (Some m0) /\ map_ok m0 /\ view m0 = view m.

Definition disk_works (io : save_io) : Prop := io_write io = Written /\ io_rename io = true.

Definition disk_of (l : label) : Prop :=
  match l with
  | LRequest e _ _ => disk_works (en_io e)
  | LBackground (Some io) => disk_works io
  | LBackground None => True
  end.

Lemma map_ok_reg_ok reg m : reg_registry reg = Some m -> map_ok m -> reg_ok reg.
Proof. intros Em Hm. exists m. split; [done|]. intros k o Hk. by apply Hm. Qed.

Lemma IDFromHex_utf8 s : is_ok (IDFromHex s) = true -> utf8_valid s = true.
Proof.
  destruct (IDFromHex s) as [n|] eqn:E; [|done]. intros _. apply Hex_IDFromHex in E as [E _].
  apply utf8_valid_ascii. pose proof (Hex_lower_plain n) as Hl. rewrite E in Hl.
  assert (forallb is_ascii (map lower_byte s) = true) as Ha.
  { revert Hl. apply forallb_impl. unfold lower_plain, GoStrings.plain. intros b Hb. by zbool. }
  rewrite <- Ha. symmetry. apply forallb_map_eq. apply lower_byte_ascii.
Qed.

Lemma map_ok_fine m : map_ok m -> registry_fine m.
Proof.
  intros Hm k o Hk. destruct (Hm k o Hk) as [(r & -> & <- & _ & _ & Hroot & Ho & P4 & P5 & P6) Hu].
  split; [done|]. intros r' [= <-]. split_and!; try done. by apply IDFromHex_utf8.
Qed.

Lemma CanonicalName_utf8 s : lower_utf8 -> utf8_valid (CanonicalName s) = true.
Proof.
  intros Hu. unfold CanonicalName. assert (utf8_valid (ToLower (TrimSpace s)) = true) as Hv.
  { unfold ToLower. destruct (forallb is_ascii (TrimSpace s)) eqn:Ea; [|apply Hu].
    apply utf8_valid_ascii. rewrite <- Ea. apply forallb_map_eq. apply lower_byte_ascii. }
  destruct (HasSuffix (ToLower (TrimSpace s)) [dot]) eqn:Es.
  - apply HasSuffix_spec in Es as [t E]. rewrite E in Hv |- *. rewrite TrimSuffix_app.
    by apply (utf8_valid_snoc (length t) t dot).
  - by rewrite TrimSuffix_none.
Qed.

(** After a save that succeeds, the file holds the registry. *)
Lemma durable_saved io reg m :
  reg_path reg <> [] -> disk_works io -> reg_registry reg = Some m -> map_ok m -> durable (reg_save io reg).
Proof.
  intros Hp [Hw Hr] Em Hm. split; [done|]. exists m, m. cbn [reg_save reg_registry].
  split_and!; try done. unfold file_of. cbn [reg_save reg_fs reg_path]. rewrite save_file by done.
  rewrite Hw, Hr, Em. by apply load_saved, map_ok_fine.
Qed.

Lemma reg_ok_map_ok reg m :
  reg_ok reg -> reg_registry reg = Some m -> map_Forall (fun k _ => utf8_valid k = true) m -> map_ok m.
Proof. intros (m' & Em' & Hm) Em Hu k o Hk. simplify_eq. by split; [apply Hm|eapply Hu]. Qed.

Lemma map_ok_utf8 m : map_ok m -> map_Forall (fun k _ => utf8_valid k = true) m.
Proof. intros Hm k o Hk. by apply (Hm k o). Qed.

Lemma forget_durable reg k : durable reg -> durable (forget reg k).
Proof. done. Qed.

Lemma change_durable e rq rs reg reg' :
  lower_utf8 -> disk_works (en_io e) -> change e rq rs reg reg' -> durable reg -> durable reg'.
Proof.
  intros Hlow Hio Hc Hdur. pose proof Hdur as (Hp & m0 & mf & Em0 & Hm0 & _).
  pose proof (change_ok _ _ _ _ _ Hc (map_ok_reg_ok _ _ Em0 Hm0)) as Hok.
  pose proof (map_ok_utf8 _ Hm0) as Hu.
  destruct Hc as [_|m req rootKey Hg _ Em Hd Hi k Hv Hk Hn|m req rootKey rec Hg _ Em Hd Hi k Hk|req _ _ _ _|req _ _ _].
  - done.
  - simplify_eq. eapply durable_saved; [done|done|done|]. eapply reg_ok_map_ok; [exact Hok|done|].
    apply map_Forall_insert_2; [by apply CanonicalName_utf8|done].
  - simplify_eq. eapply durable_saved; [done|done|done|]. eapply reg_ok_map_ok; [exact Hok|done|].
    apply map_Forall_insert_2; [by apply (Hu _ _ Hk)|done].
  - apply forget_durable. eapply durable_saved; [done|done|cbn; by rewrite Em0|].
    eapply reg_ok_map_ok; [exact Hok|cbn; by rewrite Em0|by apply map_Forall_delete].
  - apply forget_durable. eapply durable_saved; [done|done|cbn; by rewrite Em0|].
    eapply reg_ok_map_ok; [exact Hok|cbn; by rewrite Em0|by apply map_Forall_delete].
Qed.

Lemma step_durable p l q :
  lower_utf8 -> disk_of l -> step p l (Ret q) -> durable (ps_reg p) -> durable (ps_reg q).
Proof.
  intros Hlow Hio Hs Hdur. pose proof Hdur as (Hp & m & m0 & Em & Hm & Hl & Hm0 & Hvw).
  pose proof (map_ok_reg_ok _ _ Em Hm) as Hok. remember (Ret q) as out eqn:Eo. pose proof Hs as Hs'.
  destruct Hs as [e rq rs effs reg s Hs|e rq rs Hs|entries _ _|t rec l Hpe|t1 t2 nm l Hpe|io _]; simplify_eq.
  - destruct (serve_returns e rq (ps_reg p) (ps_node p) (reg_ok_no_nil _ Hok)) as (? & ? & ? & ? & E & Hc).
    rewrite E in Hs. simplify_eq. by eapply change_durable.
  - destruct (snapshot_records entries); [|done]. by simplify_eq.
  - destruct (republish_publish t rec _) as [ok s]. by simplify_eq.
  - destruct (republish_mark_effect t1 t2 nm (ps_reg p) Hok)
      as (reg' & Er & [->|(m' & live & Em' & Hlive & ->)]); rewrite Er in Eo; simplify_eq; [done|].
    rewrite Er in Hs'. destruct (step_ok _ _ _ Hs' Hok) as (q & [= <-] & Hok').
    split; [done|]. eexists _, m0. split; [done|]. split_and!; [|done|done|].
    + eapply reg_ok_map_ok; [exact Hok'|done|].
      apply map_Forall_insert_2; [by apply (Hm _ _ Hlive)|by apply map_ok_utf8].
    + rewrite Hvw. unfold view. rewrite fmap_insert. symmetry. apply insert_id.
      by rewrite lookup_fmap, Hlive.
  - by eapply durable_saved.
Qed.

(** C19 (registrar.go, [save], [load], [NewWithDataDir]): while the disk works,
    requests and background steps in any order keep the file loadable, and a
    registrar started on it has every registered name with its root, its owner
    and its registration time, and no other; only the time and the version of the
    last publication can be older.  The new registrar is again such a state, so
    the same holds across any number of restarts. *)
Theorem registry_survives_restart (p q : process) (ls : list label) (dataDir : bytes) :
  lower_utf8 -> durable (ps_reg p) -> run p ls q -> Forall disk_of ls ->
  dataDir <> [] -> reg_path (ps_reg q) = path_Join dataDir (bs "registrar.json") ->
  exists reg m m0,
    NewWithDataDir (reg_id (ps_reg q)) (reg_token (ps_reg q)) dataDir true true (reg_fs (ps_reg q)) = Some reg
    /\ reg_registry (ps_reg q) = Some m /\ reg_registry reg = Some m0 /\ view m0 = view m /\ durable reg.
Proof.
  intros Hlow Hdur Hr Hio Hd Hpath.
  assert (durable (ps_reg q)) as (Hp & m & m0 & Em & Hm & Hl & Hm0 & Hvw).
  { clear Hpath. induction Hr as [|ls q l q' Hr IH Hs]; [done|]. apply Forall_app in Hio as [Hio Hl].
    eapply step_durable; [done| |done|by apply IH]. by inversion Hl. }
  unfold NewWithDataDir, is_nil. rewrite bool_decide_eq_false_2 by done. cbn [negb]. cbv zeta.
  rewrite <- Hpath. fold (file_of (ps_reg q)).
  rewrite Hl. eexists _, m, m0. split_and!; try done.
  split; [done|]. exists m0, m0. by split_and!.
Qed.

(** A registrar started on an empty directory. *)
Lemma fresh_durable id token dataDir fs reg :
  dataDir <> [] -> fs !! path_Join dataDir (bs "registrar.json") = None ->
  path_Join dataDir (bs "registrar.json") <> [] ->
  NewWithDataDir id token dataDir true true fs = Some reg -> durable reg.
Proof.
  intros Hd Hf Hp. unfold NewWithDataDir, is_nil. rewrite bool_decide_eq_false_2 by done. cbn [negb].
  rewrite Hf. cbn [load]. intros [= <-]. split; [done|]. exists ∅, ∅.
  unfold file_of. cbn [reg_registry reg_fs reg_path]. rewrite Hf. by split_and!.
Qed.

End Process.

(** ** Revoking a published site *)

Section Revoking.
Context `{GoUnicode} `{Ed25519} {S : Type}.
Context `{CLaws : ContentStoreLaws S inv roomy keeps} `{NameService S} `{NLaws : !NameServiceLaws S inv keeps trusted}.

Abbreviation keeps_all := (Files.keeps_all (keeps := keeps)).

(** [seen] is the set of what [out] lists, each once. *)
Definition acc_ok (acc : gset bytes * list bytes) : Prop :=
  NoDup (snd acc) /\ forall h, h ∈ fst acc <-> h ∈ snd acc.

Lemma add_hash_ok acc h :
  acc_ok acc -> acc_ok (add_hash acc h) /\ forall x, x ∈ snd (add_hash acc h) <-> x ∈ snd acc \/ x = h.
Proof.
  intros [Hn Hs]. unfold add_hash. case_bool_decide as Hin; cbn [fst snd].
  - split; [done|]. intros x. split; [by left|]. intros [?| ->]; [done|by apply Hs].
  - split; [split|]; cbn [fst snd].
    + apply NoDup_app. split_and!; [done| |apply NoDup_singleton]. intros x Hx ->%list_elem_of_singleton.
      by apply Hin, Hs.
    + intros x. rewrite elem_of_union, elem_of_app, elem_of_singleton, list_elem_of_singleton, (Hs x). tauto.
    + intros x. by rewrite elem_of_app, list_elem_of_singleton.
Qed.

Lemma add_hashes_ok acc hs :
  acc_ok acc ->
  acc_ok (foldl add_hash acc hs) /\ forall x, x ∈ snd (foldl add_hash acc hs) <-> x ∈ snd acc \/ x ∈ hs.
Proof.
  revert acc. induction hs as [|h hs IH]; intros acc Ha; cbn [foldl].
  { split; [done|]. intros x. rewrite elem_of_nil. tauto. }
  destruct (add_hash_ok acc h Ha) as [Ha1 Hx1]. destruct (IH _ Ha1) as [Ha2 Hx2]. split; [done|].
  intros x. rewrite Hx2, Hx1, elem_of_cons. tauto.
Qed.

Definition address_hex (b : bytes) : bytes := Hex (ContentAddress b).

(** The walk over the entries of a kept directory. *)
Lemma collect_entries_kept fl s acc kept :
  inv s -> keeps_all s kept -> all_blobs fl ⊆ kept -> Forall (fun f => len (snd f) < 2 ^ 63) fl -> acc_ok acc ->
  let out := fst (collect_entries s (entry_of <$> fl) acc) in
  NoDup out /\ forall h, h ∈ out <-> h ∈ snd acc \/ h ∈ address_hex <$> all_blobs fl.
Proof.
  intros Hi Hk Hs Hf Ha. revert s acc Hi Hk Hs Ha.
  induction Hf as [|[rel data] fl Hl Hf IH]; intros s acc Hi Hk Hs Ha.
  { split; [apply Ha|]. intros h. change (all_blobs []) with (@nil bytes). rewrite fmap_nil, elem_of_nil. cbn. tauto. }
  rewrite all_blobs_cons in Hs |- *. cbn [snd] in *. rewrite fmap_cons.
  cbn [collect_entries entry_of de_ManifestKey snd]. rewrite IDFromHex_Hex.
  apply list_subseteq_app_iff_l in Hs as [Hsb Hs].
  destruct (get_of_kept s (Marshal (manifest_of data)) kept Hi Hk) as (s1 & -> & Hi1 & Hk1); [by apply Hsb; left|].
  rewrite manifest_roundtrip by done. cbv zeta.
  destruct (add_hash_ok acc (address_hex (Marshal (manifest_of data))) Ha) as [Ha1 Hx1].
  destruct (add_hashes_ok _ (fm_Chunks (manifest_of data)) Ha1) as [Ha2 Hx2].
  destruct (IH s1 _ Hi1 Hk1 Hs Ha2) as [Hn Hx]. split; [done|].
  intros h. rewrite Hx, Hx2, Hx1, fmap_app. unfold blobs. rewrite fmap_cons. cbn [fm_Chunks manifest_of].
  change ((fun c => Hex (ContentAddress c)) <$> chunks data) with (address_hex <$> chunks data).
  rewrite elem_of_app, elem_of_cons. tauto.
Qed.

Lemma collect_site s nm rec fl :
  inv s -> keeps_all s (Marshal (directory_of fl) :: all_blobs fl) ->
  Forall (fun f => utf8_valid (fst f) = true /\ len (snd f) < 2 ^ 63) fl ->
  fst (ns_resolve s nm) = Ok rec -> r_Root rec = address_hex (Marshal (directory_of fl)) ->
  let out := fst (collectChunkHashes s nm) in
  NoDup out /\ forall h, h ∈ out <-> h ∈ address_hex <$> (Marshal (directory_of fl) :: all_blobs fl).
Proof.
  intros Hi Hk Hf Hres Hroot. cbv zeta. unfold collectChunkHashes.
  pose proof (resolve_inv s nm Hi) as Hi1.
  assert (keeps_all (snd (ns_resolve s nm)) (Marshal (directory_of fl) :: all_blobs fl)) as Hk1.
  { eapply Forall_impl; [exact Hk|]. intros b Hb. by apply resolve_keeps. }
  destruct (ns_resolve s nm) as [r s1]. cbn [fst snd] in *. subst r.
  unfold RootKey. rewrite Hroot. unfold address_hex. rewrite !IDFromHex_Hex. cbv zeta.
  destruct (get_of_kept s1 (Marshal (directory_of fl)) _ Hi1 Hk1) as (s2 & -> & Hi2 & Hk2); [by left|].
  rewrite directory_fine by done. destruct (directory_entries fl) as (fl' & -> & Hp).
  set (h0 := Hex (ContentAddress (Marshal (directory_of fl)))) in *.
  destruct (collect_entries_kept fl' s2 ({[h0]}, [h0]) _ Hi2 Hk2) as [Hn Hx].
  - rewrite (all_blobs_perm _ _ Hp). by intros b Hb; right.
  - rewrite <- Hp. eapply Forall_impl; [exact Hf|]. by intros f [_ ?].
  - split; cbn [fst snd]; [apply NoDup_singleton|]. intros h.
    by rewrite elem_of_singleton, list_elem_of_singleton.
  - split; [exact Hn|]. intros h. etrans; [exact (Hx h)|]. cbn [snd]. rewrite (all_blobs_perm _ _ Hp).
    change (h ∈ [h0] \/ h ∈ address_hex <$> all_blobs fl' <-> h ∈ h0 :: (address_hex <$> all_blobs fl')).
    rewrite !elem_of_cons, elem_of_nil. tauto.
Qed.

(** C22 (registrar.go, [handleRevoke], [collectChunkHashes]; revoke.go, [SignRevoke]):
    when the node keeps a published directory and the name resolves to its root, an
    authenticated revocation answers 200 and broadcasts one message: a revocation
    of that name, signed with the registrar's key, that lists the hash of every
    blob of the site (directory, manifests and chunks), each once, and no other;
    and the registry no longer has the name. *)
Theorem revoke_covers_site (e : env) (rq : Request) (reg : Registrar) (s : S) (req : NameRequest)
    (rec : NameRecord) (fl : list (bytes * bytes)) (nonce : bytes) :
  let nm := CanonicalName (nr_Name req) in
  rq_Method rq = bs "POST" -> requireAuth reg rq = Allowed -> Decode (rq_Body rq) = Some req ->
  en_rand e = Some nonce -> id_wf (reg_id reg) ->
  inv s -> keeps_all s (Marshal (directory_of fl) :: all_blobs fl) ->
  Forall (fun f => utf8_valid (fst f) = true /\ len (snd f) < 2 ^ 63) fl ->
  CanonicalName nm = nm ->
  fst (ns_resolve s nm) = Ok rec -> r_Root rec = address_hex (Marshal (directory_of fl)) ->
  exists rs reg' s' p,
    handleRevoke e rq (reg, s) = Ret (rs, [Broadcast (mk_message (bs "dht_revoke") (Marshal p))], (reg', s'))
    /\ rs_Status rs = 200 /\ map_lookup (reg_registry reg') nm = None
    /\ rp_PublicKey p = PublicKeyToHex (PublicKey (reg_id reg))
    /\ is_ok (Verify (PublicKey (reg_id reg)) (canonical_of p) (rp_Signature p)) = true
    /\ NoDup (rp_Chunks p)
    /\ forall h, h ∈ rp_Chunks p <-> h ∈ address_hex <$> (Marshal (directory_of fl) :: all_blobs fl).
Proof.
  intros nm Hm Ha Hd Hr Hid Hi Hk Hf Hc Hres Hroot.
  destruct (collect_site s nm rec fl Hi Hk Hf Hres Hroot) as [Hn Hx].
  destruct (resolve_record s nm rec Hres) as (Hv & _). pose proof (valid_lower_plain nm Hv) as Hl. rewrite Hc in Hl.
  unfold handleRevoke, guarded, decoded. rewrite Hm, bool_decide_eq_true_2 by done. cbn [negb fst].
  rewrite Ha, Hd. fold nm. destruct (collectChunkHashes s nm) as [out s1]. cbn [fst] in Hn, Hx. cbv zeta.
  assert (normalise <$> out = out) as Hno.
  { rewrite <- (list_fmap_id out) at 2. apply list_fmap_ext. intros i h Hh. apply normalise_plain.
    apply list_elem_of_lookup_2, Hx, list_elem_of_fmap in Hh as (b & -> & _). apply Hex_lower_plain. }
  set (reg' := forget _ nm). change (reg_id reg') with (reg_id reg).
  destruct (SignRevoke (reg_id reg) nm out (en_rand e) (Unix (en_now e))) as [p|err] eqn:Es.
  2:{ unfold SignRevoke in Es. rewrite Hr, TrimSpace_lower_plain, bool_decide_eq_false_2 in Es; [done| |done].
      intros E. rewrite E in Hv. by vm_compute in Hv. }
  pose proof (broadcast_message s1 p) as Hb. destruct (ns_broadcast s1 p) as [effs s2]. cbn [fst] in Hb. subst effs.
  destruct (SignRevoke_verifies _ _ _ _ _ _ Hid Es) as [_ Hver].
  { intros x [-> | Hxin]%elem_of_cons; rewrite !normalise_plain; rewrite ?normalise_plain; try done.
    all: apply Hx, list_elem_of_fmap in Hxin as (b & -> & _); apply Hex_lower_plain. }
  eexists _, reg', s2, p. split; [done|]. split; [done|].
  unfold SignRevoke in Es. case_bool_decide; [done|]. rewrite Hr in Es. injection Es as Ep.
  rewrite Hver, <- Ep. cbn [rp_PublicKey rp_Chunks]. rewrite Hno, sort_Strings_perm.
  split_and!; try done.
  - cbn. destruct (reg_registry reg); [|done]. cbn. by rewrite lookup_delete_eq.
  - intros h. by rewrite sort_Strings_perm.
Qed.

End Revoking.

(** ** The availability check and publishing disagree on some names *)

Section Availability.
Context `{GoUnicode} `{Ed25519} {S : Type} `{ContentStore S}.
Context `{Laws : NameServiceLaws S inv keeps trusted}.

(** (registrar.go, [ValidateDomain], [handleCheck], [handleRegister]): a name that
    passes [ValidateDomain], which leaves the rules on labels to the name package but
    does not call it, and is not valid there, is reported as available, while its
    registration always fails with 500. *)
Theorem unpublishable_name_available (e : env) (reg : Registrar) (s : S) (k : bytes)
    (rq rq' : Request) (req : RegisterRequest) :
  ValidateDomain k = None -> validName k <> Ok tt -> CanonicalName k = k ->
  map_lookup (reg_registry reg) k = None ->
  rq_Method rq = bs "GET" -> rq_Path rq = bs "/api/check/" ++ k ->
  rq_Method rq' = bs "POST" -> requireAuth reg rq' = Allowed -> Decode (rq_Body rq') = Some req ->
  rr_Name req = k -> is_ok (IDFromHex (rr_Root req)) = true ->
  (exists s', handleCheck rq (reg, s) = reply 200 (BCheck (MkCheck k true [] [] None)) (reg, s'))
  /\ exists s' b, handleRegister e rq' (reg, s) = reply 500 b (reg, s').
Proof.
  intros Hd Hv Hc Hl Hm Hp Hm' Ha Hdec Hn Hroot. split.
  - unfold handleCheck. rewrite Hm, Hp, bool_decide_eq_true_2 by done. cbn [negb]. rewrite TrimPrefix_app.
    assert (is_nil k = false) as -> by by destruct k.
    rewrite Hc, Hd, Hl. pose proof (resolve_record s k) as Hr.
    destruct (ns_resolve s k) as [[rec|] s']; [|by eexists]. by destruct (Hr rec eq_refl) as (? & _).
  - unfold handleRegister, guarded, decoded. rewrite Hm', bool_decide_eq_true_2 by done. cbn [negb fst].
    rewrite Ha, Hdec, Hn, Hc, Hd, Hl. destruct (IDFromHex (rr_Root req)) as [root|]; [|done].
    pose proof (publish_record s (reg_id reg) k root (UnixNano (en_now e))) as Hpub.
    destruct (ns_publish _ _ _ _ _) as [[rec|] s']; [|by eexists _, _]. by destruct (Hpub rec eq_refl) as (? & _).
Qed.

End Availability.

(** ** Concrete runs: a node with an empty network behind the registrar *)

Module Runs.

Definition wall (unix : Z) : Time := (62135596800 + unix) * Second.

#[local] Instance store_here : ContentStore node := node_ContentStore quiet.
#[local] Instance names_here : NameService node :=
  node_NameService quiet (fun _ => 1700000000) None (fun s => elements s).

Definition calm (unix : Z) : env :=
  MkEnv (wall unix) (MkSaveIO Written true true) (Some (zeros 16)) (fun _ => (None, [])).

Definition boss : Registrar :=
  default (New (toy_identity Byte.x07) [] ∅)
    (NewWithDataDir (toy_identity Byte.x07) (bs "secret") (bs "/data") true true ∅).

Definition post (path : string) (b : bytes) : Request :=
  MkRequest (bs "POST") (bs path) (bs "Bearer secret") b.

Definition register_panmox : Request :=
  post "/api/register" (Marshal (MkRegisterRequest (bs "Panmox.ALT") (Hex (key_of 4)) (bs "pan"))).

Definition update_panmox : Request :=
  post "/api/update" (Marshal (MkUpdateRequest (bs "panmox.alt") (Hex (key_of 5)))).

Definition after (e : env) (rq : Request) (p : process) : process :=
  match serve e rq (ps_reg p, ps_node p) with
  | Ret (_, _, (reg, s)) => MkProcess reg s (ps_pass p)
  | Panic => p
  end.

Definition status (e : env) (rq : Request) (p : process (S := node)) : Z :=
  match serve e rq (ps_reg p, ps_node p) with Ret (rs, _, _) => rs_Status rs | Panic => 0 end.

Lemma after_step e rq p st :
  status e rq p = st -> st <> 0 ->
  exists rs, step p (LRequest e rq rs) (Ret (after e rq p)) /\ rs_Status rs = st.
Proof.
  unfold status, after. intros Hst Hne.
  destruct (serve e rq (ps_reg p, ps_node p)) as [[[rs effs] [reg s]]|] eqn:Es; [|by subst].
  exists rs. split; [by eapply step_request|done].
Qed.

Definition start : process := MkProcess boss carol_node Resting.
Definition registered : process := after (calm 1700000000) register_panmox start.

Lemma registered_status : status (calm 1700000000) register_panmox start = 201.
Proof. by vm_compute. Qed.

Lemma registered_run :
  exists rs, rs_Status rs = 201 /\ run start [LRequest (calm 1700000000) register_panmox rs] registered.
Proof.
  destruct (after_step _ _ _ _ registered_status ltac:(done)) as (rs & Hs & Hst).
  exists rs. split; [done|]. exact (run_snoc _ [] _ _ _ (run_nil _) Hs).
Qed.

Lemma boss_durable : durable boss.
Proof. by apply (fresh_durable (toy_identity Byte.x07) (bs "secret") (bs "/data") ∅). Qed.

Lemma boss_ok : reg_ok boss.
Proof. destruct boss_durable as (_ & m & _ & Em & Hm & _). by eapply map_ok_reg_ok. Qed.

Lemma registry_invariant_witness : reg_ok (ps_reg registered) /\ forall l, ~ step registered l Panic.
Proof.
  destruct registered_run as (rs & _ & Hr).
  exact (registry_invariant start registered _ boss_ok Hr).
Defined.

Lemma registry_refines_ownership_witness :
  exists ls, run start ls registered /\ spec_run ls (abs (ps_reg start)) = Some (abs (ps_reg registered))
    /\ abs (ps_reg registered) !! bs "panmox.alt" = Some (bs "pan", Hex (key_of 4)).
Proof.
  destruct registered_run as (rs & _ & Hr). eexists. split; [exact Hr|]. split; [|by vm_compute].
  exact (registry_refines_ownership start registered _ boss_ok Hr).
Defined.

Lemma ascii_lower_utf8 : lower_utf8.
Proof.
  intros s. apply utf8_valid_ascii. cbn [unicode_ToLower ascii_Unicode]. induction s as [|b s IH]; [done|].
  cbn [map forallb]. rewrite IH, andb_true_r. destruct (is_ascii b) eqn:E; [by rewrite lower_byte_ascii|done].
Qed.

Lemma registry_survives_restart_witness :
  exists reg m m0,
    NewWithDataDir (reg_id (ps_reg registered)) (reg_token (ps_reg registered)) (bs "/data") true true
      (reg_fs (ps_reg registered)) = Some reg
    /\ reg_registry (ps_reg registered) = Some m /\ reg_registry reg = Some m0 /\ view m0 = view m /\ durable reg.
Proof.
  destruct registered_run as (rs & _ & Hr).
  refine (registry_survives_restart start registered _ (bs "/data") ascii_lower_utf8 boss_durable Hr _ _ _).
  - apply List.Forall_cons; [by split|apply List.Forall_nil].
  - done.
  - by vm_compute.
Defined.

Lemma intruder_denied :
  requireAuth boss (MkRequest (bs "POST") (bs "/api/unregister") (bs "Bearer guess") []) <> Allowed.
Proof. by vm_compute. Qed.

Lemma token_required_witness :
  exists rs s', serve (calm 1700000000) (MkRequest (bs "POST") (bs "/api/unregister") (bs "Bearer guess") [])
    (boss, carol_node) = Ret (rs, [], (boss, s')).
Proof.
  destruct (serve_returns (calm 1700000000) (MkRequest (bs "POST") (bs "/api/unregister") (bs "Bearer guess") [])
    boss carol_node (reg_ok_no_nil _ boss_ok)) as (rs & effs & reg' & s' & Es & _).
  destruct (token_required _ _ _ _ _ _ _ _ intruder_denied Es) as (E1 & E2 & _).
  exists rs, s'. rewrite <- E1 at 2. rewrite <- E2. exact Es.
Defined.

(** ** A lost update *)

Definition entries_of (p : process (S := node)) := map_to_list (default ∅ (reg_registry (ps_reg p))).

(** A pass takes its copies; a pass publishes one. *)
Definition copy_step (p : process) : outcome process :=
  match snapshot_records (entries_of p) with
  | Ret l => Ret (MkProcess (ps_reg p) (ps_node p) (Publishing l))
  | Panic => Panic
  end.

Definition publish_step (t : Time) (p : process) : outcome process :=
  match ps_pass p with
  | Publishing (rec :: l) =>
      let '(ok, s) := republish_publish t rec (ps_reg p, ps_node p) in
      Ret (MkProcess (ps_reg p) s (if ok : bool then Marking (g_Name rec) t l else Publishing l))
  | _ => Panic
  end.

Definition get_process (p : process (S := node)) (o : outcome process) : process :=
  match o with Ret q => q | Panic => p end.

Definition returned (o : outcome (process (S := node))) : bool := match o with Ret _ => true | Panic => false end.

Lemma copy_step_spec p :
  ps_pass p = Resting -> returned (copy_step p) = true -> step p (LBackground None) (Ret (get_process p (copy_step p))).
Proof.
  intros Hp. pose proof (step_snapshot p (entries_of p) Hp (reflexivity _)) as Hs. unfold copy_step.
  destruct (snapshot_records (entries_of p)); [by intros _|done].
Qed.

Lemma publish_step_spec t p :
  returned (publish_step t p) = true -> step p (LBackground None) (Ret (get_process p (publish_step t p))).
Proof.
  unfold publish_step. destruct (ps_pass p) as [|[|rec l]|] eqn:Ep; try done.
  pose proof (step_publish p t rec l Ep) as Hs.
  by destruct (republish_publish t rec (ps_reg p, ps_node p)) as [ok s].
Qed.

Definition copied : process := get_process registered (copy_step registered).
Definition moved : process := after (calm 1700000100) update_panmox copied.
Definition overtaken : process := get_process moved (publish_step (wall 1700000200) moved).

Definition resolved_root (p : process) : option bytes :=
  match ns_resolve (ps_node p) (bs "panmox.alt") with (Ok rec, _) => Some (r_Root rec) | _ => None end.

(** The whole run at once: its states are computed one time. *)
Lemma overtaken_run :
  let c := copied in
  let m := after (calm 1700000100) update_panmox c in
  let o := publish_step (wall 1700000200) m in
  let p := get_process m o in
  returned (copy_step registered) = true
  /\ status (calm 1700000100) update_panmox c = 200
  /\ resolved_root m = Some (Hex (key_of 5))
  /\ returned o = true
  /\ resolved_root p = Some (Hex (key_of 4))
  /\ abs (ps_reg p) !! bs "panmox.alt" = Some (bs "pan", Hex (key_of 5)).
Proof. by vm_compute. Qed.

Lemma after_pass e rq p : ps_pass (after e rq p) = ps_pass p.
Proof. unfold after. by destruct (serve e rq (ps_reg p, ps_node p)) as [[[rs effs] [reg s]]|]. Qed.

(** (registrar.go, [republishAll]): a pass publishes the copies it made at its start.
    When the owner updates a name in between (the update answers 200, and the name
    resolves to the new root), the pass publishes the old root again under a newer
    version: the name resolves to the old root although the registry has the new
    one, until the next pass a day later. *)
Theorem republish_undoes_update :
  exists rs p, step registered (LBackground None) (Ret copied)
    /\ rs_Status rs = 200 /\ step copied (LRequest (calm 1700000100) update_panmox rs) (Ret moved)
    /\ resolved_root moved = Some (Hex (key_of 5))
    /\ step moved (LBackground None) (Ret p)
    /\ resolved_root p = Some (Hex (key_of 4))
    /\ abs (ps_reg p) !! bs "panmox.alt" = Some (bs "pan", Hex (key_of 5)).
Proof.
  destruct overtaken_run as (Hc & Hst & Hm & Ho & Hp).
  destruct (after_step _ _ _ _ Hst ltac:(done)) as (rs & Hs & Hrs).
  exists rs, overtaken. split; [exact (copy_step_spec _ (after_pass _ _ start) Hc)|]. split; [exact Hrs|].
  split; [exact Hs|]. split; [exact Hm|]. split; [exact (publish_step_spec _ _ Ho)|exact Hp].
Qed.

(** ** A published, named and revoked site *)

Definition site_blobs_here : list bytes := Marshal (directory_of site) :: all_blobs site.

Definition site_root : NodeID := ContentAddress (Marshal (directory_of site)).

Definition named (p : result files_error (NodeID * Directory) * node) : node :=
  snd (ns_publish (snd p) (toy_identity Byte.x07) (bs "panmox.alt") site_root 5).

Definition live : node := named (PublishDir carol_node (Some true) (items_of site)).

Lemma Equal_neq a b : negb (Equal a b) = true -> a <> b.
Proof. intros E ->. by rewrite Equal_spec, bool_decide_eq_true_2 in E. Qed.

Lemma live_keeps : node_inv live /\ Files.keeps_all (keeps := node_keeps) live site_blobs_here.
Proof.
  destruct site_published as (root & dir & s1 & E). unfold live, store_here. rewrite E. unfold named. cbn [snd].
  destruct (PublishDir_keeps (Laws := node_laws quiet) carol_node s1 site root dir carol_inv carol_roomy site_blobs E)
    as (_ & _ & Hi & Hk).
  split; [exact (publish_inv (keeps := node_keeps) (trusted := None) s1 _ _ _ _ Hi)|].
  assert (forallb (fun b => negb (Equal (ContentAddress b) (RecordKey (bs "panmox.alt")))) site_blobs_here = true)
    as Hb by by vm_compute.
  rewrite forallb_Forall_true in Hb. unfold Files.keeps_all in *. rewrite Forall_forall in Hk, Hb |- *.
  intros b Hin. exact (publish_keeps (trusted := None) s1 _ _ _ _ _ _ Hi (Equal_neq _ _ (Hb b Hin)) (Hk b Hin)).
Qed.

Lemma live_resolves_b :
  match ns_resolve live (bs "panmox.alt") with
  | (Ok rec, _) => bool_decide (r_Root rec = Hex site_root)
  | _ => false
  end = true.
Proof. by vm_compute. Qed.

Lemma live_resolves :
  exists rec, fst (ns_resolve live (bs "panmox.alt")) = Ok rec /\ r_Root rec = Hex site_root.
Proof.
  pose proof live_resolves_b as Hb. destruct (ns_resolve live (bs "panmox.alt")) as [[rec|] s]; [|discriminate Hb].
  exists rec. split; [reflexivity|]. exact (bool_decide_eq_true_1 _ Hb).
Qed.

Definition revoke_panmox : Request := post "/api/revoke" (Marshal (MkNameRequest (bs "panmox.alt"))).

Lemma site_text : Forall (fun f => utf8_valid (fst f) = true /\ len (snd f) < 2 ^ 63) site.
Proof. repeat (apply List.Forall_cons; [by vm_compute|]). apply List.Forall_nil. Qed.

Lemma panmox_canonical : CanonicalName (bs "panmox.alt") = bs "panmox.alt".
Proof. by vm_compute. Qed.

Lemma revoke_covers_site_witness :
  exists rs reg' s' p,
    handleRevoke (calm 1700000300) revoke_panmox (boss, live)
    = Ret (rs, [Broadcast (mk_message (bs "dht_revoke") (Marshal p))], (reg', s'))
    /\ rs_Status rs = 200
    /\ forall h, h ∈ rp_Chunks p <-> h ∈ address_hex <$> site_blobs_here.
Proof.
  destruct live_resolves as (rec & Hres & Hroot). destruct live_keeps as [Hi Hk].
  destruct (revoke_covers_site (CLaws := node_laws quiet) (NLaws := node_ns_laws quiet _ None _)
    (calm 1700000300) revoke_panmox boss live (MkNameRequest (bs "panmox.alt")) rec site (zeros 16)
    eq_refl eq_refl eq_refl eq_refl (toy_identity_wf _) Hi Hk site_text panmox_canonical Hres Hroot)
    as (rs & reg' & s' & p & E & Hst & _ & _ & _ & _ & Hx).
  exists rs, reg', s', p. split; [exact E|]. split; [exact Hst|]. exact Hx.
Defined.

Lemma unpublishable_name_available_witness :
  exists s', handleCheck (MkRequest (bs "GET") (bs "/api/check/-.alt") [] []) (boss, carol_node)
    = reply 200 (BCheck (MkCheck (bs "-.alt") true [] [] None)) (boss, s').
Proof.
  exact (proj1 (unpublishable_name_available (Laws := node_ns_laws quiet _ None _) (calm 1700000000) boss carol_node
    (bs "-.alt") (MkRequest (bs "GET") (bs "/api/check/-.alt") [] [])
    (post "/api/register" (Marshal (MkRegisterRequest (bs "-.alt") (Hex (key_of 4)) (bs "pan"))))
    (MkRegisterRequest (bs "-.alt") (Hex (key_of 4)) (bs "pan"))
    eq_refl ltac:(by vm_compute) eq_refl eq_refl eq_refl eq_refl eq_refl eq_refl ltac:(by vm_compute) eq_refl eq_refl)).
Defined.

End Runs.
