(* ===== verification/Renewal.v ===== *)
(** * Keeping names alive (apps/registrar/registrar.go, [republishLoop])

    A name record is signed for seven days; the registrar signs and publishes every
    registered name again ten seconds after its start and then once a day.  The
    pass itself is [republishAll] of Registrar.v. *)

From S2P Require Import Prelude GoStrings Encoding Json Sha256 Crypto Peer Revoke NodeId.
From S2P Require Import Blocklist Store Routing DhtWire Dht Lookup Name ContentStore NameService Files.
From S2P Require Import RateLimit SiteStats Registry Registrar.

Definition startupDelay : Z := 10 * Second.

(** When the pass [i] begins, for a process started at [start]: the ticker is made
    after the first pass, which takes [first]. *)
Definition pass_time (start first : Time) (i : nat) : Time :=
  match i with
  | O => start + startupDelay
  | _ => start + startupDelay + first + Z.of_nat i * republishInterval
  end.

Section Loop.
Context {S : Type} `{ContentStore S} `{NameService S}.

(** The first [n] passes.  [clock i] are the readings during pass [i], [io i] how its
    save ends, [order i] the order in which the registry is ranged over. *)
Fixpoint republishLoop (clock : nat -> nat -> Time) (io : nat -> save_io)
    (order : nat -> go_registry -> list (bytes * option RegistrationRecord)) (n : nat)
    (st : Registrar * S) : outcome (Registrar * S) :=
  match n with
  | O => Ret st
  | Datatypes.S n =>
      match republishLoop clock io order n st with
      | Panic => Panic
      | Ret st => republishAll (clock n) (io n) (order n (reg_registry st.1)) st
      end
  end.

End Loop.

(** * Facts *)

Section Lasting.
Context `{GoUnicode} `{Ed25519}.

Lemma unix_mono a b : a <= b -> unix_of a <= unix_of b.
Proof. unfold unix_of. intros Hab. apply Z.sub_le_mono_r, Z.div_le_mono; [done|]. done. Qed.

Lemma unix_shift a n : unix_of (a + n * Second) = unix_of a + n.
Proof. unfold unix_of. rewrite Z.div_add by done. lia. Qed.

(** Instants whose Unix time is a positive number of 62 bits. *)
Definition datable (t : Time) : Prop := 0 <= unix_of t < 2 ^ 62.

Lemma Unix_datable t : datable t -> Unix t = unix_of t.
Proof. intros Ht. unfold Unix, datable in *. apply int64_id. unfold in_int64. lia. Qed.

Lemma week : 7 * republishInterval = DefaultNameTTL * Second.
Proof. reflexivity. Qed.

(** (registrar.go, [republishLoop], [republishAll]; name.go, [Publish], [Expired],
    [pickBestRecord]): a renewed name outlives six missed passes.  A record signed during
    the pass [i] after the first is accepted by every node's vote, whose clock agrees,
    until the pass [i + 7] begins, so the name goes on resolving when the six passes in
    between fail; more than seven days and a second after it was signed it is rejected as
    expired. *)
Theorem renewed_name_lasts (id : Identity) (name : bytes) (root : NodeID) (version : Z)
    (trusted : option (gset bytes)) (start first : Time) (i : nat) (now t : Time) :
  id_wf id -> validName name = Ok tt -> in_int64 version ->
  registrarAllowed trusted (PublicKeyToHex (PublicKey id)) = true ->
  datable now -> datable t -> (1 <= i)%nat -> pass_time start first i <= now <= t ->
  let rec := new_record id name root version DefaultNameTTL (Unix now) in
  (t <= pass_time start first (i + 7) -> eligible trusted (Unix t) (CanonicalName name) (Marshal rec) = Ok rec)
  /\ (now + 7 * republishInterval + Second <= t ->
      eligible trusted (Unix t) (CanonicalName name) (Marshal rec) = Err RejectExpired).
Proof.
  intros Hid Hv Hver Hreg Hnow Ht Hi [Hpass Hle]. cbv zeta. rewrite (Unix_datable now Hnow), (Unix_datable t Ht).
  set (rec := new_record id name root version DefaultNameTTL (unix_of now)).
  pose proof (unix_mono now t Hle) as Hm. unfold datable in *.
  assert (in_int64 (unix_of now) /\ in_int64 DefaultNameTTL) as [H64 Httl].
  { unfold in_int64, DefaultNameTTL. split; lia. }
  assert (Expired rec (unix_of t) = (unix_of now + DefaultNameTTL <? unix_of t)) as He.
  { unfold Expired, rec. cbn [r_Timestamp r_TTL new_record record_Sign record_with_Sig].
    rewrite !int64_id by (unfold in_int64, MaxClockSkew, DefaultNameTTL; lia).
    destruct (Z.ltb_spec (unix_of t + MaxClockSkew) (unix_of now)); [unfold MaxClockSkew in *; lia|]. done. }
  split.
  - intros Hend. apply new_record_eligible; try done. fold rec. rewrite He. apply Z.ltb_ge.
    rewrite <- unix_shift, <- week. apply unix_mono. unfold pass_time in *. destruct i as [|i]; [lia|].
    change (Datatypes.S i + 7)%nat with (Datatypes.S (i + 7)) in Hend.
    unfold republishInterval, Hour, Minute in *. lia.
  - intros Hlate. unfold eligible.
    rewrite (Unmarshal_Marshal (fine := record_fine) rec) by (by apply new_record_fine).
    rewrite bool_decide_eq_true_2 by done. cbn [negb]. unfold rec at 1, new_record. rewrite record_Verify_Sign by done. cbn [negb].
    change (r_PublicKey rec) with (PublicKeyToHex (PublicKey id)). rewrite Hreg. cbn [negb]. rewrite He.
    rewrite (proj2 (Z.ltb_lt _ _)); [done|].
    assert (unix_of now + DefaultNameTTL + 1 <= unix_of t); [|lia].
    replace (unix_of now + DefaultNameTTL + 1) with (unix_of (now + (DefaultNameTTL + 1) * Second)) by (rewrite unix_shift; lia).
    apply unix_mono. rewrite Z.mul_add_distr_r, <- week. lia.
Qed.

End Lasting.

(** ** A concrete week *)

Module Week.

(** The process starts at the beginning of the year 2024. *)
Definition boot_time : Time := (62135596800 + 1704067200) * Second.
Definition third_day : Time := pass_time boot_time Second 3.
Definition tenth_day : Time := pass_time boot_time Second 10.

Lemma third_day_datable : datable third_day.
Proof. split; vm_compute; discriminate || reflexivity. Qed.

Lemma tenth_day_datable : datable tenth_day.
Proof. split; vm_compute; discriminate || reflexivity. Qed.

Lemma week_name : validName (bs "panmox.alt") = Ok tt.
Proof. by vm_compute. Qed.

Lemma renewed_name_lasts_witness :
  let rec := new_record alice (bs "panmox.alt") (ContentAddress []) 1 DefaultNameTTL (Unix third_day) in
  eligible None (Unix tenth_day) (CanonicalName (bs "panmox.alt")) (Marshal rec) = Ok rec.
Proof.
  apply (renewed_name_lasts alice (bs "panmox.alt") (ContentAddress []) 1 None boot_time Second 3 third_day tenth_day
    alice_wf week_name ltac:(unfold in_int64; lia) eq_refl third_day_datable tenth_day_datable ltac:(lia)).
  - split; vm_compute; discriminate.
  - apply Z.le_refl.
Defined.

End Week.
