(* ===== verification/Gateway.v ===== *)
(** * The HTTP gateway (apps/gateway/gateway.go)

    Routing by host or path, resolving a name, finding a file in a directory and
    streaming it, with the limits in front.  The node is any [ContentStore] and
    [NameService].  Parameters: the host's table of content types, the content
    sniffer of net/http, and the text of an error.  A request is taken without
    percent-escapes and without conditional headers; of the [Range] header, a
    single range that is already parsed. *)

From S2P Require Import Prelude GoStrings Encoding Json JsonIndent Sha256 Crypto Peer Revoke NodeId.
From S2P Require Import Blocklist Store Routing DhtWire Dht Lookup Name ContentStore NameService Files RateLimit.
From S2P Require SiteStats.
From S2P Require Import Utf8 Registry Registrar.

(** ** Options *)

Definition DefaultPerIPRate : Z := 20.
Definition DefaultPerIPBurst : Z := 40.
Definition DefaultMaxConcurrent : Z := 256.

Record Options := MkOptions { PerIPRate : Z; PerIPBurst : Z; MaxConcurrent : Z }.

(** [gw_sem]: capacity and tokens of the semaphore, [None] for a nil channel. *)
Record Gateway := MkGateway {
  gw_limiter : ipRateLimiter;
  gw_sem : option (nat * nat);
  gw_stats : option SiteStats.Stats
}.

Definition or_default (v d : Z) : Z := if v =? 0 then d else v.

Definition NewWithOptions (opts : Options) (now : Time) : Gateway :=
  let rate := or_default (PerIPRate opts) DefaultPerIPRate in
  let burst := or_default (PerIPBurst opts) DefaultPerIPBurst in
  let max := or_default (MaxConcurrent opts) DefaultMaxConcurrent in
  MkGateway (newIPRateLimiter rate burst now)
    (if 0 <? max then Some (Z.to_nat max, 0%nat) else None) None.

Definition New (now : Time) : Gateway := NewWithOptions (MkOptions 0 0 0) now.

Definition SetStats (g : Gateway) (r : option SiteStats.Stats) : Gateway :=
  MkGateway (gw_limiter g) (gw_sem g) r.

(** ** Requests and responses *)

Record http_request := MkHttp {
  h_Method : bytes;
  h_Host : bytes;
  h_Path : bytes;
  h_RemoteAddr : bytes;
  h_Range : option (Z * Z)      (* the header "bytes=first-last" *)
}.

Inductive gw_error :=
| GRateLimit | GBusy | GMethod | GResolve (name : bytes) (e : name_error) | GBadRecordRoot | GBadRootHash
| GFetchDirectory (e : dht_error) | GMalformedDirectory | GNotFound | GBadManifestKey
| GFetchFile (e : files_error) | GSeek | GRange.

Record http_response := MkHttpResponse {
  p_Status : Z;
  p_ContentType : bytes;
  p_ETag : bytes;
  p_Body : bytes;
  p_Location : bytes
}.

(** ** Host and path *)

(** net.SplitHostPort *)
Definition SplitHostPort (hp : bytes) : option (bytes * bytes) :=
  match LastIndexByte hp Byte.x3a with
  | None => None
  | Some i =>
      let finish host j k :=
        if bool_decide (is_Some (IndexByte (drop j hp) Byte.x5b)) then None
        else if bool_decide (is_Some (IndexByte (drop k hp) Byte.x5d)) then None
        else Some (host, drop (i + 1) hp) in
      if bool_decide (head hp = Some Byte.x5b) then
        match IndexByte hp Byte.x5d with
        | None => None
        | Some e => if (e + 1 =? i)%nat then finish (take (e - 1) (drop 1 hp)) 1%nat (e + 1)%nat else None
        end
      else
        let host := take i hp in
        if bool_decide (is_Some (IndexByte host Byte.x3a)) then None else finish host 0%nat 0%nat
  end.

Definition remoteIP (r : http_request) : bytes :=
  match SplitHostPort (h_RemoteAddr r) with
  | None => h_RemoteAddr r
  | Some (host, _) => host
  end.

Definition isResolvableHost (host : bytes) : bool :=
  match host with
  | [] => false
  | c :: _ =>
      if bool_decide (host = bs "localhost") then false
      else if in_range 0x30 0x39 c then false
      else if bool_decide (c = Byte.x5b) then false
      else Contains host (bs ".")
  end.

Definition splitHead (p : bytes) : bytes * bytes :=
  match IndexByte p slash with
  | None => (p, [])
  | Some idx => (take idx p, drop (idx + 1) p)
  end.

(** The host the routing of [handle] works with. *)
Definition bare_host (h : bytes) : bytes :=
  let host := match LastIndexByte h Byte.x3a with Some i => take i h | None => h end in
  TrimSuffix host (bs ".").

(** filepath.Ext: from the last dot of the last element. *)
Fixpoint ext_rev (l : bytes) (acc : bytes) : bytes :=
  match l with
  | [] => []
  | b :: l =>
      if bool_decide (b = slash) then []
      else if bool_decide (b = dot) then b :: acc
      else ext_rev l (b :: acc)
  end.

Definition Ext (path : bytes) : bytes := ext_rev (rev path) [].

Section Serving.
Context `{GoUnicode} `{Ed25519} {S : Type} `{ContentStore S} `{NameService S}.
Context (mime_type : bytes -> bytes) (detect : bytes -> bytes) (error_text : gw_error -> bytes).

Definition error_type : bytes := bs "text/plain; charset=utf-8".

(** [http.Error], [http.NotFound] *)
Definition http_Error (e : gw_error) (code : Z) : http_response :=
  MkHttpResponse code error_type [] (error_text e ++ [Byte.x0a]) [].

(** [io.CopyN] from the reader: blocks of at most 32 KiB until [n] bytes or an
    error.  Every turn that does not end the loop copies at least one byte. *)
Fixpoint copy_loop (fuel : nat) (s : S) (cr : ChunkReader) (n : Z) (out : bytes) : bytes * S :=
  match fuel with
  | O => (out, s)
  | Datatypes.S fuel =>
      if n <=? 0 then (out, s) else
      match Read s cr (Z.to_nat (Z.min (32 * 1024) n)) with
      | (Err _, _, s) => (out, s)
      | (Ok p, cr, s) => copy_loop fuel s cr (n - len p) (out ++ p)
      end
  end.

Definition copyN (s : S) (cr : ChunkReader) (n : Z) : bytes * S := copy_loop (Z.to_nat n) s cr n [].

(** The span of a range request in content of a size: net/http's [parseRange] for
    one range, and what [serveContent] makes of it. *)
Inductive span := Whole | Part (start length : Z) | Unsatisfiable.

Definition parseRange (r : option (Z * Z)) (size : Z) : span :=
  match r with
  | None => Whole
  | Some (first, last) =>
      if size <=? first then (if size =? 0 then Whole else Unsatisfiable)
      else if last <? first then Unsatisfiable
      else Part first (Z.min last (size - 1) - first + 1)
  end.

(** [http.ServeContent]: the size by seeking to the end, then the span. *)
Definition ServeContent (r : http_request) (ct etag : bytes) (s : S) (cr : ChunkReader)
  : http_response * S :=
  let ok code body := MkHttpResponse code ct etag body [] in
  let head := bool_decide (h_Method r = bs "HEAD") in
  match Seek cr 0 SeekEnd with
  | (Err _, _) => (http_Error GSeek 500, s)
  | (Ok size, cr) =>
      match Seek cr 0 SeekStart with
      | (Err _, _) => (http_Error GSeek 500, s)
      | (Ok _, cr) =>
          match parseRange (h_Range r) size with
          | Unsatisfiable => (http_Error GRange 416, s)
          | Whole => if head then (ok 200 [], s) else let '(body, s) := copyN s cr size in (ok 200 body, s)
          | Part start length =>
              match Seek cr start SeekStart with
              | (Err _, _) => (http_Error GRange 416, s)
              | (Ok _, cr) =>
                  if head then (ok 206 [], s) else let '(body, s) := copyN s cr length in (ok 206 body, s)
              end
          end
      end
  end.

Definition index_html : bytes := bs "index.html".

Definition serveFromRoot (r : http_request) (s : S) (rootKey : NodeID) (subPath : bytes) : http_response * S :=
  match cs_get s rootKey with
  | (Err e, s) => (http_Error (GFetchDirectory e) 502, s)
  | (Ok blob, s) =>
      match (Unmarshal blob : option Directory) with
      | None => (http_Error GMalformedDirectory 502, s)
      | Some dir =>
          let subPath := if is_nil subPath || HasSuffix subPath [slash]
                         then path_Join subPath index_html else subPath in
          match list_find (fun e => de_Path e = subPath) (dir_Entries dir) with
          | None => (http_Error GNotFound 404, s)
          | Some (_, entry) =>
              match IDFromHex (de_ManifestKey entry) with
              | Err _ => (http_Error GBadManifestKey 502, s)
              | Ok manifestKey =>
                  match NewChunkReader s manifestKey with
                  | (Err e, s) => (http_Error (GFetchFile e) 502, s)
                  | (Ok reader, s) =>
                      let etag := [Byte.x22] ++ de_ManifestKey entry ++ [Byte.x22] in
                      let ct := mime_type (Ext subPath) in
                      if is_nil ct then
                        let '(sniffed, reader, s) := Read s reader 512 in
                        let ct := detect (match sniffed with Ok p => p | Err _ => [] end) in
                        let '(_, reader) := Seek reader 0 SeekStart in
                        ServeContent r ct etag s reader
                      else ServeContent r ct etag s reader
                  end
              end
          end
      end
  end.

Definition serveCID (r : http_request) (s : S) (hexRoot subPath : bytes) : http_response * S :=
  match IDFromHex hexRoot with
  | Err _ => (http_Error GBadRootHash 400, s)
  | Ok rootKey => serveFromRoot r s rootKey subPath
  end.

(** With a recorder, the bytes that go through [sizeTrackingWriter] are recorded
    under the name of the request, at Unix time [now]. *)
Definition serveName (g : Gateway) (now : Z) (r : http_request) (s : S) (name_ subPath : bytes)
  : http_response * Gateway * S :=
  match ns_resolve s name_ with
  | (Err e, s) => (http_Error (GResolve name_ e) 404, g, s)
  | (Ok rec, s) =>
      match RootKey rec with
      | Err _ => (http_Error GBadRecordRoot 502, g, s)
      | Ok rootKey =>
          let '(resp, s) := serveFromRoot r s rootKey subPath in
          match gw_stats g with
          | Some st =>
              (resp, SetStats g (Some (SiteStats.stats_Record st now name_ (remoteIP r) (len (p_Body resp)))), s)
          | None => (resp, g, s)
          end
      end
  end.

(** The page is fixed text with the node's identifier. *)
Context (landing_page : bytes).

Definition serveLanding : http_response :=
  MkHttpResponse 200 (bs "text/html; charset=utf-8") [] landing_page [].

Definition handle (g : Gateway) (now : Z) (r : http_request) (s : S) : http_response * Gateway * S :=
  if negb (bool_decide (h_Method r = bs "GET")) && negb (bool_decide (h_Method r = bs "HEAD"))
  then (http_Error GMethod 405, g, s) else
  let host := bare_host (h_Host r) in
  let urlPath := TrimPrefix (h_Path r) [slash] in
  if isResolvableHost host then serveName g now r s host urlPath
  else if is_nil urlPath then (serveLanding, g, s)
  else
    let '(hd, rest) := splitHead urlPath in
    if bool_decide (hd = bs "cid") then
      let '(hashPart, subPath) := splitHead rest in
      let '(resp, s) := serveCID r s hashPart subPath in (resp, g, s)
    else if bool_decide (hd = bs "n") then
      let '(nameStr, subPath) := splitHead rest in serveName g now r s nameStr subPath
    else (http_Error GNotFound 404, g, s).

(** ** Limits: [handleWithLimits] in two steps, the admission and the end of the
    request that was let in. *)

Inductive admission := LetIn | Refused (resp : http_response).

Definition admit_request (g : Gateway) (now : Time) (r : http_request) : admission * Gateway :=
  let '(limiter, ok) := allow (gw_limiter g) (remoteIP r) now in
  let g := MkGateway limiter (gw_sem g) (gw_stats g) in
  if negb ok then (Refused (http_Error GRateLimit 429), g) else
  match gw_sem g with
  | None => (LetIn, g)
  | Some (cap, used) =>
      if (used <? cap)%nat
      then (LetIn, MkGateway limiter (Some (cap, Datatypes.S used)) (gw_stats g))
      else (Refused (http_Error GBusy 503), g)
  end.

(** The deferred receive from the semaphore. *)
Definition release (g : Gateway) : Gateway :=
  MkGateway (gw_limiter g) ((fun cu => (fst cu, pred (snd cu))) <$> gw_sem g) (gw_stats g).

(** A request that meets no other. *)
Definition handleWithLimits (g : Gateway) (now : Time) (r : http_request) (s : S) : http_response * Gateway * S :=
  match admit_request g now r with
  | (Refused resp, g) => (resp, g, s)
  | (LetIn, g) =>
      let '(resp, g, s) := handle g (unix_of now) r s in (resp, release g, s)
  end.

(** The [http.ServeMux] of [Start] redirects a path that is not clean. *)
Definition serve_http (g : Gateway) (now : Time) (r : http_request) (s : S) : http_response * Gateway * S :=
  if negb (bool_decide (h_Method r = bs "CONNECT")) && negb (bool_decide (cleanPath (h_Path r) = h_Path r))
  then (MkHttpResponse StatusTemporaryRedirect [] [] [] (cleanPath (h_Path r)), g, s)
  else handleWithLimits g now r s.

End Serving.

(** * Facts *)

Section Streaming.
Context `{GoUnicode} `{Ed25519} {S : Type}.
Context `{CLaws : ReadLaws S inv keeps} `{NameService S} `{NLaws : !NameServiceLaws S inv keeps trusted}.
Context (mime_type : bytes -> bytes) (detect : bytes -> bytes) (error_text : gw_error -> bytes).
Context (landing_page : bytes).

Abbreviation keeps_all := (Files.keeps_all (keeps := keeps)).

Lemma take_app_drop {A} n m (l : list A) : (n <= m)%nat -> take m l = take n l ++ take (m - n) (drop n l).
Proof. intros Hm. rewrite <- (take_drop n (take m l)) at 1. rewrite take_take, skipn_firstn_comm. do 2 f_equal. lia. Qed.

(** Copying from a position inside a kept file gives its bytes from there. *)
Lemma copy_loop_kept fuel s cr data n out kept :
  inv s -> keeps_all s kept -> chunks data ⊆ kept -> reader_of data cr -> len data < 2 ^ 63 ->
  0 <= n -> cr_pos cr + n <= len data -> (Z.to_nat n <= fuel)%nat ->
  exists s', copy_loop fuel s cr n out = (out ++ take (Z.to_nat n) (drop (Z.to_nat (cr_pos cr)) data), s')
    /\ inv s' /\ keeps_all s' kept.
Proof.
  revert s cr n out. induction fuel as [|fuel IH]; intros s cr n out Hi Hk Hs Hr Hl Hn Hend Hf; cbn [copy_loop].
  { replace (Z.to_nat n) with 0%nat by lia. exists s. by rewrite take_0, app_nil_r. }
  destruct (Z.leb_spec n 0) as [|Hpos].
  { replace (Z.to_nat n) with 0%nat by lia. exists s. by rewrite take_0, app_nil_r. }
  pose proof (proj1 (proj2 Hr)) as Hp.
  pose proof (read_spec s cr data (Z.to_nat (Z.min (32 * 1024) n)) kept Hi Hk Hs Hr Hl ltac:(lia)) as Hread.
  rewrite (proj2 (Z.leb_gt _ _)) in Hread by lia. destruct Hread as (cr1 & s1 & Hread). cbv zeta in Hread.
  set (pos := Z.to_nat (cr_pos cr)) in *. set (m := Nat.min _ _) in Hread.
  destruct Hread as (-> & Hm & Ep & Hr1 & Hi1 & Hk1).
  assert (m <= length data - pos)%nat as Hmd by lia. assert (m <= Z.to_nat n)%nat as Hmn by lia.
  assert (len (take m (drop pos data)) = Z.of_nat m) as -> by (unfold len; rewrite length_take, length_drop; lia).
  destruct (IH s1 cr1 (n - Z.of_nat m) (out ++ take m (drop pos data)) Hi1 Hk1 Hs Hr1 Hl) as (s2 & -> & Hs2); [lia..|].
  exists s2. split; [|done]. f_equal. rewrite <- app_assoc. f_equal.
  rewrite (take_app_drop m (Z.to_nat n)) by lia. f_equal. rewrite drop_drop.
  replace (Z.to_nat (n - Z.of_nat m)) with (Z.to_nat n - m)%nat by lia.
  replace (Z.to_nat (cr_pos cr1)) with (pos + m)%nat by lia. done.
Qed.

(** What a GET for content should answer, by its range. *)
Definition content_answer (r : http_request) (data : bytes) : option (Z * bytes) :=
  match parseRange (h_Range r) (len data) with
  | Whole => Some (200, data)
  | Part start length => Some (206, take (Z.to_nat length) (drop (Z.to_nat start) data))
  | Unsatisfiable => None
  end.

Definition range_ok (r : http_request) : Prop :=
  match h_Range r with None => True | Some (first, _) => 0 <= first end.

Lemma reader_at data cr pos :
  reader_of data cr -> 0 <= pos < 2 ^ 63 -> reader_of data (with_pos cr pos).
Proof. by intros (E & _ & Hc) Hp. Qed.

Lemma ServeContent_kept r ct etag s cr data kept code body :
  inv s -> keeps_all s kept -> chunks data ⊆ kept -> reader_of data cr -> len data < 2 ^ 63 ->
  range_ok r -> content_answer r data = Some (code, body) ->
  exists s', ServeContent error_text r ct etag s cr
    = (MkHttpResponse code ct etag (if bool_decide (h_Method r = bs "HEAD") then [] else body) [], s').
Proof.
  intros Hi Hk Hs Hr Hl Hrange Ha. unfold ServeContent. pose proof Hr as (Em & _ & _).
  assert (Seek cr 0 SeekEnd = (Ok (len data), with_pos cr (len data))) as ->.
  { unfold Seek. rewrite Em. cbn [manifest_of fm_Size].
    rewrite Z.add_0_r, int64_id by (unfold in_int64, len in *; lia).
    by rewrite (proj2 (Z.ltb_ge _ _)) by (unfold len; lia). }
  assert (forall c p, 0 <= p -> Seek c p SeekStart = (Ok p, with_pos c p)) as Hseek.
  { intros c p Hp. unfold Seek. by rewrite (proj2 (Z.ltb_ge _ _)). }
  rewrite Hseek by done. unfold content_answer in Ha. unfold range_ok in Hrange.
  assert (0 <= len data) as Hl0 by (unfold len; lia).
  pose proof (eq_refl (parseRange (h_Range r) (len data))) as Hp. unfold parseRange at 2 in Hp.
  assert (forall start l, 0 <= start -> 0 <= l -> start + l <= len data -> start < 2 ^ 63 ->
    exists s', copyN s (with_pos (with_pos (with_pos cr (len data)) 0) start) l
      = (take (Z.to_nat l) (drop (Z.to_nat start) data), s')) as Hcopy.
  { intros start l H1' H2' H3' H4'.
    destruct (copy_loop_kept (Z.to_nat l) s (with_pos cr start) data l [] kept Hi Hk Hs
      (reader_at _ _ _ Hr (conj H1' H4')) Hl H2' H3' ltac:(lia)) as (s' & E & _). by exists s'. }
  destruct (parseRange (h_Range r) (len data)) as [|start l|]; [| |done]; injection Ha as <- <-.
  - destruct (bool_decide _); [by eexists|].
    destruct (Hcopy 0 (len data)) as (s' & E); [lia..|]. cbn [Z.to_nat] in E. rewrite drop_0, take_ge in E by (unfold len; lia).
    change (with_pos (with_pos (with_pos cr (len data)) 0) 0) with (with_pos (with_pos cr (len data)) 0) in E.
    rewrite E. by eexists.
  - destruct (h_Range r) as [[first last]|]; [|done].
    destruct (Z.leb_spec (len data) first); [by destruct (_ =? _)|]. destruct (Z.ltb_spec last first); [done|].
    injection Hp as -> ->. rewrite Hseek by done. destruct (bool_decide _); [by eexists|].
    destruct (Hcopy first (Z.min last (len data - 1) - first + 1)) as (s' & ->); [lia..|]. by eexists.
Qed.

(** The entry of a file of a directory with distinct paths. *)
Lemma find_entry (fl : list (bytes * bytes)) f :
  NoDup fl.*1 -> f ∈ fl ->
  exists i, list_find (fun e => de_Path e = fst f) (entry_of <$> fl) = Some (i, entry_of f).
Proof.
  intros Hn Hf. destruct (list_find_elem_of (fun e => de_Path e = fst f) (entry_of <$> fl) (entry_of f)) as [[i e] Hi];
    [by apply list_elem_of_fmap_2|done|].
  exists i. rewrite Hi. pose proof Hi as (Hl & He & _)%list_find_Some.
  rewrite list_lookup_fmap, fmap_Some in Hl. destruct Hl as (g & Hg & ->). cbn [entry_of de_Path] in He.
  apply list_elem_of_lookup in Hf as [j Hj]. do 2 f_equal. f_equal.
  assert (i = j) as ->; [|congruence].
  eapply NoDup_lookup; [exact Hn|rewrite list_lookup_fmap, Hg; done|rewrite list_lookup_fmap, Hj; cbn; by rewrite He].
Qed.

Definition requested (subPath : bytes) : bytes :=
  if is_nil subPath || HasSuffix subPath [slash] then path_Join subPath index_html else subPath.

Lemma serveFromRoot_kept r s fl f subPath code body :
  inv s -> keeps_all s (Marshal (directory_of fl) :: all_blobs fl) ->
  Forall (fun f => utf8_valid (fst f) = true /\ len (snd f) < 2 ^ 63) fl -> NoDup fl.*1 -> f ∈ fl ->
  requested subPath = fst f -> range_ok r -> content_answer r (snd f) = Some (code, body) ->
  exists ct etag s', serveFromRoot mime_type detect error_text r s (ContentAddress (Marshal (directory_of fl))) subPath
    = (MkHttpResponse code ct etag (if bool_decide (h_Method r = bs "HEAD") then [] else body) [], s').
Proof.
  intros Hi Hk Hfine Hnd Hf Hreq Hrange Hans. unfold serveFromRoot.
  set (kept := Marshal (directory_of fl) :: all_blobs fl) in *.
  destruct (get_of_kept s (Marshal (directory_of fl)) kept Hi Hk) as (s1 & -> & Hi1 & Hk1); [by left|].
  rewrite directory_fine by done. cbv zeta. fold (requested subPath). rewrite Hreq.
  destruct (directory_entries fl) as (fl' & -> & Hp).
  destruct (find_entry fl' f) as [i ->]; [by rewrite <- Hp|by rewrite <- Hp|].
  cbn [entry_of de_ManifestKey]. rewrite IDFromHex_Hex. unfold NewChunkReader.
  assert (blobs (snd f) ⊆ kept) as Hb.
  { intros b Hb. right. apply list_elem_of_In, in_concat. exists (blobs (snd f)).
    split; [|by apply list_elem_of_In]. apply list_elem_of_In. by apply (list_elem_of_fmap_2 (fun f => blobs (snd f))). }
  assert (chunks (snd f) ⊆ kept) as Hc by (intros b Hin; apply Hb; by right).
  assert (len (snd f) < 2 ^ 63) as Hl by (rewrite Forall_forall in Hfine; by apply (Hfine f Hf)).
  destruct (get_of_kept s1 (Marshal (manifest_of (snd f))) kept Hi1 Hk1) as (s2 & -> & Hi2 & Hk2);
    [by apply Hb; left|]. rewrite manifest_roundtrip by done.
  set (cr := MkReader (manifest_of (snd f)) _ 0 (-1) None).
  assert (reader_of (snd f) cr) as Hr by by split_and!.
  assert (forall s3 cr', reader_of (snd f) cr' -> inv s3 -> keeps_all s3 kept -> forall ct etag, exists ct' etag' s',
    ServeContent error_text r ct etag s3 cr' = (MkHttpResponse code ct' etag'
      (if bool_decide (h_Method r = bs "HEAD") then [] else body) [], s')) as Hserve.
  { intros s3 cr' Hr3 Hi3 Hk3 ct etag.
    destruct (ServeContent_kept r ct etag s3 cr' (snd f) kept code body Hi3 Hk3 Hc Hr3 Hl Hrange Hans) as (s' & E).
    eauto. }
  destruct (is_nil _); [|by apply Hserve].
  assert (exists sn cr' s3, Read s2 cr 512 = (sn, cr', s3) /\ reader_of (snd f) cr' /\ inv s3 /\ keeps_all s3 kept)
    as (sn & cr' & s3 & -> & Hr3 & Hi3 & Hk3).
  { pose proof (read_spec s2 cr (snd f) 512 kept Hi2 Hk2 Hc Hr Hl ltac:(lia)) as Hread.
    destruct (len (snd f) <=? cr_pos cr); [by eexists _, _, _|].
    destruct Hread as (cr' & s3 & E & _ & _ & ? & ? & ?). eexists _, _, _. by split_and!. }
  apply Hserve; [apply reader_at; [done|lia]|done|done].
Qed.

(** ** Serving a site *)

(** A request that names a site: by its host, or by a path under /n/. *)
Inductive names (r : http_request) : bytes -> bytes -> Prop :=
| by_host :
    isResolvableHost (bare_host (h_Host r)) = true ->
    names r (bare_host (h_Host r)) (TrimPrefix (h_Path r) [slash])
| by_path nm sub :
    isResolvableHost (bare_host (h_Host r)) = false -> slash ∉ nm ->
    h_Path r = bs "/n/" ++ nm ++ [slash] ++ sub -> names r nm sub.

Lemma splitHead_app a b : slash ∉ a -> splitHead (a ++ slash :: b) = (a, b).
Proof.
  intros Ha. unfold splitHead. rewrite IndexByte_app by done. rewrite take_app_length.
  rewrite drop_app_ge by lia. by replace (length a + 1 - length a)%nat with 1%nat by lia.
Qed.

Lemma handle_names g now r s nm sub :
  h_Method r = bs "GET" \/ h_Method r = bs "HEAD" -> names r nm sub ->
  handle mime_type detect error_text landing_page g now r s
  = serveName mime_type detect error_text g now r s nm sub.
Proof.
  intros Hm Hn. unfold handle.
  assert (negb (bool_decide (h_Method r = bs "GET")) && negb (bool_decide (h_Method r = bs "HEAD")) = false) as ->
    by by destruct Hm as [-> | ->].
  destruct Hn as [Hh|nm sub Hh Hs Hp]; cbv zeta; rewrite Hh; [done|]. rewrite Hp.
  change (bs "/n/" ++ nm ++ [slash] ++ sub) with ([slash] ++ (bs "n" ++ slash :: (nm ++ slash :: sub))).
  rewrite TrimPrefix_app. rewrite splitHead_app by by intros ?%list_elem_of_singleton.
  rewrite bool_decide_eq_false_2 by done. rewrite bool_decide_eq_true_2 by done. by rewrite splitHead_app.
Qed.

Lemma handle_serves (g : Gateway) (now : Z) (r : http_request) (s : S) (nm sub : bytes)
    (rec : NameRecord) (fl : list (bytes * bytes)) (f : bytes * bytes) (code : Z) (body : bytes) :
  inv s -> keeps_all s (Marshal (directory_of fl) :: all_blobs fl) ->
  Forall (fun f => utf8_valid (fst f) = true /\ len (snd f) < 2 ^ 63) fl -> NoDup fl.*1 -> f ∈ fl ->
  h_Method r = bs "GET" \/ h_Method r = bs "HEAD" -> names r nm sub -> requested sub = fst f ->
  fst (ns_resolve s nm) = Ok rec -> r_Root rec = address_hex (Marshal (directory_of fl)) ->
  range_ok r -> content_answer r (snd f) = Some (code, body) ->
  let out := if bool_decide (h_Method r = bs "HEAD") then [] else body in
  exists ct etag s',
    handle mime_type detect error_text landing_page g now r s
    = (MkHttpResponse code ct etag out [],
       SetStats g ((fun st => SiteStats.stats_Record st now nm (remoteIP r) (len out)) <$> gw_stats g), s').
Proof.
  intros Hi Hk Hfine Hnd Hf Hm Hn Hreq Hres Hroot Hrange Hans out. rewrite (handle_names g now r s nm sub Hm Hn).
  unfold serveName. pose proof (resolve_inv s nm Hi) as Hi1.
  assert (keeps_all (snd (ns_resolve s nm)) (Marshal (directory_of fl) :: all_blobs fl)) as Hk1.
  { eapply Forall_impl; [exact Hk|]. intros b Hb. by apply resolve_keeps. }
  destruct (ns_resolve s nm) as [res s1]. cbn [fst snd] in *. subst res.
  unfold RootKey. rewrite Hroot. unfold address_hex. rewrite IDFromHex_Hex.
  destruct (serveFromRoot_kept r s1 fl f sub code body Hi1 Hk1 Hfine Hnd Hf Hreq Hrange Hans) as (ct & etag & s' & ->).
  exists ct, etag, s'. fold out. cbn [p_Body]. destruct g as [lim sem [st|]]; done.
Qed.

(** C17 (gateway.go, [handle], [serveName], [serveFromRoot]; chunk reader of
    apps/files): when the node keeps a published directory and a name resolves to
    its root, a GET that names the site by its host, or under /n/, and asks for a
    file of it (a path that is empty or ends in a slash asks for the index.html
    there) is answered with that file's bytes, all of them with 200 or those of a
    satisfiable range with 206; a HEAD with the same status and no body.  With
    statistics on, the request is counted for the name it carried, with the
    address of the client and the bytes of the body. *)
Theorem gateway_serves_site (g : Gateway) (now : Z) (r : http_request) (s : S) (nm sub : bytes)
    (rec : NameRecord) (fl : list (bytes * bytes)) (f : bytes * bytes) (code : Z) (body : bytes) :
  inv s -> keeps_all s (Marshal (directory_of fl) :: all_blobs fl) ->
  Forall (fun f => utf8_valid (fst f) = true /\ len (snd f) < 2 ^ 63) fl -> NoDup fl.*1 -> f ∈ fl ->
  h_Method r = bs "GET" \/ h_Method r = bs "HEAD" -> names r nm sub -> requested sub = fst f ->
  fst (ns_resolve s nm) = Ok rec -> r_Root rec = address_hex (Marshal (directory_of fl)) ->
  range_ok r -> content_answer r (snd f) = Some (code, body) ->
  let out := if bool_decide (h_Method r = bs "HEAD") then [] else body in
  exists ct etag s',
    handle mime_type detect error_text landing_page g now r s
    = (MkHttpResponse code ct etag out [],
       SetStats g ((fun st => SiteStats.stats_Record st now nm (remoteIP r) (len out)) <$> gw_stats g), s').
Proof. apply handle_serves. Qed.

(** ** The limits *)

Lemma handle_limits g now r s :
  let g' := snd (fst (handle mime_type detect error_text landing_page g now r s)) in
  gw_limiter g' = gw_limiter g /\ gw_sem g' = gw_sem g.
Proof.
  assert (forall nm sub, let g' := snd (fst (serveName mime_type detect error_text g now r s nm sub)) in
    gw_limiter g' = gw_limiter g /\ gw_sem g' = gw_sem g) as Hn.
  { intros nm sub. unfold serveName. repeat case_match; simplify_eq; done. }
  cbv zeta. unfold handle. destruct (_ && _); [done|]. cbv zeta. destruct (isResolvableHost _); [apply Hn|].
  destruct (is_nil _); [done|]. destruct (splitHead _) as [hd rest]. destruct (bool_decide _).
  - destruct (splitHead rest) as [h sub]. by destruct (serveCID _ _ _ _ _ _).
  - destruct (bool_decide _); [|done]. destruct (splitHead rest). apply Hn.
Qed.

End Streaming.

(** Requests that overlap: arrivals, the work of a request that was let in, and its
    end.  [gs_inflight] is the number of requests let in and not ended. *)
Section Limits.
Context `{GoUnicode} `{Ed25519} {S : Type} `{ContentStore S} `{NameService S}.
Context (mime_type : bytes -> bytes) (detect : bytes -> bytes) (error_text : gw_error -> bytes).
Context (landing_page : bytes).

Record gstate := MkGState { gs_gw : Gateway; gs_node : S; gs_inflight : nat }.

Inductive gstep : gstate -> gstate -> Prop :=
| g_refuse st now r resp g :
    admit_request error_text (gs_gw st) now r = (Refused resp, g) ->
    gstep st (MkGState g (gs_node st) (gs_inflight st))
| g_enter st now r g :
    admit_request error_text (gs_gw st) now r = (LetIn, g) ->
    gstep st (MkGState g (gs_node st) (Datatypes.S (gs_inflight st)))
| g_work st now r resp g s :
    gs_inflight st <> 0%nat ->
    handle mime_type detect error_text landing_page (gs_gw st) now r (gs_node st) = (resp, g, s) ->
    gstep st (MkGState g s (gs_inflight st))
| g_leave st n :
    gs_inflight st = Datatypes.S n -> gstep st (MkGState (release (gs_gw st)) (gs_node st) n).

(** The semaphore counts the requests in flight. *)
Definition sem_ok (max : Z) (st : gstate) : Prop :=
  match gw_sem (gs_gw st) with
  | Some (cap, used) => 0 < max /\ cap = Z.to_nat max /\ used = gs_inflight st /\ (used <= cap)%nat
  | None => max < 0
  end.

Lemma admit_sem g now r a g' :
  admit_request error_text g now r = (a, g') ->
  match a with
  | LetIn => match gw_sem g with
             | None => gw_sem g' = None
             | Some (cap, used) => (used < cap)%nat /\ gw_sem g' = Some (cap, Datatypes.S used)
             end
  | Refused resp =>
      gw_sem g' = gw_sem g
      /\ (snd (allow (gw_limiter g) (remoteIP r) now) = true ->
            p_Status resp = 503 /\ exists cap used, gw_sem g = Some (cap, used) /\ (cap <= used)%nat)
  end.
Proof.
  unfold admit_request. destruct (allow _ _ _) as [lim ok]. cbn [gw_sem snd].
  destruct ok; cbn [negb]; [|by intros [= <- <-]].
  destruct (gw_sem g) as [[cap used]|]; [|by intros [= <- <-]].
  destruct (Nat.ltb_spec used cap); intros [= <- <-]; [done|]. split; [done|]. intros _. split; [done|]. eauto.
Qed.

Lemma gstep_ok max st st' : gstep st st' -> sem_ok max st -> sem_ok max st'.
Proof.
  unfold sem_ok. intros Hs Hok. destruct Hs as [st now r resp g Ha|st now r g Ha|st now r resp g s _ Hh|st n Hn].
  - apply admit_sem in Ha as [E _]. cbn [gs_gw gs_inflight]. by rewrite E.
  - apply admit_sem in Ha. cbn [gs_gw gs_inflight]. destruct (gw_sem (gs_gw st)) as [[cap used]|];
      [destruct Ha as [? ->], Hok as (? & ? & ? & ?); split_and!; lia|by rewrite Ha].
  - pose proof (handle_limits mime_type detect error_text landing_page (gs_gw st) now r (gs_node st)) as [_ Hsem].
    rewrite Hh in Hsem. cbn [fst snd] in Hsem. cbn [gs_gw gs_inflight]. by rewrite Hsem.
  - cbn [gs_gw gs_inflight release gw_sem]. destruct (gw_sem (gs_gw st)) as [[cap used]|]; [|done].
    cbn [fmap option_fmap option_map fst snd]. rewrite Hn in Hok.
    destruct Hok as (? & ? & ? & ?); split_and!; lia.
Qed.

(** C38 (gateway.go, [NewWithOptions], [handleWithLimits]): however requests overlap,
    at most [MaxConcurrent] of them are being served at a time (256 by default, no
    bound for a negative setting), every slot that was taken is given back when its
    request ends, and a request its address's rate allows is turned away (with 503)
    only while all slots are taken. *)
Theorem gateway_concurrency_bounded (opts : Options) (start : Time) (s0 : S) (st : gstate) :
  rtc gstep (MkGState (NewWithOptions opts start) s0 0) st ->
  let max := or_default (MaxConcurrent opts) DefaultMaxConcurrent in
  sem_ok max st
  /\ (0 < max -> (gs_inflight st <= Z.to_nat max)%nat)
  /\ forall now r resp g,
       admit_request error_text (gs_gw st) now r = (Refused resp, g) ->
       snd (allow (gw_limiter (gs_gw st)) (remoteIP r) now) = true ->
       p_Status resp = 503 /\ 0 < max /\ gs_inflight st = Z.to_nat max.
Proof.
  intros Hr max. assert (sem_ok max st) as Hok.
  { assert (sem_ok max (MkGState (NewWithOptions opts start) s0 0)) as Hinit.
    { unfold sem_ok, NewWithOptions. fold max. cbn [gs_gw gw_sem gs_inflight].
      destruct (Z.ltb_spec 0 max) as [|Hle]; [split_and!; lia || done|].
      unfold max, or_default, DefaultMaxConcurrent in *. destruct (Z.eqb_spec (MaxConcurrent opts) 0); lia. }
    revert Hinit. clear -Hr. induction Hr as [|x y z Hs Hr IH]; [done|]. intros Hx. by eapply IH, gstep_ok. }
  split; [done|]. unfold sem_ok in Hok. split.
  - destruct (gw_sem (gs_gw st)) as [[cap used]|]; [destruct Hok as (? & ? & ? & ?); lia|lia].
  - intros now r resp g Ha Hal. destruct (admit_sem _ _ _ _ _ Ha) as [_ Hbusy].
    destruct (Hbusy Hal) as (Hst & cap & used & Esem & Hle). rewrite Esem in Hok.
    destruct Hok as (? & ? & ? & ?). split_and!; [done|done|lia].
Qed.

End Limits.

(** ** Concrete runs: the site of the registrar's runs, seen through the gateway *)

Module Visits.

#[local] Instance store_here : ContentStore node := node_ContentStore quiet.
#[local] Instance names_here : NameService node :=
  node_NameService quiet (fun _ => 1700000000) None (fun s => elements s).

Definition no_table (_ : bytes) : bytes := [].
Definition octets (_ : bytes) : bytes := bs "application/octet-stream".
Definition no_text (_ : gw_error) : bytes := bs "error".

Definition counting : Gateway := SetStats (New 0) (Some SiteStats.New).

Definition visit (host path : string) (range : option (Z * Z)) : http_request :=
  MkHttp (bs "GET") (bs host) (bs path) (bs "10.0.0.7:5123") range.

Lemma site_paths : NoDup site.*1.
Proof. by apply (bool_decide_eq_true_1 (NoDup site.*1)); vm_compute. Qed.

Lemma gateway_serves_site_witness :
  exists ct etag s',
    handle no_table octets no_text [] counting 1700000000 (visit "panmox.alt:9080" "/" (Some (1, 4))) Runs.live
    = (MkHttpResponse 206 ct etag (bs "ello") [],
       SetStats counting (Some (SiteStats.stats_Record SiteStats.New 1700000000 (bs "panmox.alt") (bs "10.0.0.7") 4)),
       s').
Proof.
  destruct Runs.live_resolves as (rec & Hres & Hroot). destruct Runs.live_keeps as [Hi Hk].
  destruct (gateway_serves_site (CLaws := node_read_laws quiet) (NLaws := node_ns_laws quiet _ None _)
    no_table octets no_text [] counting 1700000000 (visit "panmox.alt:9080" "/" (Some (1, 4))) Runs.live
    (bs "panmox.alt") [] rec site (bs "index.html", greeting) 206 (bs "ello")
    Hi Hk Runs.site_text site_paths (list_elem_of_here _ _) (or_introl eq_refl)
    (by_host (visit "panmox.alt:9080" "/" (Some (1, 4))) eq_refl) eq_refl Hres Hroot ltac:(done) eq_refl)
    as (ct & etag & s' & E).
  exists ct, etag, s'. exact E.
Defined.

Lemma gateway_concurrency_bounded_witness :
  exists st : gstate (S := node),
    rtc (gstep no_table octets no_text []) (MkGState (NewWithOptions (MkOptions 0 0 1) 0) carol_node 0) st
    /\ gs_inflight st = 1%nat /\ sem_ok 1 st.
Proof.
  set (g := NewWithOptions (MkOptions 0 0 1) 0).
  assert (exists g', admit_request no_text g 5 (visit "panmox.alt" "/" None) = (LetIn, g')) as [g' Ha] by by eexists.
  exists (MkGState g' carol_node 1).
  assert (rtc (gstep no_table octets no_text []) (MkGState g carol_node 0) (MkGState g' carol_node 1)) as Hr.
  { apply rtc_once. exact (g_enter no_table octets no_text [] (MkGState g carol_node 0) 5 _ g' Ha). }
  split; [exact Hr|]. split; [reflexivity|].
  exact (proj1 (gateway_concurrency_bounded no_table octets no_text [] (MkOptions 0 0 1) 0 carol_node _ Hr)).
Defined.

Definition status_of (v : http_response * Gateway * node) : Z := p_Status (fst (fst v)).

Definition count_of (v : http_response * Gateway * node) (name : bytes) : Z :=
  match gw_stats (snd (fst v)) with Some st => SiteStats.sn_Requests (SiteStats.Get st name) | None => 0 end.

Definition visited (r : http_request) (s : node) : http_response * Gateway * node :=
  handle no_table octets no_text [] counting 1700000000 r s.

Definition counted (r : http_request) (name : bytes) : Z := count_of (visited r Runs.live) name.

Definition answered (r : http_request) : Z := status_of (visited r Runs.live).

(** The visits below, computed together. *)
Lemma visits_run :
  let s := Runs.live in
  let shouted := visited (visit "Panmox.alt" "/" None) s in
  let missing := visited (visit "panmox.alt" "/missing" None) s in
  ((status_of shouted = 200 /\ count_of shouted (bs "Panmox.alt") = 1
    /\ count_of shouted (CanonicalName (bs "Panmox.alt")) = 0)
   /\ status_of missing = 404 /\ count_of missing (bs "panmox.alt") = 1)
  /\ status_of (visited (visit "localhost:9080" "/@panmox.alt/" None) s) = 404
  /\ status_of (visited (visit "localhost:9080" "/n/panmox.alt/" None) s) = 200.
Proof. by vm_compute. Qed.

(** (gateway.go, [serveName], [SetStats]; registrar.go, [handleStats]): a visit is
    counted under the name as the client wrote it, while the registrar asks for the
    canonical name: a visit to Panmox.alt is served and does not show up.  And a
    visit that ends in an error after the name was resolved is counted like one
    that succeeded. *)
Theorem visits_counted_by_spelling :
  answered (visit "Panmox.alt" "/" None) = 200
  /\ counted (visit "Panmox.alt" "/" None) (bs "Panmox.alt") = 1
  /\ counted (visit "Panmox.alt" "/" None) (CanonicalName (bs "Panmox.alt")) = 0
  /\ answered (visit "panmox.alt" "/missing" None) = 404
  /\ counted (visit "panmox.alt" "/missing" None) (bs "panmox.alt") = 1.
Proof. destruct visits_run as (((H1 & H2 & H3) & H4 & H5) & _). split_and!; [exact H1|exact H2|exact H3|exact H4|exact H5]. Qed.

(** (gateway.go, package comment and landing page): the advertised form /@name/ is
    not routed; /n/name/ is. *)
Theorem at_sign_not_routed :
  answered (visit "localhost:9080" "/@panmox.alt/" None) = 404
  /\ answered (visit "localhost:9080" "/n/panmox.alt/" None) = 200.
Proof. destruct visits_run as (_ & H1 & H2). split; [exact H1|exact H2]. Qed.

End Visits.
