(* ===== verification/NetworkStore.v ===== *)
(** * A network of nodes, seen from its hosts

    The network of Cluster.v as the content store and the name service the
    applications of one of its hosts use: what a host publishes goes into its own
    store and to the hosts closest to the key, what it asks for is answered by the
    handlers of the others.  The file layer, the naming layer and the gateway are
    proved against the interfaces of ContentStore.v, Files.v and NameService.v;
    here the network discharges them, for a publisher and a reader that are
    different hosts.

    [evolves] is what an operation on one key may do to the hosts of a network.
    Every operation below is such a step, and what readers rely on survives it. *)

From S2P Require Import Prelude GoStrings Encoding Json Sha256 Crypto Peer Revoke NodeId.
From S2P Require Import Blocklist Store Routing DhtWire Dht Lookup Name ContentStore NameService.
From S2P Require Import Files Cluster.

(** ** Stores *)

(** What an operation on [key] that stores only values of [V] may do to a store:
    entries come under [key] only, and without a budget none is lost. *)
Record store_evolves (key : NodeID) (V : bytes -> Prop) (s s' : localStore) : Prop := {
  ev_config : same_config s s';
  ev_new k w : data s' !! k = Some w -> data s !! k = Some w \/ k = Hex key /\ V w;
  ev_old k w : maxBytes s <= 0 -> data s !! k = Some w ->
    data s' !! k = Some w \/ k = Hex key /\ exists w', V w' /\ data s' !! k = Some w'
}.

#[export] Instance store_evolves_preorder key V : PreOrder (store_evolves key V).
Proof.
  split.
  - intros s. split; [done|..]; by left.
  - intros s1 s2 s3 [(Am & Ad & Ap) An Ao] [(Bm & Bd & Bp) Bn Bo]. split.
    + unfold same_config. by rewrite Bm, Bd, Bp.
    + intros k w Hw. destruct (Bn k w Hw) as [?|?]; [by apply An|by right].
    + intros k w Hm Hw. destruct (Ao k w Hm Hw) as [Hw2|(-> & w' & Hv & Hw2)]; [by apply Bo; [rewrite Am|]|].
      right. split; [done|]. destruct (Bo (Hex key) w') as [Hw3|(_ & Hw3)]; [by rewrite Am|done|by exists w'|done].
Qed.

Lemma put_evolves e s key v p : store_evolves key (eq v) s (put e s key v p).1.
Proof.
  unfold put, put_locked. destruct (admitted _ _ _ _); [|reflexivity]. cbn [negb].
  set (s0 := refund s (Hex key)). pose proof (refund_config s (Hex key)) as (Cm & Cd & Cp). fold s0 in Cm, Cd, Cp.
  assert (data s0 = data s) as Ed by apply refund_data.
  destruct (evictToFit_drops (pe_ord e) (len v) s0) as [l El].
  set (s1 := evictToFit (pe_ord e) (len v) s0) in *.
  assert (same_config s0 s1) as (Dm & Dd & Dp) by (rewrite El; apply drop_entries_config).
  assert (data s1 ⊆ data s) as Hsub by (rewrite El, <- Ed; apply drop_entries_subseteq).
  set (s2 := record_entry s1 _ _ _ _).
  assert (forall d, let s' := (if dataDir s2 then with_disk s2 d else s2) in
    same_config s2 s' /\ data s' = data s2) as Hdisk by (intros d; by destruct (dataDir s2)).
  destruct (Hdisk (writeAtomic (pe_write e) (pe_part e) (Hex key) v (pe_now e) (disk s2))) as [(Fm & Fd & Fp) Fdata].
  cbv zeta in *. cbn [fst]. split; [unfold same_config; rewrite Fm, Fd, Fp; cbn; split_and!; congruence|..];
    rewrite Fdata; cbn [s2 record_entry data]; intros k w.
  - intros [[<- <-]|[_ Hk]]%lookup_insert_Some; [by right|]. left. by eapply lookup_weaken.
  - intros Hm Hk. destruct (decide (k = Hex key)) as [->|Hne]; [right; split; [done|]; exists v; by rewrite lookup_insert_eq|].
    left. rewrite lookup_insert_ne by done. replace s1 with s0; [by rewrite Ed|].
    unfold s1, evictToFit. rewrite Cm. by rewrite (proj2 (Z.leb_le _ _) Hm).
Qed.

(** Reading refreshes an access time. *)
Lemma Get_evolves now s k key V : store_evolves key V s (Store.Get s now k).1.
Proof. unfold Store.Get. destruct (data s !! Hex k); split; try done; by left. Qed.

(** ** Steps of a network *)

(** An operation at a host: contacts are learned but not forgotten. *)
Record host_evolves (cl : cluster) (key : NodeID) (V : bytes -> Prop) (h h' : host) : Prop := {
  ev_id : h_id h' = h_id h;
  ev_self : d_self (h_dht h') = d_self (h_dht h);
  ev_blocklist : d_blocklist (h_dht h') = d_blocklist (h_dht h);
  ev_ok : dht_ok (h_dht h) -> dht_ok (h_dht h');
  ev_genuine : dht_ok (h_dht h) -> table_all (genuine cl) (h_dht h) -> table_all (genuine cl) (h_dht h');
  ev_ids : dht_ok (h_dht h) -> ids (d_rt (h_dht h)) ⊆ ids (d_rt (h_dht h'));
  ev_store : store_evolves key V (d_store (h_dht h)) (d_store (h_dht h'))
}.

#[export] Instance host_evolves_preorder cl key V : PreOrder (host_evolves cl key V).
Proof.
  split.
  - intros h. by split.
  - intros h1 h2 h3 A B. split.
    + by rewrite (ev_id _ _ _ _ _ B), (ev_id _ _ _ _ _ A).
    + by rewrite (ev_self _ _ _ _ _ B), (ev_self _ _ _ _ _ A).
    + by rewrite (ev_blocklist _ _ _ _ _ B), (ev_blocklist _ _ _ _ _ A).
    + intros Hok. by apply B, A.
    + intros Hok Hg. apply B; by apply A.
    + intros Hok. etrans; [by apply A|]. apply B. by apply A.
    + etrans; [apply A|apply B].
Qed.

(** A host whose table stays as it is. *)
Lemma with_store_evolves cl key V h s :
  store_evolves key V (d_store (h_dht h)) s -> host_evolves cl key V h (MkHost (h_id h) (with_store (h_dht h) s)).
Proof. intros Hs. by split. Qed.

Record evolves (key : NodeID) (V : bytes -> Prop) (cl cl' : cluster) : Prop := {
  evs_book : book cl' = book cl;
  evs_hosts y h : hosts cl !! y = Some h -> exists h', hosts cl' !! y = Some h' /\ host_evolves cl key V h h';
  evs_back y h' : hosts cl' !! y = Some h' -> exists h, hosts cl !! y = Some h /\ host_evolves cl key V h h'
}.

Lemma genuine_book cl cl' c : book cl' = book cl -> genuine cl c -> genuine cl' c.
Proof. unfold genuine. by intros ->. Qed.

Lemma host_evolves_book cl cl' key V h h' :
  book cl' = book cl -> host_evolves cl key V h h' -> host_evolves cl' key V h h'.
Proof.
  intros Hb A. destruct A. split; try done. intros Hok. unfold table_all, genuine in *. rewrite Hb. eauto.
Qed.

#[export] Instance evolves_preorder key V : PreOrder (evolves key V).
Proof.
  split.
  - intros cl. split; [done|..]; intros y h Hh; exists h; by split.
  - intros c1 c2 c3 A B. pose proof (evs_book _ _ _ _ A) as Hb. split.
    + by rewrite (evs_book _ _ _ _ B).
    + intros y h Hh. destruct (evs_hosts _ _ _ _ A y h Hh) as (h2 & Hh2 & A2).
      destruct (evs_hosts _ _ _ _ B y h2 Hh2) as (h3 & Hh3 & B3). exists h3. split; [done|].
      etrans; [exact A2|]. by apply (host_evolves_book c2).
    + intros y h3 Hh3. destruct (evs_back _ _ _ _ B y h3 Hh3) as (h2 & Hh2 & B3).
      destruct (evs_back _ _ _ _ A y h2 Hh2) as (h & Hh & A2). exists h. split; [done|].
      etrans; [exact A2|]. by apply (host_evolves_book c2).
Qed.

(** One host moves on while the others take a step. *)
Lemma evolves_set_host key V cl cl' x h h' :
  evolves key V cl cl' -> hosts cl !! x = Some h -> host_evolves cl key V h h' ->
  evolves key V cl (set_host x h' cl').
Proof.
  intros A Hx Hh. split; [apply A| |]; intros y g; cbn [set_host hosts].
  - intros Hg. destruct (decide (y = x)) as [->|Hne].
    + exists h'. rewrite lookup_insert_eq. split; [done|]. congruence.
    + rewrite lookup_insert_ne by done. by apply A.
  - intros [[<- <-]|[Hne Hg]]%lookup_insert_Some; [by exists h|by apply A].
Qed.

(** A network in order stays in order. *)
Lemma cluster_evolves_ok key V cl cl' : evolves key V cl cl' -> cluster_ok cl -> cluster_ok cl'.
Proof.
  intros A Hok y h' Hy. destruct (evs_back _ _ _ _ A y h' Hy) as (h & Hh & B).
  destruct (Hok y h Hh) as (Hd & Hs & Hg). split; [by apply B|].
  split; [by rewrite (ev_self _ _ _ _ _ B)|].
  unfold table_all, genuine. rewrite (evs_book _ _ _ _ A). by apply B.
Qed.

Lemma evolves_nearest key V cl cl' k kk : evolves key V cl cl' -> nearest cl k kk -> nearest cl' k kk.
Proof. unfold nearest. intros A. by rewrite (evs_book _ _ _ _ A). Qed.

Lemma evolves_knows key V cl cl' x kk : evolves key V cl cl' -> cluster_ok cl -> knows cl x kk -> knows cl' x kk.
Proof.
  intros A Hok [->|(h & Hh & Hk)]; [by left|right]. destruct (evs_hosts _ _ _ _ A x h Hh) as (h' & Hh' & B).
  exists h'. split; [done|]. apply B; [by apply (Hok x h)|done].
Qed.

Lemma host_evolves_blocked cl key V h h' k :
  host_evolves cl key V h h' -> IsBlocked (h_dht h') k = IsBlocked (h_dht h) k.
Proof. intros B. unfold IsBlocked. by rewrite (ev_blocklist _ _ _ _ _ B). Qed.

(** A host of the network has [v] under [key]. *)
Definition stored (cl : cluster) (key : NodeID) (v : bytes) : Prop :=
  exists y h, hosts cl !! y = Some h /\ data (d_store (h_dht h)) !! Hex key = Some v.

Lemma evolves_stored key V cl cl' k w :
  evolves key V cl cl' -> stored cl' k w -> stored cl k w \/ k = key /\ V w.
Proof.
  intros A (y & h' & Hy & Hw). destruct (evs_back _ _ _ _ A y h' Hy) as (h & Hh & B).
  destruct (ev_new _ _ _ _ (ev_store _ _ _ _ _ B) (Hex k) w Hw) as [?|[E ?]]; [left; by exists y, h|right].
  by apply (inj Hex) in E.
Qed.

(** ** What the others answer *)

Section Answers.
Context `{GoUnicode} `{Ed25519}.
Context (env : bytes -> put_env * Time) (rid : nat -> bytes -> bytes) (via : Identity -> bytes).
Context (upd app : list Contact -> list Contact) (clk : nat -> Time).

#[local] Abbreviation deliver := (deliver env rid via).
#[local] Abbreviation network := (network env rid via upd app clk).

(** A find-value request is answered with what the host has, or with contacts. *)
Lemma deliver_find_value_reply cl from round addr key r :
  (deliver cl from round addr (find_value_request key)).1 = Some r ->
  exists x h, book cl !! addr = Some x /\ hosts cl !! x = Some h
    /\ ((m_Type r = bs "dht_value" /\ exists v, data (d_store (h_dht h)) !! Hex key = Some v /\ value_of_reply r = Some v)
        \/ (m_Type r = bs "dht_nodes"
            /\ m_Payload r = Marshal (MkNodes (to_wire_primary <$> Closest (d_rt (h_dht h)) key K)))).
Proof.
  unfold Cluster.deliver. destruct (book cl !! addr) as [x|]; [|done]. destruct (hosts cl !! x) as [h|] eqn:Eh; [|done].
  set (req := Wire.seal from _). rewrite (HandleMessage_find_value _ _ _ _ req) by done.
  rewrite (handleFindValue_eq _ _ _ _ key) by by apply find_request_is. intros Hr. exists x, h. split; [done|].
  split; [done|]. destruct (IsBlocked (h_dht h) key); [injection Hr as <-; by right|].
  unfold Store.Get in Hr. destruct (data (d_store (h_dht h)) !! Hex key) as [v|] eqn:Ev; injection Hr as <-; [left|by right].
  split; [done|]. exists v. split; [done|]. exact (value_reply v).
Qed.

Lemma sendFindValue_answers cl me round key c :
  cluster_ok cl ->
  (forall v, value (sendFindValue (network cl me) round key c) = Some v -> stored cl key v)
  /\ Forall (genuine cl) (nodes (sendFindValue (network cl me) round key c)).
Proof.
  intros Hok. unfold sendFindValue, requestContact.
  destruct (try_addresses _ _) as [r|] eqn:Er; [|split; [done|apply Forall_nil_2]].
  assert (exists a, (deliver cl me round a (find_value_request key)).1 = Some r) as [a Ha].
  { revert Er. generalize (AllAddresses c). clear. induction l as [|a l IH]; [done|].
    cbn [try_addresses network request]. destruct (deliver cl me round a _).1 eqn:E; [|done]. intros [= <-]. eauto. }
  destruct (deliver_find_value_reply _ _ _ _ _ _ Ha) as (x & h & _ & Hh & [[Ht (v & Hv & Hr)]|[Ht Hp]]); rewrite Ht.
  - rewrite bool_decide_eq_true_2 by done. split; [|apply Forall_nil_2]. cbn [value]. rewrite Hr.
    intros v' [= <-]. by exists x, h.
  - rewrite bool_decide_eq_false_2 by done. rewrite bool_decide_eq_true_2 by done. split; [done|].
    cbn [nodes]. unfold nodes_of_reply. rewrite Hp. destruct (Hok x h Hh) as (_ & _ & Hg).
    assert (Forall (genuine cl) (Closest (d_rt (h_dht h)) key K)) as Hcl by by apply Closest_all.
    rewrite Unmarshal_Marshal.
    + cbn [np_Contacts default]. rewrite from_to_wire_primary. apply Forall_fmap.
      eapply Forall_impl; [exact Hcl|]. intros c' (H1 & [H2 _] & H3). split; [done|].
      split; [split; [done|apply Forall_nil_2]|]. intros a' Ha'. apply H3. revert Ha'.
      unfold AllAddresses. cbn. rewrite bool_decide_eq_false_2 by done. set_solver.
    + cbn [np_Contacts]. apply Forall_fmap. eapply Forall_impl; [exact Hcl|].
      intros c' (_ & Ht' & _). by apply to_wire_fine.
Qed.

(** A walk of find-value requests: what it does to the table of the node, and where
    the values it brings in come from. *)
Lemma value_walk cl me stop key seen d :
  cluster_ok cl -> net_ok (network cl me) -> dht_ok d -> table_all (genuine cl) d ->
  exists w, start_walk (network cl me) (fun r c => sendFindValue (network cl me) r key c) stop key seen d = Some w
    /\ walk_post stop key seen d w /\ table_all (genuine cl) (w_dht w)
    /\ (forall v, v ∈ w_seen w -> v ∈ seen \/ stored cl key v)
    /\ (forall v, w_found w = Some v -> v ∈ w_seen w).
Proof.
  intros Hok Hn Hd Hg.
  destruct (start_walk_ends (network cl me) (fun r c => sendFindValue (network cl me) r key c) stop key seen d Hd)
    as (w & Ew & Hp & _). exists w. split; [done|]. split; [done|]. split_and!.
  - eapply (walk_contacts (genuine cl)); [exact Hn| |exact Hg|exact Ew].
    intros r c _. exact (proj2 (sendFindValue_answers cl me r key c Hok)).
  - intros v Hv. destruct (walk_seen _ _ _ _ _ _ _ _ _ _ _ _ Ew Hv) as [?|(r & c & Hc)]; [by left|right].
    exact (proj1 (sendFindValue_answers cl me r key c Hok) v Hc).
  - exact (walk_found _ _ _ _ _ _ _ _ _ _ _ Ew).
Qed.

(** ** What the operations of a node do to it *)

Lemma Get_network e cl me d key :
  cluster_ok cl -> net_ok (network cl me) -> dht_ok d -> table_all (genuine cl) d ->
  exists r d', Get e (network cl me) d key = Some (r, d')
    /\ host_evolves cl key (fun w => stored cl key w /\ ContentAddress w = key) (MkHost me d) (MkHost me d')
    /\ forall v, r = Ok v -> data (d_store d) !! Hex key = Some v \/ stored cl key v.
Proof.
  intros Hok Hn Hd Hg. unfold Get, getInner. destruct (IsBlocked d key); [by eexists _, _|].
  pose proof (Get_evolves (pe_now e) (d_store d) key key (fun w => stored cl key w /\ ContentAddress w = key)) as Hs.
  destruct (Store.Get (d_store d) (pe_now e) key) as [s local] eqn:Eg. cbn [fst] in Hs.
  apply Get_local_frame in Eg as [-> Hdata]. cbn [negb orb].
  pose proof (with_store_evolves cl key _ (MkHost me d) s Hs) as H1. cbn [h_id h_dht] in H1.
  assert (exists r d', search_value e (network cl me) (with_store d s) key true = Some (r, d')
    /\ host_evolves cl key (fun w => stored cl key w /\ ContentAddress w = key) (MkHost me d) (MkHost me d')
    /\ forall v, r = Ok v -> data (d_store d) !! Hex key = Some v \/ stored cl key v) as Hsearch.
  { unfold search_value. destruct (_ =? 0)%nat; [by eexists _, _|].
    destruct (value_walk cl me (fun v => negb true || Equal (ContentAddress v) key) key [] (with_store d s) Hok Hn Hd Hg)
      as (w & -> & (P1 & P2 & P3 & P4 & P5 & _ & P7 & _) & Hgw & Hseen & Hfound).
    assert (host_evolves cl key (fun w => stored cl key w /\ ContentAddress w = key)
      (MkHost me (with_store d s)) (MkHost me (w_dht w))) as H2 by (split; try done; cbn [h_dht]; by rewrite P3).
    destruct (w_found w) as [v|]; [|eexists _, _; split; [done|split; [by etrans|done]]].
    assert (stored cl key v) as Hv by (destruct (Hseen v (Hfound v eq_refl)) as [?%not_elem_of_nil|?]; done).
    assert (ContentAddress v = key) as Ha by by apply ContentAddress_Equal, (P7 v eq_refl).
    eexists _, _. split; [done|]. split; [|intros v' [= <-]; by right]. etrans; [exact H1|]. etrans; [exact H2|].
    apply (with_store_evolves cl key _ (MkHost me (w_dht w))). cbn [h_dht].
    destruct (put_evolves e (d_store (w_dht w)) key v []) as [Pc Pn Po]. split; [done|..].
    - intros k u Hu. destruct (Pn k u Hu) as [?|[-> <-]]; [by left|by right].
    - intros k u Hm Hu. destruct (Po k u Hm Hu) as [?|(-> & u' & <- & ?)]; [by left|right]. split; [done|]. by exists v. }
  destruct (data (d_store d) !! Hex key) as [v|]; [|exact Hsearch].
  destruct (Equal (ContentAddress v) key); [|exact Hsearch].
  eexists _, _. split; [done|]. split; [exact H1|]. intros v' [= <-]. by left.
Qed.

(** Contacts that acknowledge a store are refreshed. *)
Lemma store_all_network cl me round targets key v V d :
  dht_ok d -> Forall (genuine cl) targets ->
  host_evolves cl key V (MkHost me d) (MkHost me (store_all (network cl me) round d targets key v).1).
Proof.
  intros Hd Hg. revert d Hd. induction Hg as [|c targets Hc _ IH]; intros d Hd; [reflexivity|]. cbn [store_all].
  assert (host_evolves cl key V (MkHost me d) (MkHost me (sendStore (network cl me) round d c key v).1)) as H1.
  { unfold sendStore. destruct (requestContact _ _ _ _); [|reflexivity]. destruct (negb _); [reflexivity|]. cbn [fst].
    set (now := clock _ _).
    pose proof (rt_update_ids d c now Hd) as R1. destruct (rt_update_ok d c now Hd) as [R2 R3].
    assert (d_store (rt_update d c now) = d_store d /\ d_blocklist (rt_update d c now) = d_blocklist d) as [R4 R5]
      by (unfold rt_update; by destruct (Update _ _ _)).
    split; cbn [h_dht h_id]; try done; [|by rewrite R4].
    intros _ Ht. apply rt_update_all; [apply _|exact Ht|exact Hc]. }
  pose proof (sendStore_ok (network cl me) round d c key v Hd) as Hd1.
  destruct (sendStore (network cl me) round d c key v) as [d1 ok]. cbn [fst] in *.
  specialize (IH d1 Hd1). destruct (store_all (network cl me) round d1 targets key v) as [d2 k]. by etrans.
Qed.

Lemma Lookup_network cl me d key V :
  cluster_ok cl -> net_ok (network cl me) -> dht_ok d -> table_all (genuine cl) d ->
  exists d', Lookup (network cl me) key d = Some (Closest (d_rt d') key K, d') /\ dht_ok d'
    /\ table_all (genuine cl) d' /\ host_evolves cl key V (MkHost me d) (MkHost me d').
Proof.
  intros Hok Hn Hd Hg. destruct (Lookup_Closest (network cl me) key d Hd) as (d' & El & Hd' & Hs' & Hi & Hst & Hbl).
  pose proof (Lookup_genuine env rid via upd app clk cl me key d _ d' Hok Hn Hg El) as Hg'.
  exists d'. split_and!; try done. split; cbn [h_dht h_id]; try done. by rewrite Hst.
Qed.

Lemma replicate_targets_genuine cl me d key :
  cluster_ok cl -> net_ok (network cl me) -> dht_ok d -> table_all (genuine cl) d ->
  Forall (genuine cl) (replicate_targets (network cl me) d key).
Proof.
  intros Hok Hn Hd Hg. unfold replicate_targets. destruct (IsBlocked d key); [apply Forall_nil_2|].
  destruct (Lookup_network cl me d key (fun _ => False) Hok Hn Hd Hg) as (d' & -> & _ & Hg' & _).
  apply Forall_forall. intros c Hc. rewrite (proj1 (Hn _)) in Hc.
  apply list_elem_of_In, filter_In in Hc as [Hc _]. apply list_elem_of_In in Hc.
  eapply Forall_forall; [|exact Hc]. by apply Closest_all.
Qed.

Lemma Replicate_network cl me d key v V :
  cluster_ok cl -> net_ok (network cl me) -> dht_ok d -> table_all (genuine cl) d ->
  exists d' c, Replicate (network cl me) d key v = Some (d', c)
    /\ host_evolves cl key V (MkHost me d) (MkHost me d') /\ d_store d' = d_store d.
Proof.
  intros Hok Hn Hd Hg. destruct (Replicate_frame (network cl me) d key v Hd) as (d' & c & E & _ & Hst & _).
  exists d', c. split; [done|]. split; [|done]. revert E.
  pose proof (replicate_targets_genuine cl me d key Hok Hn Hd Hg) as Ht. revert Ht. unfold Replicate, replicate_targets.
  destruct (IsBlocked d key); [intros _ [= <- _]; reflexivity|].
  destruct (Lookup_network cl me d key V Hok Hn Hd Hg) as (d1 & -> & Hd1 & Hg1 & H1).
  intros Ht E. etrans; [exact H1|]. pose proof (store_all_network cl me max_rounds _ key v V d1 Hd1 Ht) as H2.
  apply (inj Some) in E. by rewrite E in H2.
Qed.

(** A store request at the host it reaches. *)
Lemma deliver_store_evolves cl from round addr key v :
  evolves key (eq v) cl (deliver cl from round addr (store_request key v)).2.
Proof.
  unfold Cluster.deliver. destruct (book cl !! addr) as [x|]; [|reflexivity].
  destruct (hosts cl !! x) as [h|] eqn:Eh; [|reflexivity].
  set (req := Wire.seal from _). rewrite (HandleMessage_store _ _ _ _ req) by done.
  rewrite (handleStore_eq _ _ _ _ key v) by by apply store_request_is.
  assert (host_evolves cl key (eq v) h (MkHost (h_id h) (h_dht h))) as Hsame by by destruct h.
  destruct (MaxValueSize <? len v); [by apply (evolves_set_host _ _ cl cl x h)|].
  destruct (IsBlocked (h_dht h) key); [by apply (evolves_set_host _ _ cl cl x h)|].
  unfold PutAttributed. pose proof (put_evolves (env x).1 (d_store (h_dht h)) key v (m_From req)) as Hp.
  destruct (put _ _ _ _ _) as [s acc]. cbn [fst snd] in *. apply (evolves_set_host _ _ cl cl x h); [reflexivity|done|].
  by apply with_store_evolves.
Qed.

Lemma deliver_stores_evolves targets cl from key v :
  evolves key (eq v) cl (deliver_stores env rid via cl from targets key v).
Proof.
  unfold deliver_stores. revert cl. induction targets as [|c targets IH]; intros cl; [reflexivity|]. cbn [foldl].
  etrans; [|apply IH]. generalize (AllAddresses c) as addrs. intros addrs. clear IH.
  revert cl. induction addrs as [|a addrs IH]; intros cl; [reflexivity|]. cbn [deliver_any].
  pose proof (deliver_store_evolves cl from max_rounds a key v) as H1.
  destruct (deliver cl from max_rounds a _) as [[r|] cl1]; cbn [snd] in *; [done|]. by etrans.
Qed.

Lemma GetAllUnverified_network e cl me d key V :
  cluster_ok cl -> net_ok (network cl me) -> dht_ok d -> table_all (genuine cl) d ->
  exists r d', GetAllUnverified e (network cl me) d key = Some (r, d')
    /\ host_evolves cl key V (MkHost me d) (MkHost me d').
Proof.
  intros Hok Hn Hd Hg. unfold GetAllUnverified.
  pose proof (Get_evolves (pe_now e) (d_store d) key key V) as Hs.
  destruct (Store.Get (d_store d) (pe_now e) key) as [s local]. cbn [fst] in Hs.
  pose proof (with_store_evolves cl key _ (MkHost me d) s Hs) as H1. cbn [h_id h_dht] in H1.
  destruct (_ && _); [by eexists _, _|].
  destruct (value_walk cl me (fun _ => false) key (option_list local) (with_store d s) Hok Hn Hd Hg)
    as (w & -> & (P1 & P2 & P3 & P4 & P5 & _) & Hgw & _).
  eexists _, _. split; [done|]. etrans; [exact H1|]. split; try done. cbn [h_dht]. by rewrite P3.
Qed.

End Answers.

(** ** The network as a content store and a name service *)

(** How the environment answers one operation: what Cluster.v takes, which hosts a
    search reached with its find-value requests, and the clock of the naming layer. *)
Record weather := MkWeather {
  w_env : bytes -> put_env * Time;
  w_rid : nat -> bytes -> bytes;
  w_via : Identity -> bytes;
  w_upd : list Contact -> list Contact;
  w_app : list Contact -> list Contact;
  w_clk : nat -> Time;
  w_asked : bytes -> bool;
  w_now : Z
}.

Definition weather_ok (w : weather) : Prop := forall l, w_upd w l ≡ₚ l /\ w_app w l ≡ₚ l.

(** The operations are numbered. *)
Record netstate := MkNetwork { nw_cluster : cluster; nw_tick : nat }.

Section Network.
Context `{GoUnicode} `{Ed25519}.
Context (W : nat -> weather) (trusted : option (gset bytes)) (order : gset bytes -> list bytes).

Definition now_at (s : netstate) : weather := W (nw_tick s).

(** What host [x] has for a network, and its environment. *)
Definition net_at (s : netstate) (h : host) : net :=
  let w := now_at s in
  network (w_env w) (w_rid w) (w_via w) (w_upd w) (w_app w) (w_clk w) (nw_cluster s) (h_id h).

Definition env_at (s : netstate) (x : bytes) : put_env := (w_env (now_at s) x).1.

(** The hosts a search has asked have looked the key up: see [handleFindValue]. *)
Definition refresh (w : weather) (key : NodeID) (cl : cluster) : cluster :=
  MkCluster
    (map_imap (fun y h => Some (
       if w_asked w y && negb (IsBlocked (h_dht h) key)
       then MkHost (h_id h) (with_store (h_dht h) (Store.Get (d_store (h_dht h)) (pe_now (w_env w y).1) key).1)
       else h)) (hosts cl)) (book cl).

(** Store requests to the targets of a replication of [d]. *)
Definition spread (s : netstate) (h : host) (d : DHT) (key : NodeID) (v : bytes) : cluster :=
  deliver_stores (w_env (now_at s)) (w_rid (now_at s)) (w_via (now_at s)) (nw_cluster s) (h_id h)
    (replicate_targets (net_at s h) d key) key v.

Definition moved (s : netstate) (cl : cluster) : netstate := MkNetwork cl (S (nw_tick s)).

(** Host [x] calls [Get].  A host that is not there calls nothing. *)
Definition net_get (x : bytes) (s : netstate) (key : NodeID) : result dht_error bytes * netstate :=
  match hosts (nw_cluster s) !! x with
  | None => (Err ErrNotFound, s)
  | Some h =>
      match Get (env_at s x) (net_at s h) (h_dht h) key with
      | None => (Err ErrNotFound, s)
      | Some (r, d) =>
          (r, moved s (refresh (now_at s) key (set_host x (MkHost (h_id h) d) (nw_cluster s))))
      end
  end.

Definition net_store_local (x : bytes) (s : netstate) (key : NodeID) (v : bytes) : result dht_error netstate :=
  match hosts (nw_cluster s) !! x with
  | None => Err ErrNotFound
  | Some h =>
      match StoreLocal (env_at s x) (h_dht h) key v with
      | Err e => Err e
      | Ok d => Ok (moved s (set_host x (MkHost (h_id h) d) (nw_cluster s)))
      end
  end.

Definition net_replicate (x : bytes) (s : netstate) (key : NodeID) (v : bytes) : netstate :=
  match hosts (nw_cluster s) !! x with
  | None => s
  | Some h =>
      match Replicate (net_at s h) (h_dht h) key v with
      | None => s
      | Some (d, _) => moved s (set_host x (MkHost (h_id h) d) (spread s h (h_dht h) key v))
      end
  end.

Definition net_store (x : bytes) : ContentStore netstate := {|
  cs_get := net_get x; cs_store_local := net_store_local x; cs_replicate := net_replicate x
|}.

Definition net_publish (x : bytes) (s : netstate) (id : Identity) (nm : bytes) (root : NodeID) (version : Z)
  : result name_error NameRecord * netstate :=
  match hosts (nw_cluster s) !! x with
  | None => (Err ErrStore, s)
  | Some h =>
      match Publish (env_at s x) (net_at s h) (h_dht h) id nm root version (w_now (now_at s)) with
      | Err e => (Err e, s)
      | Ok (rec, None) => (Ok rec, s)
      | Ok (rec, Some (d, _)) =>
          let cl := match StoreLocal (env_at s x) (h_dht h) (RecordKey nm) (Marshal rec) with
                    | Ok d1 => spread s h d1 (RecordKey nm) (Marshal rec)
                    | Err _ => nw_cluster s
                    end in
          (Ok rec, moved s (set_host x (MkHost (h_id h) d) cl))
      end
  end.

Definition net_resolve (x : bytes) (s : netstate) (nm : bytes) : result name_error NameRecord * netstate :=
  match hosts (nw_cluster s) !! x with
  | None => (Err ErrLookup, s)
  | Some h =>
      match Resolve (env_at s x) (net_at s h) (h_dht h) trusted nm (w_now (now_at s)) order with
      | None => (Err ErrLookup, s)
      | Some (r, d) =>
          (r, moved s (refresh (now_at s) (RecordKey nm) (set_host x (MkHost (h_id h) d) (nw_cluster s))))
      end
  end.

(** The broadcast itself is left to Gossip.v: here it is on its way. *)
Definition net_broadcast (x : bytes) (s : netstate) (p : RevokePayload) : list effect * netstate :=
  match hosts (nw_cluster s) !! x with
  | None => ([Broadcast (mk_message (bs "dht_revoke") (Marshal p))], s)
  | Some h =>
      let '(d, effs) := BroadcastRevoke (h_dht h) p in
      (effs, moved s (set_host x (MkHost (h_id h) d) (nw_cluster s)))
  end.

Definition net_names (x : bytes) : NameService netstate := {|
  ns_publish := net_publish x; ns_resolve := net_resolve x; ns_broadcast := net_broadcast x
|}.

(** ** What readers rely on *)

Definition net_inv (x : bytes) (s : netstate) : Prop :=
  cluster_ok (nw_cluster s) /\ is_Some (hosts (nw_cluster s) !! x).

(** [kk] is the closest peer to [k], and host [x], which does not block [k], finds it. *)
Definition route (cl : cluster) (x : bytes) (k kk : NodeID) : Prop :=
  nearest cl k kk /\ knows cl x kk /\ exists h, hosts cl !! x = Some h /\ IsBlocked (h_dht h) k = false.

(** The closest peer has [v], does not block it and has no budget that would evict it. *)
Definition kept_at (cl : cluster) (x : bytes) (k : NodeID) (v : bytes) : Prop :=
  exists kk hk, route cl x k kk /\ hosts cl !! Hex kk = Some hk /\ IsBlocked (h_dht hk) k = false
    /\ maxBytes (d_store (h_dht hk)) <= 0 /\ data (d_store (h_dht hk)) !! Hex k = Some v.

(** Host [x] is served [v], and no host has another value of the same address. *)
Definition net_keeps (x : bytes) (s : netstate) (k : NodeID) (v : bytes) : Prop :=
  ContentAddress v = k /\ kept_at (nw_cluster s) x k v
  /\ forall w, stored (nw_cluster s) k w -> ContentAddress w = k -> w = v.

Lemma route_evolves key V cl cl' x k kk : evolves key V cl cl' -> cluster_ok cl -> route cl x k kk -> route cl' x k kk.
Proof.
  intros A Hok (Hn & Hk & h & Hh & Hb). split; [by eapply evolves_nearest|]. split; [by eapply evolves_knows|].
  destruct (evs_hosts _ _ _ _ A x h Hh) as (h' & Hh' & B). exists h'. split; [done|].
  by rewrite (host_evolves_blocked _ _ _ _ _ k B).
Qed.

Lemma kept_at_evolves key V cl cl' x k v :
  evolves key V cl cl' -> cluster_ok cl -> (key = k -> forall w, V w -> w = v) ->
  kept_at cl x k v -> kept_at cl' x k v.
Proof.
  intros A Hok HV (kk & hk & Hr & Hh & Hb & Hm & Hv). destruct (evs_hosts _ _ _ _ A _ hk Hh) as (h' & Hh' & B).
  pose proof (ev_store _ _ _ _ _ B) as Hs. destruct (ev_config _ _ _ _ Hs) as (Em & _).
  exists kk, h'. split; [by eapply route_evolves|]. split; [done|].
  rewrite (host_evolves_blocked _ _ _ _ _ k B), Em. split_and!; [done|done|].
  destruct (ev_old _ _ _ _ Hs (Hex k) v Hm Hv) as [?|(E & w & Hw & Hd)]; [done|].
  apply (inj Hex) in E. by rewrite <- (HV (eq_sym E) w Hw).
Qed.

Lemma net_keeps_evolves key V s s' x k v :
  evolves key V (nw_cluster s) (nw_cluster s') -> cluster_ok (nw_cluster s) ->
  (key = k -> forall w, V w -> w = v) -> net_keeps x s k v -> net_keeps x s' k v.
Proof.
  intros A Hok HV (Ha & Hk & Hu). split; [done|]. split; [by eapply kept_at_evolves|].
  intros w Hw Hadr. destruct (evolves_stored _ _ _ _ _ _ A Hw) as [?|[<- ?]]; [by apply Hu|by apply HV].
Qed.

Lemma net_inv_evolves key V s s' x :
  evolves key V (nw_cluster s) (nw_cluster s') -> net_inv x s -> net_inv x s'.
Proof.
  intros A [Hok [h Hh]]. split; [by eapply cluster_evolves_ok|].
  destruct (evs_hosts _ _ _ _ A x h Hh) as (h' & -> & _). eauto.
Qed.

(** ** The operations are steps *)

Context (HW : forall t, weather_ok (W t)).

Lemma net_at_ok s h : net_ok (net_at s h).
Proof. apply HW. Qed.

Lemma refresh_evolves w key V cl cl' : evolves key V cl cl' -> evolves key V cl (refresh w key cl').
Proof.
  intros A. etrans; [exact A|].
  assert (forall y h, host_evolves cl' key V h
    (if w_asked w y && negb (IsBlocked (h_dht h) key)
     then MkHost (h_id h) (with_store (h_dht h) (Store.Get (d_store (h_dht h)) (pe_now (w_env w y).1) key).1)
     else h)) as Hstep.
  { intros y h. destruct (_ && _); [|reflexivity]. apply with_store_evolves, Get_evolves. }
  split; [done|..]; intros y h; cbn [refresh hosts]; rewrite map_lookup_imap.
  - intros ->. cbn. by eexists.
  - destruct (hosts cl' !! y) as [g|]; [|done]. cbn. intros [= <-]. by exists g.
Qed.

Lemma net_get_evolves x s key :
  net_inv x s ->
  evolves key (fun w => stored (nw_cluster s) key w /\ ContentAddress w = key)
    (nw_cluster s) (nw_cluster (net_get x s key).2)
  /\ forall v, (net_get x s key).1 = Ok v -> stored (nw_cluster s) key v /\ ContentAddress v = key.
Proof.
  intros [Hok [h Hh]]. unfold net_get. rewrite Hh. destruct (Hok x h Hh) as (Hd & _ & Hg).
  pose proof (net_at_ok s h) as Hn. unfold net_at in *.
  destruct (Get_network _ _ _ _ _ _ (env_at s x) (nw_cluster s) (h_id h) (h_dht h) key Hok Hn Hd Hg)
    as (r & d' & E & Hev & Hr). rewrite E. cbn [fst snd moved nw_cluster]. split.
  - apply refresh_evolves. eapply evolves_set_host; [reflexivity|done|]. by destruct h.
  - intros v ->. split; [destruct (Hr v eq_refl) as [?|?]; [by exists x, h|done]|].
    destruct (Get_frame (env_at s x) (net_at s h) (h_dht h) key Hd) as (r' & d2 & E2 & _ & _ & Hv & _).
    unfold net_at in E2. rewrite E in E2. injection E2 as <- _. exact Hv.
Qed.

Lemma net_store_local_evolves x s key v s' :
  net_store_local x s key v = Ok s' -> evolves key (eq v) (nw_cluster s) (nw_cluster s').
Proof.
  unfold net_store_local, StoreLocal. destruct (hosts _ !! x) as [h|] eqn:Hh; [|done].
  destruct (_ <? _); [done|].
  destruct (IsBlocked _ _); intros [= <-]; eapply evolves_set_host; [reflexivity|done|by destruct h|reflexivity|done|].
  apply with_store_evolves, put_evolves.
Qed.

Lemma net_replicate_evolves x s key v :
  net_inv x s -> evolves key (eq v) (nw_cluster s) (nw_cluster (net_replicate x s key v)).
Proof.
  intros [Hok [h Hh]]. unfold net_replicate. rewrite Hh. destruct (Hok x h Hh) as (Hd & _ & Hg).
  destruct (Replicate_network _ _ _ _ _ _ (nw_cluster s) (h_id h) (h_dht h) key v (eq v) Hok (net_at_ok s h) Hd Hg)
    as (d' & c & E & Hev & _). unfold net_at. rewrite E. cbn [moved nw_cluster].
  eapply evolves_set_host; [apply deliver_stores_evolves|done|]. by destruct h.
Qed.

(** A host finds what the closest peer has. *)
Lemma net_get_finds x s k v :
  net_inv x s -> kept_at (nw_cluster s) x k v -> ContentAddress v = k ->
  exists v', (net_get x s k).1 = Ok v' /\ ContentAddress v' = k.
Proof.
  intros [Hok _] (kk & hk & (Hn & Hkn & h & Hh & Hb) & Hk & Hbk & _ & Hv) Ha. destruct (Hok x h Hh) as (Hd & _ & Hg).
  set (w := now_at s).
  assert (exists v', cluster_get (w_env w) (w_rid w) (w_via w) (w_upd w) (w_app w) (w_clk w) (nw_cluster s) x k
    = Some (Ok v') /\ ContentAddress v' = k) as (v' & Hg' & Ha').
  { destruct Hkn as [->|(h' & Hh' & Hids)].
    - exists v. split; [|done]. rewrite Hk in Hh. injection Hh as <-. by eapply cluster_get_local.
    - rewrite Hh in Hh'. injection Hh' as <-. eapply cluster_get_nearest; try done; [apply (net_at_ok s h)|].
      by exists hk. }
  exists v'. split; [|done]. unfold cluster_get in Hg'. unfold net_get. rewrite Hh in Hg' |- *. unfold net_at, env_at.
  fold w. destruct (Get _ _ _ _) as [[r d]|]; [|done]. cbn in Hg'. by injection Hg' as ->.
Qed.

Lemma net_read_laws x : ReadLaws netstate (H := net_store x) (net_inv x) (net_keeps x).
Proof.
  split; cbn [cs_get net_store].
  - by intros s k v (? & _).
  - intros s k Hi. eapply net_inv_evolves; [by apply net_get_evolves|done].
  - intros s k v Hi Hr. by apply (proj2 (net_get_evolves x s k Hi)).
  - intros s k v Hi (Ha & Hk & Hu). destruct (net_get_finds x s k v Hi Hk Ha) as (v' & E & _).
    rewrite E. f_equal. destruct (proj2 (net_get_evolves x s k Hi) v' E). by apply Hu.
  - intros s k k' v Hi Hk. destruct (net_get_evolves x s k Hi) as [A _].
    eapply net_keeps_evolves; [exact A|apply Hi| |exact Hk]. intros <- w [Hw Hc]. by apply Hk.
Qed.

(** Reading by anybody disturbs nobody. *)
Lemma net_get_keeps x y s key k v :
  net_inv x s -> net_keeps y s k v -> net_keeps y (net_get x s key).2 k v.
Proof.
  intros Hi Hk. destruct (net_get_evolves x s key Hi) as [A _].
  eapply net_keeps_evolves; [exact A|apply Hi| |exact Hk]. intros <- w [Hw Hc]. by apply Hk.
Qed.

(** ** Publishing *)

(** The closest peer to [k] would take a value: it is there, does not block [k] and
    has neither a budget nor a quota. *)
Definition takes (cl : cluster) (k kk : NodeID) : Prop :=
  exists hk, hosts cl !! Hex kk = Some hk /\ IsBlocked (h_dht hk) k = false
    /\ maxBytes (d_store (h_dht hk)) <= 0 /\ perPeerMax (d_store (h_dht hk)) <= 0.

Lemma takes_evolves key V cl cl' k kk : evolves key V cl cl' -> takes cl k kk -> takes cl' k kk.
Proof.
  intros A (h & Hh & Hb & Hm & Hp). destruct (evs_hosts _ _ _ _ A _ h Hh) as (h' & Hh' & B).
  destruct (ev_config _ _ _ _ (ev_store _ _ _ _ _ B)) as (Em & _ & Ep). exists h'. split; [done|].
  by rewrite (host_evolves_blocked _ _ _ _ _ k B), Em, Ep.
Qed.

(** [Replicate] brings the value to the closest peer. *)
Lemma spread_reaches s x h d k kk v :
  net_inv x s -> hosts (nw_cluster s) !! x = Some h -> dht_ok d -> d_self d = d_self (h_dht h) ->
  table_all (genuine (nw_cluster s)) d -> IsBlocked d k = false ->
  nearest (nw_cluster s) k kk -> Hex kk ∈ ids (d_rt d) -> x <> Hex kk -> takes (nw_cluster s) k kk ->
  len v <= MaxValueSize -> holds (spread s h d k v) (Hex kk) k v.
Proof.
  intros [Hok _] Hh Hd Hself Hg Hb Hn Hids Hne (hk & Hk & Hbk & Hm & Hp) Hl. unfold spread.
  destruct (replicate_targets_nearest (w_env (now_at s)) (w_rid (now_at s)) (w_via (now_at s)) (w_upd (now_at s))
    (w_app (now_at s)) (w_clk (now_at s)) (nw_cluster s) (h_id h) k kk d) as (Hgt & c & Hc & Hid);
    [done|apply (net_at_ok s h)|done|done|done|done| |done|].
  { destruct (Hok x h Hh) as (_ & Hx & _). rewrite Hself. congruence. }
  rewrite <- Hid. eapply deliver_stores_reach; [exact Hc|exact Hgt|by rewrite Hid|done|done|].
  unfold admitted. rewrite (proj2 (Z.ltb_ge _ _) Hp). by rewrite andb_false_r.
Qed.

(** A host that has a value and sends it to the peers closest to the key: a step of
    the network after which every reader with a route to the closest peer has it. *)
Lemma spread_kept a b s h d1 d' k kk v :
  net_inv a s -> hosts (nw_cluster s) !! a = Some h ->
  host_evolves (nw_cluster s) k (eq v) h (MkHost (h_id h) d1) ->
  host_evolves (nw_cluster s) k (eq v) h (MkHost (h_id h) d') ->
  data (d_store d') !! Hex k = Some v ->
  route (nw_cluster s) a k kk -> route (nw_cluster s) b k kk -> takes (nw_cluster s) k kk ->
  len v <= MaxValueSize ->
  let cl' := set_host a (MkHost (h_id h) d') (spread s h d1 k v) in
  evolves k (eq v) (nw_cluster s) cl' /\ kept_at cl' b k v.
Proof.
  intros Hi Hh H1 H2 Hv (Hn & Hkn & ha & Ha & Hba) Hb Ht Hl cl'. pose proof (proj1 Hi) as Hok.
  rewrite Hh in Ha. injection Ha as <-. destruct (Hok a h Hh) as (Hd & Hs & Hg).
  assert (evolves k (eq v) (nw_cluster s) cl') as A.
  { eapply evolves_set_host; [apply deliver_stores_evolves|done|done]. }
  split; [done|].
  assert (holds cl' (Hex kk) k v) as (hk & Hk & Hbk & Hvk).
  { destruct (decide (a = Hex kk)) as [->|Hne].
    - exists (MkHost (h_id h) d'). split; [apply lookup_insert_eq|]. split; [|done].
      exact (eq_trans (host_evolves_blocked _ _ _ _ _ k H2) Hba).
    - apply set_host_holds; [done|]. destruct Hkn as [?|(h' & Hh' & Hids)]; [done|].
      rewrite Hh in Hh'. injection Hh' as <-.
      apply (spread_reaches s a h d1 k kk v); try done; [by apply H1|apply H1|by apply H1| |].
      { exact (eq_trans (host_evolves_blocked _ _ _ _ _ k H1) Hba). }
      by apply (ev_ids _ _ _ _ _ H1). }
  destruct (takes_evolves _ _ _ _ _ _ A Ht) as (hk' & Hk' & _ & Hm & _). rewrite Hk in Hk'. injection Hk' as <-.
  exists kk, hk. split; [|done]. by eapply route_evolves.
Qed.

(** Hosts [a] and [b] know the closest peer to each value of [pub], it takes the value,
    and no host has another value of that address. *)
Definition room_for (a b : bytes) (pub : bytes -> Prop) (cl : cluster) : Prop :=
  forall v, pub v ->
    (exists kk, route cl a (ContentAddress v) kk /\ route cl b (ContentAddress v) kk
                /\ takes cl (ContentAddress v) kk)
    /\ forall w, stored cl (ContentAddress v) w -> ContentAddress w = ContentAddress v -> w = v.

Section Publisher.
(** Host [a] publishes for host [b] the values of [pub], which have distinct addresses. *)
Context (a b : bytes) (pub : bytes -> Prop).
Context (pub_inj : forall v w, pub v -> pub w -> ContentAddress v = ContentAddress w -> v = w).

(** What else is to last while they are published. *)
Context (frame : cluster -> Prop).
Context (frame_step : forall v cl cl', pub v -> evolves (ContentAddress v) (eq v) cl cl' -> cluster_ok cl ->
  frame cl -> frame cl').

Definition net_roomy (s : netstate) : Prop := room_for a b pub (nw_cluster s) /\ frame (nw_cluster s).

Lemma net_roomy_evolves v s s' :
  evolves (ContentAddress v) (eq v) (nw_cluster s) (nw_cluster s') -> cluster_ok (nw_cluster s) -> pub v ->
  net_roomy s -> net_roomy s'.
Proof.
  intros A Hok Hv [Hr Hf]. split; [|by eapply frame_step]. intros u Hu. destruct (Hr u Hu) as [(kk & Ra & Rb & T) Hw]. split.
  - exists kk. split; [by eapply route_evolves|]. split; [by eapply route_evolves|by eapply takes_evolves].
  - intros w Hs Ha. destruct (evolves_stored _ _ _ _ _ _ A Hs) as [?|[_ <-]]; [by apply Hw|].
    by apply pub_inj.
Qed.

(** [publishStore] of a host. *)
Lemma net_publishStore s k v s' :
  net_inv a s -> publishStore (H := net_store a) s k v = Ok s' ->
  len v <= MaxValueSize /\ evolves k (eq v) (nw_cluster s) (nw_cluster s')
  /\ forall kk, route (nw_cluster s) a k kk -> route (nw_cluster s) b k kk -> takes (nw_cluster s) k kk ->
       kept_at (nw_cluster s') b k v.
Proof.
  intros Hi. unfold publishStore. cbn [cs_store_local cs_replicate net_store].
  destruct (net_store_local a s k v) as [s1|] eqn:E; [|done]. intros [= <-].
  pose proof (net_store_local_evolves _ _ _ _ _ E) as A1. pose proof (net_inv_evolves _ _ _ _ a A1 Hi) as Hi1.
  pose proof (net_replicate_evolves a s1 k v Hi1) as A2.
  assert (len v <= MaxValueSize) as Hl.
  { revert E. unfold net_store_local, StoreLocal. destruct (hosts _ !! a); [|done].
    by destruct (Z.ltb_spec MaxValueSize (len v)). }
  split; [done|]. split; [by etrans|]. intros kk Ra Rb T. pose proof (proj1 Hi) as Hok.
  destruct Hi as [_ [h Hh]]. unfold net_store_local, StoreLocal in E. rewrite Hh in E.
  rewrite (proj2 (Z.ltb_ge _ _) Hl) in E. pose proof Ra as (_ & _ & h0 & Hh0 & Hb0). rewrite Hh in Hh0. injection Hh0 as <-.
  rewrite Hb0 in E. injection E as E.
  set (h1 := MkHost (h_id h) (with_store (h_dht h) (Put (env_at s a) (d_store (h_dht h)) k v))) in *.
  assert (hosts (nw_cluster s1) !! a = Some h1) as Hh1 by (rewrite <- E; apply lookup_insert_eq).
  destruct (proj1 Hi1 a h1 Hh1) as (Hd1 & _ & Hg1).
  unfold net_replicate. rewrite Hh1.
  destruct (Replicate_network _ _ _ _ _ _ (nw_cluster s1) (h_id h1) (h_dht h1) k v (eq v) (proj1 Hi1) (net_at_ok s1 h1) Hd1 Hg1)
    as (d' & c & Er & Hev & Hst). unfold net_at. rewrite Er. cbn [moved nw_cluster].
  apply (spread_kept a b s1 h1 (h_dht h1) d' k kk v Hi1 Hh1); [reflexivity|exact Hev| |by eapply route_evolves..|by eapply takes_evolves|done].
  rewrite Hst. apply Put_data.
Qed.

Lemma net_publish_laws : PublishLaws netstate (H := net_store a) (net_inv a) net_roomy (net_keeps b) pub.
Proof.
  split.
  - intros s k v Hi. destruct (publishStore s k v) as [s'|] eqn:E.
    + destruct (net_publishStore s k v s' Hi E) as (? & A & _). split; [done|]. by eapply net_inv_evolves.
    + revert E. unfold publishStore. cbn [cs_store_local net_store]. unfold net_store_local, StoreLocal.
      destruct (proj2 Hi) as [h ->]. destruct (Z.ltb_spec MaxValueSize (len v)); [done|]. by destruct (IsBlocked _ _).
  - intros s v s' l Hi Hr Hp Ha Hk E. destruct (net_publishStore s _ v s' Hi E) as (_ & A & Hnew).
    split; [by eapply net_roomy_evolves; [exact A|apply Hi|exact Hp|]|]. destruct (proj1 Hr v Hp) as [(kk & Ra & Rb & T) Hw].
    apply Forall_cons. split.
    + split; [done|]. split; [by apply (Hnew kk)|]. intros w Hs Hc.
      destruct (evolves_stored _ _ _ _ _ _ A Hs) as [?|[_ <-]]; [by apply Hw|done].
    + apply Forall_forall. intros u Hu. unfold keeps_all in Hk. rewrite Forall_forall in Hk.
      eapply net_keeps_evolves; [exact A|apply Hi| |by apply Hk]. intros Hc w <-. apply Ha; [by left|by right|done].
Qed.

End Publisher.

(** ** Names *)

Lemma Store_network cl w x h key v d' c :
  let n := network (w_env w) (w_rid w) (w_via w) (w_upd w) (w_app w) (w_clk w) cl (h_id h) in
  cluster_ok cl -> net_ok n -> hosts cl !! x = Some h ->
  Store (w_env w x).1 n (h_dht h) key v = Ok (Some (d', c)) ->
  exists d1, StoreLocal (w_env w x).1 (h_dht h) key v = Ok d1
    /\ host_evolves cl key (eq v) h (MkHost (h_id h) d1) /\ host_evolves cl key (eq v) h (MkHost (h_id h) d')
    /\ (IsBlocked (h_dht h) key = false -> data (d_store d') !! Hex key = Some v).
Proof.
  intros n Hok Hn Hh. destruct (Hok x h Hh) as (Hd & _ & Hg). unfold Store, StoreLocal.
  destruct (_ <? _); [done|]. destruct (IsBlocked (h_dht h) key) eqn:Hb.
  { rewrite Hb. intros [= <- _]. exists (h_dht h). by destruct h; split_and!. }
  set (d1 := with_store _ _). assert (IsBlocked d1 key = false) as -> by exact Hb.
  assert (host_evolves cl key (eq v) h (MkHost (h_id h) d1)) as H1 by apply with_store_evolves, put_evolves.
  destruct (Replicate_network _ _ _ _ _ _ cl (h_id h) d1 key v (eq v) Hok Hn) as (d2 & k & E & H2 & Hst);
    [by apply (ev_ok _ _ _ _ _ H1)|by apply (ev_genuine _ _ _ _ _ H1)|].
  fold n in E. rewrite E. intros [= <- _]. exists d1. split_and!; [done|done|by etrans|].
  intros _. rewrite Hst. apply Put_data.
Qed.

(** Publishing a record is a step, and readers with a route to the closest peer of
    the record's key are served it. *)
Lemma net_publish_evolves x s id nm root v rec :
  net_inv x s -> (net_publish x s id nm root v).1 = Ok rec ->
  let s' := (net_publish x s id nm root v).2 in
  validName nm = Ok tt /\ rec = new_record id nm root v DefaultNameTTL (w_now (now_at s))
  /\ evolves (RecordKey nm) (eq (Marshal rec)) (nw_cluster s) (nw_cluster s')
  /\ forall y kk, route (nw_cluster s) x (RecordKey nm) kk -> route (nw_cluster s) y (RecordKey nm) kk ->
       takes (nw_cluster s) (RecordKey nm) kk -> kept_at (nw_cluster s') y (RecordKey nm) (Marshal rec).
Proof.
  intros Hi. destruct (proj2 Hi) as [h Hh]. unfold net_publish. rewrite Hh.
  destruct (Publish _ _ _ _ _ _ _ _) as [[r o]|] eqn:E; [|done].
  apply Publish_record in E as (Hv & Hr & Hl & Es).
  destruct o as [[d' c]|].
  2:{ exfalso. pose proof (Store_spec (env_at s x) (net_at s h) (h_dht h) (RecordKey nm) (Marshal r)
        (proj1 (proj1 Hi x h Hh)) (net_at_ok s h)) as Hs. by rewrite Es in Hs. }
  cbn [fst snd moved nw_cluster]. intros [= <-]. split; [done|]. split; [done|].
  destruct (Store_network (nw_cluster s) (now_at s) x h _ _ d' c (proj1 Hi) (net_at_ok s h) Hh Es)
    as (d1 & E1 & H1 & H2 & Hd). unfold env_at. rewrite E1. split.
  - eapply evolves_set_host; [apply deliver_stores_evolves|done|done].
  - intros y kk Rx Ry T. eapply (spread_kept x y s h d1 d' _ kk); try done. apply Hd.
    destruct Rx as (_ & _ & h0 & Hh0 & Hb). rewrite Hh in Hh0. by injection Hh0 as <-.
Qed.

Lemma net_resolve_evolves x s nm V :
  net_inv x s -> evolves (RecordKey nm) V (nw_cluster s) (nw_cluster (net_resolve x s nm).2).
Proof.
  intros [Hok [h Hh]]. unfold net_resolve. rewrite Hh. destruct (Hok x h Hh) as (Hd & _ & Hg).
  assert (forall r d, Resolve (env_at s x) (net_at s h) (h_dht h) trusted nm (w_now (now_at s)) order = Some (r, d) ->
    host_evolves (nw_cluster s) (RecordKey nm) V h (MkHost (h_id h) d)) as Hev.
  { intros r d. unfold Resolve. destruct (validName nm) as [[]|] eqn:Hv; [|intros [= _ <-]; by destruct h]. cbv zeta.
    replace (RecordKey (CanonicalName nm)) with (RecordKey nm) by (unfold RecordKey; by rewrite valid_canonical).
    destruct (GetAllUnverified_network _ _ _ _ _ _ (env_at s x) (nw_cluster s) (h_id h) (h_dht h) (RecordKey nm) V
      Hok (net_at_ok s h) Hd Hg) as (r' & d' & E & H1). unfold net_at. rewrite E.
    destruct r'; intros [= _ <-]; by destruct h. }
  destruct (Resolve _ _ _ _ _ _ _) as [[r d]|]; [|reflexivity]. cbn [snd moved nw_cluster].
  apply refresh_evolves. eapply evolves_set_host; [reflexivity|done|by eapply Hev].
Qed.

(** A broadcast leaves the tables alone. *)
Lemma net_broadcast_inv x s p : net_inv x s -> net_inv x (net_broadcast x s p).2.
Proof.
  intros [Hok [h Hh]]. unfold net_broadcast. rewrite Hh. destruct (Hok x h Hh) as (Hd & Hs & Hg).
  destruct (BroadcastRevoke (h_dht h) p) as [d effs] eqn:E. cbn [snd moved nw_cluster].
  assert (d_rt d = d_rt (h_dht h) /\ d_self d = d_self (h_dht h)) as [E1 E2].
  { unfold BroadcastRevoke, applyRevoke in E. injection E as <- _.
    set (d0 := match d_blocklist (h_dht h) with None => _ | Some _ => _ end).
    destruct (revoke_chunks_frame d0 (rp_Chunks p)) as [F1 F2]. rewrite F1, F2. unfold d0.
    by destruct (d_blocklist (h_dht h)). }
  split; [|cbn; rewrite lookup_insert_eq; eauto].
  intros y g. cbn [moved nw_cluster set_host hosts].
  intros [[<- <-]|[_ Hy]]%lookup_insert_Some; [|by apply (Hok y g)].
  unfold dht_ok, table_all in *. cbn [h_dht]. by rewrite E1, E2.
Qed.

Lemma net_ns_laws x y : NameServiceLaws netstate (H1 := net_names x) (net_inv x) (net_keeps y) trusted.
Proof.
  split; cbn [ns_publish ns_resolve ns_broadcast net_names].
  - intros s id nm root v rec. unfold net_publish. destruct (hosts _ !! x) as [h|]; [|done].
    destruct (Publish _ _ _ _ _ _ _ _) as [[r o]|] eqn:E; [|done].
    apply Publish_record in E as (Hv & -> & _). by destruct o as [[d k]|]; intros [= <-].
  - intros s id nm root v Hi. destruct (net_publish x s id nm root v).1 as [rec|e] eqn:E.
    + destruct (net_publish_evolves x s id nm root v rec Hi E) as (_ & _ & A & _). by eapply net_inv_evolves.
    + revert E. unfold net_publish. destruct (hosts _ !! x) as [h|]; [|done].
      by destruct (Publish _ _ _ _ _ _ _ _) as [[r [[d k]|]]|].
  - intros s id nm root v k c Hi Hne Hk. destruct (net_publish x s id nm root v).1 as [rec|e] eqn:E.
    + destruct (net_publish_evolves x s id nm root v rec Hi E) as (_ & _ & A & _).
      eapply net_keeps_evolves; [exact A|apply Hi|by intros <-|done].
    + revert E. unfold net_publish. destruct (hosts _ !! x) as [h|]; [|done].
      by destruct (Publish _ _ _ _ _ _ _ _) as [[r [[d k']|]]|].
  - intros s nm rec. unfold net_resolve. destruct (hosts _ !! x) as [h|]; [|done].
    destruct (Resolve _ _ _ _ _ _ _) as [[r d]|] eqn:E; [|done]. cbn [fst]. intros ->. by eapply Resolve_record.
  - intros s nm Hi. eapply net_inv_evolves; [by apply (net_resolve_evolves x s nm (fun _ => False))|done].
  - intros s nm k c Hi Hk. eapply net_keeps_evolves; [by apply (net_resolve_evolves x s nm (fun _ => False))|apply Hi|done|done].
  - intros s p. unfold net_broadcast. by destruct (hosts _ !! x).
  - intros s p. apply net_broadcast_inv.
Qed.

(** No host has another record of the name that is as new. *)
Definition freshest (cl : cluster) (now : Z) (nm : bytes) (rec : NameRecord) : Prop :=
  forall blob rec', stored cl (RecordKey nm) blob ->
    eligible trusted now (CanonicalName nm) blob = Ok rec' -> rec' = rec \/ r_Version rec' < r_Version rec.

(** A name resolves, anywhere, to the record the closest peer has. *)
Lemma net_resolve_finds x s nm blob rec :
  net_inv x s -> complete_order order -> validName nm = Ok tt -> kept_at (nw_cluster s) x (RecordKey nm) blob ->
  eligible trusted (w_now (now_at s)) (CanonicalName nm) blob = Ok rec ->
  freshest (nw_cluster s) (w_now (now_at s)) nm rec ->
  (net_resolve x s nm).1 = Ok rec.
Proof.
  intros [Hok _] Ho Hv (kk & hk & (Hn & Hkn & h & Hh & Hb) & Hk & Hbk & _ & Hd) He Hf.
  destruct (Hok x h Hh) as (Hdh & _ & Hg). unfold net_resolve. rewrite Hh.
  destruct (Resolve_freshest (env_at s x) (net_at s h) (h_dht h) trusted nm (w_now (now_at s)) order blob rec)
    as [d' E]; [done|apply net_at_ok|done|done| |done| | |by rewrite E].
  - destruct Hkn as [->|(h' & Hh' & Hids)]; [left; rewrite Hk in Hh; by injection Hh as <-|right].
    rewrite Hh in Hh'. injection Hh' as <-.
    destruct (Closest_nearest (h_dht h) (RecordKey nm) kk K) as (c & rest & Ec & Hc);
      [unfold K; lia|done|by eapply genuine_far|].
    assert (genuine (nw_cluster s) c) as Hgc.
    { eapply Forall_forall; [by apply Closest_all|]. rewrite Ec. by left. }
    exists c. split.
    + rewrite Ec. unfold pick_batch. cbn [List.filter].
      rewrite bool_decide_eq_false_2 by apply not_elem_of_empty. by left.
    + apply find_value_held; [done|]. rewrite Hc. by exists hk.
  - intros b' rec' Hb'. apply Hf. by exists x, h.
  - intros r c b' rec' Hval. apply Hf.
    exact (proj1 (sendFindValue_answers _ _ _ _ _ _ (nw_cluster s) (h_id h) r (RecordKey nm) c Hok) b' Hval).
Qed.

End Network.
