(* ===== verification/Gossip.v ===== *)
(** * A revocation floods the network

    revoke.go across nodes: [BroadcastRevoke] at the registrar's node, then
    [handleRevoke] and [gossipRevoke] wherever a copy arrives.  A state is the hosts
    and the copies on their way; which connections a host has is given.  Copies are
    delivered in any order, while the hosts handle whatever other messages arrive.

    The flood ends, and when no copy is left every host that a chain of trusting
    hosts connects to the origin has blocked and deleted the chunks.  That fails when
    somebody sends another payload with the same signed bytes
    ([mimic_stops_revocation]). *)

From S2P Require Import Prelude GoStrings Encoding Json Sha256 Crypto Peer Revoke NodeId.
From S2P Require Import Blocklist Store Routing DhtWire Dht Lookup ContentStore Cluster NetworkStore.

(** ** What one message does *)

(** A handler changes nothing a revocation did, and is silent towards the others,
    unless it is [handleRevoke] and accepts. *)
Section Message.
Context `{Ed25519}.

Definition no_broadcast (effs : list effect) : Prop := forall m, Broadcast m ∉ effs.

Lemma HandleMessage_cases e unix d addr msg d' effs :
  HandleMessage e unix d addr msg = Ret (d', effs) ->
  (exists rp, m_Type msg = bs "dht_revoke" /\ Unmarshal (m_Payload msg) = Some rp /\ acceptable d unix rp = true
     /\ d_revokeSeen d !! revokeID rp = None /\ effs = [Broadcast msg]
     /\ d' = applyRevoke (with_revokeSeen d (prune_seen (pe_now e) (<[revokeID rp := pe_now e]> (d_revokeSeen d)))) rp)
  \/ (no_broadcast effs /\ d_revokeSeen d' = d_revokeSeen d /\ d_trusted d' = d_trusted d
      /\ d_blocklist d' = d_blocklist d
      /\ (forall rp, m_Type msg = bs "dht_revoke" -> Unmarshal (m_Payload msg) = Some rp ->
            acceptable d unix rp = false \/ is_Some (d_revokeSeen d !! revokeID rp))
      /\ forall id, IsBlocked d id = true -> data (d_store d) !! Hex id = None -> data (d_store d') !! Hex id = None).
Proof.
  assert (no_broadcast []) as Hnil by (intros m; apply not_elem_of_nil).
  assert (forall a q r, no_broadcast [Reply a q r]) as Hrep by (by intros a q r m ?%list_elem_of_singleton).
  unfold HandleMessage. destruct (bool_decide (m_Type msg = bs "hello")) eqn:E1; zbool.
  { intros [= Hh]. right. rewrite E1. unfold observeHello, rt_update in Hh.
    repeat case_match; simplify_eq/=; split_and!; try done; intros m Hm; set_solver. }
  destruct (bool_decide (m_Type msg = bs "goodbye")) eqn:E2; zbool.
  { intros Hh. right. rewrite E2. unfold observeGoodbye in Hh.
    repeat (case_match; try (simplify_eq/=; split_and!; done)). }
  destruct (bool_decide (m_Type msg = bs "dht_ping")) eqn:E3; zbool.
  { intros [= <- <-]. right. rewrite E3. split_and!; try done. apply Hrep. }
  destruct (bool_decide (m_Type msg = bs "dht_find_node")) eqn:E4; zbool.
  { intros [= <- <-]. right. rewrite E4. split_and!; try done. unfold handleFindNode. repeat case_match; done. }
  destruct (bool_decide (m_Type msg = bs "dht_store")) eqn:E5; zbool.
  { intros [= Hh]. right. rewrite E5. unfold handleStore in Hh.
    destruct (Unmarshal _) as [sp|]; [|by simplify_eq]. destruct (IDFromHex _) as [key|]; [|by simplify_eq].
    destruct (b64_decode _ _) as [v|]; [|by simplify_eq]. destruct (_ <? _); [by simplify_eq|].
    destruct (IsBlocked d key) eqn:Eb; [simplify_eq; split_and!; done|]. unfold PutAttributed in Hh.
    pose proof (ev_new _ _ _ _ (put_evolves e (d_store d) key v (m_From msg))) as Hnew.
    destruct (put _ _ _ _ _) as [s acc]. cbn [fst] in Hnew.
    assert (forall id, IsBlocked d id = true -> data (d_store d) !! Hex id = None -> data s !! Hex id = None) as Hb.
    { intros id Hbid Hd. destruct (data s !! Hex id) as [w|] eqn:Ew; [|done].
      destruct (Hnew _ w Ew) as [?|[Ex _]]; [congruence|]. apply (inj Hex) in Ex. congruence. }
    destruct acc; simplify_eq/=; split_and!; done. }
  destruct (bool_decide (m_Type msg = bs "dht_find_value")) eqn:E6; zbool.
  { intros [= Hh]. right. rewrite E6. unfold handleFindValue, Store.Get in Hh.
    repeat case_match; simplify_eq/=; split_and!; try done; try apply Hrep. }
  destruct (bool_decide (m_Type msg = bs "dht_revoke")) eqn:E7; zbool.
  { intros [= Hh]. rewrite handleRevoke_eq in Hh. destruct (Unmarshal _) as [rp|] eqn:Eu; [|simplify_eq; right; split_and!; done].
    destruct (acceptable d unix rp) eqn:Ea; cbn [andb] in Hh.
    2:{ simplify_eq. right. split_and!; try done. intros rp' _ [= <-]. by left. }
    destruct (d_revokeSeen d !! revokeID rp) eqn:Es.
    - rewrite bool_decide_eq_true_2 in Hh by done. simplify_eq/=. right. split_and!; try done.
      intros rp' _ [= <-]. right. by rewrite Es.
    - rewrite bool_decide_eq_false_2 in Hh by (by intros [? ?]). simplify_eq/=. left. by exists rp. }
  intros [= <- <-]. right. split_and!; done.
Qed.

End Message.

(** ** The flood *)

#[global] Instance RevokePayload_eq_dec : EqDecision RevokePayload.
Proof. solve_decision. Defined.

(** The hosts, and the messages on their way with the host each is for. *)
Record flood := MkFlood { fl_hosts : gmap bytes host; fl_wire : list (bytes * Message) }.

Section Flood.
Context `{Ed25519}.

(** The hosts a broadcast of each host reaches, and the payload that is revoked. *)
Context (links : bytes -> list bytes) (rp : RevokePayload).

(** [Peer.Broadcast]: every message is signed by the host that sends it. *)
Definition sends (x : bytes) (h : host) (effs : list effect) : list (bytes * Message) :=
  concat ((fun e => match e with
                    | Broadcast m => (fun y => (y, Wire.seal (h_id h) m)) <$> links x
                    | _ => []
                    end) <$> effs).

(** Host [y] handles a message. *)
Definition handled (e : put_env) (addr y : bytes) (m : Message) (wire : list (bytes * Message)) (s : flood)
  : option flood :=
  match fl_hosts s !! y with
  | None => None
  | Some h =>
      match HandleMessage e (unix_of (pe_now e)) (h_dht h) addr m with
      | Panic => None
      | Ret (d, effs) => Some (MkFlood (<[y := MkHost (h_id h) d]> (fl_hosts s)) (wire ++ sends y h effs))
      end
  end.

(** The origin calls [BroadcastRevoke]. *)
Definition launch (x : bytes) (s : flood) : option flood :=
  match fl_hosts s !! x with
  | None => None
  | Some h =>
      let '(d, effs) := BroadcastRevoke (h_dht h) rp in
      Some (MkFlood (<[x := MkHost (h_id h) d]> (fl_hosts s)) (fl_wire s ++ sends x h effs))
  end.

(** The clocks are where the timestamp is accepted. *)
Definition in_window (now : Time) : Prop :=
  unix_of now - MaxRevokeAge <= rp_Timestamp rp <= unix_of now + MaxRevokeFutureSkew.

Definition is_copy (m : Message) : Prop := m_Type m = bs "dht_revoke" /\ Unmarshal (m_Payload m) = Some rp.

(** Another payload that is deduplicated with this one. *)
Definition mimic (m : Message) : Prop :=
  exists q, Unmarshal (m_Payload m) = Some q /\ revokeID q = revokeID rp /\ q <> rp.

(** A message on its way arrives. *)
Inductive deliver_step : flood -> flood -> Prop :=
  | deliver_copy e addr y m l1 l2 s s' :
      fl_wire s = l1 ++ (y, m) :: l2 -> in_window (pe_now e) -> handled e addr y m (l1 ++ l2) s = Some s' ->
      deliver_step s s'.

(** Or any other message, from anywhere. *)
Inductive flood_step : flood -> flood -> Prop :=
  | flood_deliver s s' : deliver_step s s' -> flood_step s s'
  | flood_other e addr y m s s' :
      in_window (pe_now e) -> ~ mimic m -> handled e addr y m (fl_wire s) s = Some s' -> flood_step s s'.

(** A host that accepts the payload: it trusts the key, and the signature verifies. *)
Definition honors (d : DHT) : bool :=
  Trusted_Contains (d_trusted d) (rp_PublicKey rp)
  && match PublicKeyFromHex (rp_PublicKey rp) with
     | Ok pub => is_ok (Verify pub (canonical_of rp) (rp_Signature rp))
     | Err _ => false
     end.

Definition seen (d : DHT) : Prop := is_Some (d_revokeSeen d !! revokeID rp).

Definition purged (d : DHT) : Prop :=
  forall id, id ∈ revoked_ids rp -> IsBlocked d id = true /\ data (d_store d) !! Hex id = None.

Lemma honors_acceptable d now : in_window now -> acceptable d (unix_of now) rp = honors d.
Proof.
  intros [H1 H2]. unfold acceptable, honors. rewrite (proj2 (Z.leb_le _ _) H1), (proj2 (Z.leb_le _ _) H2).
  by rewrite !andb_true_r.
Qed.

(** The clean-up of [revokeSeen] does not reach back to the window. *)
Lemma prune_window now t m k :
  in_window now -> in_window t -> m !! k = Some t -> prune_seen now m !! k = Some t.
Proof.
  intros Hn Ht Hk. unfold prune_seen. destruct (_ <? _)%nat; [|done]. apply map_lookup_filter_Some. split; [done|].
  cbn [snd]. intros Hlt. pose proof (unix_of_gap t now ltac:(lia)).
  unfold in_window, MaxRevokeAge, MaxRevokeFutureSkew in *. lia.
Qed.

Lemma prune_sub now m k t : prune_seen now m !! k = Some t -> m !! k = Some t.
Proof. unfold prune_seen. destruct (_ <? _)%nat; [|done]. by intros [? _]%map_lookup_filter_Some. Qed.

(** A node between two messages: if it has seen the payload it has applied it, within
    the window. *)
Definition node_fine (d : DHT) : Prop :=
  forall t, d_revokeSeen d !! revokeID rp = Some t -> in_window t /\ purged d.

Lemma purged_applied d : purged (applyRevoke d rp).
Proof.
  destruct (applyRevoke_spec d rp) as (H1 & H2 & _). intros id Hid.
  rewrite H1, H2, !bool_decide_eq_true_2; [done|by apply list_elem_of_fmap_2|done].
Qed.

Lemma purged_apply d q : purged d -> purged (applyRevoke d q).
Proof.
  destruct (applyRevoke_spec d q) as (H1 & H2 & _). intros Hp id Hid. destruct (Hp id Hid) as [Hb Hd].
  rewrite H1, H2, Hb, orb_true_r. split; [done|]. by destruct (bool_decide _).
Qed.

(** One message at one node. *)
Lemma revoke_node_step e addr m d d' effs :
  in_window (pe_now e) -> ~ mimic m -> node_fine d ->
  HandleMessage e (unix_of (pe_now e)) d addr m = Ret (d', effs) ->
  node_fine d' /\ honors d' = honors d /\ (purged d -> purged d') /\ (seen d -> seen d')
  /\ (forall m', Broadcast m' ∈ effs -> m' = m)
  /\ (seen d' -> seen d \/ is_copy m /\ effs = [Broadcast m])
  /\ (is_copy m -> no_broadcast effs \/ effs = [Broadcast m] /\ ~ seen d /\ seen d')
  /\ (is_copy m -> honors d = true -> seen d').
Proof.
  intros Hw Hm Hf Hh. apply HandleMessage_cases in Hh as [(q & Ht & Hu & Ha & Hs & -> & ->)|(Hnb & Hseen & Htr & Hbl & Hrev & Hst)].
  - set (d1 := with_revokeSeen d _). destruct (applyRevoke_spec d1 q) as (_ & _ & _ & Es & Et).
    unfold node_fine, seen. rewrite Es. cbn [d1 with_revokeSeen d_revokeSeen].
    assert (forall t, d_revokeSeen d !! revokeID rp = Some t ->
      prune_seen (pe_now e) (<[revokeID q := pe_now e]> (d_revokeSeen d)) !! revokeID rp = Some t) as Hkeep.
    { intros t Hs'. apply prune_window; [done|by apply Hf|]. rewrite lookup_insert_ne; [done|]. congruence. }
    split.
    { intros t [[E <-]|[_ Ht']]%prune_sub%lookup_insert_Some.
      - split; [done|]. destruct (decide (q = rp)) as [->|]; [apply purged_applied|]. destruct Hm. by exists q.
      - destruct (Hf t Ht') as [? ?]. split; [done|]. by apply purged_apply. }
    split; [unfold honors; by rewrite Et|]. split; [intros Hp; by apply purged_apply|].
    split; [intros [t ?]; exists t; by apply Hkeep|]. split; [by intros m' [= ->]%list_elem_of_singleton|].
    split.
    { intros [t Ht']. apply prune_sub, lookup_insert_Some in Ht' as [[E _]|[_ Ht']]; [|left; eauto].
      right. split; [|done]. split; [done|]. destruct (decide (q = rp)) as [->|]; [done|]. destruct Hm. by exists q. }
    assert (is_copy m -> is_Some (prune_seen (pe_now e) (<[revokeID q := pe_now e]> (d_revokeSeen d)) !! revokeID rp)) as Hgot.
    { intros [_ Hu']. rewrite Hu in Hu'. injection Hu' as ->. exists (pe_now e).
      apply prune_window; [done|done|]. apply lookup_insert_eq. }
    split; [|by intros ? _; apply Hgot]. intros Hc. right. split_and!; [done| |by apply Hgot].
    destruct Hc as [_ Hu']. rewrite Hu in Hu'. injection Hu' as ->. rewrite Hs. by intros [? ?].
  - assert (purged d -> purged d') as Hp.
    { intros Hp id Hid. destruct (Hp id Hid) as [Hb Hd]. split; [|by apply Hst].
      unfold IsBlocked in *. by rewrite Hbl. }
    unfold node_fine, seen. rewrite Hseen. split; [intros t Ht; destruct (Hf t Ht); eauto|].
    split; [unfold honors; by rewrite Htr|]. split; [done|]. split; [done|].
    split; [intros m' Hin; by destruct (Hnb m')|]. split; [by left|]. split; [by left|].
    intros [Ht Hu] Hho. destruct (Hrev rp Ht Hu) as [Hn|?]; [|done]. rewrite honors_acceptable in Hn by done. congruence.
Qed.

Record flood_inv (origin : bytes) (s : flood) : Prop := {
  fi_wire y m : (y, m) ∈ fl_wire s -> ~ mimic m;
  fi_fine u h : fl_hosts s !! u = Some h -> node_fine (h_dht h);
  fi_origin h : fl_hosts s !! origin = Some h -> purged (h_dht h);
  (* whoever has passed it on: its neighbours have it, or a copy is on its way *)
  fi_edge u v hu hv :
    fl_hosts s !! u = Some hu -> u = origin \/ seen (h_dht hu) -> v ∈ links u ->
    fl_hosts s !! v = Some hv -> honors (h_dht hv) = true ->
    v = origin \/ seen (h_dht hv) \/ exists m, (v, m) ∈ fl_wire s /\ is_copy m
}.

Lemma sends_elem x h effs y m :
  (y, m) ∈ sends x h effs -> y ∈ links x /\ exists m', Broadcast m' ∈ effs /\ m = Wire.seal (h_id h) m'.
Proof.
  unfold sends. intros (l & Hl & Hin)%list_elem_of_In%in_concat. apply list_elem_of_In in Hl, Hin.
  apply list_elem_of_fmap in Hl as (eff & -> & He). destruct eff as [|m'|]; try by apply not_elem_of_nil in Hin.
  apply list_elem_of_fmap in Hin as (z & [= <- ->] & ?). split; [done|]. by exists m'.
Qed.

Lemma sends_broadcast x h m : sends x h [Broadcast m] = (fun y => (y, Wire.seal (h_id h) m)) <$> links x.
Proof. unfold sends. cbn. by rewrite app_nil_r. Qed.

Lemma sends_quiet x h effs : no_broadcast effs -> sends x h effs = [].
Proof.
  intros Hn. destruct (sends x h effs) as [|[y m] l] eqn:E; [done|].
  destruct (sends_elem x h effs y m) as (_ & m' & Hin & _); [rewrite E; by left|]. by destruct (Hn m').
Qed.

(** A host that handles a message other than a mimic keeps the invariant. *)
Lemma handled_inv origin e addr y m wire s s' :
  in_window (pe_now e) -> ~ mimic m -> wire ⊆ fl_wire s ->
  (forall z m', (z, m') ∈ fl_wire s -> (z, m') ∈ wire \/ z = y /\ m' = m) ->
  handled e addr y m wire s = Some s' -> flood_inv origin s -> flood_inv origin s'.
Proof.
  intros Hw Hm Hsub Hwire Hh I. unfold handled in Hh. destruct (fl_hosts s !! y) as [h|] eqn:Eh; [|done].
  destruct (HandleMessage _ _ _ _ _) as [[d' effs]|] eqn:Em; [|done]. injection Hh as <-.
  destruct (revoke_node_step e addr m (h_dht h) d' effs Hw Hm (fi_fine _ _ I y h Eh) Em)
    as (Hf & Hho & Hp & Hs & Hb & Hnew & _ & Hgot).
  assert (forall u hu, <[y := MkHost (h_id h) d']> (fl_hosts s) !! u = Some hu ->
    exists hu0, fl_hosts s !! u = Some hu0 /\ honors (h_dht hu) = honors (h_dht hu0)
      /\ (seen (h_dht hu0) -> seen (h_dht hu)) /\ (purged (h_dht hu0) -> purged (h_dht hu))
      /\ (seen (h_dht hu) -> seen (h_dht hu0) \/ u = y /\ is_copy m /\ effs = [Broadcast m])
      /\ (u = y -> is_copy m -> honors (h_dht hu0) = true -> seen (h_dht hu))) as Hhost.
  { intros u hu [[<- <-]|[Hne Hu]]%lookup_insert_Some.
    - exists h. split_and!; try done. intros Hse. destruct (Hnew Hse) as [?|[? ?]]; [by left|by right].
    - exists hu. split_and!; try done. by left. }
  split; cbn [fl_hosts fl_wire].
  - intros z m' [Hin|Hin]%elem_of_app; [by eapply fi_wire, Hsub|].
    apply sends_elem in Hin as (_ & m2 & Hin & ->). by rewrite (Hb m2 Hin).
  - intros u hu [[<- <-]|[_ Hu]]%lookup_insert_Some; [done|by eapply fi_fine].
  - intros hu Hu. destruct (Hhost _ _ Hu) as (hu0 & Hu0 & _ & _ & Hpu & _). by eapply Hpu, fi_origin.
  - intros u v hu hv Hu Hact Hv Hvh Hhon.
    destruct (Hhost _ _ Hu) as (hu0 & Hu0 & _ & _ & _ & Hun & _).
    destruct (Hhost _ _ Hvh) as (hv0 & Hv0 & Ehon & Hsv & _ & _ & Hgotv). rewrite Ehon in Hhon.
    assert (u = origin \/ seen (h_dht hu0) \/ u = y /\ is_copy m /\ effs = [Broadcast m]) as [Ho|[Ho|(-> & Hc & ->)]].
    { destruct Hact as [?|Hse]; [by left|]. destruct (Hun Hse); tauto. }
    1, 2: destruct (fi_edge _ _ I u v hu0 hv0 Hu0 ltac:(tauto) Hv Hv0 Hhon) as [?|[?|(m' & Hin & Hc)]];
      [by left|right; left; by apply Hsv|];
      destruct (Hwire v m' Hin) as [?|[-> ->]];
      [right; right; exists m'; by split; [apply elem_of_app; left|]|right; left; by apply Hgotv].
    right. right. exists (Wire.seal (h_id h) m). split; [|done]. apply elem_of_app. right. rewrite sends_broadcast.
    by apply (list_elem_of_fmap_2 (fun y => (y, Wire.seal (h_id h) m))).
Qed.

Lemma flood_step_inv origin s s' : flood_step s s' -> flood_inv origin s -> flood_inv origin s'.
Proof.
  intros [? ? [e addr y m l1 l2 s0 s1 Hl Hw Hh]|e addr y m s0 s1 Hw Hm Hh] I.
  - eapply handled_inv; [exact Hw| | | |exact Hh|done].
    + apply (fi_wire _ _ I y). rewrite Hl. set_solver.
    + rewrite Hl. set_solver.
    + intros z m'. rewrite Hl. set_solver.
  - eapply handled_inv; [exact Hw|exact Hm|done| |exact Hh|done]. by left.
Qed.

Lemma launch_inv origin s s' :
  revoke_fine rp -> launch origin s = Some s' ->
  (forall y m, (y, m) ∈ fl_wire s -> ~ mimic m) ->
  (forall u h, fl_hosts s !! u = Some h -> d_revokeSeen (h_dht h) !! revokeID rp = None) ->
  flood_inv origin s'.
Proof.
  intros Hfine Hl Hwire Hfresh. unfold launch in Hl. destruct (fl_hosts s !! origin) as [h|] eqn:Eh; [|done].
  unfold BroadcastRevoke in Hl. injection Hl as <-. rewrite sends_broadcast.
  set (m := mk_message (bs "dht_revoke") (Marshal rp)).
  assert (Unmarshal (m_Payload m) = Some rp) as Hu by by apply Unmarshal_Marshal.
  assert (forall u hu, <[origin := MkHost (h_id h) (applyRevoke (h_dht h) rp)]> (fl_hosts s) !! u = Some hu ->
    d_revokeSeen (h_dht hu) !! revokeID rp = None) as Hno.
  { intros u hu [[<- <-]|[_ Hu']]%lookup_insert_Some; [|by eapply Hfresh]. cbn [h_dht].
    destruct (applyRevoke_spec (h_dht h) rp) as (_ & _ & _ & -> & _). by eapply Hfresh. }
  split; cbn [fl_hosts fl_wire].
  - intros y m' [?|Hin]%elem_of_app; [by eapply Hwire|]. apply list_elem_of_fmap in Hin as (z & [= -> ->] & _).
    intros (q & Hq & _ & Hne). change (m_Payload (Wire.seal (h_id h) m)) with (m_Payload m) in Hq. congruence.
  - intros u hu Hu' t Ht. rewrite (Hno u hu Hu') in Ht. discriminate.
  - intros hu. rewrite lookup_insert_eq. intros [= <-]. apply purged_applied.
  - intros u v hu hv Hu' Hact Hv _ _. destruct Hact as [->|[t Ht]]; [|rewrite (Hno u hu Hu') in Ht; discriminate].
    right. right. exists (Wire.seal (h_id h) m). split; [|done]. apply elem_of_app. right.
    by apply (list_elem_of_fmap_2 (fun y => (y, Wire.seal (h_id h) m))).
Qed.

(** Hosts stay, and whom they trust. *)
Lemma flood_step_hosts s s' :
  flood_step s s' -> forall v h, fl_hosts s !! v = Some h ->
  exists h', fl_hosts s' !! v = Some h' /\ honors (h_dht h') = honors (h_dht h).
Proof.
  assert (forall e addr y m wire s s', handled e addr y m wire s = Some s' -> forall v h, fl_hosts s !! v = Some h ->
    exists h', fl_hosts s' !! v = Some h' /\ honors (h_dht h') = honors (h_dht h)) as Hgen.
  { clear s s'. intros e addr y m wire s s' Hh v h Hv. unfold handled in Hh.
    destruct (fl_hosts s !! y) as [hy|] eqn:Ey; [|done].
    destruct (HandleMessage _ _ _ _ _) as [[d effs]|] eqn:Em; [|done]. injection Hh as <-. cbn [fl_hosts].
    destruct (decide (v = y)) as [->|Hne]; [|exists h; by rewrite lookup_insert_ne].
    rewrite lookup_insert_eq. eexists. split; [done|]. rewrite Ey in Hv. injection Hv as <-. cbn [h_dht].
    unfold honors. apply HandleMessage_cases in Em as [(q & _ & _ & _ & _ & _ & ->)|(_ & _ & -> & _)]; [|done].
    by destruct (applyRevoke_spec (with_revokeSeen (h_dht hy) (prune_seen (pe_now e)
      (<[revokeID q := pe_now e]> (d_revokeSeen (h_dht hy))))) q) as (_ & _ & _ & _ & ->). }
  intros [? ? [? ? ? ? ? ? ? ? _ _ Hh]|? ? ? ? ? ? _ _ Hh]; by eapply Hgen.
Qed.

(** [v] is connected to [u] and accepts the payload. *)
Definition hop (s : flood) (u v : bytes) : Prop :=
  v ∈ links u /\ exists h, fl_hosts s !! v = Some h /\ honors (h_dht h) = true.

(** C9 (revoke.go, [BroadcastRevoke], [handleRevoke], [gossipRevoke], [applyRevoke]): a
    revocation reaches every node there is a way to.  A node broadcasts a
    revocation nobody has seen; copies of it are delivered in any order, while all
    nodes handle any other messages, stores and other revocations included, within
    the time the timestamp is accepted.  When no copy is left on its way, every
    node that is connected to the origin by a chain of nodes that trust the
    signer has every listed chunk blocked and deleted.  No message other than the
    original may have the same deduplication key. *)
Theorem revocation_floods (origin y : bytes) (s0 s1 s : flood) :
  revoke_fine rp ->
  (forall u m, (u, m) ∈ fl_wire s0 -> ~ mimic m) ->
  (forall u h, fl_hosts s0 !! u = Some h -> d_revokeSeen (h_dht h) !! revokeID rp = None) ->
  launch origin s0 = Some s1 -> rtc flood_step s1 s ->
  (forall u m, (u, m) ∈ fl_wire s -> ~ is_copy m) ->
  rtc (hop s1) origin y ->
  exists h, fl_hosts s !! y = Some h
    /\ forall id, id ∈ revoked_ids rp -> IsBlocked (h_dht h) id = true /\ data (d_store (h_dht h)) !! Hex id = None.
Proof.
  intros Hfine Hwire Hfresh Hl Hrun Hquiet Hpath.
  pose proof (launch_inv origin s0 s1 Hfine Hl Hwire Hfresh) as I1.
  assert (flood_inv origin s) as I by (clear -Hrun I1; induction Hrun; eauto using flood_step_inv).
  assert (forall v h, fl_hosts s1 !! v = Some h ->
    exists h', fl_hosts s !! v = Some h' /\ honors (h_dht h') = honors (h_dht h)) as Hhosts.
  { clear -Hrun. induction Hrun as [|a b c Hab _ IH]; [eauto|]. intros v h Hv.
    destruct (flood_step_hosts a b Hab v h Hv) as (h' & Hv' & E). destruct (IH v h' Hv') as (h2 & ? & ?).
    exists h2. split; [done|]. congruence. }
  assert (exists h, fl_hosts s !! y = Some h /\ (y = origin \/ seen (h_dht h))) as (h & Hh & Hact).
  { revert y Hpath. apply (rtc_ind_r (fun y => exists h, fl_hosts s !! y = Some h /\ (y = origin \/ seen (h_dht h)))).
    - assert (is_Some (fl_hosts s1 !! origin)) as [h Hh]; [|destruct (Hhosts _ _ Hh) as (h' & ? & _); eauto].
      unfold launch in Hl. destruct (fl_hosts s0 !! origin) as [h|]; [|done].
      destruct (BroadcastRevoke _ _). injection Hl as <-. cbn. rewrite lookup_insert_eq. eauto.
    - intros u v _ [Hv (hv & Hhv & Hon)] (hu & Hhu & Hact). destruct (Hhosts v hv Hhv) as (hv' & Hhv' & E).
      exists hv'. split; [done|]. rewrite <- E in Hon.
      destruct (fi_edge _ _ I u v hu hv' Hhu Hact Hv Hhv' Hon) as [?|[?|(m & Hm & Hc)]]; [by left|by right|].
      by destruct (Hquiet v m Hm). }
  exists h. split; [done|]. destruct Hact as [->|[t Ht]]; [exact (fi_origin _ _ I h Hh)|].
  exact (proj2 (fi_fine _ _ I y h Hh t Ht)).
Qed.

(** ** The flood ends *)

(** What is on its way, and what the hosts that have not seen the payload may send. *)
Definition potential (s : flood) : Z :=
  Z.of_nat (length (fl_wire s))
  + msum (fun u h => if decide (is_Some (d_revokeSeen (h_dht h) !! revokeID rp)) then 0
                     else Z.of_nat (length (links u))) (fl_hosts s).

Lemma potential_nonneg s : 0 <= potential s.
Proof.
  unfold potential. apply Z.add_nonneg_nonneg; [lia|]. apply msum_nonneg. intros u h _. destruct (decide _); lia.
Qed.

(** Only copies are on their way. *)
Definition pure (s : flood) : Prop :=
  (forall y m, (y, m) ∈ fl_wire s -> is_copy m) /\ forall u h, fl_hosts s !! u = Some h -> node_fine (h_dht h).

Lemma is_copy_no_mimic m : is_copy m -> ~ mimic m.
Proof. intros [_ Hu] (q & Hq & _ & Hne). congruence. Qed.

Lemma deliver_step_potential s s' : pure s -> deliver_step s s' -> pure s' /\ potential s' < potential s.
Proof.
  intros [Hc Hf] Hstep. inversion Hstep as [e addr y m l1 l2 ? ? Hl Hw Hh]; subst. unfold handled in Hh.
  destruct (fl_hosts s !! y) as [h|] eqn:Eh; [|done].
  destruct (HandleMessage _ _ _ _ _) as [[d effs]|] eqn:Em; [|done]. injection Hh as <-.
  assert (is_copy m) as Hm by (apply (Hc y); rewrite Hl; set_solver).
  destruct (revoke_node_step e addr m (h_dht h) d effs Hw (is_copy_no_mimic m Hm) (Hf y h Eh) Em)
    as (Hf' & _ & _ & Hs & Hb & _ & Hcopy & _). split.
  - split; cbn [fl_hosts fl_wire].
    + intros z m' [Hin|Hin]%elem_of_app; [apply (Hc z); rewrite Hl; set_solver|].
      apply sends_elem in Hin as (_ & m2 & Hin & ->). by rewrite (Hb m2 Hin).
    + intros u hu [[<- <-]|[_ Hu]]%lookup_insert_Some; [done|by eapply Hf].
  - unfold potential. cbn [fl_hosts fl_wire]. set (f := fun u (h : host) => if decide _ then 0 else _).
    replace (length (fl_wire s)) with (S (length (l1 ++ l2))) by (rewrite Hl, !length_app; cbn [length]; lia).
    rewrite (msum_delete f y h (fl_hosts s)) by done.
    rewrite <- insert_delete_eq, (msum_insert f) by apply lookup_delete_eq.
    rewrite (length_app (l1 ++ l2)).
    assert (Z.of_nat (length (sends y h effs)) + f y (MkHost (h_id h) d) <= f y h); [|lia].
    unfold f. cbn [h_dht]. destruct (Hcopy Hm) as [Hq|(-> & Hno & Hyes)].
    + rewrite (sends_quiet y h effs Hq). cbn [length].
      destruct (decide (is_Some (d_revokeSeen (h_dht h) !! _))) as [Hse|_];
        [rewrite decide_True by (by apply Hs); lia|]. destruct (decide _); lia.
    + rewrite decide_True by done. rewrite decide_False by done. rewrite sends_broadcast, length_fmap. lia.
Qed.

(** Connections and copies lead to hosts that are there. *)
Definition connected (s : flood) : Prop :=
  (forall u v, v ∈ links u -> is_Some (fl_hosts s !! v))
  /\ forall y m, (y, m) ∈ fl_wire s -> is_Some (fl_hosts s !! y).

Lemma deliver_step_connected s s' : connected s -> deliver_step s s' -> connected s'.
Proof.
  intros [Hlinks Hwire] H1.
  assert (forall v, is_Some (fl_hosts s !! v) -> is_Some (fl_hosts s' !! v)) as Hstay.
  { intros v [h Hv]. destruct (flood_step_hosts s s' (flood_deliver _ _ H1) v h Hv) as (h' & -> & _). eauto. }
  split; [eauto|]. intros y m Hin. apply Hstay.
  inversion H1 as [e addr z m0 l1 l2 ? ? Hl _ Hh]; subst. unfold handled in Hh.
  destruct (fl_hosts s !! z) as [h|]; [|done]. destruct (HandleMessage _ _ _ _ _) as [[d effs]|]; [|done].
  injection Hh as <-. apply elem_of_app in Hin as [Hin|Hin]; [apply (Hwire y m); rewrite Hl; set_solver|].
  apply (Hlinks z). by apply (sends_elem z h effs y m).
Qed.

(** Copies to hosts that are there can be delivered. *)
Lemma deliver_step_progress s now :
  in_window now -> pure s -> connected s -> fl_wire s = [] \/ exists s', deliver_step s s'.
Proof.
  intros Hw [Hc _] [_ Hd]. destruct (fl_wire s) as [|[y m] l] eqn:El; [by left|right].
  destruct (Hd y m) as [h Hh]; [by left|]. destruct (Hc y m) as [Ht _]; [by left|].
  set (e := MkPutEnv now lru_order Renamed []).
  destruct (handled e [] y m l s) as [s'|] eqn:E.
  - exists s'. by apply (deliver_copy e [] y m [] l).
  - unfold handled in E. rewrite Hh in E. unfold HandleMessage in E. rewrite Ht in E.
    cbn in E. by destruct (handleRevoke _ _ _ _ _).
Qed.

Lemma deliver_run n s s' :
  nsteps deliver_step n s s' -> pure s -> connected s ->
  pure s' /\ connected s' /\ Z.of_nat n + potential s' <= potential s.
Proof.
  induction 1 as [s|n s s1 s' H1 _ IH]; intros Hp Hc; [split_and!; [done..|lia]|].
  destruct (deliver_step_potential s s1 Hp H1) as [Hp1 Hlt].
  destruct IH as (? & ? & ?); [done|by eapply deliver_step_connected|]. split_and!; [done..|lia].
Qed.

(** Every run can be carried on until nothing is left. *)
Lemma flood_finishes s now :
  in_window now -> pure s -> connected s -> exists s', rtc deliver_step s s' /\ fl_wire s' = [].
Proof.
  intros Hw. remember (Z.to_nat (potential s)) as n eqn:En. revert s En.
  induction (lt_wf n) as [n _ IH]. intros s -> Hp Hc.
  destruct (deliver_step_progress s now Hw Hp Hc) as [E|[s1 H1]]; [by exists s|].
  destruct (deliver_step_potential s s1 Hp H1) as [Hp1 Hlt]. pose proof (potential_nonneg s1).
  destruct (IH (Z.to_nat (potential s1)) ltac:(lia) s1 eq_refl Hp1) as (s2 & Hr & E);
    [by eapply deliver_step_connected|]. exists s2. split; [by eapply rtc_l|done].
Qed.

(** A broadcast in a quiet network. *)
Lemma launch_ready origin s s' :
  revoke_fine rp -> launch origin s = Some s' -> fl_wire s = [] ->
  (forall u h, fl_hosts s !! u = Some h -> d_revokeSeen (h_dht h) !! revokeID rp = None) ->
  (forall u v, v ∈ links u -> is_Some (fl_hosts s !! v)) ->
  pure s' /\ connected s'
  /\ forall v h, fl_hosts s !! v = Some h ->
       exists h', fl_hosts s' !! v = Some h' /\ honors (h_dht h') = honors (h_dht h).
Proof.
  intros Hfine Hl Hw Hfresh Hlinks. unfold launch in Hl. destruct (fl_hosts s !! origin) as [h|] eqn:Eh; [|done].
  unfold BroadcastRevoke in Hl. injection Hl as <-. rewrite Hw, sends_broadcast. cbn [app].
  set (m := mk_message (bs "dht_revoke") (Marshal rp)).
  assert (Unmarshal (m_Payload m) = Some rp) as Hu by by apply Unmarshal_Marshal.
  destruct (applyRevoke_spec (h_dht h) rp) as (_ & _ & _ & Es & Et).
  assert (forall v hv, fl_hosts s !! v = Some hv -> exists h',
    <[origin := MkHost (h_id h) (applyRevoke (h_dht h) rp)]> (fl_hosts s) !! v = Some h'
    /\ honors (h_dht h') = honors (h_dht hv)) as Hhosts.
  { intros v hv Hv. destruct (decide (v = origin)) as [->|Hne]; [|exists hv; by rewrite lookup_insert_ne].
    rewrite lookup_insert_eq. eexists. split; [done|]. rewrite Eh in Hv. injection Hv as <-.
    unfold honors. cbn [h_dht]. by rewrite Et. }
  assert (forall v, is_Some (fl_hosts s !! v) ->
    is_Some (<[origin := MkHost (h_id h) (applyRevoke (h_dht h) rp)]> (fl_hosts s) !! v)) as Hstay.
  { intros v [hv Hv]. destruct (Hhosts v hv Hv) as (h' & -> & _). eauto. }
  split; [split|split; [split|]]; cbn [fl_hosts fl_wire]; [| | | |done].
  - intros y m' (z & [= -> ->] & _)%list_elem_of_fmap. split; [done|exact Hu].
  - intros u hu [[<- <-]|[_ Hu']]%lookup_insert_Some t Ht; [cbn [h_dht] in Ht; rewrite Es, (Hfresh _ _ Eh) in Ht; done|].
    by rewrite (Hfresh _ _ Hu') in Ht.
  - intros u v Hv. by eapply Hstay, Hlinks.
  - intros y m' (z & [= -> ->] & Hz)%list_elem_of_fmap. by eapply Hstay, Hlinks.
Qed.

(** C10 (revoke.go, [handleRevoke], [gossipRevoke]): the flood of a revocation ends.
    Whatever the order, no more messages are ever delivered than there are on their
    way at the start plus one for every connection of a node that has not seen the
    payload; and every run can be carried on until none is left.  For every node
    passes the revocation on at most once: its record of what it has seen is not
    cleaned up while the timestamp is accepted. *)
Theorem flood_ends (s : flood) (now : Time) :
  pure s -> in_window now -> connected s ->
  (forall n s', nsteps deliver_step n s s' -> Z.of_nat n <= potential s)
  /\ forall s', rtc deliver_step s s' -> exists s'', rtc deliver_step s' s'' /\ fl_wire s'' = [].
Proof.
  intros Hp Hw Hc. split.
  - intros n s' Hr. destruct (deliver_run n s s' Hr Hp Hc) as (_ & _ & Hle). pose proof (potential_nonneg s'). lia.
  - intros s' [n Hr]%rtc_nsteps. destruct (deliver_run n s s' Hr Hp Hc) as (Hp' & Hc' & _).
    by eapply flood_finishes.
Qed.

End Flood.

(** ** Another payload with the same signed bytes *)

(** (revoke.go, [RevokeCanonical], [revokeID], [handleRevoke]): whoever relays a
    revocation can take chunks out of it.  Moved into the name behind a newline, a
    chunk hash leaves the signed bytes and the deduplication key as they were, so a
    node that gets the changed payload first accepts it, passes it on and then drops
    the original: that chunk is neither blocked nor deleted. *)
Theorem mimic_stops_revocation `{Ed25519} (now now' unix unix' : Time) (d : DHT) (addr addr' : bytes)
    (m m' : Message) (ts : Z) (nonce pk sig : bytes) :
  let h1 := bs "0a00000000000000000000000000000000000000000000000000000000000000" in
  let h2 := bs "0b00000000000000000000000000000000000000000000000000000000000000" in
  let p := MkRevoke (bs "site.alt") [h1; h2] ts nonce pk sig in
  let q := MkRevoke (bs "site.alt" ++ [newline] ++ h1) [h2] ts nonce pk sig in
  Unmarshal (m_Payload m) = Some q -> Unmarshal (m_Payload m') = Some p ->
  acceptable d unix p = true -> d_revokeSeen d !! revokeID p = None ->
  exists d1, handleRevoke now unix d addr m = (d1, [Broadcast m]) /\ handleRevoke now' unix' d1 addr' m' = (d1, [])
    /\ exists id, id ∈ revoked_ids p /\ IsBlocked d1 id = IsBlocked d id
         /\ data (d_store d1) !! Hex id = data (d_store d) !! Hex id.
Proof.
  intros h1 h2 p q Hq Hp Ha Hs. destruct (canonical_collision ts nonce pk sig) as [Ec Er]. fold h1 h2 in Ec, Er.
  fold p q in Ec, Er.
  assert (acceptable d unix q = true) as Haq by (unfold acceptable in *; rewrite <- Ec; exact Ha).
  rewrite handleRevoke_eq, Hq, Haq, <- Er, Hs. cbn [andb]. rewrite bool_decide_eq_false_2 by by intros [? ?].
  cbn [negb]. set (d0 := with_revokeSeen d _). eexists. split; [done|].
  destruct (applyRevoke_spec d0 q) as (H1 & H2 & _ & H3 & _). split.
  - rewrite handleRevoke_eq, Hp, H3. cbn [d0 with_revokeSeen d_revokeSeen].
    rewrite (bool_decide_eq_true_2 (is_Some _)); [by rewrite andb_false_r|]. exists now.
    unfold prune_seen. destruct (_ <? _)%nat; [|apply lookup_insert_eq].
    apply map_lookup_filter_Some. split; [apply lookup_insert_eq|]. cbn. unfold Hour, Minute, Second. lia.
  - exists (id_copy (Byte.x0a :: replicate 31 Byte.x00)).
    assert (bool_decide (id_copy (Byte.x0a :: replicate 31 Byte.x00) ∈ revoked_ids p)
      && bool_decide (id_copy (Byte.x0a :: replicate 31 Byte.x00) ∉ revoked_ids q) = true) as Hids by by vm_compute.
    apply andb_true_iff in Hids as [Hin Hout]. apply bool_decide_eq_true_1 in Hin, Hout.
    split; [done|]. rewrite H1, H2, !bool_decide_eq_false_2; [done| |done].
    intros (x & Hx & Hin')%list_elem_of_fmap. apply (inj Hex) in Hx. by subst.
Qed.

(** ** The origin *)

(** (revoke.go, [BroadcastRevoke], [handleRevoke]): the origin floods twice.
    [BroadcastRevoke] does not note the payload as seen, so an origin that trusts its
    own key takes the first echo for news and broadcasts it once more. *)
Theorem origin_repeats `{Ed25519} (now unix : Time) (d : DHT) (rp : RevokePayload) (addr : bytes) (m : Message) :
  Unmarshal (m_Payload m) = Some rp -> acceptable d unix rp = true -> d_revokeSeen d !! revokeID rp = None ->
  (handleRevoke now unix (BroadcastRevoke d rp).1 addr m).2 = [Broadcast m].
Proof.
  intros Hu Ha Hs. unfold BroadcastRevoke. cbn [fst]. destruct (applyRevoke_spec d rp) as (_ & _ & _ & Es & Et).
  assert (acceptable (applyRevoke d rp) unix rp = true) as Ha' by (unfold acceptable in *; by rewrite Et).
  rewrite handleRevoke_eq, Hu, Ha', Es, Hs. by rewrite bool_decide_eq_false_2 by by intros [? ?].
Qed.

(** ** Three hosts in a line *)

Module Line.

(** All of them run a node that trusts alice. *)
Definition at_host (b : byte) : host := MkHost (toy_identity b) bob.

Definition line : flood :=
  MkFlood (<[bs "a" := at_host Byte.x01]> (<[bs "b" := at_host Byte.x02]> {[bs "c" := at_host Byte.x03]})) [].

Definition line_links (x : bytes) : list bytes :=
  if decide (x = bs "a") then [bs "b"] else if decide (x = bs "b") then [bs "a"; bs "c"]
  else if decide (x = bs "c") then [bs "b"] else [].

Lemma line_hosts x h : fl_hosts line !! x = Some h -> h_dht h = bob.
Proof.
  unfold line. cbn [fl_hosts]. intros [[_ <-]|[_ H]]%lookup_insert_Some; [done|].
  apply lookup_insert_Some in H as [[_ <-]|[_ H]]; [done|]. apply lookup_singleton_Some in H as [_ <-]. done.
Qed.

Lemma line_there x v : v ∈ line_links x -> is_Some (fl_hosts line !! v).
Proof.
  assert (forall v, v ∈ [bs "a"; bs "b"; bs "c"] -> is_Some (fl_hosts line !! v)) as Hall.
  { apply Forall_forall. repeat (apply Forall_cons; split); [..|apply Forall_nil_2];
      apply (bool_decide_eq_true_1 _); by vm_compute. }
  intros Hv. apply Hall. unfold line_links in Hv. repeat destruct (decide _); set_solver.
Qed.

Lemma alice_revoke_fine : revoke_fine alice_revoke.
Proof. exact (proj2 (SignRevoke_plain _ _ _ _ _ _ alice_revoke_signed alice_revoke_plain int64_1000)). Qed.

Definition noon : Time := (62135596800 + 1000) * Second.

Lemma noon_window : in_window alice_revoke noon.
Proof. by vm_compute. Qed.

Lemma bob_honors : honors alice_revoke bob = true.
Proof. by vm_compute. Qed.

Lemma bob_unseen : d_revokeSeen bob !! revokeID alice_revoke = None.
Proof. apply lookup_empty. Qed.

Lemma line_launches : exists s1, launch line_links alice_revoke (bs "a") line = Some s1.
Proof.
  unfold launch. destruct (line_there (bs "b") (bs "a")) as [h ->]; [by left|].
  destruct (BroadcastRevoke _ _). eauto.
Qed.

Lemma line_unseen u h : fl_hosts line !! u = Some h -> d_revokeSeen (h_dht h) !! revokeID alice_revoke = None.
Proof. intros Hu. rewrite (line_hosts u h Hu). exact bob_unseen. Qed.

Lemma flood_ends_witness :
  exists s, launch line_links alice_revoke (bs "a") line = Some s
    /\ forall n s', nsteps (deliver_step line_links alice_revoke) n s s' -> Z.of_nat n <= potential line_links alice_revoke s.
Proof.
  destruct line_launches as [s Hl].
  destruct (launch_ready line_links alice_revoke (bs "a") line s alice_revoke_fine Hl eq_refl line_unseen line_there)
    as (Hp & Hc & _). exists s. split; [exact Hl|].
  exact (proj1 (flood_ends line_links alice_revoke s noon Hp noon_window Hc)).
Defined.

Lemma revocation_floods_witness :
  exists s1 s h, launch line_links alice_revoke (bs "a") line = Some s1
    /\ rtc (flood_step line_links alice_revoke) s1 s /\ fl_hosts s !! bs "c" = Some h
    /\ IsBlocked (h_dht h) (id_copy (replicate 32 Byte.x01)) = true.
Proof.
  destruct line_launches as [s1 Hl].
  destruct (launch_ready line_links alice_revoke (bs "a") line s1 alice_revoke_fine Hl eq_refl line_unseen line_there)
    as (Hp & Hc & Hon).
  destruct (flood_finishes line_links alice_revoke s1 noon noon_window Hp Hc) as (s & Hr & Hw).
  assert (rtc (flood_step line_links alice_revoke) s1 s) as Hr'.
  { clear -Hr. induction Hr; [apply rtc_refl|]. eapply rtc_l; [by apply flood_deliver|done]. }
  assert (forall u v, v ∈ line_links u -> hop line_links alice_revoke s1 u v) as Hhop.
  { intros u v Hv. split; [exact Hv|]. destruct (line_there u v Hv) as [h Hh]. destruct (Hon v h Hh) as (h' & Hh' & E).
    exists h'. split; [exact Hh'|]. rewrite E, (line_hosts v h Hh). exact bob_honors. }
  destruct (revocation_floods line_links alice_revoke (bs "a") (bs "c") line s1 s alice_revoke_fine) as (h & Hh & Hall).
  - intros u m Hin. by apply not_elem_of_nil in Hin.
  - exact line_unseen.
  - exact Hl.
  - exact Hr'.
  - intros u m Hin. rewrite Hw in Hin. by apply not_elem_of_nil in Hin.
  - apply rtc_l with (bs "b"); [|apply rtc_once]; apply Hhop; unfold line_links; cbn; set_solver.
  - exists s1, s, h. split; [exact Hl|]. split; [exact Hr'|]. split; [exact Hh|].
    apply Hall. apply (bool_decide_eq_true_1 _). by vm_compute.
Defined.

End Line.
