(* ===== verification/Online.v ===== *)
(** * A site goes online

    The parts put together on one node: a directory published with apps/files, its
    name registered through the registrar's API, and a browser's request answered
    by the gateway; and what the missing separation of names and contents in the
    key space of the DHT means for such a site. *)

From S2P Require Import Prelude GoStrings Encoding Json JsonIndent Sha256 Crypto Peer Revoke NodeId.
From S2P Require Import Blocklist Store Routing DhtWire Dht Lookup Name ContentStore NameService Files.
From S2P Require SiteStats.
From S2P Require Import Utf8 Registry RateLimit Registrar Gateway.

(** A registration that is answered with 201 published a record for the name. *)
Lemma registered_record `{GoUnicode} `{Ed25519} {S : Type} `{NameService S} e rq req reg (s : S) b effs reg' s' :
  handleRegister e rq (reg, s) = Ret (MkResponse 201 b, effs, (reg', s')) ->
  Decode (rq_Body rq) = Some req ->
  exists root rec, IDFromHex (rr_Root req) = Ok root
    /\ ns_publish s (reg_id reg) (CanonicalName (rr_Name req)) root (UnixNano (en_now e)) = (Ok rec, s').
Proof.
  unfold handleRegister, guarded, decoded, fails, jsonError, reply. intros Hh Hd. rewrite Hd in Hh.
  destruct (negb _); [done|]. destruct (requireAuth _ _); [|done]. cbv zeta in Hh.
  destruct (ValidateDomain _); [done|]. destruct (IDFromHex (rr_Root req)) as [root|]; [|done].
  destruct (map_lookup _ _); [done|].
  destruct (ns_publish _ _ _ _ _) as [[rec|] s1] eqn:Ep; [|done].
  destruct (map_assign _ _ _); [|done]. exists root, rec. split; [done|]. rewrite Ep. congruence.
Qed.

Section Site.
Context `{GoUnicode} `{Ed25519}.
Context (world : nat -> put_env * net) (clock : nat -> Z).
Context (trusted : option (gset bytes)) (order : gset bytes -> list bytes).
Context (world_ok : forall i, net_ok (snd (world i))) (order_ok : complete_order order).
Context (mime_type : bytes -> bytes) (detect : bytes -> bytes) (error_text : gw_error -> bytes).
Context (landing_page : bytes).

#[local] Instance site_store : ContentStore node := node_ContentStore world.
#[local] Instance site_names : NameService node := node_NameService world clock trusted order.
#[local] Instance site_laws : ContentStoreLaws node node_inv node_roomy node_keeps := node_laws world.
#[local] Instance site_ns_laws : NameServiceLaws node node_inv node_keeps trusted :=
  node_ns_laws world clock trusted order.

(** A name that is published resolves, from then on, to what was published, as long
    as the record is live and nobody serves another record that is as new. *)
Lemma publish_resolves s id nm root version rec s' host :
  node_inv s -> node_roomy s -> id_wf id -> in_int64 version -> in_int64 (clock (n_tick s)) ->
  ns_publish s id nm root version = (Ok rec, s') ->
  CanonicalName host = CanonicalName nm -> registrarAllowed trusted (r_PublicKey rec) = true ->
  Expired rec (clock (n_tick s')) = false ->
  no_newer (net_of world s') trusted (clock (n_tick s')) host rec ->
  exists s2, ns_resolve s' host = (Ok rec, s2).
Proof.
  intros Hi [Hm Hbl] Hid Hver Hclk Hp Hc Hal He Hnew.
  cbn [ns_publish ns_resolve site_names node_NameService] in *. unfold node_publish, Publish, PublishWithTTL in Hp.
  destruct (validName nm) as [[]|] eqn:Hv; [|done]. cbv zeta in Hp.
  fold (new_record id nm root version DefaultNameTTL (clock (n_tick s))) in Hp.
  set (rec0 := new_record _ _ _ _ _ _) in Hp. destruct (_ <? _); [done|].
  pose proof (Store_spec (env_of world s) (net_of world s) (n_dht s) (RecordKey nm) (Marshal rec0) Hi
    (world_ok (n_tick s))) as Hs.
  destruct (Store _ _ _ _ _) as [[[d k]|]|]; [|done|done]. injection Hp as <- <-.
  assert (IsBlocked (n_dht s) (RecordKey nm) = false) as Hb by (by apply unblocked_key).
  rewrite Hb in Hs. destruct Hs as (Hd & _ & _ & Hdata).
  assert (validName host = Ok tt) as Hvh by (apply validName_spec; rewrite Hc; by apply validName_spec).
  assert (RecordKey host = RecordKey nm) as Hkey by (unfold RecordKey; by rewrite Hc).
  cbn [n_dht n_tick] in *. unfold node_resolve. cbn [n_dht n_tick].
  destruct (Resolve_exact (env_of world (MkNode d (S (n_tick s)))) (net_of world (MkNode d (S (n_tick s))))
    d trusted host (clock (S (n_tick s))) order (Marshal rec0) rec0) as (d' & ->);
    [done|apply world_ok|done|done|by rewrite Hkey| |done|by eexists].
  rewrite Hc. apply new_record_eligible; done.
Qed.

(** C3 (registrar.go, [handleRegister]; name.go, [Publish], [Resolve]; gateway.go,
    [handle]): a registered site is online.  Let the node keep a published
    directory.  Once the registrar has answered a registration of a name for the
    directory's root with 201, a browser that asks the gateway for a file of it,
    with the name spelt in any way that means the same, gets that file's bytes,
    provided the record is still live, its registrar is one the node trusts, no
    other node serves a newer record, and no blob of the site has the name itself
    as its content. *)
Theorem registered_site_online (e : env) (rq : Request) (req : RegisterRequest) (reg reg' : Registrar)
    (s s' : node) (b : body) (effs : list effect) (fl : list (bytes * bytes)) (f : bytes * bytes)
    (g : Gateway) (now : Z) (r : http_request) (host sub : bytes) (code : Z) (out : bytes) :
  let site := Marshal (directory_of fl) :: all_blobs fl in
  let canonical := CanonicalName (rr_Name req) in
  let rec := new_record (reg_id reg) canonical (ContentAddress (Marshal (directory_of fl)))
               (UnixNano (en_now e)) DefaultNameTTL (clock (n_tick s)) in
  node_inv s -> keeps_all (keeps := node_keeps) s site ->
  Forall (fun f => utf8_valid (fst f) = true /\ len (snd f) < 2 ^ 63) fl -> NoDup fl.*1 -> f ∈ fl ->
  id_wf (reg_id reg) -> in_int64 (clock (n_tick s)) ->
  handleRegister e rq (reg, s) = Ret (MkResponse 201 b, effs, (reg', s')) ->
  Decode (rq_Body rq) = Some req -> rr_Root req = address_hex (Marshal (directory_of fl)) ->
  Forall (fun blob => ContentAddress blob <> RecordKey canonical) site ->
  h_Method r = bs "GET" -> names r host sub -> CanonicalName host = CanonicalName canonical ->
  requested sub = fst f -> range_ok r -> content_answer r (snd f) = Some (code, out) ->
  registrarAllowed trusted (PublicKeyToHex (PublicKey (reg_id reg))) = true ->
  Expired rec (clock (n_tick s')) = false ->
  no_newer (net_of world s') trusted (clock (n_tick s')) host rec ->
  exists ct etag g' s2,
    handle mime_type detect error_text landing_page g now r s' = (MkHttpResponse code ct etag out [], g', s2).
Proof.
  intros site canonical rec Hi Hk Hfine Hnd Hf Hid Hclk Hreg Hdec Hroot Hsep Hget Hn Hcan Hreq Hrange Hans Hal He Hnew.
  destruct (registered_record _ _ _ _ _ _ _ _ _ Hreg Hdec) as (root & rec' & Hr & Hpub).
  fold canonical in Hpub.
  rewrite Hroot in Hr. unfold address_hex in Hr. rewrite IDFromHex_Hex in Hr. injection Hr as <-.
  assert (node_roomy s) as Hroomy by (inversion Hk as [|? ? (_ & _ & Hr) _]; exact Hr).
  assert (rec' = rec) as ->.
  { cbn [ns_publish site_names node_NameService] in Hpub. unfold node_publish, Publish, PublishWithTTL in Hpub.
    destruct (validName _) as [[]|]; [|done]. cbv zeta in Hpub. destruct (_ <? _); [done|].
    destruct (Store _ _ _ _ _) as [[[d k]|]|]; [| |done]; injection Hpub as <- _; reflexivity. }
  destruct (publish_resolves s (reg_id reg) canonical _ _ rec s' host Hi Hroomy Hid (int64_range _) Hclk Hpub)
    as (s2 & Hres); [done..|].
  pose proof (publish_inv (NameServiceLaws := site_ns_laws) s (reg_id reg) canonical
    (ContentAddress (Marshal (directory_of fl))) (UnixNano (en_now e)) Hi) as Hi'. rewrite Hpub in Hi'.
  destruct (handle_serves (CLaws := node_read_laws world) (NLaws := site_ns_laws) mime_type detect error_text landing_page
    g now r s' host sub rec fl f code out) as (ct & etag & s3 & Hh);
    [done| |done|done|done|by left|done|done|by rewrite Hres|done|done|done|].
  - apply Forall_forall. intros blob Hb. unfold keeps_all in Hk.
    rewrite Forall_forall in Hk, Hsep.
    pose proof (publish_keeps (NameServiceLaws := site_ns_laws) s (reg_id reg) canonical
      (ContentAddress (Marshal (directory_of fl))) (UnixNano (en_now e)) (ContentAddress blob) blob Hi
      (Hsep blob Hb) (Hk blob Hb)) as Hkept. by rewrite Hpub in Hkept.
  - rewrite Hget in Hh. rewrite bool_decide_eq_false_2 in Hh by done. by eexists _, _, _, _.
Qed.

End Site.

(** ** Concrete runs *)

Module Launch.
Import Runs.

#[local] Hint Extern 0 (ContentStore node) => exact (site_store quiet) : typeclass_instances.
#[local] Hint Extern 0 (NameService node) =>
  exact (site_names quiet (fun _ => 1700000000) None (fun s => elements s)) : typeclass_instances.

(** The node with the files of the site, before anybody names it. *)
Definition uploaded : node := snd (PublishDir carol_node (Some true) (items_of site)).

Lemma uploaded_keeps : node_inv uploaded /\ keeps_all (keeps := node_keeps) uploaded site_blobs_here.
Proof.
  destruct site_published as (root & dir & s1 & E). unfold uploaded, site_store. rewrite E. cbn [snd].
  destruct (PublishDir_keeps (Laws := node_laws quiet) carol_node s1 site root dir carol_inv carol_roomy site_blobs E)
    as (_ & _ & Hi & Hk). exact (conj Hi Hk).
Qed.

Definition site_registration : RegisterRequest := MkRegisterRequest (bs "Panmox.alt.") (Hex site_root) (bs "pan").
Definition register_site : Request := post "/api/register" (Marshal site_registration).

Lemma register_site_decodes : Decode (rq_Body register_site) = Some site_registration.
Proof. by vm_compute. Qed.

Definition site_answer : outcome (Response * list effect * (Registrar * node)) :=
  handleRegister (calm 1700000000) register_site (boss, uploaded).

Lemma answer_created : match site_answer with Ret (rs, _, _) => rs_Status rs | Panic => 0 end = 201.
Proof. by vm_compute. Qed.

Lemma site_separate : Forall (fun b => ContentAddress b <> RecordKey (CanonicalName (rr_Name site_registration))) site_blobs_here.
Proof.
  assert (forallb (fun b => negb (Equal (ContentAddress b) (RecordKey (CanonicalName (rr_Name site_registration)))))
    site_blobs_here = true) as Hb by by vm_compute.
  rewrite forallb_Forall_true in Hb. eapply Forall_impl; [exact Hb|]. intros b Hne. by apply Equal_neq.
Qed.

Definition record : NameRecord :=
  new_record (reg_id boss) (CanonicalName (rr_Name site_registration)) site_root
    (UnixNano (en_now (calm 1700000000))) DefaultNameTTL 1700000000.

Lemma record_live : Expired record 1700000000 = false.
Proof. by vm_compute. Qed.

(** The network of the run answers everything with the same text, which is no record. *)
Lemma serving_value r key c v : value (sendFindValue serving r key c) = Some v -> v = content.
Proof.
  unfold sendFindValue, requestContact. destruct (AllAddresses c) as [|a l]; [discriminate|].
  cbn [try_addresses serving request]. set (m := mk_message (bs "dht_value") _).
  rewrite (bool_decide_eq_true_2 (m_Type m = bs "dht_value")) by reflexivity. cbn [value].
  unfold m. rewrite value_reply. congruence.
Qed.

Lemma content_no_record now canonical : is_ok (eligible None now canonical content) = false.
Proof. unfold eligible. assert ((Unmarshal content : option NameRecord) = None) as -> by by vm_compute. done. Qed.

Lemma no_newer_here tick host : no_newer (net_of quiet (MkNode carol tick)) None 1700000000 host record.
Proof.
  intros r c blob rec' Hv He. apply serving_value in Hv as ->.
  pose proof (content_no_record 1700000000 (CanonicalName host)) as Hn. rewrite He in Hn. discriminate.
Qed.

Lemma elements_complete : complete_order (fun s => elements s).
Proof. intros s v. by rewrite elem_of_elements. Qed.

Lemma site_fine : Forall (fun f => utf8_valid (fst f) = true /\ len (snd f) < 2 ^ 63) site.
Proof. repeat (apply Forall_cons; split); [by vm_compute..|apply Forall_nil_2]. Qed.

Lemma boss_id : id_wf (reg_id boss).
Proof. assert (reg_id boss = toy_identity Byte.x07) as -> by by vm_compute. apply toy_identity_wf. Qed.

Lemma registration_root : rr_Root site_registration = address_hex (Marshal (directory_of site)).
Proof. unfold address_hex, site_registration, site_root. cbn [rr_Root]. reflexivity. Qed.

Lemma noon_int64 : in_int64 1700000000.
Proof. unfold in_int64. lia. Qed.

Lemma shouted_names : names (Visits.visit "PANMOX.alt:9080" "/" None) (bs "PANMOX.alt") [].
Proof. exact (by_host (Visits.visit "PANMOX.alt:9080" "/" None) eq_refl). Qed.

Lemma shouted_canonical : CanonicalName (bs "PANMOX.alt") = CanonicalName (CanonicalName (rr_Name site_registration)).
Proof. by vm_compute. Qed.

Lemma root_index : requested [] = bs "index.html".
Proof. by vm_compute. Qed.

Lemma registered_site_online_witness :
  match site_answer with
  | Ret (rs, _, (_, s)) =>
      rs_Status rs = 201
      /\ exists ct etag g s2,
           handle Visits.no_table Visits.octets Visits.no_text [] Visits.counting 1700000000
             (Visits.visit "PANMOX.alt:9080" "/" None) s
           = (MkHttpResponse 200 ct etag greeting [], g, s2)
  | Panic => False
  end.
Proof.
  pose proof answer_created as Hst.
  destruct site_answer as [[[[st b] effs] [reg' s']]|] eqn:Ea; [|discriminate]. cbn [rs_Status] in *. subst st.
  split; [reflexivity|]. destruct uploaded_keeps as [Hi Hk]. unfold site_answer in Ea.
  refine (registered_site_online quiet (fun _ => 1700000000) None (fun s => elements s) _ elements_complete
    Visits.no_table Visits.octets Visits.no_text [] (calm 1700000000) register_site site_registration boss reg'
    uploaded s' b effs site (bs "index.html", greeting) Visits.counting 1700000000
    (Visits.visit "PANMOX.alt:9080" "/" None) (bs "PANMOX.alt") [] 200 greeting
    Hi Hk site_fine Visits.site_paths _ _ _ Ea register_site_decodes _ site_separate _ _ _ _ _ _ _ record_live
    (no_newer_here (n_tick s') (bs "PANMOX.alt"))).
  - intros i. exact serving_ok.
  - apply list_elem_of_here.
  - exact boss_id.
  - exact noon_int64.
  - exact registration_root.
  - exact eq_refl.
  - exact shouted_names.
  - exact shouted_canonical.
  - exact root_index.
  - exact I.
  - exact eq_refl.
  - exact eq_refl.
Defined.

(** ** Names and contents share their keys *)

(** Nobody answers. *)
Definition silent : nat -> put_env * net :=
  fun _ => (at_time 6, MkNet (fun _ _ _ _ => None) (fun l => l) (fun l => l) (fun _ => 5)).

(** A file that holds nothing but the name of the site, as a CNAME file does. *)
Definition cname_file : bytes := bs "panmox.alt".

Definition fetched (named : bool) : option (result files_error bytes) :=
  match @PublishBytes node (node_ContentStore silent) carol_node cname_file with
  | (Ok (_, key), s) =>
      let s := if named
               then snd (@ns_publish node (node_NameService silent (fun _ => 1700000000) None (fun s => elements s))
                           s (toy_identity Byte.x07) (bs "panmox.alt") key 5)
               else s in
      match @FetchBytes node (node_ContentStore silent) small_mem s key with
      | Ret (r, _) => Some r
      | Panic => None
      end
  | (Err _, _) => None
  end.

(** (name.go, [RecordKey]; dht.go, [ContentAddress]): the key of a name's record is
    the content address of the name itself.  A file whose content is its site's name
    can be fetched until the name is published; the record then takes the place of
    its chunk, and the file is gone. *)
Lemma name_record_displaces_file :
  (forall nm, RecordKey nm = ContentAddress (CanonicalName nm))
  /\ fetched false = Some (Ok cname_file) /\ fetched true = Some (Err ErrFetchChunk).
Proof. split; [done|]. by vm_compute. Qed.

End Launch.
