(* ===== verification/NetworkSite.v ===== *)
(** * A site on a network

    The parts put together on a network of nodes (NetworkStore.v): a directory that
    one node publishes with apps/files is fetched by another, and a site whose name
    is registered with one node's registrar is served by the gateway of another, with
    other nodes reading what they like in between. *)

From S2P Require Import Prelude GoStrings Encoding Json JsonIndent Sha256 Crypto Peer Revoke NodeId.
From S2P Require Import Blocklist Store Routing DhtWire Dht Lookup Name ContentStore NameService Files.
From S2P Require SiteStats.
From S2P Require Import Utf8 Registry RateLimit Registrar Gateway Online Cluster NetworkStore.

Section Everywhere.
Context `{GoUnicode} `{Ed25519}.
Context (W : nat -> weather) (trusted : option (gset bytes)) (order : gset bytes -> list bytes).

(** A host looks for a content, under a key of [P], or resolves a name. *)
Inductive read_step (P : NodeID -> Prop) : netstate -> netstate -> Prop :=
  | read_content y k s : P k -> read_step P s (net_get W y s k).2
  | read_name y nm s : read_step P s (net_resolve W trusted order y s nm).2.

Context (HW : forall t, weather_ok (W t)).

(** What a reader leaves behind was there before. *)
Lemma read_step_evolves P s s' :
  read_step P s s' -> cluster_ok (nw_cluster s) ->
  exists key V, evolves key V (nw_cluster s) (nw_cluster s')
    /\ forall w, V w -> P key /\ stored (nw_cluster s) key w /\ ContentAddress w = key.
Proof.
  intros [y k s0 Hk|y nm s0] Hok.
  - destruct (hosts (nw_cluster s0) !! y) as [h|] eqn:Eh.
    + destruct (net_get_evolves W HW y s0 k) as [A _]; [split; [done|by rewrite Eh]|].
      eexists k, _. split; [exact A|]. by intros w [? ?].
    + exists k, (fun _ => False). split; [|done]. unfold net_get. rewrite Eh. reflexivity.
  - exists (RecordKey nm), (fun _ => False). split; [|done].
    destruct (hosts (nw_cluster s0) !! y) as [h|] eqn:Eh.
    + apply net_resolve_evolves; [done|]. split; [done|by rewrite Eh].
    + unfold net_resolve. rewrite Eh. reflexivity.
Qed.

(** Readers disturb nobody. *)
Lemma net_reads_keep P x l s s' :
  rtc (read_step P) s s' -> net_inv x s -> keeps_all (keeps := net_keeps x) s l ->
  net_inv x s' /\ keeps_all (keeps := net_keeps x) s' l.
Proof.
  induction 1 as [|s1 s2 s3 H1 _ IH]; [done|]. intros Hi Hk.
  destruct (read_step_evolves P s1 s2 H1 (proj1 Hi)) as (key & V & A & HV). apply IH; [by eapply net_inv_evolves|].
  eapply Forall_impl; [exact Hk|]. intros v Hv. eapply net_keeps_evolves; [exact A|apply Hi| |exact Hv].
  intros -> w Hw. destruct (HV w Hw) as (_ & Hs & Ha). by apply Hv.
Qed.

(** A reader that is kept something is there. *)
Lemma keeps_inv a b l s : net_inv a s -> l <> [] -> keeps_all (keeps := net_keeps b) s l -> net_inv b s.
Proof.
  intros [Hok _] Hl Hk. split; [done|]. destruct l as [|v l]; [done|].
  apply Forall_cons in Hk as [(_ & (kk & hk & (_ & _ & h & -> & _) & _) & _) _]. eauto.
Qed.

Lemma site_inj l : addr_inj l -> forall v w, v ∈ l -> w ∈ l -> ContentAddress v = ContentAddress w -> v = w.
Proof. intros Ha v w. apply Ha. Qed.

(** C4 (apps/files/dir.go, [PublishDir], [FetchDir]; dht.go, [StoreLocal], [Replicate],
    [Lookup], [Get] and the message handlers): a directory published on one node of a
    network comes back, byte for byte, on another.  All nodes run this code and know
    each other by genuine addresses; for every blob of the directory the two nodes
    know the closest peer, which takes it, and no other blob in the network has its
    hash; every path is valid UTF-8 and one [FetchDir] accepts (relative and without
    ".."), joined to the destination no two of them are the same, each file fits the
    memory, and the disk takes what is written.  Once [PublishDir] has returned the root
    key on node [a], and after any number of reads by any nodes, fetching that key on
    node [b] gives every file its content and changes no other file. *)
Theorem network_directory (a b : bytes) (s s1 s2 : netstate) (fl : list (bytes * bytes)) (root : NodeID)
    (dir : Directory) (mem : Z) (disk : Files.host) (dest : bytes) (fs : files) :
  let site := Marshal (directory_of fl) :: all_blobs fl in
  net_inv a s -> room_for a b (fun v => v ∈ site) (nw_cluster s) -> addr_inj site ->
  mem < 2 ^ 63 -> willing disk ->
  Forall (fun f => fetchable mem f /\ utf8_valid (fst f) = true) fl ->
  NoDup ((fun f => path_Join dest (fst f)) <$> fl) ->
  PublishDir (H := net_store W a) s (Some true) (items_of fl) = (Ok (root, dir), s1) ->
  rtc (read_step (fun _ => True)) s1 s2 ->
  exists s3 fs', FetchDir (H := net_store W b) mem disk s2 root dest fs = Ret (Ok dir, s3, fs')
    /\ dir = directory_of fl
    /\ (forall f, f ∈ fl -> fs' !! path_Join dest (fst f) = Some (snd f))
    /\ (forall p, p ∉ ((fun f => path_Join dest (fst f)) <$> fl) -> fs' !! p = fs !! p).
Proof.
  intros site Hi Hr Ha Hm Hd Hf Hn Hp Hreads.
  pose proof (net_publish_laws W HW a b (fun v => v ∈ site) (site_inj site Ha) (fun _ => True)
    (fun _ _ _ _ _ _ _ => I)) as Laws.
  destruct (PublishDir_published (Laws := Laws) s s1 fl root dir Hi (conj Hr I)) as (-> & -> & Hi1 & _ & Hk1);
    [by apply Forall_forall|done|done|].
  destruct (net_reads_keep _ b site s1 s2 Hreads) as [Hi2 Hk2]; [by apply (keeps_inv a b site)|done|].
  destruct (FetchDir_kept (Laws := net_read_laws W HW b) mem disk s2 fl dest fs Hi2 Hk2 Hm Hd Hf Hn)
    as (s3 & fs' & E & Hin & Hout). by exists s3, fs'.
Qed.

(** ** Names *)

(** The closest peer to the key of a name's record takes it, [a] and [b] know that
    peer, and no host has a record of the name of this version or a newer one. *)
Definition name_free (a b nm : bytes) (version : Z) (cl : cluster) : Prop :=
  (exists kk, route cl a (RecordKey nm) kk /\ route cl b (RecordKey nm) kk /\ takes cl (RecordKey nm) kk)
  /\ forall now blob rec, stored cl (RecordKey nm) blob ->
       eligible trusted now (CanonicalName nm) blob = Ok rec -> r_Version rec < version.

Lemma name_free_evolves a b nm version key V cl cl' :
  evolves key V cl cl' -> cluster_ok cl -> key <> RecordKey nm ->
  name_free a b nm version cl -> name_free a b nm version cl'.
Proof.
  intros A Hok Hne [(kk & Ra & Rb & T) Hf]. split.
  - exists kk. split; [by eapply route_evolves|]. split; [by eapply route_evolves|by eapply takes_evolves].
  - intros now blob rec Hs. apply Hf. destruct (evolves_stored _ _ _ _ _ _ A Hs) as [?|[E _]]; [done|congruence].
Qed.

(** A record that is published: readers have it, and there is none as new. *)
Definition name_online (x nm : bytes) (rec : NameRecord) (cl : cluster) : Prop :=
  kept_at cl x (RecordKey nm) (Marshal rec) /\ forall now, freshest trusted cl now nm rec.

Lemma name_published a b s id nm root version rec s' :
  net_inv a s -> id_wf id -> in_int64 version -> in_int64 (w_now (now_at W s)) ->
  name_free a b nm version (nw_cluster s) -> net_publish W a s id nm root version = (Ok rec, s') ->
  validName nm = Ok tt /\ rec = new_record id nm root version DefaultNameTTL (w_now (now_at W s))
  /\ evolves (RecordKey nm) (eq (Marshal rec)) (nw_cluster s) (nw_cluster s')
  /\ name_online b nm rec (nw_cluster s').
Proof.
  intros Hi Hid Hv Hc [(kk & Ra & Rb & T) Hf] Hp.
  destruct (net_publish_evolves W HW a s id nm root version rec Hi) as (Hval & -> & A & Hk); rewrite Hp in *; [done|].
  cbn [snd] in *. split; [done|]. split; [done|]. split; [done|]. split; [by eapply Hk|].
  intros now blob rec' Hs He. destruct (evolves_stored _ _ _ _ _ _ A Hs) as [Hs'|[_ <-]].
  - right. by apply (Hf now blob).
  - left. apply eligible_Ok in He as (Hu & _).
    rewrite (Unmarshal_Marshal (fine := record_fine)) in Hu by by apply new_record_fine. by injection Hu.
Qed.

Lemma reads_online P b nm rec s s' :
  rtc (read_step P) s s' -> (forall k, P k -> k <> RecordKey nm) -> cluster_ok (nw_cluster s) ->
  name_online b nm rec (nw_cluster s) -> name_online b nm rec (nw_cluster s').
Proof.
  intros Hr HP. induction Hr as [|s1 s2 s3 H1 _ IH]; [done|]. intros Hok [Hk Hf].
  destruct (read_step_evolves P s1 s2 H1 Hok) as (key & V & A & HV). apply IH; [by eapply cluster_evolves_ok|]. split.
  - eapply kept_at_evolves; [exact A|done| |done]. intros -> w Hw. by destruct (HP _ (proj1 (HV w Hw))).
  - intros now blob rec' Hs. destruct (evolves_stored _ _ _ _ _ _ A Hs) as [?|[E Hw]]; [by apply Hf|].
    by destruct (HP _ (proj1 (HV _ Hw))).
Qed.

Context (order_ok : complete_order order).

Lemma online_resolves b s nm host rec :
  net_inv b s -> name_online b nm rec (nw_cluster s) -> validName nm = Ok tt -> CanonicalName host = CanonicalName nm ->
  eligible trusted (w_now (now_at W s)) (CanonicalName nm) (Marshal rec) = Ok rec ->
  (net_resolve W trusted order b s host).1 = Ok rec.
Proof.
  intros Hi [Hk Hf] Hv Hc He. assert (RecordKey host = RecordKey nm) as Hkey by (unfold RecordKey; by rewrite Hc).
  apply (net_resolve_finds W trusted order HW b s host (Marshal rec) rec Hi order_ok).
  - apply validName_spec. rewrite Hc. by apply validName_spec.
  - by rewrite Hkey.
  - by rewrite Hc.
  - unfold freshest. rewrite Hkey, Hc. apply Hf.
Qed.

Context (mime_type : bytes -> bytes) (detect : bytes -> bytes) (error_text : gw_error -> bytes).
Context (landing_page : bytes).

(** The registrar of one host and the gateway of another, on the state they share. *)
Definition registrar_at (x : bytes) := handleRegister (H2 := net_names W trusted order x).
Definition gateway_at (x : bytes) :=
  handle (H1 := net_store W x) (H2 := net_names W trusted order x) mime_type detect error_text landing_page.

(** C1 (apps/files/dir.go, [PublishDir]; registrar.go, [handleRegister]; name.go,
    [Publish], [Resolve]; gateway.go, [handle]; dht.go throughout): a site published and
    registered on one node is online on every node.  In a network of nodes that run
    this code, let node [a] publish a directory and its registrar answer the
    registration of a name for it with 201.  After any resolutions of names and any
    reads of contents by any nodes, except of content under the key of the name's own
    record, a browser that asks the gateway of node [b] for a file of the site, with the
    name spelt in any way that means the same, gets that file's bytes: [b] resolves the
    name and fetches every blob from the nodes closest to the keys.  Needed are routes
    from both nodes to the closest nodes, which have neither a budget, a quota nor a
    blocklist entry against it, a registrar [b] trusts, a record that is live and newer
    than any other of the name, that no other blob in the network has the hash of a blob
    of the site, and that no blob of the site has the key of the record as its hash, as
    a file that consists of the name itself has. *)
Theorem site_online_everywhere (a b : bytes) (s s1 s2 s3 : netstate) (fl : list (bytes * bytes)) (f : bytes * bytes)
    (root : NodeID) (dir : Directory) (e : env) (rq : Request) (req : RegisterRequest) (reg reg' : Registrar)
    (bd : body) (effs : list effect) (g : Gateway) (now : Z) (r : http_request) (host sub : bytes)
    (code : Z) (out : bytes) :
  let site := Marshal (directory_of fl) :: all_blobs fl in
  let canonical := CanonicalName (rr_Name req) in
  let version := UnixNano (en_now e) in
  let rec := new_record (reg_id reg) canonical root version DefaultNameTTL (w_now (now_at W s1)) in
  net_inv a s -> room_for a b (fun v => v ∈ site) (nw_cluster s) -> name_free a b canonical version (nw_cluster s) ->
  addr_inj site -> Forall (fun v => ContentAddress v <> RecordKey canonical) site ->
  Forall (fun f => utf8_valid (fst f) = true /\ len (snd f) < 2 ^ 63) fl -> NoDup fl.*1 -> f ∈ fl ->
  PublishDir (H := net_store W a) s (Some true) (items_of fl) = (Ok (root, dir), s1) ->
  registrar_at a e rq (reg, s1) = Ret (MkResponse 201 bd, effs, (reg', s2)) ->
  Decode (rq_Body rq) = Some req -> rr_Root req = Hex root ->
  id_wf (reg_id reg) -> in_int64 (w_now (now_at W s1)) ->
  rtc (read_step (fun k => k <> RecordKey canonical)) s2 s3 ->
  registrarAllowed trusted (PublicKeyToHex (PublicKey (reg_id reg))) = true ->
  Expired rec (w_now (now_at W s3)) = false ->
  h_Method r = bs "GET" -> names r host sub -> CanonicalName host = CanonicalName canonical ->
  requested sub = fst f -> range_ok r -> content_answer r (snd f) = Some (code, out) ->
  exists ct etag g' s4, gateway_at b g now r s3 = (MkHttpResponse code ct etag out [], g', s4).
Proof.
  intros site canonical version rec Hi Hroom Hfree Ha Hsep Hfine Hnd Hf Hpub Hreg Hdec Hroot Hid Hclk Hreads Hal Hexp
    Hget Hn Hcan Hreq Hrange Hans.
  assert (forall v cl cl', v ∈ site -> evolves (ContentAddress v) (eq v) cl cl' -> cluster_ok cl ->
    name_free a b canonical version cl -> name_free a b canonical version cl') as Hstep.
  { intros v cl cl' Hv A Hok. apply (name_free_evolves _ _ _ _ _ _ _ _ A Hok).
    rewrite Forall_forall in Hsep. by apply Hsep. }
  pose proof (net_publish_laws W HW a b (fun v => v ∈ site) (site_inj site Ha) _ Hstep) as Laws.
  destruct (PublishDir_published (Laws := Laws) s s1 fl root dir Hi (conj Hroom Hfree))
    as (-> & -> & Hi1 & [_ Hfree1] & Hk1); [by apply Forall_forall|done|done|].
  destruct (registered_record _ _ _ _ _ _ _ _ _ Hreg Hdec) as (root & rec' & Hr & Hp).
  fold canonical version in Hp. rewrite Hroot, IDFromHex_Hex in Hr. injection Hr as <-.
  destruct (name_published a b s1 (reg_id reg) canonical _ version rec' s2 Hi1 Hid (int64_range _) Hclk Hfree1 Hp)
    as (Hval & -> & A & Hon). fold rec in A, Hon.
  assert (keeps_all (keeps := net_keeps b) s2 site) as Hk2.
  { rewrite Forall_forall in Hsep. apply Forall_forall. intros v Hv. unfold keeps_all in Hk1. rewrite Forall_forall in Hk1.
    eapply net_keeps_evolves; [exact A|apply Hi1| |by apply Hk1]. intros E. by destruct (Hsep v Hv). }
  assert (net_inv a s2) as Hi2 by by eapply net_inv_evolves.
  destruct (net_reads_keep _ b site s2 s3 Hreads) as [Hi3 Hk3]; [by apply (keeps_inv a b site)|done|].
  pose proof (reads_online _ b canonical rec s2 s3 Hreads (fun _ Hk => Hk) (proj1 Hi2) Hon) as Hon3.
  assert ((net_resolve W trusted order b s3 host).1 = Ok rec) as Hres.
  { apply (online_resolves b s3 canonical); try done. apply new_record_eligible; try done. apply int64_range. }
  destruct (handle_serves (CLaws := net_read_laws W HW b) (NLaws := net_ns_laws W trusted order HW b b)
    mime_type detect error_text landing_page g now r s3 host sub rec fl f code out) as (ct & etag & s4 & Hh);
    [done|exact Hk3|done|done|done|by left|done|done|exact Hres|done|done|done|].
  rewrite Hget, bool_decide_eq_false_2 in Hh by done.
  exists ct, etag. eexists _, s4. exact Hh.
Qed.

End Everywhere.

(** ** Three hosts that know each other *)

Module Mesh.
Import Runs Launch Trio.

Definition mesh_a : Cluster.host := Cluster.MkHost (toy_identity Byte.x01) (node_with (key_of 1) [peer_b; peer_k]).
Definition mesh_b : Cluster.host := Cluster.MkHost (toy_identity Byte.x02) (node_with (key_of 2) [peer_a; peer_k]).
Definition mesh_k : Cluster.host := Cluster.MkHost (toy_identity Byte.x05) (node_with (key_of 5) [peer_a; peer_b]).

Definition mesh : cluster :=
  MkCluster
    (<[Hex (key_of 1) := mesh_a]> (<[Hex (key_of 2) := mesh_b]> {[Hex (key_of 5) := mesh_k]})) (book trio).

Definition start : netstate := MkNetwork mesh 0.

Definition calm_weather (_ : nat) : weather :=
  MkWeather Trio.quiet (fun _ _ => bs "r") (fun _ => bs "conn") id id (fun _ => 5) (fun _ => true) 1700000000.

Lemma calm_weather_ok t : weather_ok (calm_weather t).
Proof. intros l. split; apply Permutation_refl. Qed.

Lemma mesh_host x h :
  hosts mesh !! x = Some h ->
  (x = Hex (key_of 1) /\ h = mesh_a) \/ (x = Hex (key_of 2) /\ h = mesh_b) \/ (x = Hex (key_of 5) /\ h = mesh_k).
Proof.
  unfold mesh. cbn [hosts]. intros [[<- <-]|[_ H]]%lookup_insert_Some; [by left|].
  apply lookup_insert_Some in H as [[<- <-]|[_ H]]; [by right; left|].
  apply lookup_singleton_Some in H as [<- <-]. by right; right.
Qed.

Lemma mesh_lookup :
  hosts mesh !! Hex (key_of 1) = Some mesh_a /\ hosts mesh !! Hex (key_of 2) = Some mesh_b
  /\ hosts mesh !! Hex (key_of 5) = Some mesh_k.
Proof.
  unfold mesh. cbn [hosts]. split; [apply lookup_insert_eq|]. split.
  - rewrite lookup_insert_ne by (intros E; apply (inj Hex) in E; by vm_compute in E). apply lookup_insert_eq.
  - rewrite !lookup_insert_ne by (intros E; apply (inj Hex) in E; by vm_compute in E). apply lookup_insert_eq.
Qed.

Lemma mesh_ok : cluster_ok mesh.
Proof.
  pose proof trio_genuine as Hg. rewrite !Forall_cons in Hg. destruct Hg as (Ga & Gb & Gk & _).
  intros x h Hx. apply mesh_host in Hx as [[-> ->]|[[-> ->]|[-> ->]]]; cbn [h_dht mesh_a mesh_b mesh_k];
    match goal with |- context [node_with ?s ?l] => destruct (node_with_ok s l) as (H1 & H2 & H3) end;
    try (rewrite H2; split_and!; [done|done|exact H3]); by repeat (apply Forall_cons; split).
Qed.

(** Every host knows the two others. *)
Lemma mesh_ids :
  forallb (fun p => forallb (fun k => bool_decide (k = p.1) || bool_decide (Hex k ∈ ids (d_rt (h_dht p.2))))
                      [key_of 1; key_of 2; key_of 5])
    [(key_of 1, mesh_a); (key_of 2, mesh_b); (key_of 5, mesh_k)] = true.
Proof. by vm_compute. Qed.

Definition peers : list NodeID := [key_of 1; key_of 2; key_of 5].

Lemma mesh_node k : k ∈ peers -> exists self l h, hosts mesh !! Hex k = Some h /\ h_dht h = node_with self l.
Proof.
  destruct mesh_lookup as (Ha & Hb & Hk).
  intros [->|[->|[->|[]%not_elem_of_nil]%elem_of_cons]%elem_of_cons]%elem_of_cons.
  - exists (key_of 1), [peer_b; peer_k], mesh_a. exact (conj Ha eq_refl).
  - exists (key_of 2), [peer_a; peer_k], mesh_b. exact (conj Hb eq_refl).
  - exists (key_of 5), [peer_a; peer_b], mesh_k. exact (conj Hk eq_refl).
Qed.

Lemma mesh_knows k kk : k ∈ peers -> kk ∈ peers -> knows mesh (Hex k) kk.
Proof.
  intros Hk Hkk. pose proof mesh_ids as Hall. rewrite forallb_Forall_true, Forall_forall in Hall.
  destruct mesh_lookup as (La & Lb & Lk).
  assert (exists h, (k, h) ∈ [(key_of 1, mesh_a); (key_of 2, mesh_b); (key_of 5, mesh_k)]
    /\ hosts mesh !! Hex k = Some h) as (h & Hin & Hh).
  { revert Hk. intros [->|[->|[->|[]%not_elem_of_nil]%elem_of_cons]%elem_of_cons]%elem_of_cons.
    - exists mesh_a. split; [by left|exact La].
    - exists mesh_b. split; [by right; left|exact Lb].
    - exists mesh_k. split; [by right; right; left|exact Lk]. }
  specialize (Hall _ Hin). rewrite forallb_Forall_true, Forall_forall in Hall. specialize (Hall kk Hkk).
  cbn [fst snd] in Hall. apply orb_true_iff in Hall as [E|E]; apply bool_decide_eq_true_1 in E; [left; by rewrite E|].
  right. exists h. exact (conj Hh E).
Qed.

(** One of the three is closest to a key. *)
Lemma mesh_nearest key : exists kk, kk ∈ peers /\ nearest mesh key kk.
Proof.
  assert (exists kk, kk ∈ peers /\ Forall (fun k => distanceBigInt key kk <= distanceBigInt key k) peers) as (kk & Hin & Hle).
  { unfold peers. generalize (key_of 1) (key_of 2) (key_of 5). intros k1 k2 k5.
    destruct (Z.le_ge_cases (distanceBigInt key k1) (distanceBigInt key k2)),
      (Z.le_ge_cases (distanceBigInt key k1) (distanceBigInt key k5)),
      (Z.le_ge_cases (distanceBigInt key k2) (distanceBigInt key k5)).
    all: first [exists k1; split; [by left|]; repeat constructor; lia
               |exists k2; split; [by right; left|]; repeat constructor; lia
               |exists k5; split; [by right; right; left|]; repeat constructor; lia]. }
  exists kk. split; [done|]. rewrite Forall_forall in Hle.
  intros a x Hx. apply trio_book in Hx as [->|[->| ->]]; eexists; (split; [reflexivity|]); apply Hle; unfold peers; set_solver.
Qed.

Lemma node_with_store self l : d_store (node_with self l) = bounded_store 0.
Proof. unfold node_with. by rewrite (proj1 (update_all_frame 1 l _)). Qed.

Lemma mesh_routes key :
  exists kk, (forall x, x ∈ peers -> route mesh (Hex x) key kk) /\ takes mesh key kk.
Proof.
  destruct (mesh_nearest key) as (kk & Hkk & Hn). exists kk. split.
  - intros x Hx. split; [exact Hn|]. split; [exact (mesh_knows x kk Hx Hkk)|].
    destruct (mesh_node x Hx) as (self & l & h & Hh & E). exists h. split; [exact Hh|]. rewrite E. apply node_with_open.
  - destruct (mesh_node kk Hkk) as (self & l & h & Hh & E). exists h. split; [exact Hh|].
    rewrite E, node_with_store. split; [apply node_with_open|split; apply Z.le_refl].
Qed.

Lemma mesh_empty k w : ~ stored mesh k w.
Proof.
  intros (y & h & Hh & Hd). apply mesh_host in Hh as [[_ ->]|[[_ ->]|[_ ->]]]; revert Hd;
    cbn [h_dht mesh_a mesh_b mesh_k]; rewrite node_with_store; discriminate.
Qed.

Definition home : bytes := Hex (key_of 1).
Definition away : bytes := Hex (key_of 2).

Lemma mesh_start_inv : net_inv home start.
Proof. split; [exact mesh_ok|]. exists mesh_a. apply mesh_lookup. Qed.

Lemma home_peer : key_of 1 ∈ peers. Proof. by left. Qed.
Lemma away_peer : key_of 2 ∈ peers. Proof. by right; left. Qed.

Lemma start_room : room_for home away (fun v => v ∈ site_blobs_here) (nw_cluster start).
Proof.
  intros v _. split; [|intros w Hw; by destruct (mesh_empty _ _ Hw)].
  destruct (mesh_routes (ContentAddress v)) as (kk & Hr & Ht). exists kk.
  split; [apply Hr, home_peer|]. split; [apply Hr, away_peer|exact Ht].
Qed.

Lemma start_free nm version : name_free None home away nm version (nw_cluster start).
Proof.
  split; [|intros now blob rec Hs; by destruct (mesh_empty _ _ Hs)].
  destruct (mesh_routes (RecordKey nm)) as (kk & Hr & Ht). exists kk.
  split; [apply Hr, home_peer|]. split; [apply Hr, away_peer|exact Ht].
Qed.

(** What one node can publish, the network can. *)
Lemma mesh_published :
  exists s1, PublishDir (H := net_store calm_weather home) start (Some true) (items_of site) = (Ok (site_root, directory_of site), s1).
Proof.
  destruct site_published as (root & dir & s1 & E).
  destruct (PublishDir_fits (Laws := contents_published (Laws := node_laws Files.quiet)) carol_node site _ s1 carol_inv E) as [Hf Hl].
  exact (PublishDir_succeeds (Laws := net_publish_laws calm_weather calm_weather_ok home away (fun v => v ∈ site_blobs_here)
    (site_inj site_blobs_here site_blobs) (fun _ => True) (fun _ _ _ _ _ _ _ => I)) start site mesh_start_inv Hf Hl).
Qed.

Lemma network_directory_witness :
  exists s1 s2 s3 fs',
    PublishDir (H := net_store calm_weather home) start (Some true) (items_of site) = (Ok (site_root, directory_of site), s1)
    /\ read_step calm_weather None (fun s => elements s) (fun _ => True) s1 s2
    /\ FetchDir (H := net_store calm_weather away) small_mem open_host s2 site_root (bs "/srv/www/") ∅
       = Ret (Ok (directory_of site), s3, fs')
    /\ fs' !! path_Join (bs "/srv/www/") (bs "index.html") = Some greeting.
Proof.
  destruct mesh_published as [s1 E].
  pose proof (read_content calm_weather None (fun s => elements s) (fun _ => True) (Hex (key_of 5)) site_root s1 I) as Hstep.
  destruct (network_directory calm_weather None (fun s => elements s) calm_weather_ok home away start s1
    (net_get calm_weather (Hex (key_of 5)) s1 site_root).2 site site_root (directory_of site) small_mem open_host
    (bs "/srv/www/") ∅ mesh_start_inv start_room site_blobs (proj2 greeting_fits)
    (conj (fun _ => eq_refl) (fun _ => eq_refl)) site_fetchable site_targets E (rtc_once _ _ Hstep))
    as (s3 & fs' & Hf & _ & Hl & _).
  eexists s1, _, s3, fs'. split; [exact E|]. split; [exact Hstep|]. split; [exact Hf|].
  exact (Hl (bs "index.html", greeting) (list_elem_of_here _ _)).
Defined.

(** A registration one node's registrar accepts is accepted wherever the record can
    be published. *)
Lemma register_elsewhere `{GoUnicode} {S1 S2 : Type} `{NameService S1} `{NameService S2}
    e rq req reg (s1 : S1) (s2 s3 : S2) root rec b effs st :
  handleRegister e rq (reg, s1) = Ret (MkResponse 201 b, effs, st) ->
  Decode (rq_Body rq) = Some req -> IDFromHex (rr_Root req) = Ok root ->
  ns_publish s2 (reg_id reg) (CanonicalName (rr_Name req)) root (UnixNano (en_now e)) = (Ok rec, s3) ->
  exists b' effs' reg', handleRegister e rq (reg, s2) = Ret (MkResponse 201 b', effs', (reg', s3)).
Proof.
  intros Hh Hd Hr Hp. revert Hh. unfold handleRegister, guarded, decoded, fails, jsonError, reply. rewrite Hd.
  destruct (negb _); [done|]. destruct (requireAuth _ _); [|done]. cbv zeta.
  destruct (ValidateDomain _); [done|]. rewrite Hr. destruct (map_lookup _ _); [done|]. rewrite Hp.
  destruct (ns_publish s1 _ _ _ _) as [[r|] s1']; [|done].
  destruct (reg_registry reg) as [m|]; [|done]. by eexists _, _, _.
Qed.

(** A record that fits is published. *)
Lemma net_publish_total W (HW : forall t, weather_ok (W t)) `{GoUnicode} `{Ed25519} x s id nm root v :
  let rec := new_record id nm root v DefaultNameTTL (w_now (now_at W s)) in
  net_inv x s -> validName nm = Ok tt -> len (Marshal rec) <= MaxValueSize ->
  exists s', net_publish W x s id nm root v = (Ok rec, s').
Proof.
  intros rec [Hok [h Hh]] Hv Hl. unfold net_publish, Publish, PublishWithTTL. rewrite Hh, Hv. cbv zeta.
  fold (new_record id nm root v DefaultNameTTL (w_now (now_at W s))). fold rec.
  rewrite (proj2 (Z.ltb_ge _ _) Hl).
  pose proof (Store_spec (env_at W s x) (net_at W s h) (h_dht h) (RecordKey nm) (Marshal rec)
    (proj1 (Hok x h Hh)) (net_at_ok W HW s h)) as Hs.
  destruct (Store _ _ _ _ _) as [[[d c]|]|]; [eauto|done|lia].
Qed.

Lemma mesh_registered s1 :
  net_inv home s1 ->
  exists b effs reg' s2, registrar_at calm_weather None (fun s => elements s) home (calm 1700000000) register_site (boss, s1)
    = Ret (MkResponse 201 b, effs, (reg', s2)).
Proof.
  intros Hi. pose proof answer_created as Hst.
  destruct site_answer as [[[[st b] effs] [reg' s']]|] eqn:Ea; [|discriminate Hst]. cbn [rs_Status] in Hst. subst st.
  unfold site_answer in Ea.
  assert (IDFromHex (rr_Root site_registration) = Ok site_root) as Hroot by apply IDFromHex_Hex.
  destruct (registered_record _ _ _ _ _ _ _ _ _ Ea register_site_decodes) as (root & rec & Hr & Hp).
  rewrite Hroot in Hr. injection Hr as <-.
  cbn [ns_publish node_NameService site_names] in Hp. unfold node_publish in Hp.
  destruct (Publish _ _ _ _ _ _ _ _) as [[rec' o]|] eqn:Epub; [|discriminate Hp].
  apply Publish_record in Epub as (Hv & Er & Hl & _). subst rec'.
  destruct (net_publish_total calm_weather calm_weather_ok home s1 (reg_id boss)
    (CanonicalName (rr_Name site_registration)) site_root (UnixNano (en_now (calm 1700000000))) Hi Hv Hl) as [s2 E].
  destruct (register_elsewhere (H1 := net_names calm_weather None (fun s => elements s) home) _ _ _ _ _ s1 s2 _ _ _ _ _ Ea register_site_decodes Hroot E) as (b' & effs' & reg2 & E2).
  exists b', effs', reg2, s2. exact E2.
Qed.

Lemma mesh_root : rr_Root site_registration = Hex site_root.
Proof. unfold site_registration. cbn [rr_Root]. reflexivity. Qed.

Lemma anyone_allowed pk : registrarAllowed None pk = true.
Proof. done. Qed.

Lemma site_online_everywhere_witness :
  exists s1 s2 s3 b effs reg' ct etag g s4,
    PublishDir (H := net_store calm_weather home) start (Some true) (items_of site) = (Ok (site_root, directory_of site), s1)
    /\ registrar_at calm_weather None (fun s => elements s) home (calm 1700000000) register_site (boss, s1)
       = Ret (MkResponse 201 b, effs, (reg', s2))
    /\ rtc (read_step calm_weather None (fun s => elements s)
              (fun k => k <> RecordKey (CanonicalName (rr_Name site_registration)))) s2 s3
    /\ gateway_at calm_weather None (fun s => elements s) Visits.no_table Visits.octets Visits.no_text [] away
         Visits.counting 1700000000 (Visits.visit "PANMOX.alt:9080" "/" None) s3
       = (MkHttpResponse 200 ct etag greeting [], g, s4).
Proof.
  destruct mesh_published as [s1 E1].
  destruct (PublishDir_published (Laws := net_publish_laws calm_weather calm_weather_ok home away (fun v => v ∈ site_blobs_here)
    (site_inj site_blobs_here site_blobs) (fun _ => True) (fun _ _ _ _ _ _ _ => I)) start s1 site _ _ mesh_start_inv
    (conj start_room I) (proj2 (Forall_forall _ _) (fun _ Hv => Hv)) site_blobs E1) as (_ & _ & Hi1 & _).
  destruct (mesh_registered s1 Hi1) as (b & effs & reg' & s2 & E2).
  pose proof (read_name calm_weather None (fun s => elements s)
    (fun k => k <> RecordKey (CanonicalName (rr_Name site_registration))) (Hex (key_of 5)) (bs "panmox.alt") s2) as Hstep.
  destruct (site_online_everywhere calm_weather None (fun s => elements s) calm_weather_ok elements_complete
    Visits.no_table Visits.octets Visits.no_text [] home away start s1 s2 _ site (bs "index.html", greeting)
    site_root (directory_of site) (calm 1700000000) register_site site_registration boss reg' b effs Visits.counting
    1700000000 (Visits.visit "PANMOX.alt:9080" "/" None) (bs "PANMOX.alt") [] 200 greeting
    mesh_start_inv start_room (start_free _ _) site_blobs site_separate site_fine Visits.site_paths (list_elem_of_here _ _)
    E1 E2 register_site_decodes mesh_root boss_id noon_int64 (rtc_once _ _ Hstep) (anyone_allowed _) record_live eq_refl
    shouted_names shouted_canonical root_index I eq_refl) as (ct & etag & g & s4 & Hg).
  exists s1, s2. eexists. exists b, effs, reg', ct, etag, g, s4.
  split; [exact E1|]. split; [exact E2|]. split; [exact (rtc_once _ _ Hstep)|exact Hg].
Defined.

End Mesh.
