(* ===== verification/Metrics.v ===== *)
(** * Runtime counters over HTTP (apps/metrics/metrics.go)

    The snapshot of a node's counters, its JSON and the two routes. *)

From S2P Require Import RelayClient PeerNode Upkeep Console.
From S2P Require Import Prelude GoStrings Encoding Json JsonIndent Sha256 AesGcm Crypto Secure Relay Peer SingleFlight Session.
From S2P Require Import Revoke NodeId Blocklist Store Routing DhtWire Dht Lookup Name ContentStore NameService.
From S2P Require Import Files Maintenance RateLimit SiteStats Registry Registrar.

Record Snapshot := MkSnapshot {
  sn_PeerID : bytes;
  sn_ShortID : bytes;
  sn_ListenAddress : bytes;
  sn_AdvertisedAddrs : list bytes;
  sn_IsPublic : bool;
  sn_RelayRegistrations : list bytes;
  sn_ConnectedPeers : Z;
  sn_UniqueConns : Z;
  sn_RoutingTableSize : Z;
  sn_StoreEntries : Z;
  sn_StoreBytes : Z;
  sn_StoreBudget : Z;
  sn_GoVersion : bytes;
  sn_NumGoroutine : Z;
  sn_UptimeSec : Z
}.

(** The relay list is a nil slice until the first registration, and printed [null]. *)
Definition snapshot_json (s : Snapshot) : json :=
  JObj [(bs "peer_id", JStr (sn_PeerID s)); (bs "short_id", JStr (sn_ShortID s));
        (bs "listen_address", JStr (sn_ListenAddress s)); (bs "advertised_addresses", JStrs (sn_AdvertisedAddrs s));
        (bs "is_public", JBool (sn_IsPublic s));
        (bs "relay_registrations",
          if bool_decide (sn_RelayRegistrations s = []) then JNull else JStrs (sn_RelayRegistrations s));
        (bs "connected_peers", JInt (sn_ConnectedPeers s)); (bs "unique_conns", JInt (sn_UniqueConns s));
        (bs "routing_table_size", JInt (sn_RoutingTableSize s)); (bs "store_entries", JInt (sn_StoreEntries s));
        (bs "store_bytes", JInt (sn_StoreBytes s)); (bs "store_budget", JInt (sn_StoreBudget s));
        (bs "go_version", JStr (sn_GoVersion s)); (bs "num_goroutine", JInt (sn_NumGoroutine s));
        (bs "uptime_sec", JInt (sn_UptimeSec s))].

(** The server: its peer, its node ([None] is a nil pointer). *)
Record Server := MkServer { ms_p : Peer; ms_d : option DHT }.

Definition New (p : Peer) (d : option DHT) : Server := MkServer p d.

(** What the runtime says: version, goroutines, seconds since the start. *)
Record process := MkProcess { go_version : bytes; num_goroutine : Z; uptime : Z }.

(** The first three counters are guarded against a nil node, the budget is not. *)
Definition snapshot (s : Server) (pr : process) : outcome Snapshot :=
  let p := ms_p s in
  let '(rtSize, storeEntries, storeBytes) :=
    match ms_d s with
    | Some d => (Z.of_nat (Routing.Size (d_rt d)), Z.of_nat (LocalStoreSize d), LocalStoreBytes d)
    | None => (0, 0, 0)
    end in
  match ms_d s with
  | None => Panic
  | Some d =>
      Ret (MkSnapshot (p_id p) (shortID (p_id p)) (LocalAddr p) (peer_AdvertisedAddresses p) (IsPublic p)
             (RelayAddresses p) (Z.of_nat (Requests.PeerCount (conn_tables p))) (Z.of_nat (UniqueConnCount p))
             rtSize storeEntries storeBytes (LocalStoreBudget d)
             (go_version pr) (num_goroutine pr) (uptime pr))
  end.

Inductive metrics_response :=
| Body (content_type cache_control body : bytes)
| Redirected (path : bytes)
| NotFound.

(** [Encode] ends the indented text with a newline. *)
Definition handleMetrics (s : Server) (pr : process) : outcome metrics_response :=
  match snapshot s pr with
  | Panic => Panic
  | Ret snap => Ret (Body (bs "application/json") (bs "no-store") (print_indent 0 (snapshot_json snap) ++ [Byte.x0a]))
  end.

(** The mux of [Start]. *)
Definition serve_metrics (s : Server) (pr : process) (method path : bytes) : outcome metrics_response :=
  if negb (bool_decide (method = bs "CONNECT")) && negb (bool_decide (cleanPath path = path))
  then Ret (Redirected (cleanPath path))
  else if bool_decide (path = bs "/metrics") then handleMetrics s pr
  else if bool_decide (path = bs "/healthz")
       then Ret (Body (bs "text/plain; charset=utf-8") [] (bs "ok" ++ [Byte.x0a]))
  else Ret NotFound.

(** * Facts *)

(** Addresses and version are ASCII. *)
Definition text_ok (s : Server) (pr : process) : bool :=
  forallb is_ascii (PeerNode.Address (ms_p s)) && forallb (forallb is_ascii) (RelayAddresses (ms_p s))
  && forallb is_ascii (go_version pr).

Lemma parse_body d j : json_ok d j -> (d <= max_depth)%nat -> parse (print_indent 0 j ++ [Byte.x0a]) = Some j.
Proof.
  intros Hok Hd. unfold parse. pose proof (print_indent_roundtrips d j max_depth 0 Hok Hd) as Hr.
  rewrite (Hr _ [Byte.x0a]); [done|done|]. rewrite length_app. lia.
Qed.

Lemma JStrs_ascii_ok d l : Forall (fun s => forallb is_ascii s = true) l -> json_ok (S d) (JStrs l).
Proof. intros Hl. apply JStrs_ok. eapply Forall_impl; [exact Hl|]. intros s. apply utf8_valid_ascii. Qed.

Lemma hex_ascii l : forallb is_ascii (hex_encode l) = true.
Proof.
  eapply forallb_impl; [|apply hex_encode_plain]. intros b Hb. unfold GoStrings.plain in Hb. by zbool.
Qed.

Lemma advertised_ascii p :
  forallb is_ascii (PeerNode.Address p) = true -> Forall (fun a => forallb is_ascii a = true) (RelayAddresses p) ->
  forallb is_ascii (p_id p) = true -> Forall (fun a => forallb is_ascii a = true) (peer_AdvertisedAddresses p).
Proof.
  intros Ha Hr Hid. apply Forall_forall. intros a [[-> _]|(ra & Hra & ->)]%advertised_elem; [done|].
  unfold Addresses.relay_url. rewrite !forallb_app, Hid. rewrite Forall_forall in Hr. by rewrite (Hr ra Hra).
Qed.

(** (metrics.go, [snapshot], [handleMetrics], [Start]; peer.go; dht.go, [LocalStoreSize],
    [LocalStoreBytes], [LocalStoreBudget]): what [GET /metrics] answers is JSON that reads
    back as the snapshot, and the snapshot says what is the case: the identity, the bound
    address, the addresses the peer advertises, the number of its connections, of the
    contacts in the routing table and of the stored values, and the sum of their sizes,
    which the store keeps as a running counter. *)
Theorem metrics_truthful (id : Identity) (address : bytes) (es : list PeerNode.event) (p : Peer) (d : DHT)
    (pr : process) :
  PeerNode.run (PeerNode.New id address) es = Some p -> store_ok (d_store d) ->
  text_ok (New p (Some d)) pr = true ->
  exists snap body,
    serve_metrics (New p (Some d)) pr (bs "GET") (bs "/metrics")
      = Ret (Body (bs "application/json") (bs "no-store") body)
    /\ parse body = Some (snapshot_json snap)
    /\ sn_PeerID snap = Identity_ID id /\ sn_ShortID snap = ShortID id
    /\ sn_ListenAddress snap = PeerNode.Address p /\ sn_AdvertisedAddrs snap = peer_AdvertisedAddresses p
    /\ sn_UniqueConns snap = Z.of_nat (size (Conns.peersByID (conn_tables p)))
    /\ sn_RoutingTableSize snap = Z.of_nat (length (Routing.All (d_rt d)))
    /\ sn_StoreEntries snap = Z.of_nat (size (data (d_store d)))
    /\ sn_StoreBytes snap = stored_bytes (data (d_store d)).
Proof.
  intros Hr Hst Htx. pose proof (PeerNode.run_id _ _ _ Hr) as Hid. cbn in Hid.
  pose proof (PeerNode.peer_run _ _ _ Hr (PeerNode.New_inv id address)) as Hi.
  assert (LocalAddr p = PeerNode.Address p) as Hla.
  { unfold LocalAddr. destruct (listener p) as [[a b]|] eqn:El; [|done]. symmetry. by apply (PeerNode.inv_bound p Hi a b). }
  unfold text_ok in Htx. cbn [ms_p New] in Htx. apply andb_true_iff in Htx as [[Ha Hra]%andb_true_iff Hv].
  assert (Forall (fun a => forallb is_ascii a = true) (RelayAddresses p)) as Hra'.
  { apply Forall_forall. intros a Hin. rewrite forallb_forall in Hra. by apply Hra, list_elem_of_In. }
  assert (forallb is_ascii (p_id p) = true) as Hpi by (rewrite Hid; apply hex_ascii).
  destruct (snapshot (New p (Some d)) pr) as [snap|] eqn:Es; [|done]. exists snap.
  exists (print_indent 0 (snapshot_json snap) ++ [Byte.x0a]).
  split; [unfold serve_metrics, handleMetrics; rewrite Es; done|].
  unfold snapshot in Es. cbn [ms_p ms_d New] in Es. injection Es as <-.
  split.
  { apply (parse_body 3); [|unfold max_depth; lia]. unfold snapshot_json. cbn -[json_ok JInt JStrs].
    assert (forall t, forallb is_ascii t = true -> json_ok 2 (JStr t)) as Hs by (intros t Ht; by apply JStr_ok, utf8_valid_ascii).
    apply JObj_ok. repeat (apply Forall_cons; split; [split; [done|]|]); cbn [fst snd]; try apply JInt_ok; try done;
      try (apply Hs; try done).
    - rewrite Hid. unfold shortID. case_match; [apply hex_ascii|].
      apply forallb_forall. intros b Hb. pose proof (hex_ascii (sha256 (PublicKey id))) as Hx.
      rewrite forallb_forall in Hx. apply Hx. apply list_elem_of_In. apply list_elem_of_In in Hb.
      by eapply elem_of_take in Hb as (? & ? & _); eapply list_elem_of_lookup_2.
    - by rewrite Hla.
    - by apply JStrs_ascii_ok, advertised_ascii.
    - case_bool_decide; [done|]. by apply JStrs_ascii_ok. }
  cbn. rewrite Hid, Hla, Size_All. destruct Hst as [_ [Ht _]].
  split_and!; try done.
Qed.

(** ** A concrete node *)

Module MetricsRuns.
Import PeerRuns.

Definition runtime : process := MkProcess (bs "go1.22") 12 60.
Definition hosting_dht : DHT := n_dht host_node.

Lemma hosting_text : text_ok (New (after up) (Some hosting_dht)) runtime = true.
Proof. by vm_compute. Qed.

Lemma metrics_truthful_witness :
  exists snap body,
    serve_metrics (New (after up) (Some hosting_dht)) runtime (bs "GET") (bs "/metrics")
      = Ret (Body (bs "application/json") (bs "no-store") body)
    /\ parse body = Some (snapshot_json snap) /\ sn_StoreBytes snap = stored_bytes (data hosting).
Proof.
  destruct (metrics_truthful alice (bs "127.0.0.1:0") up (after up) hosting_dht runtime (ran_after up up_ran) hosting_ok
    hosting_text) as (snap & body & H1 & H2 & H3). exists snap, body. split; [exact H1|]. split; [exact H2|]. apply H3.
Defined.

(** Without a node the guarded counters are zero and the unguarded one panics. *)
Example nil_node_panics : serve_metrics (New (after up) None) runtime (bs "GET") (bs "/metrics") = Panic.
Proof. vm_compute. reflexivity. Qed.

End MetricsRuns.
