(* ===== verification/Daemon.v ===== *)
(** * The daemon: flags, start-up and shutdown (cli/main.go, [main])

    [main] runs in a small monad: it can leave with [os.Exit(1)], which skips what
    was deferred, or return, which runs it, last first.  The trace records which
    service was started and stopped when; the services themselves are those of the
    other files.  How the operating system answers each call is an argument. *)

From S2P Require Import RelayClient PeerNode Upkeep Console Metrics.
From S2P Require Import Prelude GoStrings Encoding Json Sha256 AesGcm Crypto Secure Relay Peer SingleFlight Session.
From S2P Require Import Revoke NodeId Blocklist Store Routing DhtWire Dht Lookup Name ContentStore NameService.
From S2P Require Import Files Maintenance RateLimit SiteStats Registry Registrar.

(** ** Flags *)

Record flags := MkFlags {
  f_listen : bytes; f_bootstrap : bytes; f_keydir : bytes; f_gateway : bytes; f_gateway_tls : bytes;
  f_ca_dir : bytes; f_dns : bytes; f_tld : bytes; f_dns_ip : bytes; f_dns_upstream : bytes;
  f_registrar : bytes; f_registrar_token : bytes; f_data : bytes; f_store_budget : Z; f_per_peer_budget : Z;
  f_relay : bytes; f_relay_listen : bytes; f_public : bool; f_log_level : bytes; f_log_format : bytes; f_metrics : bytes;
  f_export_key : bool; f_import_key : bytes; f_headless : bool
}.

Definition default_flags : flags :=
  MkFlags (bs "127.0.0.1:9000") [] (bs "data/keys") [] [] [] [] (bs "alt") (bs "127.0.0.1") (bs "1.1.1.1:53")
    [] [] (bs "data/store") DefaultStoreBudgetBytes DefaultPerPeerBudgetBytes [] [] false
    (bs "info") (bs "text") [] false [] false.

(** ** [configureLogging] *)

Inductive log_level := LevelDebug | LevelInfo | LevelWarn | LevelError.
Inductive log_format := JSONHandler | TextHandler.

Definition configureLogging `{GoUnicode} (level format : bytes) : log_level * log_format :=
  let l := ToLower level in
  let lv :=
    if bool_decide (l = bs "debug") then LevelDebug
    else if bool_decide (l = bs "warn") || bool_decide (l = bs "warning") then LevelWarn
    else if bool_decide (l = bs "error") then LevelError
    else LevelInfo in
  (lv, if bool_decide (ToLower format = bs "json") then JSONHandler else TextHandler).

(** ** Lists of keys *)

(** The key on a line of a list file. *)
Definition line_key (text : bytes) : option bytes :=
  let line := TrimSpace text in
  if bool_decide (line = []) || HasPrefix line (bs "#") then None
  else match IndexByte line Byte.x23 with
       | Some i => Some (TrimSpace (take i line))
       | None => Some line
       end.

(** [None]: the file could not be opened.  The scanner's error is not looked at. *)
Definition list_keys (f : option bytes) : list bytes :=
  match f with None => [] | Some content => omap line_key (scan_lines content).1 end.

Definition load_revokers `{GoUnicode} (f : option bytes) : option (gset bytes) :=
  foldl (fun t k => (Trusted_Add t k).1) (Some ∅) (list_keys f).

(** ** The services and the monad *)

Inductive service := SvPeer | SvRelay | SvMaintenance | SvMetrics | SvGateway | SvGatewayTLS | SvDns | SvRegistrar.

#[global] Instance service_eq_dec : EqDecision service.
Proof. solve_decision. Defined.

Inductive action := AStart (s : service) | AStop (s : service) | ASaved (id : Identity) | APrinted (text : bytes).

(** What has happened, the deferred stops, the file system. *)
Record proc := MkProc { pr_trace : list action; pr_deferred : list service; pr_fs : files }.

Inductive ending (A : Type) := Goes (a : A) | Exits.
Arguments Goes {A} a.
Arguments Exits {A}.

Definition M (A : Type) : Type := proc -> ending A * proc.

#[global] Instance M_ret : MRet M := fun A a s => (Goes a, s).
#[global] Instance M_bind : MBind M := fun A B f m s =>
  match m s with (Goes a, s) => f a s | (Exits, s) => (Exits, s) end.

(** [os.Exit(1)] *)
Definition exit1 {A} : M A := fun s => (Exits, s).

Definition act (a : action) : M unit := fun s => (Goes tt, MkProc (pr_trace s ++ [a]) (pr_deferred s) (pr_fs s)).

(** Start a service and defer its stop. *)
Definition start (sv : service) : M unit := fun s =>
  (Goes tt, MkProc (pr_trace s ++ [AStart sv]) (sv :: pr_deferred s) (pr_fs s)).

Definition on_files {A} (f : files -> A * files) : M A := fun s =>
  let '(a, fs) := f (pr_fs s) in (Goes a, MkProc (pr_trace s) (pr_deferred s) fs).

Definition when (b : bool) (m : M unit) : M unit := if b then m else mret tt.

(** Leave unless the value is there. *)
Definition or_exit {E A} (r : result E A) : M A := match r with Ok a => mret a | Err _ => exit1 end.
Definition some_or_exit {A} (o : option A) : M A := match o with Some a => mret a | None => exit1 end.

(** ** [main] *)

(** How the operating system and the network answer. *)
Record sysenv := MkSys {
  y_rand : option bytes; y_mkdir : bool; y_write : write_end;   (* the key file *)
  y_bound : option bytes;                                       (* [p.Start] *)
  y_relay : bool;                                               (* [relaySrv.Start] *)
  y_dir : directory; y_entries : option (list dir_entry);       (* the store directory and its listing *)
  y_now : Time; y_evict : localStore -> list bytes;             (* the clock, the order of eviction *)
  y_blocklist : file_state; y_revokers : option bytes; y_registrars : option bytes;
  y_boot : DHT -> bytes -> bool * DHT;
  y_ca : bool;                                                  (* [altca.LoadOrCreate] *)
  y_ip4 : bytes -> option bytes;                                (* [net.ParseIP] and [To4] *)
  y_dns : bool;                                                 (* [r.Start] *)
  y_reg_mkdir : bool; y_reg_readable : bool
}.

(** What is running when the console or the wait for a signal begins. *)
Record daemon := MkDaemon {
  dm_id : Identity;
  dm_peer : Peer;
  dm_dht : DHT;
  dm_trusted : option (gset bytes);
  dm_registrar : option Registrar;
  dm_log : log_level * log_format
}.

Section Main.
Context `{GoUnicode} `{Ed25519}.

Definition keyPath (f : flags) : bytes := path_Join (f_keydir f) (bs "peer.key").

Definition import_key (f : flags) (y : sysenv) : M unit :=
  imported ← or_exit (ImportKey (f_import_key f));
  r ← on_files (Save imported (y_mkdir y) (y_write y) (keyPath f));
  _ ← or_exit r;
  act (ASaved imported).

(** The blocklist is taken only when the whole file could be read. *)
Definition load_blocklist (y : sysenv) (d : DHT) : DHT :=
  match LoadBlocklistFromFile (y_blocklist y) with
  | (_, true) => d
  | (bl, false) => SetBlocklist d bl
  end.

Definition start_peer (f : flags) (y : sysenv) (id : Identity) : M Peer :=
  p ← or_exit (PeerNode.Start (y_bound y) (SetPublic (f_public f) (PeerNode.New id (f_listen f))));
  _ ← start SvPeer;
  _ ← when (negb (is_nil (f_relay_listen f))) (if y_relay y then start SvRelay else exit1);
  let relayAddrs := splitAndTrim (f_relay f) in
  mret (if bool_decide (relayAddrs = []) then p else UseRelay relayAddrs p).

(** The store of [NewWithFullLimit]; an empty [-data] keeps it in memory. *)
Definition open_store (f : flags) (y : sysenv) : option localStore :=
  newLocalStoreWithLimit (y_evict y) (y_now y) (if is_nil (f_data f) then None else Some (y_dir y)) (y_entries y)
    (f_store_budget f).

Definition start_dht (f : flags) (y : sysenv) (id : Identity) : M (DHT * option (gset bytes)) :=
  d ← some_or_exit (NewWithFullLimit id (open_store f y) (f_per_peer_budget f));
  let d := SetTrustedRevokers (load_blocklist y d) (load_revokers (y_revokers y)) in
  let trusted := SetTrustedRegistrars (list_keys (y_registrars y)) in
  let bootstrapAddrs := splitAndTrim (f_bootstrap f) in
  let d := if bool_decide (bootstrapAddrs = []) then d else (BootstrapAll (y_boot y) d bootstrapAddrs).2 in
  _ ← start SvMaintenance;
  mret (d, trusted).

(** The HTTP servers listen in a goroutine of their own: starting one never fails. *)
Definition start_servers (f : flags) (y : sysenv) : M unit :=
  _ ← when (negb (is_nil (f_metrics f))) (start SvMetrics);
  _ ← when (negb (is_nil (f_gateway f))) (start SvGateway);
  _ ← when (negb (is_nil (f_gateway_tls f))) (if y_ca y then start SvGatewayTLS else exit1);
  when (negb (is_nil (f_dns f)))
    (match y_ip4 y (f_dns_ip f) with
     | None => exit1
     | Some _ => if y_dns y then start SvDns else exit1
     end).

Definition start_registrar (f : flags) (y : sysenv) (id : Identity) : M (option Registrar) :=
  if is_nil (f_registrar f) then mret None else
  if is_nil (f_registrar_token f) then exit1 else
  r ← on_files (fun fs =>
        (NewWithDataDir id (f_registrar_token f) (f_data f) (y_reg_mkdir y) (y_reg_readable y) fs, fs));
  reg ← some_or_exit r;
  _ ← start SvRegistrar;
  mret (Some (SetStats reg (Some SiteStats.New))).

(** The daemon proper: everything after the identity is known. *)
Definition bring_up (f : flags) (y : sysenv) (id : Identity) : M (option daemon) :=
  p ← start_peer f y id;
  dt ← start_dht f y id;
  _ ← start_servers f y;
  reg ← start_registrar f y id;
  mret (Some (MkDaemon id p dt.1 dt.2 reg (configureLogging (f_log_level f) (f_log_format f)))).

(** Everything before the console; [None] when [main] has returned by then. *)
Definition boot (f : flags) (y : sysenv) : M (option daemon) :=
  if negb (is_nil (f_import_key f)) then (_ ← import_key f y; mret None) else
  r ← on_files (LoadOrCreate (keyPath f) (y_rand y) (y_mkdir y) (y_write y));
  id ← or_exit r;
  if f_export_key f then (_ ← act (APrinted (Export id)); mret None) else
  bring_up f y id.

(** [main]: the console or the wait for a signal ends, [main] returns and what was
    deferred runs, the last first. *)
Definition main (f : flags) (y : sysenv) (fs : files) : ending (option daemon) * proc :=
  let '(r, s) := boot f y (MkProc [] [] fs) in
  match r with
  | Exits => (Exits, s)
  | Goes d => (Goes d, MkProc (pr_trace s ++ (AStop <$> pr_deferred s)) [] (pr_fs s))
  end.

End Main.

(** * Facts *)

Definition started (tr : list action) : list service := omap (fun a => match a with AStart s => Some s | _ => None end) tr.
Definition stopped (tr : list action) : list service := omap (fun a => match a with AStop s => Some s | _ => None end) tr.

(** [m] starts the services [l], in this order, or exits on the way. *)
Definition emits {A} (m : M A) (l : list service) : Prop := forall s,
  match m s with
  | (Goes _, s') => pr_trace s' = pr_trace s ++ (AStart <$> l) /\ pr_deferred s' = rev l ++ pr_deferred s
  | (Exits, s') => exists k, k `prefix_of` l /\ pr_trace s' = pr_trace s ++ (AStart <$> k)
  end.

Lemma emits_ret {A} (a : A) : emits (mret a) [].
Proof. intros s. cbn. by rewrite app_nil_r. Qed.

Lemma emits_exit {A} l : emits (exit1 (A := A)) l.
Proof. intros s. exists []. split; [apply prefix_nil|]. cbn. by rewrite app_nil_r. Qed.

Lemma emits_start sv : emits (start sv) [sv].
Proof. intros s. by split. Qed.

Lemma emits_files {A} (f : files -> A * files) : emits (on_files f) [].
Proof. intros s. unfold on_files. destruct (f (pr_fs s)). cbn. by rewrite app_nil_r. Qed.

Lemma emits_bind {A B} (m : M A) (f : A -> M B) l k :
  emits m l -> (forall a, emits (f a) k) -> emits (m ≫= f) (l ++ k).
Proof.
  intros Hm Hf s. unfold mbind, M_bind. specialize (Hm s). destruct (m s) as [[a|] s1].
  - destruct Hm as [Ht Hd]. specialize (Hf a s1). destruct (f a s1) as [[b|] s2].
    + destruct Hf as [Ht2 Hd2]. rewrite Ht2, Hd2, Ht, Hd, fmap_app, rev_app_distr, !app_assoc. done.
    + destruct Hf as (j & Hj & ->). exists (l ++ j). split; [by apply prefix_app|]. by rewrite Ht, fmap_app, app_assoc.
  - destruct Hm as (j & Hj & ->). exists j. split; [by apply prefix_app_r|done].
Qed.

Lemma emits_or_exit {E A} (r : result E A) : emits (or_exit r) [].
Proof. destruct r; [apply emits_ret|apply emits_exit]. Qed.

Lemma emits_some_or_exit {A} (o : option A) : emits (some_or_exit o) [].
Proof. destruct o; [apply emits_ret|apply emits_exit]. Qed.

Lemma emits_when b m l : emits m l -> emits (when b m) (if b then l else []).
Proof. intros Hm. destruct b; [done|apply emits_ret]. Qed.

Create HintDb emits.
#[local] Hint Resolve emits_ret emits_exit emits_start emits_files emits_or_exit emits_some_or_exit emits_when : emits.

Section MainFacts.
Context `{GoUnicode} `{Ed25519}.

(** A service the flag [name] asks for; a strict list has it only if it can run. *)
Definition on (strict : bool) (name : bytes) (able : bool) (sv : service) : list service :=
  if is_nil name then [] else if strict && negb able then [] else [sv].

(** The services in the order of [main]: a registrar needs a token, a resolver an
    IPv4 address, HTTPS a certificate authority. *)
Definition services (strict : bool) (f : flags) (y : sysenv) : list service :=
  ([SvPeer] ++ on strict (f_relay_listen f) (y_relay y) SvRelay)
  ++ [SvMaintenance]
  ++ (on strict (f_metrics f) true SvMetrics ++ on strict (f_gateway f) true SvGateway
      ++ on strict (f_gateway_tls f) (y_ca y) SvGatewayTLS
      ++ on strict (f_dns f) (bool_decide (is_Some (y_ip4 y (f_dns_ip f)))) SvDns)
  ++ on strict (f_registrar f) (negb (is_nil (f_registrar_token f))) SvRegistrar.

(** What the flags ask for. *)
Definition requested (f : flags) (y : sysenv) : list service := services false f y.

Lemma emits_eq {A} (m : M A) l k : emits m l -> l = k -> emits m k.
Proof. by intros ? <-. Qed.

(** A service that starts if it can. *)
Lemma emits_on (strict : bool) (name : bytes) (able : bool) (sv : service) :
  emits (when (negb (is_nil name)) (if able then start sv else exit1)) (on strict name able sv).
Proof.
  unfold on, when. destruct (is_nil name); [apply emits_ret|]. cbn [negb].
  destruct able; [|apply emits_exit]. rewrite andb_false_r. apply emits_start.
Qed.

Lemma start_peer_emits strict f y id :
  emits (start_peer f y id) ([SvPeer] ++ on strict (f_relay_listen f) (y_relay y) SvRelay).
Proof.
  unfold start_peer. apply (emits_bind _ _ []); [auto with emits|]. intros p.
  apply (emits_bind _ _ [SvPeer]); [auto with emits|]. intros _. rewrite <- (app_nil_r (on _ _ _ _)). apply emits_bind; [apply emits_on|]. auto with emits.
Qed.

Lemma start_dht_emits f y id : emits (start_dht f y id) [SvMaintenance].
Proof.
  unfold start_dht. apply (emits_bind _ _ []); [auto with emits|]. intros d. cbv zeta.
  apply (emits_bind _ _ [SvMaintenance] []); auto with emits.
Qed.

Lemma start_servers_emits strict f y :
  emits (start_servers f y)
    (on strict (f_metrics f) true SvMetrics ++ on strict (f_gateway f) true SvGateway
     ++ on strict (f_gateway_tls f) (y_ca y) SvGatewayTLS
     ++ on strict (f_dns f) (bool_decide (is_Some (y_ip4 y (f_dns_ip f)))) SvDns).
Proof.
  unfold start_servers. apply emits_bind; [apply (emits_on strict _ true)|]. intros _.
  apply emits_bind; [apply (emits_on strict _ true)|]. intros _. apply emits_bind; [apply emits_on|]. intros _.
  destruct (y_ip4 y (f_dns_ip f)) as [ip|].
  - rewrite bool_decide_eq_true_2 by done. unfold on, when. destruct (is_nil (f_dns f)); [apply emits_ret|].
    cbn [negb]. rewrite andb_false_r. destruct (y_dns y); [apply emits_start|apply emits_exit].
  - rewrite bool_decide_eq_false_2 by (by intros [? ?]). apply (emits_on strict _ false).
Qed.

Lemma start_registrar_emits strict f y id :
  emits (start_registrar f y id) (on strict (f_registrar f) (negb (is_nil (f_registrar_token f))) SvRegistrar).
Proof.
  unfold start_registrar, on. destruct (is_nil (f_registrar f)); [apply emits_ret|].
  destruct (is_nil (f_registrar_token f)); [apply emits_exit|]. cbn [negb]. rewrite andb_false_r.
  apply (emits_bind _ _ []); [apply emits_files|]. intros r. apply (emits_bind _ _ []); [auto with emits|].
  intros reg. apply (emits_bind _ _ [SvRegistrar] []); auto with emits.
Qed.

Lemma bring_up_emits strict f y id : emits (bring_up f y id) (services strict f y).
Proof.
  unfold bring_up, services. apply emits_bind; [apply start_peer_emits|]. intros p.
  apply emits_bind; [apply start_dht_emits|]. intros dt. apply emits_bind; [apply start_servers_emits|]. intros _.
  rewrite <- (app_nil_r (on _ (f_registrar f) _ _)). apply emits_bind; [apply start_registrar_emits|]. auto with emits.
Qed.

Lemma bring_up_some f y id s d s' : bring_up f y id s = (Goes d, s') -> is_Some d.
Proof.
  unfold bring_up, mbind, M_bind. intros Hb.
  repeat match type of Hb with context [match ?x with _ => _ end] => destruct x; try discriminate Hb end.
  cbn in Hb. injection Hb as <- _. by eexists.
Qed.

(** [boot] writes or prints a key and returns, exits with nothing started, or brings
    the daemon up. *)
Lemma boot_cases f y fs :
  let s0 := MkProc [] [] fs in
  (exists a s, (match a with ASaved _ | APrinted _ => True | _ => False end)
     /\ boot f y s0 = (Goes None, s) /\ pr_trace s = [a] /\ pr_deferred s = [])
  \/ (exists s, boot f y s0 = (Exits, s) /\ pr_trace s = [])
  \/ exists id fs', LoadOrCreate (keyPath f) (y_rand y) (y_mkdir y) (y_write y) fs = (Ok id, fs')
     /\ boot f y s0 = bring_up f y id (MkProc [] [] fs').
Proof.
  cbv zeta. unfold boot. destruct (negb (is_nil (f_import_key f))).
  - unfold import_key, or_exit, on_files, act, exit1, mbind, M_bind, mret, M_ret.
    destruct (ImportKey (f_import_key f)) as [id|]; [|right; left; by eexists]. cbn [pr_fs pr_trace pr_deferred].
    destruct (Save id (y_mkdir y) (y_write y) (keyPath f) fs) as [[[]|] fs']; [left|right; left; eexists; split; [reflexivity|reflexivity]].
    exists (ASaved id). eexists. split; [done|]. split; [reflexivity|]. done.
  - assert (forall g : result crypto_error Identity -> M (option daemon), forall s0 r fs',
      LoadOrCreate (keyPath f) (y_rand y) (y_mkdir y) (y_write y) (pr_fs s0) = (r, fs') ->
      (on_files (LoadOrCreate (keyPath f) (y_rand y) (y_mkdir y) (y_write y)) ≫= g) s0
      = g r (MkProc (pr_trace s0) (pr_deferred s0) fs')) as Hf.
    { intros g s0 r fs' E. unfold mbind, M_bind, on_files. by rewrite E. }
    destruct (LoadOrCreate (keyPath f) (y_rand y) (y_mkdir y) (y_write y) fs) as [r fs'] eqn:El.
    rewrite (Hf _ _ r fs') by exact El. cbn [pr_trace pr_deferred].
    destruct r as [id|]; [|right; left; eexists; split; reflexivity].
    unfold mbind at 1, M_bind at 1, or_exit, mret at 1, M_ret at 1.
    destruct (f_export_key f); [left; exists (APrinted (Export id)); eexists; split; [done|]; split; [reflexivity|done]|].
    right. right. exists id, fs'. split; reflexivity.
Qed.

Lemma started_starts l : started (AStart <$> l) = l.
Proof. unfold started. induction l as [|x l IH]; [done|]. cbn. by rewrite IH. Qed.

Lemma stopped_starts l : stopped (AStart <$> l) = [].
Proof. unfold stopped. by induction l. Qed.

Lemma started_stops l : started (AStop <$> l) = [].
Proof. unfold started. by induction l. Qed.

Lemma stopped_stops l : stopped (AStop <$> l) = l.
Proof. unfold stopped. induction l as [|x l IH]; [done|]. cbn. by rewrite IH. Qed.

Lemma on_elem strict name able sv x : x ∈ on strict name able sv -> x = sv /\ name <> [] /\ (strict = true -> able = true).
Proof.
  unfold on, is_nil. case_bool_decide; [by intros ?%not_elem_of_nil|].
  destruct strict, able; cbn [andb negb]; try (by intros ?%not_elem_of_nil);
    intros ->%list_elem_of_singleton; done.
Qed.

Lemma services_able f y sv :
  sv ∈ services true f y ->
  (sv = SvRegistrar -> f_registrar_token f <> []) /\ (sv = SvDns -> is_Some (y_ip4 y (f_dns_ip f)))
  /\ (sv = SvGatewayTLS -> y_ca y = true).
Proof.
  unfold services. rewrite !elem_of_app, !list_elem_of_singleton. intros Hin.
  split_and!; intros ->;
    repeat match goal with
      | H : _ \/ _ |- _ => destruct H as [H|H]
      | H : _ ∈ on _ _ _ _ |- _ => apply on_elem in H as (? & ? & Hable); specialize (Hable eq_refl)
      end; try discriminate; zbool; try done.
  unfold is_nil in *. by case_bool_decide.
Qed.

(** C33 (main.go, [main]): the daemon starts and stops in order.  When [main] returns, every
    service that was started has been stopped, the last one first, and the services are
    exactly those the flags ask for, in the order of [main], or none when a key was
    imported or exported.  When it exits with an error, the services started by then are
    the first of them and nothing is stopped, so peers get no goodbye.  A registrar runs
    only with a token, a resolver only with an IPv4 address to answer with, HTTPS only
    with a certificate authority. *)
Theorem main_starts_and_stops (f : flags) (y : sysenv) (fs : files) :
  let '(r, s) := main f y fs in
  let ran := started (pr_trace s) in
  match r with
  | Goes d => stopped (pr_trace s) = rev ran
              /\ ran = if bool_decide (is_Some d) then requested f y else []
  | Exits => stopped (pr_trace s) = [] /\ ran `prefix_of` requested f y
  end
  /\ forall sv, sv ∈ ran ->
       (sv = SvRegistrar -> f_registrar_token f <> []) /\ (sv = SvDns -> is_Some (y_ip4 y (f_dns_ip f)))
       /\ (sv = SvGatewayTLS -> y_ca y = true).
Proof.
  unfold main.
  destruct (boot_cases f y fs) as [(a & s & Ha & -> & Ht & Hd)|[(s & -> & Ht)|(id & fs' & _ & ->)]].
  - rewrite Ht, Hd. cbn. destruct a; try done; (split; [done|]); by intros sv ?%not_elem_of_nil.
  - rewrite Ht. cbn. split; [split; [done|apply prefix_nil]|]. by intros sv ?%not_elem_of_nil.
  - pose proof (bring_up_emits true f y id (MkProc [] [] fs')) as Hs.
    pose proof (bring_up_emits false f y id (MkProc [] [] fs')) as Hr.
    pose proof (bring_up_some f y id (MkProc [] [] fs')) as Hsome.
    destruct (bring_up f y id (MkProc [] [] fs')) as [[d|] s]; cbn [pr_trace pr_deferred app] in *.
    + destruct Hs as [Hst Hsd]. destruct Hr as [Hrt Hrd].
      assert (services true f y = services false f y) as Heq.
      { rewrite Hst in Hrt. apply (f_equal started) in Hrt. by rewrite !started_starts in Hrt. }
      rewrite Hst, Hsd, app_nil_r.
      replace (started ((AStart <$> services true f y) ++ (AStop <$> rev (services true f y))))
        with (services true f y)
        by (unfold started; rewrite omap_app; fold started; by rewrite started_starts, started_stops, app_nil_r).
      replace (stopped ((AStart <$> services true f y) ++ (AStop <$> rev (services true f y))))
        with (rev (services true f y))
        by (unfold stopped; rewrite omap_app; fold stopped; by rewrite stopped_starts, stopped_stops).
      split; [split; [done|]|intros sv; apply services_able].
      rewrite bool_decide_eq_true_2 by (by eapply Hsome). exact Heq.
    + destruct Hs as (k & Hk & Ht). destruct Hr as (k' & Hk' & Ht'). rewrite Ht, started_starts, stopped_starts.
      assert (k = k') as -> by (rewrite Ht in Ht'; apply (f_equal started) in Ht'; by rewrite !started_starts in Ht').
      split; [done|]. intros sv Hsv. apply services_able. destruct Hk as [t ->]. apply elem_of_app. by left.
Qed.

(** ** The identity *)

Lemma bring_up_id f y id s d s' :
  bring_up f y id s = (Goes (Some d), s') -> dm_id d = id /\ p_id (dm_peer d) = Identity_ID id.
Proof.
  unfold bring_up at 1, mbind, M_bind. destruct (start_peer f y id s) as [[p|] s1] eqn:Ep; [|discriminate].
  intros Hb.
  assert (p_id p = Identity_ID id) as Hp.
  { unfold start_peer, mbind, M_bind, or_exit, PeerNode.Start, mret, M_ret, exit1 in Ep.
    destruct (y_bound y) as [b|]; [|discriminate Ep]. unfold start at 1 in Ep.
    destruct (when _ _ _) as [[[]|] s2]; [|discriminate Ep]. cbv zeta in Ep.
    destruct (bool_decide _); injection Ep as <- _; [done|]. by rewrite PeerNode.UseRelay_id. }
  repeat match type of Hb with context [match ?x with _ => _ end] => destruct x; try discriminate Hb end.
  cbn in Hb. injection Hb as <- _. by split.
Qed.

Lemma main_id f y fs d s id :
  main f y fs = (Goes (Some d), s) -> fs !! keyPath f = Some (hex_encode (PrivateKey id)) -> id_wf id ->
  dm_id d = id /\ p_id (dm_peer d) = Identity_ID id.
Proof.
  unfold main. intros Hm Hfs Hid.
  destruct (boot_cases f y fs) as [(a & s0 & _ & E & _)|[(s0 & E & _)|(id' & fs' & El & E)]]; rewrite E in Hm; try discriminate Hm.
  unfold LoadOrCreate in El. rewrite bool_decide_eq_true_2 in El by (rewrite Hfs; by eexists).
  assert (Load (keyPath f) fs = Ok id) as Hl.
  { unfold Load. rewrite Hfs, hex_decode_encode. destruct Hid as (seed & Hs & ->). cbn [PrivateKey].
    rewrite NewKey_length by done. cbn. by rewrite Public_NewKey. }
  rewrite Hl in El. injection El as <- <-.
  destruct (bring_up f y id (MkProc [] [] fs)) as [[d'|] s'] eqn:Eb; [|discriminate Hm].
  injection Hm as -> _. by eapply bring_up_id.
Qed.

(** (main.go, [main] with [-export-key] and [-import-key]; crypto.go, [Export],
    [ImportKey], [Save], [LoadOrCreate]): an identity can be moved to another machine.
    [-export-key] prints a text and starts nothing; [-import-key] with that text, also
    with space around it, writes the key and starts nothing; and every later start of the
    daemon on that key directory runs as the same identity. *)
Theorem identity_moves (id : Identity) (f1 f2 f3 : flags) (y1 y2 y3 : sysenv) (fs1 fs2 : files) :
  id_wf id -> fs1 !! keyPath f1 = Some (hex_encode (PrivateKey id)) ->
  f_import_key f1 = [] -> f_export_key f1 = true ->
  TrimSpace (f_import_key f2) = Export id -> y_mkdir y2 = true -> y_write y2 = Written ->
  keyPath f3 = keyPath f2 ->
  let '(r2, s2) := main f2 y2 fs2 in
  pr_trace (main f1 y1 fs1).2 = [APrinted (Export id)]
  /\ r2 = Goes None /\ pr_trace s2 = [ASaved id]
  /\ forall d s3, main f3 y3 (pr_fs s2) = (Goes (Some d), s3) ->
       dm_id d = id /\ p_id (dm_peer d) = Identity_ID id.
Proof.
  intros Hid Hfs1 Hi1 He1 Ht Hmk Hwr Hk.
  assert (pr_trace (main f1 y1 fs1).2 = [APrinted (Export id)]) as H1.
  { unfold main, boot. rewrite Hi1, He1. cbn [is_nil]. unfold is_nil. rewrite bool_decide_eq_true_2 by done. cbn [negb].
    unfold mbind, M_bind, on_files, LoadOrCreate. cbn [pr_fs].
    rewrite bool_decide_eq_true_2 by (rewrite Hfs1; by eexists).
    assert (Load (keyPath f1) fs1 = Ok id) as ->; [|reflexivity].
    unfold Load. rewrite Hfs1, hex_decode_encode. destruct Hid as (seed & Hs & ->). cbn [PrivateKey].
    rewrite NewKey_length by done. cbn. by rewrite Public_NewKey. }
  assert (ImportKey (f_import_key f2) = Ok id) as Him.
  { rewrite <- (ImportKey_Export id Hid). unfold ImportKey. by rewrite Ht, Export_trimmed. }
  assert (is_nil (f_import_key f2) = false) as Hn2.
  { apply bool_decide_eq_false. intros E. rewrite E in Ht. discriminate Ht. }
  unfold main at 1, boot at 1. rewrite Hn2. cbn [negb].
  unfold import_key, mbind, M_bind, or_exit, on_files, Save. rewrite Him, Hmk, Hwr. cbn.
  split_and!; [exact H1|done|done|]. intros d s3 Hm. apply (main_id _ _ _ _ _ id) in Hm; [done| |done].
  rewrite Hk. apply lookup_insert_eq.
Qed.

(** ** The node behind the console *)

(** What a bootstrap may do to the node. *)
Definition boot_ok (y : sysenv) : Prop := forall d a, dht_ok d ->
  dht_ok (y_boot y d a).2 /\ same_store d (y_boot y d a).2.

Lemma BootstrapAll_ok y d addrs :
  boot_ok y -> dht_ok d ->
  dht_ok (BootstrapAll (y_boot y) d addrs).2 /\ same_store d (BootstrapAll (y_boot y) d addrs).2.
Proof.
  intros Hb. unfold BootstrapAll. destruct addrs as [|a0 addrs]; [done|].
  generalize (a0 :: addrs) as l, (@nil bytes) as tried. intros l. revert d.
  induction l as [|a l IH]; intros d tried Hd; cbn [bootstrap_tries]; [done|]. cbv zeta.
  destruct (is_nil (TrimSpace a)); [by apply IH|]. destruct (Hb d (TrimSpace a) Hd) as [Hd1 [E1 E2]].
  destruct (y_boot y d (TrimSpace a)) as [[] d1]; cbn [snd] in *; [done|].
  destruct (IH d1 (tried ++ [TrimSpace a]) Hd1) as [Hd2 [E3 E4]]. split; [done|]. split; congruence.
Qed.

Lemma open_store_budget f y st : open_store f y = Some st -> maxBytes st = f_store_budget f.
Proof. apply newLocalStoreWithLimit_budget. Qed.

Lemma start_dht_node f y id s d t s' :
  start_dht f y id s = (Goes (d, t), s') -> boot_ok y -> f_store_budget f <= 0 ->
  y_blocklist y = Absent -> forall tick, node_inv (MkNode d tick) /\ node_roomy (MkNode d tick).
Proof.
  intros Hs Hb Hm Hbl tick. unfold start_dht, mbind, M_bind in Hs.
  destruct (NewWithFullLimit id (open_store f y) (f_per_peer_budget f)) as [d0|] eqn:Ed; [|discriminate Hs].
  unfold some_or_exit, mret, M_ret, start in Hs. cbv zeta in Hs.
  set (d1 := SetTrustedRevokers (load_blocklist y d0) (load_revokers (y_revokers y))) in Hs.
  assert (dht_ok d1 /\ maxBytes (d_store d1) <= 0 /\ d_blocklist d1 = Some ∅) as (Hd1 & Hm1 & Hb1).
  { unfold NewWithFullLimit in Ed. destruct (IDFromHex (Identity_ID id)) as [self|]; [|discriminate Ed].
    destruct (open_store f y) as [st|] eqn:Hst; [|discriminate Ed]. rewrite <- (open_store_budget f y st Hst) in Hm.
    injection Ed as <-. unfold d1, load_blocklist. rewrite Hbl. cbn.
    split_and!; [|done|done]. split; [done|]. apply (NewRoutingTable_wf self). }
  destruct (bool_decide (splitAndTrim (f_bootstrap f) = [])); injection Hs as <- _ _.
  - split; [done|]. split; [done|]. right. exact Hb1.
  - destruct (BootstrapAll_ok y d1 (splitAndTrim (f_bootstrap f)) Hb Hd1) as [Hd2 [E1 E2]].
    split; [done|]. split; cbn; [by rewrite E1|]. right. by rewrite E2.
Qed.

Lemma main_node f y fs d s :
  main f y fs = (Goes (Some d), s) -> boot_ok y -> f_store_budget f <= 0 -> y_blocklist y = Absent ->
  forall tick, node_inv (MkNode (dm_dht d) tick) /\ node_roomy (MkNode (dm_dht d) tick).
Proof.
  intros Hm Hb Hmx Hbl. unfold main in Hm.
  destruct (boot_cases f y fs) as [(a & s0 & _ & E & _)|[(s0 & E & _)|(id & fs' & _ & E)]]; rewrite E in Hm; try discriminate Hm.
  clear E. unfold bring_up, mbind, M_bind in Hm.
  destruct (start_peer f y id _) as [[p|] s1]; [|discriminate Hm].
  destruct (start_dht f y id s1) as [[[d0 t]|] s2] eqn:Ed; [|discriminate Hm].
  destruct (start_servers f y s2) as [[[]|] s3]; [|discriminate Hm].
  destruct (start_registrar f y id s3) as [[reg|] s4]; [|discriminate Hm].
  injection Hm as <- _. cbn [dm_dht fst]. by eapply start_dht_node.
Qed.

(** The console of a daemon. *)
Definition console_of (d : daemon) (tick : nat) (fs : files) : console := MkConsole (dm_peer d) (MkNode (dm_dht d) tick) fs.

(** The end of [main]: with [-headless] it waits for a signal and reads no commands. *)
Definition interact (f : flags) (world : nat -> put_env * net) (clock nanos : nat -> Z)
    (order : gset bytes -> list bytes) (hello : nat -> bytes -> DHT -> option DHT)
    (walk : bytes -> option bool * list walk_item) (mem : Z) (h : host) (d : daemon) (stdin : bytes) (c : console)
  : outcome (list output * console) :=
  if f_headless f then Ret ([], c)
  else repl world clock nanos (dm_trusted d) order hello walk mem h (dm_id d) stdin c.

(** C29 (main.go, [main], [runPut], [runGet]): a daemon stores what is typed.  A daemon that
    was started without a byte budget and without a blocklist file, whatever its other
    flags, answers [put <text>] with a key, and after any lines that store nothing of
    their own (lookups, chat, counters, blank ones) answers [get] of that key with the
    text; the text is any trimmed line that fits the scanner.  With [-headless] it answers
    nothing. *)
Theorem daemon_put_get (f : flags) (y : sysenv) (fs : files) (d : daemon) (s : proc)
    (world : nat -> put_env * net) (clock nanos : nat -> Z) (order : gset bytes -> list bytes)
    (hello : nat -> bytes -> DHT -> option DHT) (walk : bytes -> option bool * list walk_item) (mem : Z) (h : host)
    (t : bytes) (between : list bytes) (tick : nat) :
  main f y fs = (Goes (Some d), s) -> boot_ok y -> f_store_budget f <= 0 -> y_blocklist y = Absent ->
  (forall tick a d d', dht_ok d -> hello tick a d = Some d' -> dht_ok d' /\ d_self d' = d_self d /\ same_store d d') ->
  t <> [] -> TrimSpace t = t -> typeable (bs "put " ++ t) ->
  Forall (fun l => typeable l /\ reads (Console.dispatch l) = true) between ->
  exists reps os c',
    repl world clock nanos (dm_trusted d) order hello walk mem h (dm_id d)
      (typed ([bs "put " ++ t] ++ between ++ [bs "get " ++ Hex (ContentAddress t)])) (console_of d tick (pr_fs s))
    = Ret ([OStored (len t) (Hex (ContentAddress t)) reps] ++ os ++ [OGot (len t) t], c')
    /\ interact f world clock nanos order hello walk mem h d
         (typed ([bs "put " ++ t] ++ between ++ [bs "get " ++ Hex (ContentAddress t)])) (console_of d tick (pr_fs s))
       = if f_headless f then Ret ([], console_of d tick (pr_fs s))
         else Ret ([OStored (len t) (Hex (ContentAddress t)) reps] ++ os ++ [OGot (len t) t], c').
Proof.
  intros Hm Hb Hmx Hbl Hh Hne Ht Hty Hbt.
  destruct (main_node f y fs d s Hm Hb Hmx Hbl tick) as [Hi Hr].
  destruct (console_put_get world clock nanos (dm_trusted d) order hello Hh walk mem h (dm_id d)
    (console_of d tick (pr_fs s)) t between) as (reps & os & c' & E); [done..|].
  exists reps, os, c'. split; [exact E|]. unfold interact. by rewrite E.
Qed.

End MainFacts.

(** ** Concrete starts *)

Module DaemonRuns.

Definition key_file : files := {[keyPath default_flags := hex_encode (PrivateKey alice)]}.

Definition exporting : flags :=
  MkFlags (f_listen default_flags) [] (f_keydir default_flags) [] [] [] [] [] [] [] [] [] [] 0 0 [] [] false [] [] []
    true [] false.

Definition importing : flags :=
  MkFlags (f_listen default_flags) [] (bs "new/keys") [] [] [] [] [] [] [] [] [] [] 0 0 [] [] false [] [] []
    false (bs " " ++ Export alice ++ bs " ") false.

(** The daemon on the new machine, with a gateway and a registrar. *)
Definition serving_flags : flags :=
  MkFlags (f_listen default_flags) [] (bs "new/keys") (bs "127.0.0.1:80") [] [] [] [] [] []
    (bs "127.0.0.1:9090") (bs "secret") [] 0 0 (bs "r.example:9, ,") [] false (bs "DEBUG") [] [] false [] false.

Definition willing_sys : sysenv :=
  MkSys None true Written (Some (bs "127.0.0.1:9000")) true ∅ None 0 lru_order Absent None None
    (fun d _ => (false, d)) true (fun _ => None) true true true.

Lemma alice_key : key_file !! keyPath exporting = Some (hex_encode (PrivateKey alice)).
Proof. apply lookup_insert_eq. Qed.

Lemma pasted : TrimSpace (f_import_key importing) = Export alice.
Proof. by vm_compute. Qed.

Lemma identity_moves_witness :
  pr_trace (main exporting willing_sys key_file).2 = [APrinted (Export alice)]
  /\ forall d s, main serving_flags willing_sys (pr_fs (main importing willing_sys ∅).2) = (Goes (Some d), s) ->
       dm_id d = alice.
Proof.
  pose proof (identity_moves alice exporting importing serving_flags willing_sys willing_sys willing_sys key_file ∅
    alice_wf alice_key eq_refl eq_refl pasted eq_refl eq_refl eq_refl) as Hm.
  destruct (main importing willing_sys ∅) as [r2 s2]. destruct Hm as (H1 & _ & _ & H4).
  split; [exact H1|]. intros d s Hd. exact (proj1 (H4 d s Hd)).
Defined.

(** It does come up. *)
Example moved_daemon_runs :
  let '(r, s) := main serving_flags willing_sys (pr_fs (main importing willing_sys ∅).2) in
  match r with Goes (Some d) => bool_decide (RelayAddresses (dm_peer d) = [bs "r.example:9"]) | _ => false end = true
  /\ pr_trace s = [AStart SvPeer; AStart SvMaintenance; AStart SvGateway; AStart SvRegistrar;
                   AStop SvRegistrar; AStop SvGateway; AStop SvMaintenance; AStop SvPeer].
Proof. vm_compute. split; reflexivity. Qed.

Definition moved_files : files := pr_fs (main importing willing_sys ∅).2.

Lemma moved_up :
  match (main serving_flags willing_sys moved_files).1 with Goes (Some _) => true | _ => false end = true.
Proof. by vm_compute. Qed.

Lemma came_up : exists d s, main serving_flags willing_sys moved_files = (Goes (Some d), s).
Proof.
  pose proof moved_up as Hm. destruct (main serving_flags willing_sys moved_files) as [[[d|]|] s]; try discriminate Hm.
  by exists d, s.
Qed.

Lemma willing_boots : boot_ok willing_sys.
Proof. intros d a Hd. done. Qed.

Lemma daemon_put_get_witness :
  exists d s reps os c', main serving_flags willing_sys moved_files = (Goes (Some d), s)
    /\ interact serving_flags quiet ConsoleRuns.clock0 ConsoleRuns.clock0 elements UpkeepRuns.no_hello
         ConsoleRuns.no_walk small_mem open_host d
         (typed ([bs "put " ++ ConsoleRuns.note] ++ ConsoleRuns.chatter
                 ++ [bs "get " ++ Hex (ContentAddress ConsoleRuns.note)])) (console_of d 0 (pr_fs s))
       = Ret ([OStored (len ConsoleRuns.note) (Hex (ContentAddress ConsoleRuns.note)) reps] ++ os
              ++ [OGot (len ConsoleRuns.note) ConsoleRuns.note], c').
Proof.
  destruct came_up as (d & s & Hm).
  destruct (daemon_put_get serving_flags willing_sys moved_files d s quiet ConsoleRuns.clock0
    ConsoleRuns.clock0 elements UpkeepRuns.no_hello ConsoleRuns.no_walk small_mem open_host ConsoleRuns.note
    ConsoleRuns.chatter 0 Hm willing_boots ltac:(discriminate) eq_refl UpkeepRuns.no_hello_ok ltac:(discriminate)
    ConsoleRuns.note_trimmed ConsoleRuns.note_typeable ConsoleRuns.chatter_reads) as (reps & os & c' & _ & Hr).
  exists d, s, reps, os, c'. split; [exact Hm|exact Hr].
Defined.

(** A list of trusted registrars that cannot be opened, or whose first line does not fit
    the scanner, counts as no list: naming is open. *)
Lemma unreadable_list_opens_naming `{GoUnicode} : SetTrustedRegistrars (list_keys None) = None.
Proof. done. Qed.

Lemma long_line_opens_naming `{GoUnicode} rest :
  SetTrustedRegistrars (list_keys (Some (replicate max_token Byte.x61 ++ Byte.x0a :: rest))) = None.
Proof. unfold list_keys. by rewrite ConsoleRuns.long_line_ends. Qed.

End DaemonRuns.
