(* ===== verification/AltCA.v ===== *)
(** * The local certificate authority (apps/altca/altca.go)

    Key generation, X.509 and PEM are a parameter, the class [X509]: what the code
    relies on is that a certificate created from one of its two templates is parsed
    with the template's fields, the times cut to whole seconds, and that keys and PEM
    blocks survive being written and read.  Modelled are the two templates, the files,
    the cache of issued certificates and the check of the host name, with the callback
    of the gateway's TLS listener. *)

From S2P Require Import Prelude GoStrings Encoding Json Sha256 Crypto Peer Revoke NodeId.
From S2P Require Import Blocklist Store Routing DhtWire Dht Lookup Name ContentStore Files.

(** The fields of an [x509.Certificate] the code sets ([MaxPathLen] is 0 in both
    templates); times are in nanoseconds. *)
Record Certificate := MkCert {
  t_SerialNumber : Z;
  t_CommonName : bytes;
  t_Organization : list bytes;
  t_DNSNames : list bytes;
  t_NotBefore : Time;
  t_NotAfter : Time;
  t_KeyUsage : Z;
  t_ExtKeyUsage : list Z;
  t_BasicConstraintsValid : bool;
  t_IsCA : bool;
  t_MaxPathLenZero : bool;
  t_PermittedCritical : bool;
  t_PermittedDNSDomains : list bytes
}.

Definition KeyUsageDigitalSignature : Z := 1.
Definition KeyUsageKeyEncipherment : Z := 4.
Definition KeyUsageCertSign : Z := 32.
Definition KeyUsageCRLSign : Z := 64.
Definition ExtKeyUsageServerAuth : Z := 1.

Definition alt_tld : bytes := bs ".alt".

Definition Year : Z := 365 * 24 * Hour.

Definition ca_template (serial : Z) (now : Time) : Certificate :=
  let now := now - Hour in
  MkCert serial (bs "AltNet Local CA") [bs "AltNet"] [] now (now + 10 * Year)
    (Z.lor KeyUsageCertSign KeyUsageCRLSign) [] true true true true [alt_tld].

Definition leaf_template (serial : Z) (now : Time) (hostname : bytes) : Certificate :=
  let now := now - Hour in
  MkCert serial hostname [] [hostname] now (now + 395 * 24 * Hour)
    (Z.lor KeyUsageDigitalSignature KeyUsageKeyEncipherment) [ExtKeyUsageServerAuth]
    false false false false [].

(** The templates the code creates certificates from. *)
Definition code_template (tpl : Certificate) : Prop :=
  (exists serial now, tpl = ca_template serial now)
  \/ exists serial now hostname, tpl = leaf_template serial now hostname.

(** X.509 has times of whole seconds. *)
Definition whole_second (t : Time) : Time := t / Second * Second.

Definition encoded (c : Certificate) : Certificate :=
  MkCert (t_SerialNumber c) (t_CommonName c) (t_Organization c) (t_DNSNames c)
    (whole_second (t_NotBefore c)) (whole_second (t_NotAfter c)) (t_KeyUsage c) (t_ExtKeyUsage c)
    (t_BasicConstraintsValid c) (t_IsCA c) (t_MaxPathLenZero c) (t_PermittedCritical c)
    (t_PermittedDNSDomains c).

Class X509 := {
  ec_public : bytes -> bytes;
  (** random bytes, template, parent, public key, signing key *)
  x509_create : bytes -> Certificate -> Certificate -> bytes -> bytes -> option bytes;
  x509_parse : bytes -> option Certificate;
  ec_marshal : bytes -> bytes;
  ec_parse : bytes -> option bytes;
  pem_encode : bytes -> bytes -> bytes;
  pem_decode : bytes -> option (bytes * bytes);
  x509_parse_create rnd tpl parent pub key der :
    code_template tpl -> x509_create rnd tpl parent pub key = Some der ->
    x509_parse der = Some (encoded tpl);
  ec_parse_marshal k : ec_parse (ec_marshal k) = Some k;
  pem_decode_encode t b : pem_decode (pem_encode t b) = Some (t, b)
}.

(** [tls.Certificate]: the chain and the private key. *)
Record tls_cert := MkTls { tc_Certificate : list bytes; tc_PrivateKey : bytes }.

Record CA := MkCA {
  ca_Cert : Certificate;
  ca_Raw : bytes;            (* [Cert.Raw] *)
  ca_CertPEM : bytes;
  ca_Key : bytes;
  ca_dir : bytes;
  ca_cache : gmap bytes tls_cert
}.

Definition caCertFile : bytes := bs "altnet-ca.crt".
Definition caCertDERFile : bytes := bs "altnet-ca.cer".
Definition caKeyFile : bytes := bs "altnet-ca.key".

(** What the random source and the clock give to one creation. *)
Record entropy := MkEntropy { en_key : option bytes; en_serial : option Z; en_sig : bytes; en_clock : Time }.

Inductive ca_error :=
| ErrCADir | ErrGenKey | ErrSerial | ErrSignCA | ErrReparse | ErrWriteCA
| ErrNotAlt | ErrSignLeaf.

Definition alt_char (b : byte) : bool :=
  in_range 0x61 0x7a b || in_range 0x30 0x39 b || bool_decide (b = hyphen) || bool_decide (b = dot).

Definition validAltHostname (s : bytes) : bool :=
  if is_nil s || negb (bool_decide (s = TrimSpace s)) then false
  else if negb (HasSuffix s alt_tld) then false
  else if is_nil (TrimSuffix s alt_tld) then false
  else forallb alt_char s.

Section AltCA.
Context `{X509}.

(** [wr] is how the three writes end. *)
Definition generate (en : entropy) (wr : bytes -> write_end) (dir : bytes) (fs : files)
  : result ca_error CA * files :=
  match en_key en, en_serial en with
  | None, _ => (Err ErrGenKey, fs)
  | Some _, None => (Err ErrSerial, fs)
  | Some key, Some serial =>
      let tpl := ca_template serial (en_clock en) in
      match x509_create (en_sig en) tpl tpl (ec_public key) key with
      | None => (Err ErrSignCA, fs)
      | Some der =>
          match x509_parse der with
          | None => (Err ErrReparse, fs)
          | Some parsed =>
              let certPEM := pem_encode (bs "CERTIFICATE") der in
              let keyPEM := pem_encode (bs "EC PRIVATE KEY") (ec_marshal key) in
              let put name data fs := WriteFile (wr name) (path_Join dir name) data fs in
              let '(ok1, fs) := put caCertFile certPEM fs in
              if negb ok1 then (Err ErrWriteCA, fs) else
              let '(ok2, fs) := put caCertDERFile der fs in
              if negb ok2 then (Err ErrWriteCA, fs) else
              let '(ok3, fs) := put caKeyFile keyPEM fs in
              if negb ok3 then (Err ErrWriteCA, fs) else
              (Ok (MkCA parsed der certPEM key dir ∅), fs)
          end
      end
  end.

Definition parseCA (dir certPEM keyPEM : bytes) : option CA :=
  match pem_decode certPEM with
  | None => None
  | Some (t, der) =>
      if negb (bool_decide (t = bs "CERTIFICATE")) then None else
      match x509_parse der with
      | None => None
      | Some cert =>
          match pem_decode keyPEM with
          | None => None
          | Some (_, kb) =>
              match ec_parse kb with
              | None => None
              | Some key => Some (MkCA cert der certPEM key dir ∅)
              end
          end
      end
  end.

Definition LoadOrCreate (mkdir : bool) (en : entropy) (wr : bytes -> write_end) (dir : bytes) (fs : files)
  : result ca_error CA * files :=
  if negb mkdir then (Err ErrCADir, fs) else
  let stored := match fs !! path_Join dir caCertFile, fs !! path_Join dir caKeyFile with
                | Some certPEM, Some keyPEM => parseCA dir certPEM keyPEM
                | _, _ => None
                end in
  match stored with
  | Some ca =>
      let der := path_Join dir caCertDERFile in
      let fs := if bool_decide (is_Some (fs !! der)) then fs
                else snd (WriteFile (wr caCertDERFile) der (ca_Raw ca) fs) in
      (Ok ca, fs)
  | None => generate en wr dir fs
  end.

Definition with_cert (c : CA) (hostname : bytes) (t : tls_cert) : CA :=
  MkCA (ca_Cert c) (ca_Raw c) (ca_CertPEM c) (ca_Key c) (ca_dir c) (<[hostname := t]> (ca_cache c)).

Definition Issue (en : entropy) (c : CA) (hostname : bytes) : result ca_error tls_cert * CA :=
  if negb (validAltHostname hostname) then (Err ErrNotAlt, c) else
  match ca_cache c !! hostname with
  | Some cert => (Ok cert, c)
  | None =>
      match en_key en, en_serial en with
      | None, _ => (Err ErrGenKey, c)
      | Some _, None => (Err ErrSerial, c)
      | Some leafKey, Some serial =>
          match x509_create (en_sig en) (leaf_template serial (en_clock en) hostname) (ca_Cert c)
                  (ec_public leafKey) (ca_Key c) with
          | None => (Err ErrSignLeaf, c)
          | Some leafDER =>
              let t := MkTls [leafDER; ca_Raw c] leafKey in (Ok t, with_cert c hostname t)
          end
      end
  end.

Definition CertPath (c : CA) : bytes := path_Join (ca_dir c) caCertFile.
Definition CertDERPath (c : CA) : bytes := path_Join (ca_dir c) caCertDERFile.

(** [GetCertificate] of the gateway's [StartTLS]; [None] is the missing server name. *)
Definition GetCertificate `{GoUnicode} (en : entropy) (c : CA) (serverName : bytes)
  : option (result ca_error tls_cert) * CA :=
  let host := ToLower (TrimSpace serverName) in
  if is_nil host then (None, c) else let '(r, c) := Issue en c host in (Some r, c).

(** * Facts *)

(** A host name under .alt: something before the suffix, and only lower-case
    letters, digits, hyphens and dots. *)
Definition under_alt (hostname : bytes) : Prop :=
  (exists label, label <> [] /\ hostname = label ++ bs ".alt")
  /\ Forall (fun b => 0x61 <= u8 b <= 0x7a \/ 0x30 <= u8 b <= 0x39 \/ b = hyphen \/ b = dot) hostname.

Lemma validAltHostname_under hostname : validAltHostname hostname = true -> under_alt hostname.
Proof.
  unfold validAltHostname. destruct (is_nil hostname || _); [done|].
  destruct (HasSuffix hostname alt_tld) eqn:Hs; [|done]. cbn [negb].
  apply HasSuffix_spec in Hs as [label ->]. rewrite TrimSuffix_app.
  destruct (is_nil label) eqn:Hn; [done|]. intros Hc. split.
  - exists label. split; [|done]. intros ->. discriminate Hn.
  - apply forallb_Forall_true in Hc. eapply Forall_impl; [exact Hc|]. intros b. unfold alt_char, in_range.
    rewrite !orb_true_iff, !andb_true_iff, !Z.leb_le, !bool_decide_eq_true. tauto.
Qed.

(** A certificate for a host: a server's leaf under .alt that names this host only,
    followed by the authority's own certificate. *)
Definition good_cert (c : CA) (hostname : bytes) (t : tls_cert) : Prop :=
  under_alt hostname
  /\ exists leaf cert, tc_Certificate t = [leaf; ca_Raw c] /\ x509_parse leaf = Some cert
       /\ t_DNSNames cert = [hostname] /\ t_CommonName cert = hostname /\ t_IsCA cert = false
       /\ t_ExtKeyUsage cert = [ExtKeyUsageServerAuth]
       /\ t_NotAfter cert - t_NotBefore cert = 395 * 24 * Hour.

Definition cache_ok (c : CA) : Prop := map_Forall (good_cert c) (ca_cache c).

(** Cutting two times that are whole seconds apart keeps their distance. *)
Lemma whole_second_shift t k : whole_second (t + k * Second) = whole_second t + k * Second.
Proof. unfold whole_second. rewrite Z.div_add by done. lia. Qed.

Lemma Issue_spec en c h r c' :
  cache_ok c -> Issue en c h = (r, c') ->
  cache_ok c' /\ ca_Raw c' = ca_Raw c /\ ca_cache c ⊆ ca_cache c'
  /\ match r with
     | Ok t => good_cert c h t /\ ca_cache c' !! h = Some t
     | Err _ => c' = c
     end.
Proof.
  intros Hc. unfold Issue. destruct (validAltHostname h) eqn:Hv; cbn [negb]; [|by intros [= <- <-]].
  destruct (ca_cache c !! h) as [t|] eqn:El; [intros [= <- <-]; split_and!; try done; by apply Hc|].
  destruct (en_key en) as [leafKey|]; [|by intros [= <- <-]].
  destruct (en_serial en) as [serial|]; [|by intros [= <- <-]].
  destruct (x509_create _ _ _ _ _) as [leaf|] eqn:Ec; [|by intros [= <- <-]]. intros [= <- <-].
  apply x509_parse_create in Ec; [|right; by eexists _, _, _].
  assert (good_cert c h (MkTls [leaf; ca_Raw c] leafKey)) as Hg.
  { split; [by apply validAltHostname_under|]. eexists leaf, _. split; [done|]. split; [exact Ec|].
    cbn [encoded leaf_template t_DNSNames t_CommonName t_IsCA t_ExtKeyUsage t_NotAfter t_NotBefore].
    split_and!; try done. change (395 * 24 * Hour) with (34128000 * Second).
    rewrite whole_second_shift. lia. }
  cbn [with_cert ca_cache ca_Raw]. split_and!; [|done|by apply insert_subseteq|done|by rewrite lookup_insert_eq].
  by apply map_Forall_insert_2.
Qed.

(** Issuing for a list of hosts, one after the other. *)
Fixpoint issue_all (c : CA) (l : list (entropy * bytes)) : list (result ca_error tls_cert) * CA :=
  match l with
  | [] => ([], c)
  | (en, h) :: l =>
      let '(r, c) := Issue en c h in
      let '(rs, c) := issue_all c l in (r :: rs, c)
  end.

Lemma issue_all_spec l c rs c' :
  cache_ok c -> issue_all c l = (rs, c') ->
  cache_ok c' /\ ca_Raw c' = ca_Raw c /\ ca_cache c ⊆ ca_cache c'
  /\ forall i en h t, l !! i = Some (en, h) -> rs !! i = Some (Ok t) ->
       good_cert c h t /\ ca_cache c' !! h = Some t.
Proof.
  revert c rs c'. induction l as [|[en h] l IH]; intros c rs c' Hc; cbn [issue_all]; [by intros [= <- <-]|].
  destruct (Issue en c h) as [r c1] eqn:Ei. destruct (issue_all c1 l) as [rs' c2] eqn:El. intros [= <- <-].
  destruct (Issue_spec _ _ _ _ _ Hc Ei) as (Hc1 & Hraw1 & Hsub1 & Hr).
  destruct (IH _ _ _ Hc1 El) as (Hc2 & Hraw2 & Hsub2 & Hrs).
  split; [done|]. split; [congruence|]. split; [by etrans|].
  intros [|i] en' h' t; cbn [lookup list_lookup]; [intros [= <- <-] [= ->]|].
  - destruct Hr as [Hg Hl]. split; [done|]. by eapply lookup_weaken.
  - intros Hi Ht. destruct (Hrs i en' h' t Hi Ht) as [Hg ?]. split; [|done].
    unfold good_cert in *. by rewrite Hraw1 in Hg.
Qed.

(** C39 (altca.go, [Issue], [validAltHostname]): an authority with an empty cache, asked
    for certificates any number of times, only ever returns a certificate for a host
    whose name is something followed by ".alt", all lower-case letters, digits, hyphens
    and dots: its leaf, as parsed, names that host and nothing else, is a server's and
    not an authority's, is valid for 395 days and is followed by the authority's
    certificate; and every request for the same host that succeeds gets
    the same certificate. *)
Theorem ca_issues_alt_only (c c' : CA) (l : list (entropy * bytes)) (rs : list (result ca_error tls_cert)) :
  ca_cache c = ∅ -> issue_all c l = (rs, c') ->
  (forall i en h t, l !! i = Some (en, h) -> rs !! i = Some (Ok t) -> good_cert c h t)
  /\ forall i j en en' h t t', l !! i = Some (en, h) -> l !! j = Some (en', h) ->
       rs !! i = Some (Ok t) -> rs !! j = Some (Ok t') -> t = t'.
Proof.
  intros He Hi. assert (cache_ok c) as Hc by (unfold cache_ok; rewrite He; apply map_Forall_empty).
  destruct (issue_all_spec _ _ _ _ Hc Hi) as (_ & _ & _ & Hall). split.
  - intros i en h t Hl Ht. by apply (Hall i en h t).
  - intros i j en en' h t t' Hi1 Hj Ht Ht'.
    destruct (Hall i en h t Hi1 Ht) as [_ E1], (Hall j en' h t' Hj Ht') as [_ E2]. congruence.
Qed.

(** (altca.go, [generate], [LoadOrCreate]): an authority written to a directory is the
    one read from it later, and reading it changes no file. *)
Theorem ca_survives_restart (en en' : entropy) (wr wr' : bytes -> write_end) (dir : bytes) (fs fs' : files) (c : CA) :
  path_Join dir caCertFile <> path_Join dir caKeyFile ->
  path_Join dir caCertFile <> path_Join dir caCertDERFile ->
  path_Join dir caCertDERFile <> path_Join dir caKeyFile ->
  generate en wr dir fs = (Ok c, fs') -> LoadOrCreate true en' wr' dir fs' = (Ok c, fs').
Proof.
  intros N1 N2 N3. unfold generate. destruct (en_key en) as [key|]; [|done]. destruct (en_serial en) as [serial|]; [|done].
  cbv zeta. destruct (x509_create _ _ _ _ _) as [der|]; [|done]. destruct (x509_parse der) as [parsed|] eqn:Ep; [|done].
  assert (forall name data m ok m', WriteFile (wr name) (path_Join dir name) data m = (ok, m') -> ok = true ->
    m' = <[path_Join dir name := data]> m) as Hw.
  { intros name data m ok m'. by destruct (wr name) as [|[|]]; intros [= <- <-]. }
  destruct (WriteFile (wr caCertFile) _ _ fs) as [[] m1] eqn:W1; cbn [negb]; [|done]. apply Hw in W1 as ->; [|done].
  destruct (WriteFile (wr caCertDERFile) _ _ _) as [[] m2] eqn:W2; cbn [negb]; [|done]. apply Hw in W2 as ->; [|done].
  destruct (WriteFile (wr caKeyFile) _ _ _) as [[] m3] eqn:W3; cbn [negb]; [|done]. apply Hw in W3 as ->; [|done].
  intros [= <- <-]. unfold LoadOrCreate. cbn [negb].
  rewrite lookup_insert_eq, (lookup_insert_ne _ (path_Join dir caKeyFile)) by done.
  rewrite (lookup_insert_ne _ (path_Join dir caCertDERFile)) by done. rewrite lookup_insert_eq.
  unfold parseCA. rewrite pem_decode_encode, bool_decide_eq_true_2 by done. cbn [negb].
  rewrite Ep, pem_decode_encode, ec_parse_marshal. cbv zeta.
  rewrite lookup_insert_ne, lookup_insert_eq by done. done.
Qed.

(** (altca.go, [validAltHostname]; name.go, [validName]): the hosts that are valid names
    ending in .alt, after some label, are certified: no site that can be published
    is refused a certificate. *)
Theorem valid_names_certified `{GoUnicode} (name : bytes) :
  validName name = Ok tt -> HasSuffix (CanonicalName name) alt_tld = true ->
  TrimSuffix (CanonicalName name) alt_tld <> [] -> validAltHostname (CanonicalName name) = true.
Proof.
  intros Hv Hs Hp. pose proof (valid_lower_plain name Hv) as Hl.
  apply validName_spec in Hv as (_ & ls & Hne & Hf & E). unfold validAltHostname. rewrite Hs.
  assert (is_nil (CanonicalName name) = false) as -> by (unfold is_nil; apply bool_decide_eq_false_2; intros En; by rewrite En in Hs).
  rewrite TrimSpace_lower_plain, bool_decide_eq_true_2 by done. cbn [negb orb].
  assert (is_nil (TrimSuffix (CanonicalName name) alt_tld) = false) as -> by (unfold is_nil; by apply bool_decide_eq_false_2).
  rewrite E. clear -Hf. apply forallb_Forall_true. induction Hf as [|l ls Hl Hf IH]; [apply List.Forall_nil|].
  assert (Forall (fun b => alt_char b = true) l) as Hl'.
  { destruct Hl as (_ & _ & _ & _ & Hc). eapply Forall_impl; [exact Hc|]. intros b. unfold label_char, alt_char.
    intros Hb. apply orb_true_iff in Hb as [Hb| ->]; [|by rewrite orb_true_r].
    apply orb_true_iff in Hb as [-> | ->]; by rewrite ?orb_true_r. }
  destruct ls as [|l2 ls]; [done|]. change (Join (l :: l2 :: ls) [dot]) with (l ++ [dot] ++ Join (l2 :: ls) [dot]).
  apply Forall_app. split; [done|]. apply Forall_app. split; [|exact IH]. by apply List.Forall_cons.
Qed.

End AltCA.

(** ** Concrete runs: a toy encoding of certificates *)

Module Issuing.

#[local] Instance Certificate_eq_dec : EqDecision Certificate.
Proof. solve_decision. Defined.

#[local, program] Instance Certificate_countable : Countable Certificate :=
  inj_countable' (fun c => (t_SerialNumber c, t_CommonName c, t_Organization c, t_DNSNames c, t_NotBefore c,
                            t_NotAfter c, t_KeyUsage c, t_ExtKeyUsage c, t_BasicConstraintsValid c, t_IsCA c,
                            t_MaxPathLenZero c, t_PermittedCritical c, t_PermittedDNSDomains c))
    (fun '(a, b, c, d, e, f, g, h, i, j, k, l, m) => MkCert a b c d e f g h i j k l m) _.
Next Obligation. by intros []. Qed.

Fixpoint pos_bytes (p : positive) : bytes :=
  match p with
  | xH => []
  | xO p => Byte.x00 :: pos_bytes p
  | xI p => Byte.x01 :: pos_bytes p
  end.

Fixpoint bytes_pos (l : bytes) : positive :=
  match l with
  | [] => xH
  | Byte.x00 :: l => xO (bytes_pos l)
  | _ :: l => xI (bytes_pos l)
  end.

Lemma bytes_pos_bytes p : bytes_pos (pos_bytes p) = p.
Proof. induction p as [p IH|p IH|]; [exact (f_equal xI IH)|exact (f_equal xO IH)|done]. Qed.

#[local, program] Instance toy_X509 : X509 := {|
  ec_public k := k;
  x509_create _ tpl _ _ _ := Some (pos_bytes (encode (encoded tpl)));
  x509_parse b := decode (bytes_pos b);
  ec_marshal k := k;
  ec_parse b := Some b;
  pem_encode t b := pos_bytes (encode (t, b));
  pem_decode b := decode (bytes_pos b)
|}.
Next Obligation.
  intros rnd tpl parent pub key der _ E. assert (der = pos_bytes (encode (encoded tpl))) as -> by congruence.
  by rewrite bytes_pos_bytes, decode_encode.
Qed.
Next Obligation. done. Qed.
Next Obligation.
  intros t b. change (decode (bytes_pos (pos_bytes (encode (t, b)))) = Some (t, b)).
  by rewrite bytes_pos_bytes, decode_encode.
Qed.

Definition dice (n : Z) : entropy := MkEntropy (Some [of_u8 n]) (Some n) [] (Hour + n).

Definition root_ca : CA := MkCA (ca_template 1 0) [Byte.x07] [] [Byte.x01] (bs "/ca") ∅.

Definition asked : list (entropy * bytes) :=
  [(dice 1, bs "panmox.alt"); (dice 2, bs "bank.com"); (dice 2, bs ".alt"); (dice 3, bs "panmox.alt")].

Lemma ca_issues_alt_only_witness :
  exists t t', fst (issue_all root_ca asked) = [Ok t; Err ErrNotAlt; Err ErrNotAlt; Ok t'] /\ t = t' /\ good_cert root_ca (bs "panmox.alt") t.
Proof.
  destruct (issue_all root_ca asked) as [rs c'] eqn:E.
  assert (exists t t', rs = [Ok t; Err ErrNotAlt; Err ErrNotAlt; Ok t']) as (t & t' & ->)
    by (injection E as <- _; by eexists _, _).
  destruct (ca_issues_alt_only root_ca c' asked [Ok t; Err ErrNotAlt; Err ErrNotAlt; Ok t'] eq_refl E) as [Hg Hs].
  exists t, t'. split; [reflexivity|]. split.
  - exact (Hs 0%nat 3%nat (dice 1) (dice 3) (bs "panmox.alt") t t' eq_refl eq_refl eq_refl eq_refl).
  - exact (Hg 0%nat (dice 1) (bs "panmox.alt") t eq_refl eq_refl).
Defined.

Lemma generate_b : is_ok (fst (generate (dice 5) (fun _ => Written) (bs "/ca") ∅)) = true.
Proof. by vm_compute. Qed.

Lemma ca_survives_restart_witness :
  exists c fs, generate (dice 5) (fun _ => Written) (bs "/ca") ∅ = (Ok c, fs)
    /\ LoadOrCreate true (dice 6) (fun _ => Written) (bs "/ca") fs = (Ok c, fs).
Proof.
  pose proof generate_b as Hb.
  destruct (generate (dice 5) (fun _ => Written) (bs "/ca") ∅) as [[c|e] fs] eqn:E; [|discriminate Hb].
  exists c, fs. split; [reflexivity|].
  refine (ca_survives_restart (dice 5) (dice 6) (fun _ => Written) (fun _ => Written) (bs "/ca") ∅ fs c _ _ _ E);
    by vm_compute.
Defined.

Lemma valid_names_certified_witness : validAltHostname (bs "panmox.alt") = true.
Proof.
  assert (CanonicalName (bs " Panmox.ALT. ") = bs "panmox.alt") as <- by by vm_compute.
  apply (valid_names_certified (bs " Panmox.ALT. ")); by vm_compute.
Defined.

End Issuing.
