(* ===== verification/Dns.v ===== *)
(** * The DNS resolver (apps/dns/dns.go)

    Datagrams are byte strings and keep their wire format.  The upstream
    resolver is an argument; a datagram that makes the handler panic is the
    [outcome] [Panic]. *)

From S2P Require Import Prelude GoStrings Encoding Json Peer RateLimit.

Definition DefaultPerSourceQPS : Z := 50.
Definition DefaultPerSourceBurst : Z := 100.
Definition DefaultUpstream : bytes := bs "1.1.1.1:53".

Record Resolver := MkResolver {
  captureTLDs : list bytes;
  captureIP : bytes;                  (* empty: nil *)
  upstream : bytes;
  limiter : option ipRateLimiter
}.

(** [net.IP.To4] *)
Definition To4 (ip : bytes) : bytes :=
  if (length ip =? 4)%nat then ip
  else if (length ip =? 16)%nat
          && bool_decide (take 12 ip = replicate 10 Byte.x00 ++ [Byte.xff; Byte.xff])
  then drop 12 ip else [].

Inductive dns_error :=
| ErrShortHeader | ErrNoQuestion | ErrNameTruncated | ErrCompression | ErrLabelTooLong
| ErrLabelTruncated | ErrNameTooLong | ErrTruncatedQuestion.

Record parsedQuery := MkQuery {
  q_id : Z;
  q_flags : Z;
  q_qdcount : Z;
  q_name : bytes;
  q_qtype : Z;
  q_class : Z
}.

(** [binary.BigEndian.Uint16(p[off:off+2])] and [PutUint16]. *)
Definition get16 (p : bytes) (off : nat) : Z := be_decode (take 2 (drop off p)).
Definition put16 (p : bytes) (off : nat) (v : Z) : bytes :=
  take off p ++ be_encode 2 v ++ drop (off + 2) p.

(** The loop of [readName]; [None] is running out of fuel. *)
Fixpoint read_labels (fuel : nat) (p : bytes) (start off : nat) (labels : list bytes)
  : option (result dns_error (list bytes * nat)) :=
  match fuel with
  | O => None
  | S fuel =>
      match p !! off with
      | None => Some (Err ErrNameTruncated)
      | Some b =>
          let l := u8 b in
          if l =? 0 then Some (Ok (labels, (off + 1)%nat))
          else if negb (Z.land l 0xC0 =? 0) then Some (Err ErrCompression)
          else if 63 <? l then Some (Err ErrLabelTooLong)
          else
            let l := Z.to_nat l in
            let off := (off + 1)%nat in
            if (length p <? off + l)%nat then Some (Err ErrLabelTruncated) else
            let labels := labels ++ [take l (drop off p)] in
            let off := (off + l)%nat in
            if (255 <? off - start)%nat then Some (Err ErrNameTooLong)
            else read_labels fuel p start off labels
      end
  end.

(** Each turn moves the offset, which stays within the datagram. *)
Definition readName (p : bytes) (off : nat) : option (result dns_error (bytes * nat)) :=
  match read_labels (S (length p)) p off off [] with
  | None => None
  | Some (Err e) => Some (Err e)
  | Some (Ok (labels, off')) => Some (Ok (Join labels (bs "."), (off' - off)%nat))
  end.

Definition parseQuery (p : bytes) : option (result dns_error parsedQuery) :=
  if (length p <? 12)%nat then Some (Err ErrShortHeader) else
  let id := get16 p 0 in
  let flags := get16 p 2 in
  let qdcount := get16 p 4 in
  if qdcount <? 1 then Some (Err ErrNoQuestion) else
  match readName p 12 with
  | None => None
  | Some (Err e) => Some (Err e)
  | Some (Ok (name, n)) =>
      let off := (12 + n)%nat in
      if (length p <? off + 4)%nat then Some (Err ErrTruncatedQuestion)
      else Some (Ok (MkQuery id flags qdcount name (get16 p off) (get16 p (off + 2))))
  end.

Definition QR : Z := Z.shiftl 1 15.
Definition AA : Z := Z.shiftl 1 10.
Definition RD : Z := Z.shiftl 1 8.
Definition RA : Z := Z.shiftl 1 7.

Definition reply_flags (flags : Z) : Z :=
  let f := Z.lor (Z.lor QR AA) RA in
  if negb (Z.land flags RD =? 0) then Z.lor f RD else f.

(** The answer record; indexing a nil [captureIP] panics. *)
Definition answer (ip : bytes) : outcome bytes :=
  match ip !! 0%nat, ip !! 1%nat, ip !! 2%nat, ip !! 3%nat with
  | Some a, Some b, Some c, Some d =>
      Ret ([Byte.xc0; Byte.x0c] ++ [Byte.x00; Byte.x01] ++ [Byte.x00; Byte.x01]
             ++ [Byte.x00; Byte.x00; Byte.x00; Byte.x3c] ++ [Byte.x00; Byte.x04] ++ [a; b; c; d])
  | _, _, _, _ => Panic
  end.

Definition buildCapturedReply (ip : bytes) (req : bytes) (q : parsedQuery)
  : option (outcome (result dns_error bytes)) :=
  match readName req 12 with
  | None => None
  | Some (Err e) => Some (Ret (Err e))
  | Some (Ok (_, nameLen)) =>
      let qEnd := (12 + nameLen + 4)%nat in
      if (length req <? qEnd)%nat then Some Panic else
      let out := take qEnd req in
      let out := put16 out 0 (q_id q) in
      let out := put16 out 2 (reply_flags (q_flags q)) in
      let out := put16 out 4 1 in
      let counts an := put16 (put16 (put16 out 6 an) 8 0) 10 0 in
      if q_qtype q =? 1 then
        match answer ip with
        | Panic => Some Panic
        | Ret ans => Some (Ret (Ok (counts 1 ++ ans)))
        end
      else if q_qtype q =? 28 then Some (Ret (Ok (counts 0)))
      else Some (Ret (Ok (counts 0)))
  end.

Section Resolver.
Context `{GoUnicode}.

Definition NewWithRate (tlds : list bytes) (ip up : bytes) (qps burst : Z) (now : Time) : Resolver :=
  MkResolver ((fun t => ToLower (TrimPrefix t (bs "."))) <$> tlds) (To4 ip)
    (if is_nil up then DefaultUpstream else up)
    (if 0 <? qps then Some (newUDPRateLimiter qps burst now) else None).

Definition New (tlds : list bytes) (ip up : bytes) (now : Time) : Resolver :=
  NewWithRate tlds ip up DefaultPerSourceQPS DefaultPerSourceBurst now.

Definition matchesCapture (r : Resolver) (name : bytes) : bool :=
  let lower := ToLower (TrimSuffix name (bs ".")) in
  existsb (fun tld => bool_decide (lower = tld) || HasSuffix lower (bs "." ++ tld)) (captureTLDs r).

Definition with_limiter (r : Resolver) (l : ipRateLimiter) : Resolver :=
  MkResolver (captureTLDs r) (captureIP r) (upstream r) (Some l).

(** What is sent back to the source, if anything, and the resolver afterwards.
    [forward] is what the upstream resolver answers to a datagram; the outer
    option is running out of fuel. *)
Definition handle (r : Resolver) (forward : bytes -> option bytes) (req src : bytes) (now : Time)
  : option (outcome (option bytes) * Resolver) :=
  let '(r, ok) :=
    match limiter r with
    | None => (r, true)
    | Some l => let '(l, ok) := udp_allow l src now in (with_limiter r l, ok)
    end in
  if negb ok then Some (Ret None, r) else
  match parseQuery req with
  | None => None
  | Some (Err _) => Some (Ret None, r)
  | Some (Ok q) =>
      if matchesCapture r (q_name q) then
        match buildCapturedReply (captureIP r) req q with
        | None => None
        | Some Panic => Some (Panic, r)
        | Some (Ret (Ok reply)) => Some (Ret (Some reply), r)
        | Some (Ret (Err _)) => Some (Ret (forward req), r)
        end
      else Some (Ret (forward req), r)
  end.

End Resolver.

(** * Facts *)

(** ** Reading names *)

(** The loop ends, and an accepted name lies inside the datagram and takes at
    most 256 bytes. *)
Lemma read_labels_ends fuel p start off labels :
  (start <= off)%nat -> (off - start <= 255)%nat -> (0 < fuel)%nat -> (length p < fuel + off)%nat ->
  exists r, read_labels fuel p start off labels = Some r
    /\ match r with
       | Ok (_, off') => (off < off')%nat /\ (off' <= length p)%nat /\ (off' - start <= 256)%nat
       | Err _ => True
       end.
Proof.
  revert off labels. induction fuel as [|fuel IH]; intros off labels Hs Hb Hf0 Hf; [lia|]. cbn [read_labels].
  destruct (p !! off) as [b|] eqn:E; [|by eexists]. pose proof (lookup_lt_Some _ _ _ E) as Hlt.
  pose proof (u8_range b) as Hu. destruct (Z.eqb_spec (u8 b) 0); [eexists; split; [done|]; simpl; lia|].
  destruct (negb _); [by eexists|]. destruct (63 <? u8 b); [by eexists|]. cbv zeta.
  destruct (length p <? _)%nat eqn:El; [by eexists|]. zbool.
  destruct (255 <? _)%nat eqn:E5; [by eexists|]. zbool.
  destruct (IH (off + 1 + Z.to_nat (u8 b))%nat (labels ++ [take (Z.to_nat (u8 b)) (drop (off + 1) p)]))
    as (r & -> & Hr); [lia|lia|lia|lia|].
  exists r. split; [done|]. destruct r as [[ls off']|]; [|done]. lia.
Qed.

Lemma readName_ends p off :
  exists r, readName p off = Some r
    /\ match r with
       | Ok (_, n) => (1 <= n <= 256)%nat /\ (off + n <= length p)%nat
       | Err _ => True
       end.
Proof.
  unfold readName. destruct (read_labels_ends (S (length p)) p off off []) as (r & -> & Hr); [lia..|].
  destruct r as [[ls off']|]; [|by eexists]. eexists. split; [done|]. simpl. lia.
Qed.

Lemma parseQuery_ends p :
  exists r, parseQuery p = Some r
    /\ match r with
       | Ok q => exists n, readName p 12 = Some (Ok (q_name q, n)) /\ (12 + n + 4 <= length p)%nat
       | Err _ => True
       end.
Proof.
  unfold parseQuery. destruct (_ <? 12)%nat; [by eexists|]. cbv zeta. destruct (_ <? 1); [by eexists|].
  destruct (readName_ends p 12) as (r & -> & Hr). destruct r as [[name n]|]; [|by eexists].
  destruct (length p <? _)%nat eqn:E; [by eexists|]. zbool. eexists. split; [done|]. eexists. split; [done|lia].
Qed.

(** (apps/dns/dns.go, [handle], [parseQuery], [readName], [buildCapturedReply]): no
    datagram can make the resolver loop or read out of range: with an IPv4
    capture address, [handle] returns for every datagram, source and state of the
    limiter; with none, the only datagrams that panic it are A queries for a
    captured name. *)
Theorem dns_handle_total `{GoUnicode} (r : Resolver) (forward : bytes -> option bytes)
    (req src : bytes) (now : Time) :
  exists out r', handle r forward req src now = Some (out, r')
    /\ (out = Panic -> length (captureIP r) <> 4%nat /\
          exists q, parseQuery req = Some (Ok q) /\ q_qtype q = 1 /\ matchesCapture r (q_name q) = true).
Proof.
  unfold handle.
  assert (exists r1 ok, match limiter r with
    | None => (r, true)
    | Some l => let '(l, ok) := udp_allow l src now in (with_limiter r l, ok)
    end = (r1, ok) /\ captureIP r1 = captureIP r /\ captureTLDs r1 = captureTLDs r) as (r1 & ok & -> & Eip & Et).
  { destruct (limiter r) as [l|]; [|by eexists _, _]. destruct (udp_allow l src now). by eexists _, _. }
  destruct ok; cbn [negb]; [|by eexists _, _].
  destruct (parseQuery_ends req) as (pq & -> & Hq). destruct pq as [q|]; [|by eexists _, _].
  destruct Hq as (n & Hn & Hlen).
  assert (matchesCapture r1 (q_name q) = matchesCapture r (q_name q)) as -> by (unfold matchesCapture; by rewrite Et).
  destruct (matchesCapture r (q_name q)) eqn:Em; [|by eexists _, _].
  unfold buildCapturedReply. rewrite Hn, Eip. cbv zeta.
  rewrite (proj2 (Nat.ltb_ge _ _)) by lia.
  destruct (Z.eqb_spec (q_qtype q) 1) as [E1|]; [|destruct (_ =? 28); by eexists _, _].
  destruct (answer (captureIP r)) as [ans|] eqn:Ea; [by eexists _, _|].
  eexists _, _. split; [done|]. intros _. split; [|by exists q].
  intros Hl. destruct (captureIP r) as [|a [|b [|c [|d [|]]]]]; done.
Qed.

(** ** The wire format *)

(** A name as length-prefixed labels. *)
Definition encode_label (l : bytes) : bytes := of_u8 (Z.of_nat (length l)) :: l.
Definition encode_name (labels : list bytes) : bytes := concat (encode_label <$> labels) ++ [Byte.x00].

Definition wire_label (l : bytes) : Prop := (1 <= length l <= 63)%nat.

Lemma small_land l : 0 <= l <= 63 -> Z.land l 0xC0 = 0.
Proof.
  intros Hl. assert (Z.to_nat l < 64)%nat as Hn by lia. rewrite <- (Z2Nat.id l) by lia.
  revert Hn. generalize (Z.to_nat l). clear. intros n Hn.
  do 64 (destruct n as [|n]; [reflexivity|]). lia.
Qed.

Lemma u8_length l : wire_label l -> u8 (of_u8 (Z.of_nat (length l))) = Z.of_nat (length l).
Proof. intros Hl. rewrite u8_of_u8. unfold wire_label in Hl. apply Z.mod_small. lia. Qed.

Lemma drop_lookup_cons (p : bytes) off b rest : drop off p = b :: rest -> p !! off = Some b.
Proof. intros E. rewrite <- (Nat.add_0_r off), <- lookup_drop, E. done. Qed.

(** Reading what was encoded. *)
Lemma read_labels_encode ls : forall fuel p start off acc rest,
  Forall wire_label ls -> drop off p = encode_name ls ++ rest -> (length ls < fuel)%nat ->
  (start <= off)%nat -> (off - start + length (concat (encode_label <$> ls)) <= 255)%nat ->
  read_labels fuel p start off acc = Some (Ok (acc ++ ls, (off + length (encode_name ls))%nat)).
Proof.
  induction ls as [|l ls IH]; intros fuel p start off acc rest Hf Hd Hfuel Hs Hb;
    destruct fuel as [|fuel]; try (simpl in Hfuel; lia); cbn [read_labels].
  { rewrite (drop_lookup_cons p off Byte.x00 rest Hd). simpl. by rewrite app_nil_r. }
  apply Forall_cons in Hf as [Hl Hf]. unfold encode_name in Hd. rewrite fmap_cons in Hd.
  cbn [concat encode_label app] in Hd. rewrite (drop_lookup_cons p off _ _ Hd), u8_length by done.
  unfold wire_label in Hl. rewrite (proj2 (Z.eqb_neq _ 0)), small_land by lia. cbn [Z.eqb negb].
  rewrite (proj2 (Z.ltb_ge 63 _)) by lia. rewrite Nat2Z.id. cbv zeta.
  assert (drop (off + 1) p = l ++ encode_name ls ++ rest) as Hd1.
  { rewrite <- drop_drop, Hd. simpl. unfold encode_name. by rewrite <- !app_assoc. }
  assert (length (drop (off + 1) p) = (length p - (off + 1))%nat) as Hlen by apply length_drop.
  rewrite Hd1, !length_app in Hlen. rewrite (proj2 (Nat.ltb_ge _ _)) by lia.
  rewrite Hd1, take_app_length. rewrite fmap_cons in Hb. cbn [concat] in Hb. rewrite length_app in Hb.
  assert (length (encode_label l) = S (length l)) as El by done. rewrite El in Hb.
  rewrite (proj2 (Nat.ltb_ge 255 _)) by lia.
  rewrite (IH fuel p start _ _ rest); [|done| |simpl in Hfuel; lia|lia|lia].
  - rewrite <- app_assoc. do 3 f_equal. unfold encode_name. rewrite fmap_cons. cbn [concat].
    rewrite !length_app, El. lia.
  - rewrite <- drop_drop, Hd1. by rewrite drop_app_length.
Qed.

(** Whatever is read was encoded. *)
Lemma read_labels_decode fuel p start off acc out off' :
  (start <= off)%nat -> (off - start <= 255)%nat ->
  read_labels fuel p start off acc = Some (Ok (out, off')) ->
  exists ls, out = acc ++ ls /\ Forall wire_label ls /\ off' = (off + length (encode_name ls))%nat
    /\ drop off p = encode_name ls ++ drop off' p
    /\ (off - start + length (concat (encode_label <$> ls)) <= 255)%nat.
Proof.
  revert off acc. induction fuel as [|fuel IH]; intros off acc Hs Hb; [done|]. cbn [read_labels].
  destruct (p !! off) as [b|] eqn:E; [|done]. pose proof (u8_range b) as Hu.
  destruct (Z.eqb_spec (u8 b) 0) as [E0|E0].
  { intros [= <- <-]. exists []. rewrite app_nil_r. split_and!; [done|constructor|done| |simpl; lia].
    rewrite (drop_S p b off E). simpl. f_equal; [apply u8_inj; by rewrite E0|]. f_equal. lia. }
  destruct (negb _); [done|]. destruct (Z.ltb_spec 63 (u8 b)); [done|]. cbv zeta.
  destruct (Nat.ltb_spec (length p) (off + 1 + Z.to_nat (u8 b))); [done|].
  destruct (Nat.ltb_spec 255 (off + 1 + Z.to_nat (u8 b) - start)); [done|].
  set (l := take (Z.to_nat (u8 b)) (drop (off + 1) p)).
  assert (length l = Z.to_nat (u8 b)) as Hl by (unfold l; rewrite length_take, length_drop; lia).
  intros Hr. apply IH in Hr as (ls & -> & Hf & -> & Hd & Hb'); [|lia|lia].
  exists (l :: ls). rewrite <- app_assoc. unfold encode_name. rewrite fmap_cons. cbn [concat].
  assert (length (encode_label l) = S (length l)) as El by done.
  split_and!; [done| | | |].
  - constructor; [|done]. unfold wire_label. lia.
  - rewrite !length_app, El, Hl. unfold encode_name in *. rewrite length_app in *. lia.
  - rewrite (drop_S p b off E). unfold encode_label at 1. cbn [app].
    assert (of_u8 (Z.of_nat (length l)) = b) as -> by (rewrite Hl, Z2Nat.id by lia; apply of_u8_u8).
    f_equal. rewrite <- !app_assoc. rewrite <- (take_drop (Z.to_nat (u8 b)) (drop (S off) p)).
    replace (S off) with (off + 1)%nat by lia. fold l. f_equal. rewrite drop_drop, Hd.
    unfold encode_name. rewrite <- app_assoc. repeat f_equal. all: rewrite ?length_app, ?El, ?Hl; lia.
  - rewrite length_app, El, Hl. lia.
Qed.

(** A query for [labels]. *)
Definition encode_query (id flags : Z) (labels : list bytes) (qtype class : Z) : bytes :=
  be_encode 2 id ++ be_encode 2 flags ++ be_encode 2 1 ++ be_encode 2 0 ++ be_encode 2 0 ++ be_encode 2 0
  ++ encode_name labels ++ be_encode 2 qtype ++ be_encode 2 class.

Definition u16 (z : Z) : Prop := 0 <= z < 2 ^ 16.

Lemma be_roundtrip z : u16 z -> be_decode (be_encode 2 z) = z.
Proof. intros Hz. rewrite be_decode_encode. apply Z.mod_small. unfold u16 in Hz. simpl. lia. Qed.

Lemma get16_app pre z rest : u16 z -> get16 (pre ++ be_encode 2 z ++ rest) (length pre) = z.
Proof.
  intros Hz. unfold get16. rewrite drop_app_length.
  rewrite <- (be_encode_length 2 z) at 1. rewrite take_app_length. by apply be_roundtrip.
Qed.

Lemma get16_at p off pre z rest :
  p = pre ++ be_encode 2 z ++ rest -> off = length pre -> u16 z -> get16 p off = z.
Proof. intros -> ->. apply get16_app. Qed.

(** Parsing a header followed by an encoded question. *)
Lemma parse_encoded id flags qd an ns ar labels qtype class rest :
  u16 id -> u16 flags -> u16 qd -> 1 <= qd -> u16 qtype -> u16 class -> Forall wire_label labels ->
  (length (concat (encode_label <$> labels)) <= 255)%nat ->
  parseQuery (be_encode 2 id ++ be_encode 2 flags ++ be_encode 2 qd ++ be_encode 2 an ++ be_encode 2 ns
              ++ be_encode 2 ar ++ encode_name labels ++ be_encode 2 qtype ++ be_encode 2 class ++ rest)
  = Some (Ok (MkQuery id flags qd (Join labels (bs ".")) qtype class)).
Proof.
  intros H1 H2 H3 H3' H4 H5 Hf Hb. set (p := _ ++ _).
  set (hdr := be_encode 2 id ++ be_encode 2 flags ++ be_encode 2 qd ++ be_encode 2 an ++ be_encode 2 ns ++ be_encode 2 ar).
  assert (length hdr = 12%nat) as Hh by (unfold hdr; by rewrite !length_app, !be_encode_length).
  assert (p = hdr ++ encode_name labels ++ be_encode 2 qtype ++ be_encode 2 class ++ rest) as Ep
    by (unfold p, hdr; by rewrite <- !app_assoc).
  assert (length p = 12 + length (encode_name labels) + 4 + length rest)%nat as Hlen
    by (rewrite Ep, !length_app, Hh, !be_encode_length; lia).
  unfold parseQuery. rewrite (proj2 (Nat.ltb_ge _ 12)) by lia. cbv zeta.
  assert (get16 p 0 = id) as -> by by apply (get16_at p 0 [] id _ eq_refl).
  assert (get16 p 2 = flags) as ->
    by (apply (get16_at p 2 (be_encode 2 id) flags _ eq_refl); [by rewrite be_encode_length|done]).
  assert (get16 p 4 = qd) as ->.
  { apply (get16_at p 4 (be_encode 2 id ++ be_encode 2 flags) qd (be_encode 2 an ++ be_encode 2 ns ++ be_encode 2 ar ++ encode_name labels ++ be_encode 2 qtype ++ be_encode 2 class ++ rest));
      [by rewrite <- app_assoc|by rewrite length_app, !be_encode_length|done]. }
  rewrite (proj2 (Z.ltb_ge _ 1)) by lia. unfold readName.
  assert (drop 12 p = encode_name labels ++ be_encode 2 qtype ++ be_encode 2 class ++ rest) as Hd
    by (rewrite Ep, <- Hh; apply drop_app_length).
  rewrite (read_labels_encode labels _ p 12 12 [] _ Hf Hd); [|rewrite Hlen|lia|lia].
  2:{ unfold encode_name. rewrite length_app.
      assert (length labels <= length (concat (encode_label <$> labels)))%nat; [|lia].
      clear. induction labels as [|l ls IH]; [done|]. rewrite fmap_cons. cbn [concat]. rewrite length_app. simpl in *. lia. }
  cbn [app]. replace (12 + length (encode_name labels) - 12)%nat with (length (encode_name labels)) by lia.
  rewrite (proj2 (Nat.ltb_ge _ _)) by lia. do 3 f_equal.
  - apply (get16_at p _ (hdr ++ encode_name labels) qtype (be_encode 2 class ++ rest));
      [by rewrite Ep, <- !app_assoc|by rewrite length_app, Hh|done].
  - apply (get16_at p _ (hdr ++ encode_name labels ++ be_encode 2 qtype) class rest);
      [by rewrite Ep, <- !app_assoc|by rewrite !length_app, Hh, be_encode_length|done].
Qed.

(** (apps/dns/dns.go, [parseQuery], [readName]): a query for a name of labels of 1 to
    63 bytes, at most 255 encoded, is parsed to exactly the fields it was made of,
    whatever follows the question. *)
Theorem dns_query_roundtrip (id flags : Z) (labels : list bytes) (qtype class : Z) (rest : bytes) :
  u16 id -> u16 flags -> u16 qtype -> u16 class -> Forall wire_label labels ->
  (length (concat (encode_label <$> labels)) <= 255)%nat ->
  parseQuery (encode_query id flags labels qtype class ++ rest)
  = Some (Ok (MkQuery id flags 1 (Join labels (bs ".")) qtype class)).
Proof.
  intros H1 H2 H3 H4 Hf Hb. unfold encode_query. rewrite <- !app_assoc.
  apply parse_encoded; try done; unfold u16; lia.
Qed.

(** ** Captured replies *)

Lemma be16_pair v : exists x y, be_encode 2 v = [x; y].
Proof.
  pose proof (be_encode_length 2 v) as Hl. destruct (be_encode 2 v) as [|x [|y [|]]]; try done. eauto.
Qed.

(** Overwriting the six header fields. *)
Lemma put_header out a b c d e f :
  (12 <= length out)%nat ->
  put16 (put16 (put16 (put16 (put16 (put16 out 0 a) 2 b) 4 c) 6 d) 8 e) 10 f
  = be_encode 2 a ++ be_encode 2 b ++ be_encode 2 c ++ be_encode 2 d ++ be_encode 2 e ++ be_encode 2 f ++ drop 12 out.
Proof.
  intros Hl.
  destruct (be16_pair a) as (a1 & a2 & Ea), (be16_pair b) as (b1 & b2 & Eb), (be16_pair c) as (c1 & c2 & Ec),
    (be16_pair d) as (d1 & d2 & Ed), (be16_pair e) as (e1 & e2 & Ee), (be16_pair f) as (f1 & f2 & Ef).
  unfold put16. rewrite Ea, Eb, Ec, Ed, Ee, Ef.
  do 12 (destruct out as [|? out]; [simpl in Hl; lia|]). reflexivity.
Qed.

Lemma reply_flags_u16 flags : u16 (reply_flags flags) /\ Z.testbit (reply_flags flags) 15 = true.
Proof. unfold reply_flags. destruct (negb _); split; unfold u16; vm_compute; done. Qed.

(** The question section a parsed query has. *)
Lemma parseQuery_question req q :
  parseQuery req = Some (Ok q) ->
  exists labels, q_name q = Join labels (bs ".") /\ Forall wire_label labels
    /\ (length (concat (encode_label <$> labels)) <= 255)%nat
    /\ u16 (q_id q) /\ u16 (q_flags q) /\ u16 (q_qtype q) /\ u16 (q_class q)
    /\ readName req 12 = Some (Ok (q_name q, length (encode_name labels)))
    /\ (12 + length (encode_name labels) + 4 <= length req)%nat
    /\ take (length (encode_name labels) + 4) (drop 12 req)
       = encode_name labels ++ be_encode 2 (q_qtype q) ++ be_encode 2 (q_class q).
Proof.
  unfold parseQuery. destruct (Nat.ltb_spec (length req) 12) as [|H12]; [done|]. cbv zeta.
  destruct (_ <? 1); [done|]. unfold readName.
  destruct (read_labels (S (length req)) req 12 12 []) as [[[ls off']|]|] eqn:Er; [|done|done].
  apply read_labels_decode in Er as (labels & E0 & Hf & -> & Hd & Hb); [|lia|lia]. simpl in E0. subst ls.
  replace (12 + length (encode_name labels) - 12)%nat with (length (encode_name labels)) by lia.
  set (n := length (encode_name labels)) in *.
  destruct (Nat.ltb_spec (length req) (12 + n + 4)) as [|Hlen]; [done|].
  match goal with |- Some (Ok ?x) = _ -> _ => intros E; assert (x = q) as <- by congruence; clear E end.
  cbn [q_name q_id q_flags q_qtype q_class].
  assert (forall off, (off + 2 <= length req)%nat ->
    u16 (get16 req off) /\ be_encode 2 (get16 req off) = take 2 (drop off req)) as Hg.
  { intros off Ho. unfold get16. assert (length (take 2 (drop off req)) = 2%nat) as El
      by (rewrite length_take, length_drop; lia). split.
    - pose proof (be_decode_range (take 2 (drop off req))) as Hr. rewrite El in Hr. exact Hr.
    - pose proof (be_encode_decode (take 2 (drop off req))) as Hr. rewrite El in Hr. exact Hr. }
  exists labels. split_and!; try done; try (apply Hg; lia).
  rewrite Hd. rewrite take_app_add' by done. f_equal.
  rewrite (proj2 (Hg (12 + n)%nat ltac:(lia))), (proj2 (Hg (12 + n + 2)%nat ltac:(lia))).
  change 4%nat with (2 + 2)%nat at 1. rewrite <- (take_take_drop (drop (12 + n) req) 2 2), drop_drop.
  reflexivity.
Qed.

(** ** What a right reply is *)

(** Name (a pointer to the question), type A, class IN, 60 seconds, four bytes. *)
Definition a_record : bytes := map of_u8 [0xc0; 12; 0; 1; 0; 1; 0; 0; 0; 60; 0; 4].

(** A reply to a query for a captured name: it is a response, repeats the query's id
    and question, and has one answer with the capture address for an A query and no
    answer for any other. *)
Definition captured_reply (ip : bytes) (q : parsedQuery) (reply : bytes) : Prop :=
  (exists flags, parseQuery reply = Some (Ok (MkQuery (q_id q) flags 1 (q_name q) (q_qtype q) (q_class q)))
     /\ Z.testbit flags 15 = true)
  /\ get16 reply 6 = (if q_qtype q =? 1 then 1 else 0)
  /\ (q_qtype q = 1 -> exists pre, reply = pre ++ a_record ++ take 4 ip).

(** A reply to a datagram: the right one for a captured name, and what the upstream
    resolver answered otherwise. *)
Definition proper_reply `{GoUnicode} (r : Resolver) (forward : bytes -> option bytes) (req reply : bytes) : Prop :=
  exists q, parseQuery req = Some (Ok q)
    /\ if matchesCapture r (q_name q) then captured_reply (captureIP r) q reply else forward req = Some reply.

Lemma header_answers a b c d rest :
  u16 d -> get16 (be_encode 2 a ++ be_encode 2 b ++ be_encode 2 c ++ be_encode 2 d ++ rest) 6 = d.
Proof.
  intros Hd. apply (get16_at _ _ (be_encode 2 a ++ be_encode 2 b ++ be_encode 2 c) d rest);
    [by rewrite <- !app_assoc|by rewrite !length_app, !be_encode_length|done].
Qed.

Lemma buildCapturedReply_proper ip req q reply :
  parseQuery req = Some (Ok q) -> buildCapturedReply ip req q = Some (Ret (Ok reply)) ->
  captured_reply ip q reply.
Proof.
  intros Hp. destruct (parseQuery_question req q Hp) as (labels & En & Hf & Hb & U1 & U2 & U3 & U4 & Hr & Hlen & Hq).
  unfold buildCapturedReply. rewrite Hr. cbv zeta. rewrite (proj2 (Nat.ltb_ge _ _)) by lia.
  set (n := length (encode_name labels)) in *.
  rewrite !put_header by (rewrite length_take; lia). rewrite skipn_firstn_comm.
  replace (12 + n + 4 - 12)%nat with (n + 4)%nat by lia. rewrite Hq. destruct (reply_flags_u16 (q_flags q)) as [Hu Hbit].
  assert (forall an tail, u16 an -> exists flags,
    parseQuery ((be_encode 2 (q_id q) ++ be_encode 2 (reply_flags (q_flags q)) ++ be_encode 2 1 ++ be_encode 2 an
      ++ be_encode 2 0 ++ be_encode 2 0 ++ encode_name labels ++ be_encode 2 (q_qtype q) ++ be_encode 2 (q_class q)) ++ tail)
    = Some (Ok (MkQuery (q_id q) flags 1 (q_name q) (q_qtype q) (q_class q))) /\ Z.testbit flags 15 = true) as Hparse.
  { intros an tail Han. exists (reply_flags (q_flags q)). split; [|done]. rewrite <- !app_assoc, En.
    apply parse_encoded; try done; unfold u16; lia. }
  unfold captured_reply. destruct (Z.eqb_spec (q_qtype q) 1) as [Ht|Ht].
  - destruct (answer ip) as [ans|] eqn:Ea; [|done].
    match goal with |- Some (Ret (Ok ?x)) = _ -> _ => intros E; assert (reply = x) as -> by congruence; clear E end.
    split_and!.
    + apply Hparse. unfold u16. lia.
    + rewrite <- !app_assoc. apply header_answers. unfold u16. lia.
    + intros _. eexists. f_equal. unfold answer in Ea.
      destruct ip as [|w [|x [|y [|z ip]]]]; cbn in Ea; try discriminate Ea. by injection Ea as <-.
  - intros E. assert (forall x : bytes, (if q_qtype q =? 28 then Some (Ret (Ok x)) else Some (Ret (Ok x)))
      = Some (Ret (Ok x) : outcome (result dns_error bytes))) as Hsame by (intros x; by destruct (_ =? 28)).
    rewrite Hsame in E.
    match type of E with Some (Ret (Ok ?x)) = _ => assert (reply = x) as -> by congruence; clear E end.
    split_and!; [|apply header_answers; unfold u16; lia|done].
    match goal with |- exists flags, parseQuery ?l = _ /\ _ => rewrite <- (app_nil_r l) end. apply Hparse. unfold u16. lia.
Qed.

Section Replies.
Context `{GoUnicode}.

(** Handling a datagram changes nothing but the limiter. *)
Definition same_config (r r' : Resolver) : Prop :=
  captureTLDs r' = captureTLDs r /\ captureIP r' = captureIP r /\ upstream r' = upstream r.

Definition lets_through (r : Resolver) (src : bytes) (now : Time) : bool :=
  match limiter r with None => true | Some l => (udp_allow l src now).2 end.

Lemma handle_unfold r forward req src now :
  exists r1, same_config r r1
    /\ handle r forward req src now
       = if negb (lets_through r src now) then Some (Ret None, r1) else
         match parseQuery req with
         | None => None
         | Some (Err _) => Some (Ret None, r1)
         | Some (Ok q) =>
             if matchesCapture r (q_name q) then
               match buildCapturedReply (captureIP r) req q with
               | None => None
               | Some Panic => Some (Panic, r1)
               | Some (Ret (Ok reply)) => Some (Ret (Some reply), r1)
               | Some (Ret (Err _)) => Some (Ret (forward req), r1)
               end
             else Some (Ret (forward req), r1)
         end.
Proof.
  unfold handle, lets_through. destruct (limiter r) as [l|]; [|by exists r].
  destruct (udp_allow l src now) as [l' ok]. by exists (with_limiter r l').
Qed.

Lemma handle_config r forward req src now out r' :
  handle r forward req src now = Some (out, r') -> same_config r r'.
Proof.
  destruct (handle_unfold r forward req src now) as (r1 & Hc & ->).
  repeat case_match; intros; by simplify_eq.
Qed.

(** Every reply is a right one. *)
Lemma handle_proper r forward req src now reply r' :
  handle r forward req src now = Some (Ret (Some reply), r') -> proper_reply r forward req reply.
Proof.
  destruct (handle_unfold r forward req src now) as (r1 & Hc & ->).
  destruct (negb _); [done|]. destruct (parseQuery req) as [[q|]|] eqn:Hp; try done.
  intros Hh. exists q. split; [done|]. destruct (matchesCapture r (q_name q)); [|congruence].
  destruct (buildCapturedReply (captureIP r) req q) as [[[b|e]|]|] eqn:Eb; try done.
  - assert (b = reply) as <- by congruence. by eapply buildCapturedReply_proper.
  - exfalso. destruct (parseQuery_question req q Hp) as (labels & _ & _ & _ & _ & _ & _ & _ & Hr & _).
    unfold buildCapturedReply in Eb. rewrite Hr in Eb. cbv zeta in Eb. repeat (case_match; try discriminate Eb).
Qed.

(** What the limiter lets through is answered, when it is captured or the upstream
    resolver answers. *)
Lemma handle_answers r forward req src now q :
  lets_through r src now = true -> parseQuery req = Some (Ok q) -> length (captureIP r) = 4%nat ->
  (matchesCapture r (q_name q) = true \/ is_Some (forward req)) ->
  exists reply r', handle r forward req src now = Some (Ret (Some reply), r').
Proof.
  intros Hl Hp Hip Hm. destruct (handle_unfold r forward req src now) as (r1 & Hc & ->).
  rewrite Hl, Hp. cbn [negb]. destruct (matchesCapture r (q_name q)).
  - destruct (parseQuery_question req q Hp) as (labels & _ & _ & _ & _ & _ & _ & _ & Hr & Hlen & _).
    unfold buildCapturedReply. rewrite Hr. cbv zeta. rewrite (proj2 (Nat.ltb_ge _ _)) by lia.
    destruct (captureIP r) as [|a [|b [|c [|d [|]]]]]; try discriminate Hip. unfold answer. cbn [lookup list_lookup].
    destruct (q_qtype q =? 1); [by eexists _, _|]. destruct (q_qtype q =? 28); by eexists _, _.
  - destruct Hm as [Hm|[b Hb]]; [done|]. rewrite Hb. by eexists _, _.
Qed.

End Replies.

(** (apps/dns/dns.go, [handle], [buildCapturedReply]): an A query for a captured name
    that the limiter lets through is answered, and not forwarded: the reply is a
    response with the query's id and question, one answer, and the capture
    address in it, and itself parses back to the same question. *)
Theorem captured_a_answer `{GoUnicode} (r : Resolver) (forward : bytes -> option bytes)
    (req src : bytes) (now : Time) (q : parsedQuery) (a b c d : byte) :
  limiter r = None -> captureIP r = [a; b; c; d] ->
  parseQuery req = Some (Ok q) -> q_qtype q = 1 -> matchesCapture r (q_name q) = true ->
  exists n question,
    readName req 12 = Some (Ok (q_name q, n)) /\ question = take (n + 4) (drop 12 req)
    /\ let reply := be_encode 2 (q_id q) ++ be_encode 2 (reply_flags (q_flags q)) ++ be_encode 2 1
                    ++ be_encode 2 1 ++ be_encode 2 0 ++ be_encode 2 0 ++ question
                    ++ [Byte.xc0; Byte.x0c; Byte.x00; Byte.x01; Byte.x00; Byte.x01;
                        Byte.x00; Byte.x00; Byte.x00; Byte.x3c; Byte.x00; Byte.x04; a; b; c; d] in
       handle r forward req src now = Some (Ret (Some reply), r)
       /\ parseQuery reply
          = Some (Ok (MkQuery (q_id q) (reply_flags (q_flags q)) 1 (q_name q) 1 (q_class q)))
       /\ Z.testbit (reply_flags (q_flags q)) 15 = true.
Proof.
  intros Hl Hip Hp Ht Hm.
  destruct (parseQuery_question req q Hp) as (labels & En & Hf & Hb & U1 & U2 & U3 & U4 & Hr & Hlen & Hq).
  set (n := length (encode_name labels)) in *. exists n, (take (n + 4) (drop 12 req)).
  split; [done|]. split; [done|]. cbv zeta. split_and!; [| |apply reply_flags_u16].
  - unfold handle. rewrite Hl. cbn [negb]. rewrite Hp, Hm. unfold buildCapturedReply. rewrite Hr, Hip.
    cbv zeta. rewrite (proj2 (Nat.ltb_ge _ _)) by lia. rewrite Ht. cbn [Z.eqb Pos.eqb].
    unfold answer. cbn [lookup list_lookup]. do 4 f_equal. rewrite put_header.
    2:{ rewrite length_take. lia. }
    rewrite skipn_firstn_comm. replace (12 + n + 4 - 12)%nat with (n + 4)%nat by lia.
    by rewrite <- !app_assoc.
  - rewrite Hq, Ht, En. rewrite <- !app_assoc. rewrite Ht in U3.
    apply parse_encoded; try done; try (unfold u16; lia). apply reply_flags_u16.
Qed.

(** ** Concrete runs *)

Definition alt_resolver : Resolver :=
  NewWithRate [bs ".ALT"] [Byte.x7f; Byte.x00; Byte.x00; Byte.x01] [] 0 0 0.

Definition alt_query : bytes := encode_query 4660 256 [bs "Panmox"; bs "alt"] 1 1.

Lemma dns_query_roundtrip_witness :
  parseQuery (alt_query ++ []) = Some (Ok (MkQuery 4660 256 1 (bs "Panmox.alt") 1 1)).
Proof.
  apply (dns_query_roundtrip 4660 256 [bs "Panmox"; bs "alt"] 1 1 []); try (unfold u16; lia).
  - repeat constructor.
  - by vm_compute; repeat constructor.
Defined.

Lemma captured_a_answer_witness :
  exists reply, handle alt_resolver (fun _ => None) alt_query (bs "10.0.0.7") 0
                = Some (Ret (Some reply), alt_resolver)
    /\ exists q, parseQuery reply = Some (Ok q) /\ q_name q = bs "Panmox.alt".
Proof.
  assert (parseQuery alt_query = Some (Ok (MkQuery 4660 256 1 (bs "Panmox.alt") 1 1))) as Hq by by vm_compute.
  destruct (captured_a_answer alt_resolver (fun _ => None) alt_query (bs "10.0.0.7") 0
    (MkQuery 4660 256 1 (bs "Panmox.alt") 1 1) Byte.x7f Byte.x00 Byte.x00 Byte.x01
    eq_refl eq_refl Hq eq_refl ltac:(by vm_compute)) as (n & question & _ & _ & Hh & Hp & _).
  eexists. split; [exact Hh|]. eexists. split; [exact Hp|exact eq_refl].
Defined.
