(* ===== verification/DnsServer.v ===== *)
(** * The resolver at work (apps/dns/dns.go, [Start], [serve], [forward], [Stop])

    One goroutine reads datagrams and starts another for each; [Stop] may be called at
    any time.  What a datagram is answered with is [handle] of Dns.v. *)

From S2P Require Import Prelude GoStrings Encoding Json Peer RateLimit Dns.

(** Both buffers have the size of an Ethernet frame; a longer datagram is cut. *)
Definition buffer_size : nat := 1500.

(** [forward]: [dialed] and [written] are whether the dial and the write succeed,
    [answer] the datagram that comes back before the deadline. *)
Definition forward (dialed written : bool) (answer : option bytes) : option bytes :=
  if dialed && written then take buffer_size <$> answer else None.

(** A socket: its address and whether it is closed. *)
Record running := MkRunning {
  rn_resolver : Resolver;
  rn_conn : option (bytes * bool);
  rn_stopped : bool;
  rn_serving : bool;
  rn_pending : list (bytes * bytes);        (* datagrams being handled, with their source *)
  rn_read : list (bytes * bytes);           (* every datagram read so far *)
  rn_sent : list (bytes * bytes);           (* replies sent, with their destination *)
  rn_panicked : bool
}.

Definition fresh_resolver (r : Resolver) : running := MkRunning r None false false [] [] [] false.

(** [Start]: [bound] is the address bound, [None] an error; it is called once. *)
Definition Start (bound : option bytes) (s : running) : option running :=
  match rn_conn s, bound with
  | None, Some a =>
      Some (MkRunning (rn_resolver s) (Some (a, false)) (rn_stopped s) true (rn_pending s) (rn_read s) (rn_sent s)
              (rn_panicked s))
  | _, _ => None
  end.

Definition LocalAddr (s : running) : option bytes := fst <$> rn_conn s.

(** [Stop]: the flag first, then the socket. *)
Definition stop_flag (s : running) : running :=
  MkRunning (rn_resolver s) (rn_conn s) true (rn_serving s) (rn_pending s) (rn_read s) (rn_sent s) (rn_panicked s).

Definition stop_close (s : running) : option running :=
  if rn_stopped s then
    Some (MkRunning (rn_resolver s) ((fun c => (c.1, true)) <$> rn_conn s) true (rn_serving s) (rn_pending s)
            (rn_read s) (rn_sent s) (rn_panicked s))
  else None.

(** [serve]: a datagram, or an error of the read; the latter ends the loop when the
    resolver is stopped. *)
Definition serve_read (req src : bytes) (s : running) : option running :=
  match rn_serving s, rn_conn s with
  | true, Some (_, false) =>
      let req := take buffer_size req in
      Some (MkRunning (rn_resolver s) (rn_conn s) (rn_stopped s) true (rn_pending s ++ [(req, src)])
              (rn_read s ++ [(req, src)]) (rn_sent s) (rn_panicked s))
  | _, _ => None
  end.

Definition serve_error (s : running) : option running :=
  if rn_serving s then
    Some (MkRunning (rn_resolver s) (rn_conn s) (rn_stopped s) (negb (rn_stopped s)) (rn_pending s) (rn_read s)
            (rn_sent s) (rn_panicked s))
  else None.

Section Serving.
Context `{GoUnicode}.

(** The goroutine of the [i]th pending datagram runs; [wrote] is whether the reply could
    be written, which fails on a closed socket. *)
Definition handle_one (i : nat) (up : bytes -> option bytes) (now : Time) (wrote : bool) (s : running) : option running :=
  match rn_pending s !! i with
  | Some (req, src) =>
      let rest := take i (rn_pending s) ++ drop (S i) (rn_pending s) in
      match handle (rn_resolver s) up req src now with
      | None => None
      | Some (Panic, r) => Some (MkRunning r (rn_conn s) (rn_stopped s) (rn_serving s) rest (rn_read s) (rn_sent s) true)
      | Some (Ret reply, r) =>
          let out := match reply, rn_conn s with
                     | Some b, Some (_, false) => if wrote then [(b, src)] else []
                     | _, _ => []
                     end in
          Some (MkRunning r (rn_conn s) (rn_stopped s) (rn_serving s) rest (rn_read s) (rn_sent s ++ out) (rn_panicked s))
      end
  | None => None
  end.

Inductive event :=
| Read (req src : bytes) | ReadError
| Handled (i : nat) (up : bytes -> option bytes) (now : Time) (wrote : bool)
| StopFlag | StopClose.

Definition exec (s : running) (e : event) : option running :=
  if rn_panicked s then None else
  match e with
  | Read req src => serve_read req src s
  | ReadError => serve_error s
  | Handled i up now wrote => handle_one i up now wrote s
  | StopFlag => Some (stop_flag s)
  | StopClose => stop_close s
  end.

Fixpoint run (s : running) (es : list event) : option running :=
  match es with
  | [] => Some s
  | e :: es => match exec s e with Some s => run s es | None => None end
  end.

(** * Facts *)

Record inv (s : running) : Prop := {
  inv_count : (rn_sent s).*2 ++ (rn_pending s).*2 ⊆+ (rn_read s).*2;
  inv_pending : Forall (fun d => d ∈ rn_read s) (rn_pending s);
  inv_size : Forall (fun d => (length d.1 <= buffer_size)%nat) (rn_read s);
  inv_stopped a : rn_conn s = Some (a, true) -> rn_stopped s = true
}.

Lemma exec_keeps s e s' : exec s e = Some s' -> inv s -> inv s'.
Proof.
  intros Hx [H1 H2 H4 H5]. unfold exec in Hx. destruct (rn_panicked s); [done|]. destruct e as [req src| |i up now wrote| |].
  - unfold serve_read in Hx. destruct (rn_serving s); [|done]. destruct (rn_conn s) as [[a []]|] eqn:Ec; try done.
    injection Hx as <-.
    split; cbn [rn_sent rn_pending rn_read rn_conn rn_stopped]; try done.
    + rewrite !fmap_app, app_assoc. by apply submseteq_skips_r.
    + apply Forall_app. split; [eapply Forall_impl; [exact H2|]; set_solver|]. constructor; [set_solver|constructor].
    + apply Forall_app. split; [done|]. constructor; [|constructor]. apply firstn_le_length.
  - unfold serve_error in Hx. destruct (rn_serving s); [|done]. injection Hx as <-. by split.
  - unfold handle_one in Hx. destruct (rn_pending s !! i) as [[req src]|] eqn:Ei; [|done].
    pose proof (take_drop_middle _ _ _ Ei) as Hmid.
    assert (Forall (fun d => d ∈ rn_read s) (take i (rn_pending s) ++ drop (S i) (rn_pending s))) as Hrest.
    { rewrite <- Hmid in H2. apply Forall_app in H2 as [Ha [_ Hb]%Forall_cons]. by apply Forall_app. }
    assert (rn_pending s ≡ₚ (req, src) :: (take i (rn_pending s) ++ drop (S i) (rn_pending s))) as Hperm.
    { rewrite <- Hmid at 1. by rewrite Permutation_middle. }
    cbv zeta in Hx. set (rest := take i (rn_pending s) ++ drop (S i) (rn_pending s)) in *. clearbody rest.
    rewrite Hperm in H1. cbn [fmap list_fmap snd] in H1. rewrite <- Permutation_middle in H1.
    destruct (handle (rn_resolver s) up req src now) as [[[reply|] r]|] eqn:Eh; try done; injection Hx as <-.
    + set (out := match reply with Some b => _ | None => _ end).
      assert (out = [] \/ exists b, out = [(b, src)]) as Hout.
      { unfold out. destruct reply; [|by left]. destruct (rn_conn s) as [[? []]|]; [by left| |by left].
        destruct wrote; [right; by eexists|by left]. }
      split; cbn [rn_sent rn_pending rn_read rn_conn rn_stopped]; try done.
      destruct Hout as [->|(b & ->)]; rewrite ?app_nil_r.
      * etrans; [|exact H1]. by apply submseteq_cons.
      * rewrite fmap_app, <- app_assoc. cbn [fmap list_fmap snd app]. by rewrite <- Permutation_middle.
    + split; cbn [rn_sent rn_pending rn_read rn_conn rn_stopped]; try done.
      etrans; [|exact H1]. by apply submseteq_cons.
  - injection Hx as <-. by split.
  - unfold stop_close in Hx. destruct (rn_stopped s) eqn:Es; [|done]. injection Hx as <-. by split.
Qed.

Lemma run_keeps s es s' : run s es = Some s' -> inv s -> inv s'.
Proof.
  revert s. induction es as [|e es IH]; intros s; cbn [run]; [by intros [= <-]|].
  destruct (exec s e) as [s1|] eqn:E; [|done]. intros Hr Hi. apply (IH s1 Hr). by eapply exec_keeps.
Qed.

Lemma Start_inv r bound s : Start bound (fresh_resolver r) = Some s -> inv s.
Proof.
  unfold Start. destruct bound; [|done]. intros [= <-]. split; cbn; try done; constructor.
Qed.

(** The resolver of a run stays as it was configured. *)
Lemma run_config s es s' : run s es = Some s' -> same_config (rn_resolver s) (rn_resolver s').
Proof.
  revert s. induction es as [|e es IH]; intros s; cbn [run]; [by intros [= <-]|].
  destruct (exec s e) as [s1|] eqn:E; [|done]. intros Hr.
  assert (same_config (rn_resolver s) (rn_resolver s1)) as (E1 & E2 & E3).
  { unfold exec in E. destruct (rn_panicked s); [done|]. destruct e; cbn in E.
    - unfold serve_read in E. repeat case_match; try done. by injection E as <-.
    - unfold serve_error in E. destruct (rn_serving s); [|done]. by injection E as <-.
    - unfold handle_one in E. destruct (rn_pending s !! i) as [[req src]|]; [|done].
      destruct (handle _ _ _ _ _) as [[o r]|] eqn:Eh; [|done]. apply handle_config in Eh.
      destruct o; by injection E as <-.
    - by injection E as <-.
    - unfold stop_close in E. destruct (rn_stopped s); [|done]. by injection E as <-. }
  destruct (IH s1 Hr) as (F1 & F2 & F3). repeat split; congruence.
Qed.

(** The event that sent a reply. *)
Lemma exec_sent s e s' reply dst :
  exec s e = Some s' -> (reply, dst) ∈ rn_sent s' -> (reply, dst) ∉ rn_sent s ->
  exists i up now req r', e = Handled i up now true /\ rn_pending s !! i = Some (req, dst)
    /\ handle (rn_resolver s) up req dst now = Some (Ret (Some reply), r').
Proof.
  intros Hx Hin Hno. unfold exec in Hx. destruct (rn_panicked s); [done|]. destruct e as [req src| |i up now wrote| |].
  - unfold serve_read in Hx. repeat case_match; try done. by injection Hx as <-.
  - unfold serve_error in Hx. destruct (rn_serving s); [|done]. by injection Hx as <-.
  - unfold handle_one in Hx. destruct (rn_pending s !! i) as [[req src]|] eqn:Ei; [|done]. cbv zeta in Hx.
    destruct (handle (rn_resolver s) up req src now) as [[[o|] r]|] eqn:Eh; try done; injection Hx as <-; [|done].
    cbn [rn_sent] in Hin. apply elem_of_app in Hin as [?|Hin]; [done|].
    destruct o as [b|]; [|by apply not_elem_of_nil in Hin]. destruct (rn_conn s) as [[? []]|]; try by apply not_elem_of_nil in Hin.
    destruct wrote; [|by apply not_elem_of_nil in Hin]. apply list_elem_of_singleton in Hin as [= <- <-].
    by eexists i, up, now, req, r.
  - by injection Hx as <-.
  - unfold stop_close in Hx. destruct (rn_stopped s); [|done]. by injection Hx as <-.
Qed.

Lemma run_sent s es s' reply dst :
  run s es = Some s' -> (reply, dst) ∈ rn_sent s' -> (reply, dst) ∉ rn_sent s ->
  exists es1 i up now es2 s1 req r', es = es1 ++ Handled i up now true :: es2 /\ run s es1 = Some s1
    /\ rn_pending s1 !! i = Some (req, dst)
    /\ handle (rn_resolver s1) up req dst now = Some (Ret (Some reply), r').
Proof.
  revert s. induction es as [|e es IH]; intros s; cbn [run]; [by intros [= <-]|].
  destruct (exec s e) as [s1|] eqn:E; [|done]. intros Hr Hin Hno.
  destruct (decide ((reply, dst) ∈ rn_sent s1)) as [Hs1|Hs1].
  - destruct (exec_sent s e s1 reply dst E Hs1 Hno) as (i & up & now & req & r' & -> & Hp & Hh).
    by exists [], i, up, now, es, s, req, r'.
  - destruct (IH s1 Hr Hin Hs1) as (es1 & i & up & now & es2 & s2 & req & r' & -> & Hr1 & Hp & Hh).
    exists (e :: es1), i, up, now, es2, s2, req, r'. cbn [run app]. by rewrite E.
Qed.

Lemma proper_reply_config r r1 up req reply :
  same_config r r1 -> proper_reply r1 up req reply -> proper_reply r up req reply.
Proof.
  intros (E1 & E2 & E3) (q & Hq & Hp). exists q. split; [done|]. unfold matchesCapture in *. by rewrite E1, E2 in Hp.
Qed.

(** Once the socket is closed nothing is read and nothing is sent. *)
Lemma closed_quiet s es s' a :
  rn_conn s = Some (a, true) -> run s es = Some s' ->
  rn_conn s' = Some (a, true) /\ rn_read s' = rn_read s /\ rn_sent s' = rn_sent s.
Proof.
  revert s. induction es as [|e es IH]; intros s Hc; cbn [run]; [by intros [= <-]|].
  destruct (exec s e) as [s1|] eqn:E; [|done]. intros Hr.
  assert (rn_conn s1 = Some (a, true) /\ rn_read s1 = rn_read s /\ rn_sent s1 = rn_sent s) as (H1 & H2 & H3).
  { unfold exec in E. destruct (rn_panicked s); [done|]. destruct e; cbn in E.
    - unfold serve_read in E. rewrite Hc in E. by destruct (rn_serving s).
    - unfold serve_error in E. destruct (rn_serving s); [|done]. by injection E as <-.
    - unfold handle_one in E. destruct (rn_pending s !! i) as [[req src]|]; [|done].
      destruct (handle _ _ _ _ _) as [[[reply|] r]|]; try done; injection E as <-; [|done].
      cbn. rewrite Hc. by destruct reply; rewrite app_nil_r.
    - by injection E as <-.
    - unfold stop_close in E. destruct (rn_stopped s); [|done]. injection E as <-. cbn. by rewrite Hc. }
  destruct (IH s1 H1 Hr) as (? & ? & ?). split_and!; congruence.
Qed.

(** C40 (dns.go, [Start], [serve], [handle], [forward], [Stop]): whatever the order of events,
    - no source gets more replies than it sent datagrams;
    - every reply was sent by the handling of a datagram of at most 1500 bytes that had been
      read from its destination, and is the right one: for a captured name of the resolver
      that was started it is a response that repeats the id and the question, with one
      answer, the capture address, for an A query and none for another; for any other name
      it is what the upstream resolver answered in that handling;
    - a query that the limiter lets through is answered while the socket is open, if its
      name is captured or the upstream resolver answers it, given an IPv4 capture address;
    - once [Stop] has closed the socket nothing more is read or sent, and the first failing
      read ends the serving goroutine, which therefore never spins on a closed socket. *)
Theorem resolver_answers_askers (r : Resolver) (bound : option bytes) (s0 s : running) (es : list event) :
  Start bound (fresh_resolver r) = Some s0 -> run s0 es = Some s ->
  (rn_sent s).*2 ++ (rn_pending s).*2 ⊆+ (rn_read s).*2
  /\ (forall reply dst, (reply, dst) ∈ rn_sent s ->
        exists es1 i up now es2 s1 req,
          es = es1 ++ Handled i up now true :: es2 /\ run s0 es1 = Some s1
          /\ rn_pending s1 !! i = Some (req, dst) /\ (req, dst) ∈ rn_read s1 /\ (length req <= buffer_size)%nat
          /\ proper_reply r up req reply)
  /\ (forall i up now req dst q a s', rn_pending s !! i = Some (req, dst) -> parseQuery req = Some (Ok q) ->
        lets_through (rn_resolver s) dst now = true -> length (captureIP r) = 4%nat ->
        matchesCapture r (q_name q) = true \/ is_Some (up req) ->
        rn_conn s = Some (a, false) -> exec s (Handled i up now true) = Some s' ->
        exists reply, rn_sent s' = rn_sent s ++ [(reply, dst)])
  /\ (forall a, rn_conn s = Some (a, true) ->
        (forall more s', run s more = Some s' -> rn_read s' = rn_read s /\ rn_sent s' = rn_sent s)
        /\ forall s', rn_serving s = true -> serve_error s = Some s' -> rn_serving s' = false).
Proof.
  intros Hs Hr. pose proof (Start_inv _ _ _ Hs) as Hi0.
  assert (rn_sent s0 = [] /\ rn_resolver s0 = r) as [Hnone Hr0].
  { unfold Start in Hs. destruct bound; [|done]. by injection Hs as <-. }
  pose proof (run_keeps _ _ _ Hr Hi0) as [H1 H2 H4 H5]. split_and!; [done| | |].
  - intros reply dst Hin.
    destruct (run_sent s0 es s reply dst Hr Hin) as (es1 & i & up & now & es2 & s1 & req & r' & -> & Hr1 & Hp & Hh);
      [rewrite Hnone; apply not_elem_of_nil|].
    pose proof (run_keeps _ _ _ Hr1 Hi0) as [_ Hpend Hsize _]. rewrite Forall_forall in Hpend, Hsize.
    assert ((req, dst) ∈ rn_read s1) as Hread by (apply Hpend; by eapply list_elem_of_lookup_2).
    exists es1, i, up, now, es2, s1, req. split_and!; try done; [by apply (Hsize _ Hread)|].
    apply (proper_reply_config r (rn_resolver s1)); [rewrite <- Hr0; by eapply run_config|].
    by eapply handle_proper.
  - intros i up now req dst q a s' Hp Hq Hl Hip Hm Hc Hx. pose proof (run_config _ _ _ Hr) as (E1 & E2 & _).
    rewrite Hr0 in E1, E2.
    destruct (handle_answers (rn_resolver s) up req dst now q Hl Hq) as (reply & r' & Hh);
      [by rewrite E2|unfold matchesCapture in *; by rewrite E1|].
    unfold exec in Hx. destruct (rn_panicked s); [done|]. unfold handle_one in Hx. rewrite Hp, Hh, Hc in Hx.
    injection Hx as <-. by exists reply.
  - intros a Ha. split.
    + intros more s' Hm. destruct (closed_quiet _ _ _ _ Ha Hm) as (_ & ? & ?). done.
    + intros s' Hsv. unfold serve_error. rewrite Hsv, (H5 a Ha). by intros [= <-].
Qed.

End Serving.

(** ** A concrete run *)

Module DnsRuns.

(** Two sources ask, for a captured name and for another one; both are answered, then the
    resolver is stopped. *)
Definition resolver : Resolver := Dns.New [bs "alt"] (map of_u8 [127; 0; 0; 1]) [] 0.
Definition other_query : bytes := encode_query 7 256 [bs "example"; bs "com"] 1 1.
Definition upstream_says (req : bytes) : option bytes := Some (bs "from upstream").

Definition busy : list event :=
  [Read alt_query (bs "10.0.0.9"); Read other_query (bs "10.0.0.8");
   Handled 1 upstream_says 0 true; Handled 0 upstream_says 0 true; StopFlag; StopClose; ReadError].

Definition listening : running := default (fresh_resolver resolver) (Start (Some (bs "127.0.0.1:53")) (fresh_resolver resolver)).

Lemma listening_started : Start (Some (bs "127.0.0.1:53")) (fresh_resolver resolver) = Some listening.
Proof. done. Qed.

Definition after_busy : running := default listening (run listening busy).

Lemma busy_ran : run listening busy = Some after_busy.
Proof.
  assert (match run listening busy with Some _ => true | None => false end = true) as Hr by by vm_compute.
  unfold after_busy. by destruct (run listening busy).
Qed.

Lemma busy_closed : rn_conn after_busy = Some (bs "127.0.0.1:53", true).
Proof. by vm_compute. Qed.

(** The reply to [alt_query]. *)
Definition alt_reply : bytes :=
  be_encode 2 4660 ++ be_encode 2 0x8580 ++ be_encode 2 1 ++ be_encode 2 1 ++ be_encode 2 0 ++ be_encode 2 0
  ++ drop 12 alt_query ++ a_record ++ map of_u8 [127; 0; 0; 1].

Lemma busy_replies :
  rn_sent after_busy = [(bs "from upstream", bs "10.0.0.8"); (alt_reply, bs "10.0.0.9")].
Proof. by vm_compute. Qed.

Lemma resolver_answers_askers_witness :
  (alt_reply, bs "10.0.0.9") ∈ rn_sent after_busy
  /\ (exists up req, proper_reply resolver up req alt_reply)
  /\ forall more s', run after_busy more = Some s' -> rn_sent s' = rn_sent after_busy.
Proof.
  destruct (resolver_answers_askers resolver (Some (bs "127.0.0.1:53")) listening after_busy busy listening_started busy_ran)
    as (_ & H2 & _ & H4).
  assert ((alt_reply, bs "10.0.0.9") ∈ rn_sent after_busy) as Hin
    by (rewrite busy_replies; apply list_elem_of_further, list_elem_of_here).
  split; [exact Hin|]. split.
  - destruct (H2 _ _ Hin) as (es1 & i & up & now & es2 & s1 & req & _ & _ & _ & _ & _ & Hp).
    exact (ex_intro _ up (ex_intro _ req Hp)).
  - intros more s' Hm. exact (proj2 (proj1 (H4 _ busy_closed) more s' Hm)).
Defined.

End DnsRuns.
